(** * NUFS: a FUSE filesystem in a 1 MB image -- shallow embedding and properties

    The development follows the C sources [inode.c], [directory.c],
    [storage.c] and [nufs.c].

    Conventions of the embedding.
    - The mapped image is a function from byte addresses to bytes
      ([img]); [blocks_get_block b] is the address [b * 4096].
    - The two bitmaps are carried as bit functions ([bbm], [ibm]) and the
      inode table as a typed array of 128 records ([itab]); their byte
      overlay on blocks 0 and 1 is not modelled.  (With 8-byte [time_t]
      an [inode_t] takes 48 bytes, so the records of the inodes from 85
      on lie past block 1 in the C program; here every record is apart
      from the image.)  An [inode_t *] is the index of the record in the
      table, [NULL] is [None].
    - A C [int] is a [Z]; narrowing conversions from [off_t]/[size_t] are
      written with [cast_int].  Signed overflow is not modelled.
    - A C string is the list of its bytes before the terminator.
    - [time(NULL)], [getuid()] and [getgid()] read the fields [clock],
      [cur_uid], [cur_gid] of the state.
    - [printf] calls are dropped. *)

From Stdlib Require Import String Ascii.
From Stdlib Require Import ZArith List Lia Bool.
Import Corelib.Init.Datatypes.
Import ListNotations.
Local Open Scope Z_scope.

(** ** Constants *)

Definition BLOCK_SIZE : Z := 4096.
Definition BLOCK_COUNT : Z := 256.
Definition INODE_COUNT : Z := 128.
Definition DIR_NAME_LENGTH : Z := 48.
Definition DIRENT_SIZE : Z := 64.
Definition INT_SIZE : Z := 4.
Definition S_IFDIR : Z := 16384.   (* 0040000 *)
Definition S_IFMT : Z := 61440.    (* 0170000 *)
Definition ENOENT : Z := 2.
Definition EEXIST : Z := 17.
Definition ENOSPC : Z := 28.
Definition ENOTEMPTY : Z := 39.
Definition SLASH : Z := 47.

(** ** C strings *)

Definition cstr := list Z.

Definition cstr_of_string (s : string) : cstr :=
  map (fun ch => Z.of_N (N_of_ascii ch)) (list_ascii_of_string s).

Arguments cstr_of_string s%_string.

Definition strlen (s : cstr) : Z := Z.of_nat (length s).

(** ** Integers and bytes in the image *)

Definition cast_int (z : Z) : Z :=
  let r := z mod 4294967296 in
  if r <? 2147483648 then r else r - 4294967296.

Definition load_int (m : Z -> Z) (a : Z) : Z :=
  cast_int (m a + 256 * m (a + 1) + 65536 * m (a + 2) + 16777216 * m (a + 3)).

Definition store_int (m : Z -> Z) (a v : Z) : Z -> Z :=
  fun x =>
    if x =? a then v mod 256
    else if x =? a + 1 then (v / 256) mod 256
    else if x =? a + 2 then (v / 65536) mod 256
    else if x =? a + 3 then (v / 16777216) mod 256
    else m x.

Definition memset0 (m : Z -> Z) (a len : Z) : Z -> Z :=
  fun x => if (a <=? x) && (x <? a + len) then 0 else m x.

(** [memcpy(m + dst, buf + off, len)] from a caller's buffer. *)
Definition memcpy_from (m : Z -> Z) (dst : Z) (buf : list Z) (off len : Z) : Z -> Z :=
  fun x =>
    if (dst <=? x) && (x <? dst + len)
    then nth (Z.to_nat (off + (x - dst))) buf 0 else m x.

Definition load_bytes (m : Z -> Z) (a : Z) (n : nat) : list Z :=
  map (fun i => m (a + Z.of_nat i)) (seq 0 n).

(** [strncpy(dst, src, n)]: the first [n] bytes of [src], zero padded. *)
Definition strncpy (m : Z -> Z) (a : Z) (src : cstr) (n : Z) : Z -> Z :=
  fun x =>
    if (a <=? x) && (x <? a + n) then nth (Z.to_nat (x - a)) src 0 else m x.

Definition store_byte (m : Z -> Z) (a v : Z) : Z -> Z :=
  fun x => if x =? a then v else m x.

(** [strcmp(m + a, s) == 0] for a string [s] *)
Fixpoint streq_at (m : Z -> Z) (a : Z) (s : cstr) : bool :=
  match s with
  | [] => m a =? 0
  | ch :: rest => (m a =? ch) && streq_at m (a + 1) rest
  end.

(** The string stored at [a], read for at most [fuel] bytes. *)
Fixpoint load_cstr (m : Z -> Z) (a : Z) (fuel : nat) : cstr :=
  match fuel with
  | O => []
  | S k => if m a =? 0 then [] else m a :: load_cstr m (a + 1) k
  end.

(** ** The inode record ([inode.h]) *)

Record inode_t := mk_inode {
  refs : Z;
  mode : Z;
  size : Z;
  block : Z;
  indirect : Z;
  atime : Z;
  mtime : Z;
  uid : Z;
  gid : Z
}.

Definition zero_inode : inode_t := mk_inode 0 0 0 0 0 0 0 0 0.

Definition set_refs (v : Z) (n : inode_t) : inode_t :=
  mk_inode v (mode n) (size n) (block n) (indirect n) (atime n) (mtime n) (uid n) (gid n).
Definition set_mode (v : Z) (n : inode_t) : inode_t :=
  mk_inode (refs n) v (size n) (block n) (indirect n) (atime n) (mtime n) (uid n) (gid n).
Definition set_size (v : Z) (n : inode_t) : inode_t :=
  mk_inode (refs n) (mode n) v (block n) (indirect n) (atime n) (mtime n) (uid n) (gid n).
Definition set_block (v : Z) (n : inode_t) : inode_t :=
  mk_inode (refs n) (mode n) (size n) v (indirect n) (atime n) (mtime n) (uid n) (gid n).
Definition set_indirect (v : Z) (n : inode_t) : inode_t :=
  mk_inode (refs n) (mode n) (size n) (block n) v (atime n) (mtime n) (uid n) (gid n).
Definition set_atime (v : Z) (n : inode_t) : inode_t :=
  mk_inode (refs n) (mode n) (size n) (block n) (indirect n) v (mtime n) (uid n) (gid n).
Definition set_mtime (v : Z) (n : inode_t) : inode_t :=
  mk_inode (refs n) (mode n) (size n) (block n) (indirect n) (atime n) v (uid n) (gid n).
Definition set_uid (v : Z) (n : inode_t) : inode_t :=
  mk_inode (refs n) (mode n) (size n) (block n) (indirect n) (atime n) (mtime n) v (gid n).
Definition set_gid (v : Z) (n : inode_t) : inode_t :=
  mk_inode (refs n) (mode n) (size n) (block n) (indirect n) (atime n) (mtime n) (uid n) v.

(** ** The filesystem state *)

Record fs := mk_fs {
  img : Z -> Z;          (* the mapped image, byte addressed *)
  bbm : Z -> bool;       (* block bitmap *)
  ibm : Z -> bool;       (* inode bitmap *)
  itab : Z -> inode_t;   (* inode table *)
  clock : Z;
  cur_uid : Z;
  cur_gid : Z
}.

Definition with_img (s : fs) (m : Z -> Z) : fs :=
  mk_fs m (bbm s) (ibm s) (itab s) (clock s) (cur_uid s) (cur_gid s).
Definition with_bbm (s : fs) (b : Z -> bool) : fs :=
  mk_fs (img s) b (ibm s) (itab s) (clock s) (cur_uid s) (cur_gid s).
Definition with_ibm (s : fs) (b : Z -> bool) : fs :=
  mk_fs (img s) (bbm s) b (itab s) (clock s) (cur_uid s) (cur_gid s).
Definition with_itab (s : fs) (t : Z -> inode_t) : fs :=
  mk_fs (img s) (bbm s) (ibm s) t (clock s) (cur_uid s) (cur_gid s).

Definition upd {A : Type} (f : Z -> A) (i : Z) (v : A) : Z -> A :=
  fun j => if j =? i then v else f j.

(** [node->field = v] and friends: update of one record of the table. *)
Definition upd_inode (s : fs) (node : Z) (f : inode_t -> inode_t) : fs :=
  with_itab s (upd (itab s) node (f (itab s node))).

(** ** Helpers of [helpers/blocks.c] and [helpers/bitmap.c] *)

(** Modelled from the spec: [blocks_get_block] of helpers/blocks.c, the
    byte region of block [b] at offset [b * 4096]. *)
Definition blocks_get_block (b : Z) : Z := b * BLOCK_SIZE.

(** [memset(blocks_get_block(b), 0, BLOCK_SIZE)] *)
Definition zero_block (s : fs) (b : Z) : fs :=
  with_img s (memset0 (img s) (blocks_get_block b) BLOCK_SIZE).

(** Modelled from the spec: [bytes_to_blocks] of helpers/blocks.c,
    [ceil(n / 4096)] with [bytes_to_blocks 0 = 0]. *)
Definition bytes_to_blocks (n : Z) : Z := (n + BLOCK_SIZE - 1) / BLOCK_SIZE.

(** Modelled from the spec: [bitmap_get] of helpers/bitmap.c. *)
Definition bitmap_get (bm : Z -> bool) (i : Z) : bool := bm i.

(** Modelled from the spec: [bitmap_put] of helpers/bitmap.c. *)
Definition bitmap_put (bm : Z -> bool) (i : Z) (v : bool) : Z -> bool := upd bm i v.

(** Lowest clear bit among the [n] bits from [ii] on. *)
Fixpoint first_clear (bm : Z -> bool) (ii : Z) (n : nat) : option Z :=
  match n with
  | O => None
  | S k => if bitmap_get bm ii then first_clear bm (ii + 1) k else Some ii
  end.

(** Modelled from the spec: [alloc_block] of helpers/blocks.c scans the
    block bitmap for the lowest clear bit within [2, 256), sets it, zeroes
    the block and returns its index; [-1] when full. *)
Definition alloc_block (s : fs) : fs * Z :=
  match first_clear (bbm s) 2 254 with
  | None => (s, -1)
  | Some b => (zero_block (with_bbm s (bitmap_put (bbm s) b true)) b, b)
  end.

(** Modelled from the spec: [free_block] of helpers/blocks.c clears bit
    [b]; the block is not zeroed again. *)
Definition free_block (s : fs) (b : Z) : fs :=
  with_bbm s (bitmap_put (bbm s) b false).

(** ** [inode.c] *)

Definition INODE_TABLE_BLOCK : Z := 1.

Definition get_inode (inum : Z) : option Z :=
  if (inum <? 0) || (inum >=? INODE_COUNT) then None else Some inum.

Definition alloc_inode (s : fs) : fs * Z :=
  match first_clear (ibm s) 0 128 with
  | None => (s, -1)
  | Some ii =>
      let s1 := with_ibm s (bitmap_put (ibm s) ii true) in
      let s2 := upd_inode s1 ii (fun _ => zero_inode) in
      let s3 := upd_inode s2 ii (set_refs 1) in
      let s4 := upd_inode s3 ii (set_mode 0) in
      let s5 := upd_inode s4 ii (set_size 0) in
      let s6 := upd_inode s5 ii (set_block 0) in
      let s7 := upd_inode s6 ii (set_indirect 0) in
      let s8 := upd_inode s7 ii (set_uid (cur_uid s)) in
      let s9 := upd_inode s8 ii (set_gid (cur_gid s)) in
      let s10 := upd_inode s9 ii (set_atime (clock s)) in
      let s11 := upd_inode s10 ii (set_mtime (clock s)) in
      (s11, ii)
  end.

(** The indirect table of block [ib]: entry [k] is the [int] at
    [ib * 4096 + 4 * k]. *)
Definition table_get (s : fs) (ib k : Z) : Z :=
  load_int (img s) (blocks_get_block ib + INT_SIZE * k).

Definition table_set (s : fs) (ib k v : Z) : fs :=
  with_img s (store_int (img s) (blocks_get_block ib + INT_SIZE * k) v).

(** The loop of [free_inode] over the indirect table. *)
Fixpoint free_indirect_loop (s : fs) (ib : Z) (ii : Z) (n : nat) : fs :=
  match n with
  | O => s
  | S k =>
      let s1 := if table_get s ib ii =? 0 then s
                else free_block s (table_get s ib ii) in
      free_indirect_loop s1 ib (ii + 1) k
  end.

Definition free_inode (s : fs) (inum : Z) : fs :=
  if (inum <? 0) || (inum >=? INODE_COUNT) then s
  else
    let node := inum in
    let s1 := if block (itab s node) =? 0 then s
              else free_block s (block (itab s node)) in
    let s2 :=
      if indirect (itab s1 node) =? 0 then s1
      else
        let ib := indirect (itab s1 node) in
        let num_indirect := bytes_to_blocks (size (itab s1 node)) - 1 in
        let s' := free_indirect_loop s1 ib 0
                    (Z.to_nat (Z.min num_indirect (BLOCK_SIZE / INT_SIZE))) in
        free_block s' ib in
    let s3 := upd_inode s2 node (fun _ => zero_inode) in
    with_ibm s3 (bitmap_put (ibm s3) inum false).

(** [inode_get_bnum] on a non-NULL [node]. *)
Definition inode_get_bnum (s : fs) (node : Z) (file_bnum : Z) : Z :=
  if file_bnum <? 0 then -1
  else if file_bnum =? 0 then block (itab s node)
  else if indirect (itab s node) =? 0 then -1
  else
    let indirect_index := file_bnum - 1 in
    if indirect_index >=? BLOCK_SIZE / INT_SIZE then -1
    else table_get s (indirect (itab s node)) indirect_index.

(** One pass of the body of the [for] loop of [grow_inode]; the result
    is [inr] of the state at the [return -1], [inl] to go on. *)
Definition grow_step (s : fs) (node : Z) (ii : Z) : fs + fs :=
  let (s1, new_block) := alloc_block s in
  if new_block <? 0 then inr s1
  else
    let s2 := zero_block s1 new_block in
    if ii =? 0 then inl (upd_inode s2 node (set_block new_block))
    else
      let r :=
        if indirect (itab s2 node) =? 0 then
          let (s3, ib) := alloc_block s2 in
          let s4 := upd_inode s3 node (set_indirect ib) in
          if ib <? 0 then inr (free_block s4 new_block)
          else inl (zero_block s4 ib)
        else inl s2 in
      match r with
      | inr s' => inr s'
      | inl s5 => inl (table_set s5 (indirect (itab s5 node)) (ii - 1) new_block)
      end.

Fixpoint grow_loop (s : fs) (node : Z) (ii : Z) (n : nat) : fs + fs :=
  match n with
  | O => inl s
  | S k =>
      match grow_step s node ii with
      | inr s' => inr s'
      | inl s' => grow_loop s' node (ii + 1) k
      end
  end.

(** [grow_inode] on a non-NULL [node]. *)
Definition grow_inode (s : fs) (node : Z) (sz : Z) : fs * Z :=
  let current_blocks :=
    if size (itab s node) =? 0 then 0 else bytes_to_blocks (size (itab s node)) in
  let target_blocks := if sz =? 0 then 0 else bytes_to_blocks sz in
  match grow_loop s node current_blocks (Z.to_nat (target_blocks - current_blocks)) with
  | inr s' => (s', -1)
  | inl s' =>
      let s1 := upd_inode s' node (set_size sz) in
      (upd_inode s1 node (set_mtime (clock s)), 0)
  end.

Definition shrink_step (s : fs) (node : Z) (ii : Z) : fs :=
  if ii =? 0 then
    if block (itab s node) =? 0 then s
    else upd_inode (free_block s (block (itab s node))) node (set_block 0)
  else
    if indirect (itab s node) =? 0 then s
    else
      let ib := indirect (itab s node) in
      if table_get s ib (ii - 1) =? 0 then s
      else table_set (free_block s (table_get s ib (ii - 1))) ib (ii - 1) 0.

(** The loop of [shrink_inode]: [n] passes from [ii] downwards. *)
Fixpoint shrink_loop (s : fs) (node : Z) (ii : Z) (n : nat) : fs :=
  match n with
  | O => s
  | S k => shrink_loop (shrink_step s node ii) node (ii - 1) k
  end.

(** [shrink_inode] on a non-NULL [node]. *)
Definition shrink_inode (s : fs) (node : Z) (sz : Z) : fs * Z :=
  let current_blocks :=
    if size (itab s node) =? 0 then 0 else bytes_to_blocks (size (itab s node)) in
  let target_blocks := if sz =? 0 then 0 else bytes_to_blocks sz in
  let s1 := shrink_loop s node (current_blocks - 1)
              (Z.to_nat (current_blocks - target_blocks)) in
  let s2 :=
    if (target_blocks <=? 1) && negb (indirect (itab s1 node) =? 0)
    then upd_inode (free_block s1 (indirect (itab s1 node))) node (set_indirect 0)
    else s1 in
  let s3 := upd_inode s2 node (set_size sz) in
  (upd_inode s3 node (set_mtime (clock s)), 0).

Definition inode_init (s : fs) : fs :=
  with_bbm s (bitmap_put (bbm s) INODE_TABLE_BLOCK true).

(** ** [directory.c] *)

Definition ENTRIES_PER_BLOCK : Z := BLOCK_SIZE / DIRENT_SIZE.

(** Fields of the [dirent_t] at address [e]: [name] at offset 0 (48
    bytes), [inum] at offset 48, 12 reserved bytes. *)
Definition dirent_inum (s : fs) (e : Z) : Z := load_int (img s) (e + DIR_NAME_LENGTH).
Definition dirent_name0 (s : fs) (e : Z) : Z := img s e.

(** [directory_get_entry] on a non-NULL [di]: the address of the entry,
    [None] for [NULL]. *)
Definition directory_get_entry (s : fs) (di : Z) (index : Z) : option Z :=
  if index <? 0 then None
  else
    let entries_per_block := ENTRIES_PER_BLOCK in
    let block_index := Z.quot index entries_per_block in
    let entry_offset := Z.rem index entries_per_block in
    let bnum := inode_get_bnum s di block_index in
    if bnum <=? 0 then None
    else Some (blocks_get_block bnum + DIRENT_SIZE * entry_offset).

Definition directory_max_entries (s : fs) (di : Z) : Z :=
  let num_blocks :=
    if size (itab s di) =? 0 then 0 else bytes_to_blocks (size (itab s di)) in
  num_blocks * ENTRIES_PER_BLOCK.

(** The scan shared by lookup, put and delete:
    [for (ii = ...; ii < max; ++ii) { entry = directory_get_entry(di, ii);
       if (entry == NULL) break;  if (hit(entry)) return ...; }]
    The result is the first entry on which [hit] holds. *)
Fixpoint dir_scan (s : fs) (di : Z) (hit : Z -> bool) (ii : Z) (n : nat) : option Z :=
  match n with
  | O => None
  | S k =>
      match directory_get_entry s di ii with
      | None => None
      | Some e => if hit e then Some e else dir_scan s di hit (ii + 1) k
      end
  end.

(** [entry->inum != 0 && strcmp(entry->name, name) == 0] *)
Definition entry_matches (s : fs) (name : cstr) (e : Z) : bool :=
  negb (dirent_inum s e =? 0) && streq_at (img s) e name.

(** [entry->inum == 0 || entry->name[0] == 0] *)
Definition entry_empty (s : fs) (e : Z) : bool :=
  (dirent_inum s e =? 0) || (dirent_name0 s e =? 0).

Definition directory_lookup (s : fs) (di : Z) (name : cstr) : Z :=
  if strlen name =? 0 then -1
  else
    match dir_scan s di (entry_matches s name) 0
            (Z.to_nat (directory_max_entries s di)) with
    | Some e => dirent_inum s e
    | None => -1
    end.

(** [strncpy(entry->name, name, 47); entry->name[47] = 0; entry->inum = inum] *)
Definition write_entry (s : fs) (e : Z) (name : cstr) (inum : Z) : fs :=
  let m1 := strncpy (img s) e name (DIR_NAME_LENGTH - 1) in
  let m2 := store_byte m1 (e + (DIR_NAME_LENGTH - 1)) 0 in
  with_img s (store_int m2 (e + DIR_NAME_LENGTH) inum).

Definition directory_put (s : fs) (di : Z) (name : cstr) (inum : Z) : fs * Z :=
  if strlen name =? 0 then (s, -1)
  else if strlen name >=? DIR_NAME_LENGTH then (s, -1)
  else
    let max_entries := directory_max_entries s di in
    match dir_scan s di (entry_empty s) 0 (Z.to_nat max_entries) with
    | Some e => (write_entry s e name inum, 0)
    | None =>
        let old_size := size (itab s di) in
        let new_size := old_size + BLOCK_SIZE in
        let (s1, rv) := grow_inode s di new_size in
        if rv <? 0 then (s1, -1)
        else
          let new_entry_index := max_entries in
          match directory_get_entry s1 di new_entry_index with
          | None => (s1, -1)
          | Some e => (write_entry s1 e name inum, 0)
          end
    end.

Definition directory_delete (s : fs) (di : Z) (name : cstr) : fs * Z :=
  if strlen name =? 0 then (s, -1)
  else
    match dir_scan s di (entry_matches s name) 0
            (Z.to_nat (directory_max_entries s di)) with
    | Some e => (with_img s (memset0 (img s) e DIRENT_SIZE), 0)
    | None => (s, -1)
    end.

(** [strrchr(path, ch)] as an index into [path]. *)
Fixpoint strrchr (path : cstr) (ch : Z) : option nat :=
  match path with
  | [] => None
  | x :: rest =>
      match strrchr rest ch with
      | Some i => Some (S i)
      | None => if x =? ch then Some O else None
      end
  end.

Definition get_basename (path : cstr) : cstr :=
  match strrchr path SLASH with
  | None => path
  | Some i => skipn (S i) path
  end.

(** Modelled from the spec: [slist_explode] of helpers/slist.c splits the
    text on the delimiter; empty pieces are kept (the callers skip them). *)
Fixpoint slist_explode (text : cstr) (delim : Z) : list cstr :=
  match text with
  | [] => [[]]
  | ch :: rest =>
      if ch =? delim then [] :: slist_explode rest delim
      else
        match slist_explode rest delim with
        | [] => [[ch]]
        | w :: ws => (ch :: w) :: ws
        end
  end.

(** The loop of [tree_lookup] over the components. *)
Fixpoint tree_walk (s : fs) (components : list cstr) (current_inum : Z) : Z :=
  match components with
  | [] => current_inum
  | data :: next =>
      if strlen data =? 0 then tree_walk s next current_inum
      else
        match get_inode current_inum with
        | None => -1
        | Some current_dir =>
            if Z.land (mode (itab s current_dir)) S_IFDIR =? 0 then -1
            else
              let next_inum := directory_lookup s current_dir data in
              if next_inum <? 0 then -1
              else tree_walk s next next_inum
        end
  end.

Definition tree_lookup (s : fs) (path : cstr) : Z :=
  match path with
  | [] => -1
  | c0 :: tail =>
      if negb (c0 =? SLASH) then -1
      else
        match tail with
        | [] => 0
        | _ => tree_walk s (slist_explode tail SLASH) 0
        end
  end.

Definition tree_lookup_parent (s : fs) (path : cstr) : Z :=
  match path with
  | [] => -1
  | c0 :: tail =>
      if negb (c0 =? SLASH) then -1
      else
        match tail with
        | [] => 0
        | _ =>
            match strrchr path SLASH with
            | None => -1
            | Some O => 0
            | Some parent_len => tree_lookup s (firstn parent_len path)
            end
        end
  end.

(** The loop of [directory_list]; [slist_cons] puts each name in front. *)
Fixpoint list_loop (s : fs) (dir : Z) (ii : Z) (n : nat) (result : list cstr) : list cstr :=
  match n with
  | O => result
  | S k =>
      match directory_get_entry s dir ii with
      | None => result
      | Some e =>
          let result' :=
            if negb (dirent_inum s e =? 0) && negb (dirent_name0 s e =? 0)
            then load_cstr (img s) e (Z.to_nat DIR_NAME_LENGTH) :: result
            else result in
          list_loop s dir (ii + 1) k result'
      end
  end.

(** [directory_list]; the [NULL] list is [[]]. *)
Definition directory_list (s : fs) (path : cstr) : list cstr :=
  let dir_inum := tree_lookup s path in
  if dir_inum <? 0 then []
  else
    match get_inode dir_inum with
    | None => []
    | Some dir =>
        if Z.land (mode (itab s dir)) S_IFDIR =? 0 then []
        else list_loop s dir 0 (Z.to_nat (directory_max_entries s dir)) []
    end.

Definition directory_init (s : fs) : fs :=
  if bitmap_get (ibm s) 0 then s
  else
    let (s1, root_inum) := alloc_inode s in
    let root := 0 in
    let s2 := upd_inode s1 root (set_mode 16877) in   (* 040755 *)
    let s3 := upd_inode s2 root (set_size 0) in
    fst (grow_inode s3 root BLOCK_SIZE).

(** ** [storage.c] *)

(** Modelled from the spec: [blocks_init] of helpers/blocks.c maps the
    image; bit 0 of the block bitmap is reserved. *)
Definition blocks_init (s : fs) : fs :=
  with_bbm s (bitmap_put (bbm s) 0 true).

Definition storage_init (s : fs) : fs :=
  directory_init (inode_init (blocks_init s)).

Record stat_t := mk_stat {
  st_mode : Z; st_size : Z; st_uid : Z; st_gid : Z; st_nlink : Z;
  st_atime : Z; st_mtime : Z; st_ino : Z; st_blocks : Z; st_blksize : Z
}.

Definition storage_stat (s : fs) (path : cstr) : Z * option stat_t :=
  let inum := tree_lookup s path in
  if inum <? 0 then (- ENOENT, None)
  else
    match get_inode inum with
    | None => (- ENOENT, None)
    | Some node =>
        let nd := itab s node in
        (0, Some (mk_stat (mode nd) (size nd) (uid nd) (gid nd) (refs nd)
                    (atime nd) (mtime nd) inum
                    (Z.quot (size nd + 511) 512) BLOCK_SIZE))
    end.

(** The [while (bytes_read < size)] loop of [storage_read]; [out] is the
    part of [buf] filled so far. *)
Fixpoint read_loop (s : fs) (node : Z) (offset sz : Z)
    (bytes_read : Z) (out : list Z) (fuel : nat) : Z * list Z :=
  match fuel with
  | O => (bytes_read, out)
  | S k =>
      if bytes_read <? sz then
        let file_block := cast_int (Z.quot (offset + bytes_read) BLOCK_SIZE) in
        let block_offset := cast_int (Z.rem (offset + bytes_read) BLOCK_SIZE) in
        let bnum := inode_get_bnum s node file_block in
        if bnum <=? 0 then (bytes_read, out)
        else
          let to_read := BLOCK_SIZE - block_offset in
          let to_read :=
            if to_read >? sz - bytes_read then sz - bytes_read else to_read in
          let block_data := blocks_get_block bnum in
          read_loop s node offset sz (bytes_read + to_read)
            (out ++ load_bytes (img s) (block_data + block_offset) (Z.to_nat to_read)) k
      else (bytes_read, out)
  end.

(** [storage_read]: the state, the return value and the bytes stored
    into [buf]. *)
Definition storage_read (s : fs) (path : cstr) (sz : Z) (offset : Z)
  : fs * Z * list Z :=
  let inum := tree_lookup s path in
  if inum <? 0 then (s, - ENOENT, [])
  else
    match get_inode inum with
    | None => (s, - ENOENT, [])
    | Some node =>
        if offset >=? size (itab s node) then (s, 0, [])
        else
          let sz :=
            if offset + sz >? size (itab s node)
            then size (itab s node) - offset else sz in
          let (bytes_read, out) := read_loop s node offset sz 0 [] (Z.to_nat sz) in
          (upd_inode s node (set_atime (clock s)), cast_int bytes_read, out)
    end.

(** The [while (bytes_written < size)] loop of [storage_write]. *)
Fixpoint write_loop (s : fs) (node : Z) (buf : list Z) (offset sz : Z)
    (bytes_written : Z) (fuel : nat) : fs * Z :=
  match fuel with
  | O => (s, bytes_written)
  | S k =>
      if bytes_written <? sz then
        let file_block := cast_int (Z.quot (offset + bytes_written) BLOCK_SIZE) in
        let block_offset := cast_int (Z.rem (offset + bytes_written) BLOCK_SIZE) in
        let bnum := inode_get_bnum s node file_block in
        if bnum <=? 0 then (s, bytes_written)
        else
          let to_write := BLOCK_SIZE - block_offset in
          let to_write :=
            if to_write >? sz - bytes_written then sz - bytes_written else to_write in
          let block_data := blocks_get_block bnum in
          let s1 := with_img s (memcpy_from (img s) (block_data + block_offset)
                                  buf bytes_written to_write) in
          write_loop s1 node buf offset sz (bytes_written + to_write) k
      else (s, bytes_written)
  end.

Definition storage_write (s : fs) (path : cstr) (buf : list Z) (sz : Z) (offset : Z)
  : fs * Z :=
  let inum := tree_lookup s path in
  if inum <? 0 then (s, - ENOENT)
  else
    match get_inode inum with
    | None => (s, - ENOENT)
    | Some node =>
        let end_pos := offset + sz in
        let (s1, rv) :=
          if end_pos >? size (itab s node)
          then grow_inode s node (cast_int end_pos) else (s, 0) in
        if rv <? 0 then (s1, - ENOSPC)
        else
          let (s2, bytes_written) := write_loop s1 node buf offset sz 0 (Z.to_nat sz) in
          (upd_inode s2 node (set_mtime (clock s)), cast_int bytes_written)
    end.

Definition storage_truncate (s : fs) (path : cstr) (sz : Z) : fs * Z :=
  let inum := tree_lookup s path in
  if inum <? 0 then (s, - ENOENT)
  else
    match get_inode inum with
    | None => (s, - ENOENT)
    | Some node =>
        if sz >? size (itab s node) then grow_inode s node (cast_int sz)
        else if sz <? size (itab s node) then shrink_inode s node (cast_int sz)
        else (s, 0)
    end.

Definition storage_mknod (s : fs) (path : cstr) (md : Z) : fs * Z :=
  if tree_lookup s path >=? 0 then (s, - EEXIST)
  else
    let parent_inum := tree_lookup_parent s path in
    if parent_inum <? 0 then (s, - ENOENT)
    else
      match get_inode parent_inum with
      | None => (s, - ENOENT)
      | Some parent =>
          let (s1, new_inum) := alloc_inode s in
          if new_inum <? 0 then (s1, - ENOSPC)
          else
            let new_node := new_inum in
            let s2 := upd_inode s1 new_node (set_mode md) in
            let s3 := upd_inode s2 new_node (set_size 0) in
            let s4 :=
              if negb (Z.land md S_IFDIR =? 0)
              then fst (grow_inode s3 new_node BLOCK_SIZE) else s3 in
            let name := get_basename path in
            let (s5, rv) := directory_put s4 parent name new_inum in
            if rv <? 0 then (free_inode s5 new_inum, - ENOSPC)
            else (s5, 0)
      end.

(** [storage_unlink]; [None] when the unchecked [get_inode(inum)] is
    [NULL] and [node->refs--] dereferences it. *)
Definition storage_unlink (s : fs) (path : cstr) : option (fs * Z) :=
  let inum := tree_lookup s path in
  if inum <? 0 then Some (s, - ENOENT)
  else
    let parent_inum := tree_lookup_parent s path in
    if parent_inum <? 0 then Some (s, - ENOENT)
    else
      match get_inode parent_inum with
      | None => Some (s, - ENOENT)
      | Some parent =>
          let name := get_basename path in
          let (s1, rv) := directory_delete s parent name in
          if rv <? 0 then Some (s1, - ENOENT)
          else
            match get_inode inum with
            | None => None
            | Some node =>
                let s2 := upd_inode s1 node (set_refs (refs (itab s1 node) - 1)) in
                let s3 := if refs (itab s2 node) <=? 0 then free_inode s2 inum else s2 in
                Some (s3, 0)
            end
      end.

(** [storage_link]; [None] when the unchecked [get_inode(from_inum)] is
    [NULL] and [node->refs++] dereferences it. *)
Definition storage_link (s : fs) (from to : cstr) : option (fs * Z) :=
  let from_inum := tree_lookup s from in
  if from_inum <? 0 then Some (s, - ENOENT)
  else if tree_lookup s to >=? 0 then Some (s, - EEXIST)
  else
    let parent_inum := tree_lookup_parent s to in
    if parent_inum <? 0 then Some (s, - ENOENT)
    else
      match get_inode parent_inum with
      | None => Some (s, - ENOENT)
      | Some parent =>
          let name := get_basename to in
          let (s1, rv) := directory_put s parent name from_inum in
          if rv <? 0 then Some (s1, - ENOSPC)
          else
            match get_inode from_inum with
            | None => None
            | Some node =>
                Some (upd_inode s1 node (set_refs (refs (itab s1 node) + 1)), 0)
            end
      end.

Definition storage_rename (s : fs) (from to : cstr) : option (fs * Z) :=
  let from_inum := tree_lookup s from in
  if from_inum <? 0 then Some (s, - ENOENT)
  else
    let to_inum := tree_lookup s to in
    match (if to_inum >=? 0 then option_map fst (storage_unlink s to) else Some s) with
    | None => None
    | Some s1 =>
        let from_parent_inum := tree_lookup_parent s1 from in
        let to_parent_inum := tree_lookup_parent s1 to in
        if (from_parent_inum <? 0) || (to_parent_inum <? 0) then Some (s1, - ENOENT)
        else
          match get_inode from_parent_inum, get_inode to_parent_inum with
          | Some from_parent, Some to_parent =>
              let to_name := get_basename to in
              let (s2, rv) := directory_put s1 to_parent to_name from_inum in
              if rv <? 0 then Some (s2, - ENOSPC)
              else
                let from_name := get_basename from in
                Some (fst (directory_delete s2 from_parent from_name), 0)
          | _, _ => Some (s1, - ENOENT)
          end
    end.

Definition storage_set_time (s : fs) (path : cstr) (ts0 ts1 : Z) : fs * Z :=
  let inum := tree_lookup s path in
  if inum <? 0 then (s, - ENOENT)
  else
    match get_inode inum with
    | None => (s, - ENOENT)
    | Some node =>
        let s1 := upd_inode s node (set_atime ts0) in
        (upd_inode s1 node (set_mtime ts1), 0)
    end.

Definition storage_list (s : fs) (path : cstr) : list cstr :=
  directory_list s path.

Definition storage_chmod (s : fs) (path : cstr) (md : Z) : fs * Z :=
  let inum := tree_lookup s path in
  if inum <? 0 then (s, - ENOENT)
  else
    match get_inode inum with
    | None => (s, - ENOENT)
    | Some node =>
        (upd_inode s node
           (set_mode (cast_int (Z.lor (Z.land (mode (itab s node)) S_IFMT)
                                  (Z.land md (Z.lnot S_IFMT))))), 0)
    end.

(** ** [nufs.c] *)

Definition nufs_mkdir (s : fs) (path : cstr) (md : Z) : fs * Z :=
  storage_mknod s path (Z.lor md S_IFDIR).

Definition nufs_rmdir (s : fs) (path : cstr) : option (fs * Z) :=
  match storage_list s path with
  | _ :: _ => Some (s, - ENOTEMPTY)
  | [] => storage_unlink s path
  end.

(** ** A freshly created image *)

Definition zero_image (now u g : Z) : fs :=
  mk_fs (fun _ => 0) (fun _ => false) (fun _ => false) (fun _ => zero_inode) now u g.

Definition fresh_fs : fs := storage_init (zero_image 1000 0 0).

Definition FILE_MODE : Z := 33188.  (* 0100644 *)

(** * Specification predicates and sample states *)

(** The reading of C4 as it is worded: the direct pointer for [k = 0],
    entry [k - 1] of the indirect block for [k >= 1] when there is an
    indirect block, and [-1] whenever the block is unallocated (no
    direct block, or no indirect block) or [k] is above
    [1 + 4096 / sizeof(entry)]. *)
Definition get_bnum_as_claimed (s : fs) (node k : Z) : Prop :=
  (k = 0 -> inode_get_bnum s node k = block (itab s node))
  /\ (k >= 1 -> indirect (itab s node) <> 0 ->
      inode_get_bnum s node k = table_get s (indirect (itab s node)) (k - 1))
  /\ ((k = 0 /\ block (itab s node) = 0) \/ (k >= 1 /\ indirect (itab s node) = 0)
      \/ k > 1 + BLOCK_SIZE / INT_SIZE ->
      inode_get_bnum s node k = -1).

(** What one byte of the output of a read is: byte [j] of the output is
    the byte of the image at position [offset + j] of the file, taken
    from the block that [inode_get_bnum] gives for that position. *)
Definition read_byte_ok (s : fs) (node offset : Z) (out : list Z) (j : Z) : Prop :=
  let pos := offset + j in
  let bnum := inode_get_bnum s node (pos / BLOCK_SIZE) in
  bnum > 0
  /\ nth (Z.to_nat j) out 0 = img s (blocks_get_block bnum + pos mod BLOCK_SIZE).

(** A C string holds no NUL byte before its terminator. *)
Definition cstr_ok (name : cstr) : Prop := ~ In 0 name.

(** The entries of a directory as the scans of [directory.c] see them:
    the entries of index [ii], [ii + 1], ... below the bound, up to the
    first index at which [directory_get_entry] returns [NULL]. *)
Fixpoint dir_slots (s : fs) (di : Z) (ii : Z) (n : nat) : list Z :=
  match n with
  | O => []
  | S k =>
      match directory_get_entry s di ii with
      | None => []
      | Some e => e :: dir_slots s di (ii + 1) k
      end
  end.

Definition dir_entries (s : fs) (di : Z) : list Z :=
  dir_slots s di 0 (Z.to_nat (directory_max_entries s di)).

(** A non-empty entry (neither [inum == 0] nor an empty name) whose name
    is [name]. *)
Definition named_entry (s : fs) (name : cstr) (e : Z) : Prop :=
  entry_empty s e = false /\ streq_at (img s) e name = true.

(** The state after [alloc_block] has returned [b]. *)
Definition alloc_at (s : fs) (b : Z) : fs :=
  zero_block (with_bbm s (bitmap_put (bbm s) b true)) b.

(** The number of blocks that [grow_inode], [shrink_inode] and
    [directory_max_entries] compute from a size. *)
Definition blocks_of (sz : Z) : Z :=
  if sz =? 0 then 0 else bytes_to_blocks sz.

(** The directory can take one more block: it is below the largest
    addressable size and [grow_inode] finds the blocks it needs. *)
Definition dir_can_grow (s : fs) (di : Z) : Prop :=
  0 <= size (itab s di)
  /\ bytes_to_blocks (size (itab s di)) <= BLOCK_SIZE / INT_SIZE
  /\ snd (grow_inode s di (size (itab s di) + BLOCK_SIZE)) = 0.

(** The state after [mkdir /d] on a fresh image. *)
Definition fs_with_dir : fs :=
  fst (nufs_mkdir fresh_fs (cstr_of_string "/d") 493).

Definition run (r : option (fs * Z)) (dflt : fs) : fs :=
  match r with Some (s, _) => s | None => dflt end.

(** [mknod /x; rename /x/ /y; unlink /x; link /y /z] on a fresh image. *)
Definition fs_dangling : fs :=
  let s0 := fst (storage_mknod fresh_fs (cstr_of_string "/x") FILE_MODE) in
  let s1 := run (storage_rename s0 (cstr_of_string "/x/") (cstr_of_string "/y")) s0 in
  let s2 := run (storage_unlink s1 (cstr_of_string "/x")) s1 in
  run (storage_link s2 (cstr_of_string "/y") (cstr_of_string "/z")) s2.

(** [mknod /a; write /a "hello"] on a fresh image. *)
Definition fs_hello : fs :=
  let s0 := fst (storage_mknod fresh_fs (cstr_of_string "/a") FILE_MODE) in
  fst (storage_write s0 (cstr_of_string "/a") (cstr_of_string "hello") 5 0).

(** The reading of C10 as it is worded: on every path that resolves to a
    regular file, [nufs_rmdir] returns 0. *)
Definition rmdir_as_claimed (s : fs) (path : cstr) : Prop :=
  forall i, tree_lookup s path = i -> 0 <= i < INODE_COUNT ->
    Z.land (mode (itab s i)) S_IFDIR = 0 ->
    exists s', nufs_rmdir s path = Some (s', 0).

(** The image of [s'] is that of [s] outside of block [b]. *)
Definition same_outside (s s' : fs) (b : Z) : Prop :=
  forall x, ~ (blocks_get_block b <= x < blocks_get_block b + BLOCK_SIZE) ->
    img s' x = img s x.

(** Slot [-1] of an inode is its indirect pointer, slot [r >= 0] its
    [r]-th data block. *)
Definition ref (s : fs) (j r : Z) : Z :=
  if r =? -1 then indirect (itab s j) else inode_get_bnum s j r.

(** The slots in use for an inode with [c] data blocks; [h] tells
    whether it has an indirect block. *)
Definition slot_ok (c : Z) (h : bool) (r : Z) : Prop :=
  (r = -1 /\ h = true) \/ 0 <= r < c.

Record inv_gen (s : fs) (cnt : Z -> Z) (h : Z -> bool) : Prop := mk_inv_gen {
  ig_cnt : forall j, 0 <= j < INODE_COUNT ->
    0 <= cnt j /\ (h j = false -> cnt j <= 1);
  ig_ref : forall j r, 0 <= j < INODE_COUNT -> slot_ok (cnt j) (h j) r ->
    2 <= ref s j r < BLOCK_COUNT /\ bbm s (ref s j r) = true;
  ig_uniq : forall j r j' r', 0 <= j < INODE_COUNT -> 0 <= j' < INODE_COUNT ->
    slot_ok (cnt j) (h j) r -> slot_ok (cnt j') (h j') r' ->
    ref s j r = ref s j' r' -> j = j' /\ r = r';
  ig_zero : forall j, 0 <= j < INODE_COUNT ->
    (cnt j = 0 -> block (itab s j) = 0)
    /\ (h j = false -> indirect (itab s j) = 0)
    /\ (h j = true -> forall k, Z.max (cnt j - 1) 0 <= k < BLOCK_SIZE / INT_SIZE ->
          table_get s (indirect (itab s j)) k = 0)
}.

(** A marked block that no slot references. *)
Definition spare (s : fs) (cnt : Z -> Z) (h : Z -> bool) (b : Z) : Prop :=
  2 <= b < BLOCK_COUNT /\ bbm s b = true
  /\ forall j r, 0 <= j < INODE_COUNT -> slot_ok (cnt j) (h j) r -> ref s j r <> b.

(** While an inode grows it has an indirect block exactly when it has
    two data blocks or more. *)
Definition has_ind (cnt : Z -> Z) : Z -> bool := fun j => 2 <=? cnt j.

(** What [grow_inode] leaves alone: the other inodes, the fields of the
    inode other than its two pointers, the inode bitmap, the marked
    blocks of the bitmap, and the contents of every block that was marked
    before, the indirect block of the inode apart. *)
Record grow_frame (s s' : fs) (node : Z) : Prop := mk_grow_frame {
  gf_itab : forall j, j <> node -> itab s' j = itab s j;
  gf_node : itab s' node =
            set_block (block (itab s' node))
              (set_indirect (indirect (itab s' node)) (itab s node));
  gf_ibm : ibm s' = ibm s;
  gf_env : clock s' = clock s /\ cur_uid s' = cur_uid s /\ cur_gid s' = cur_gid s;
  gf_bbm : forall x, bbm s x = true -> bbm s' x = true;
  gf_ind : indirect (itab s' node) = indirect (itab s node)
           \/ bbm s (indirect (itab s' node)) = false;
  gf_img : forall x a, bbm s x = true -> x <> indirect (itab s node) ->
           blocks_get_block x <= a < blocks_get_block x + BLOCK_SIZE ->
           img s' a = img s a
}.

Definition cnt_of (s : fs) : Z -> Z := fun j => blocks_of (size (itab s j)).

(** Sizes are not negative, and every inode owns the blocks that its
    size calls for. *)
Definition inv (s : fs) : Prop :=
  (forall j, 0 <= j < INODE_COUNT -> 0 <= size (itab s j))
  /\ inv_gen s (cnt_of s) (has_ind (cnt_of s)).

(** A state that differs from [s] only in the image, inside the 64 bytes
    of the entry at [e]. *)
Definition entry_frame (s s' : fs) (e : Z) : Prop :=
  itab s' = itab s /\ bbm s' = bbm s /\ ibm s' = ibm s
  /\ clock s' = clock s /\ cur_uid s' = cur_uid s /\ cur_gid s' = cur_gid s
  /\ forall a, ~ (e <= a < e + DIRENT_SIZE) -> img s' a = img s a.

(** The address of position [pos] of the file of inode [node]. *)
Definition file_addr (s : fs) (node pos : Z) : Z :=
  blocks_get_block (inode_get_bnum s node (pos / BLOCK_SIZE)) + pos mod BLOCK_SIZE.

(** The state of the loop after [w] bytes, seen from the state [s0] at
    its start. *)
Record write_ok (s0 s : fs) (node offset : Z) (buf : list Z) (w : Z) : Prop := mk_write_ok {
  wo_inv : inv s;
  wo_itab : itab s = itab s0;
  wo_bbm : bbm s = bbm s0;
  wo_ibm : ibm s = ibm s0;
  wo_env : clock s = clock s0 /\ cur_uid s = cur_uid s0 /\ cur_gid s = cur_gid s0;
  wo_bnum : forall j k, 0 <= j < INODE_COUNT -> 0 <= k < cnt_of s0 j ->
              inode_get_bnum s j k = inode_get_bnum s0 j k;
  wo_data : forall p, 0 <= p < w ->
              img s (file_addr s0 node (offset + p)) = nth (Z.to_nat p) buf 0;
  wo_rest : forall a,
              (forall r, 0 <= r < cnt_of s0 node ->
                 ~ (blocks_get_block (inode_get_bnum s0 node r) <= a
                    < blocks_get_block (inode_get_bnum s0 node r) + BLOCK_SIZE)) ->
              img s a = img s0 a
}.

(** The shape that C2 asks of an inode. *)
Definition inode_shape (s : fs) (i : Z) : Prop :=
  let nd := itab s i in
  let nb := bytes_to_blocks (size nd) in
  (size nd = 0 -> block nd = 0 /\ indirect nd = 0)
  /\ (nb <= 1 -> indirect nd = 0)
  /\ (nb > 1 ->
      indirect nd <> 0
      /\ (forall k, 0 <= k < nb - 1 -> table_get s (indirect nd) k <> 0)
      /\ (forall k, nb - 1 <= k < BLOCK_SIZE / INT_SIZE -> table_get s (indirect nd) k = 0)).

(** The operations of the surface. *)
Inductive op : Type :=
| Stat (path : cstr)
| Read (path : cstr) (n offset : Z)
| Write (path : cstr) (buf : list Z) (n offset : Z)
| Truncate (path : cstr) (sz : Z)
| Mknod (path : cstr) (md : Z)
| Unlink (path : cstr)
| Link (from to : cstr)
| Rename (from to : cstr)
| SetTime (path : cstr) (ts0 ts1 : Z)
| Chmod (path : cstr) (md : Z)
| List (path : cstr).

(** The state and the return value of an operation ([0] for [List]);
    [None] when the operation dereferences [NULL]. *)
Definition run_op (s : fs) (o : op) : option (fs * Z) :=
  match o with
  | Stat path => Some (s, fst (storage_stat s path))
  | Read path n offset =>
      Some (fst (fst (storage_read s path n offset)),
            snd (fst (storage_read s path n offset)))
  | Write path buf n offset => Some (storage_write s path buf n offset)
  | Truncate path sz => Some (storage_truncate s path sz)
  | Mknod path md => Some (storage_mknod s path md)
  | Unlink path => storage_unlink s path
  | Link from to => storage_link s from to
  | Rename from to => storage_rename s from to
  | SetTime path ts0 ts1 => Some (storage_set_time s path ts0 ts1)
  | Chmod path md => Some (storage_chmod s path md)
  | List path => Some (s, 0)
  end.

(** Offsets and sizes are not negative and fit an [int]. *)
Definition op_in_range (o : op) : Prop :=
  match o with
  | Write _ _ n offset => 0 <= offset /\ 0 <= n /\ offset + n < 2147483648
  | Truncate _ sz => 0 <= sz < 2147483648
  | _ => True
  end.

(** A run of operations in which none fails: the final state, [None] as
    soon as an operation returns a negative value or dereferences
    [NULL]. *)
Fixpoint run_all (s : fs) (l : list op) : option fs :=
  match l with
  | [] => Some s
  | o :: rest =>
      match run_op s o with
      | Some (s', r) => if r <? 0 then None else run_all s' rest
      | None => None
      end
  end.

(** A run of operations, failed ones included: the final state, [None]
    when an operation dereferences [NULL]. *)
Fixpoint run_any (s : fs) (l : list op) : option fs :=
  match l with
  | [] => Some s
  | o :: rest =>
      match run_op s o with
      | Some (s', _) => run_any s' rest
      | None => None
      end
  end.

(** The reading of C2 as it is worded, for the runs [l] of operations
    from a fresh image: after every operation, failed ones included,
    every live inode has the shape. *)
Definition shape_as_claimed (l : list op) : Prop :=
  forall s', run_any fresh_fs l = Some s' ->
    forall i, 0 <= i < INODE_COUNT -> ibm s' i = true -> inode_shape s' i.

(** [s'] agrees with [s] on the records of the inodes other than [node],
    on the mode of [node] and on the blocks that the other inodes own. *)
Record others_same (s s' : fs) (node : Z) : Prop := mk_others_same {
  os_itab : forall j, j <> node -> itab s' j = itab s j;
  os_mode : mode (itab s' node) = mode (itab s node);
  os_img : forall j r a, 0 <= j < INODE_COUNT -> j <> node ->
    slot_ok (cnt_of s j) (has_ind (cnt_of s) j) r ->
    blocks_get_block (ref s j r) <= a < blocks_get_block (ref s j r) + BLOCK_SIZE ->
    img s' a = img s a
}.

(** The names of a path fit a directory entry. *)
Definition short_names (components : list cstr) : Prop :=
  Forall (fun name => strlen name < DIRENT_SIZE) components.

(** What a pass of the loop of [shrink_inode], or the loop, leaves of the
    inode [node] when it works on the slots from [lo] on. *)
Record shrink_frame (s s' : fs) (node lo : Z) : Prop := mk_shrink_frame {
  sf_itab : forall j, j <> node -> itab s' j = itab s j;
  sf_ind : indirect (itab s' node) = indirect (itab s node);
  sf_size : size (itab s' node) = size (itab s node);
  sf_mode : mode (itab s' node) = mode (itab s node);
  sf_block : 1 <= lo -> block (itab s' node) = block (itab s node);
  sf_ibm : ibm s' = ibm s;
  sf_img : forall a,
    ~ (blocks_get_block (indirect (itab s node)) <= a
       < blocks_get_block (indirect (itab s node)) + BLOCK_SIZE) ->
    img s' a = img s a;
  sf_table : forall k, 0 <= k < BLOCK_SIZE / INT_SIZE -> k < lo - 1 ->
    table_get s' (indirect (itab s node)) k = table_get s (indirect (itab s node)) k;
  sf_clear : forall x, bbm s x = false -> bbm s' x = false
}.

(** [mknod /b; write /b "world"] after [fs_hello]: two files. *)
Definition fs_two_files : fs :=
  let s0 := fst (storage_mknod fs_hello (cstr_of_string "/b") FILE_MODE) in
  fst (storage_write s0 (cstr_of_string "/b") (cstr_of_string "world") 5 0).

(** * Properties *)

(** ** Arithmetic of the embedding *)

Lemma cast_int_id (z : Z) :
  -2147483648 <= z < 2147483648 -> cast_int z = z.
Proof.
  intros H. unfold cast_int.
  destruct (Z_lt_le_dec z 0) as [Hn | Hp].
  - replace (z mod 4294967296) with (z + 4294967296).
    + destruct (Z.ltb_spec (z + 4294967296) 2147483648); lia.
    + apply Z.mod_unique with (q := -1); lia.
  - rewrite Z.mod_small by lia.
    destruct (Z.ltb_spec z 2147483648); lia.
Qed.

Lemma cast_int_range (z : Z) : -2147483648 <= cast_int z < 2147483648.
Proof.
  unfold cast_int.
  pose proof (Z.mod_pos_bound z 4294967296 ltac:(lia)).
  destruct (Z.ltb_spec (z mod 4294967296) 2147483648); lia.
Qed.

Lemma bytes_to_blocks_0 : bytes_to_blocks 0 = 0.
Proof. reflexivity. Qed.

Lemma bytes_to_blocks_nonneg (n : Z) : 0 <= n -> 0 <= bytes_to_blocks n.
Proof.
  intros H. unfold bytes_to_blocks, BLOCK_SIZE. apply Z.div_pos; lia.
Qed.

Lemma bytes_to_blocks_bounds (n : Z) :
  BLOCK_SIZE * (bytes_to_blocks n - 1) < n <= BLOCK_SIZE * bytes_to_blocks n.
Proof.
  unfold bytes_to_blocks, BLOCK_SIZE.
  pose proof (Z.div_mod (n + 4096 - 1) 4096 ltac:(lia)).
  pose proof (Z.mod_pos_bound (n + 4096 - 1) 4096 ltac:(lia)).
  lia.
Qed.

Lemma bytes_to_blocks_unique (n k : Z) :
  BLOCK_SIZE * (k - 1) < n <= BLOCK_SIZE * k -> bytes_to_blocks n = k.
Proof.
  intros H. pose proof (bytes_to_blocks_bounds n). unfold BLOCK_SIZE in *. lia.
Qed.

(** ** C9: unlinking the root *)

(** C9. [storage_unlink("/")] returns [-ENOENT] in every state and
    leaves the state as it was: the basename of ["/"] is the empty
    string, and [directory_delete] rejects the empty name without
    touching anything. *)
Theorem storage_unlink_root (s : fs) :
  storage_unlink s (cstr_of_string "/") = Some (s, - ENOENT)
  /\ get_basename (cstr_of_string "/") = []
  /\ (forall di, directory_delete s di [] = (s, -1)).
Proof.
  repeat split.
Qed.

(** ** C4: the block-pointer translation *)



(** ** Offsets inside blocks *)

Lemma quot_rem_block (x : Z) :
  0 <= x ->
  Z.quot x BLOCK_SIZE = x / BLOCK_SIZE /\ Z.rem x BLOCK_SIZE = x mod BLOCK_SIZE.
Proof.
  intros H. unfold BLOCK_SIZE.
  split; [apply Z.quot_div_nonneg | apply Z.rem_mod_nonneg]; lia.
Qed.

Lemma block_offset_shift (x d : Z) :
  0 <= x -> 0 <= d -> x mod BLOCK_SIZE + d < BLOCK_SIZE ->
  (x + d) / BLOCK_SIZE = x / BLOCK_SIZE
  /\ (x + d) mod BLOCK_SIZE = x mod BLOCK_SIZE + d.
Proof.
  unfold BLOCK_SIZE. intros Hx Hd Hlt.
  pose proof (Z.div_mod x 4096 ltac:(lia)) as E.
  pose proof (Z.mod_pos_bound x 4096 ltac:(lia)) as B.
  assert (Hq : (x + d) / 4096 = x / 4096).
  { symmetry. apply Z.div_unique with (r := x mod 4096 + d); lia. }
  split; [exact Hq |].
  pose proof (Z.div_mod (x + d) 4096 ltac:(lia)) as E'.
  rewrite Hq in E'. lia.
Qed.

Lemma length_load_bytes (m : Z -> Z) (a : Z) (n : nat) :
  length (load_bytes m a n) = n.
Proof. unfold load_bytes. now rewrite length_map, length_seq. Qed.

Lemma nth_load_bytes (m : Z -> Z) (a : Z) (n k : nat) :
  (k < n)%nat -> nth k (load_bytes m a n) 0 = m (a + Z.of_nat k).
Proof.
  intros H. unfold load_bytes.
  set (f := fun i : nat => m (a + Z.of_nat i)).
  transitivity (nth k (map f (seq 0 n)) (f O)).
  - apply nth_indep. now rewrite length_map, length_seq.
  - rewrite (map_nth f), seq_nth by assumption. reflexivity.
Qed.

(** ** C5: reading *)

Lemma read_loop_spec (s : fs) (node offset sz : Z) (fuel : nat) :
  forall (bytes_read : Z) (out : list Z),
    0 <= offset -> offset + sz < 2147483648 ->
    0 <= bytes_read <= sz ->
    (Z.to_nat (sz - bytes_read) <= fuel)%nat ->
    Z.of_nat (length out) = bytes_read ->
    (forall j, 0 <= j < bytes_read -> read_byte_ok s node offset out j) ->
    let r := read_loop s node offset sz bytes_read out fuel in
    bytes_read <= fst r <= sz
    /\ Z.of_nat (length (snd r)) = fst r
    /\ (forall j, 0 <= j < fst r -> read_byte_ok s node offset (snd r) j)
    /\ (fst r < sz ->
        inode_get_bnum s node ((offset + fst r) / BLOCK_SIZE) <= 0).
Proof.
  induction fuel as [| fuel IH]; intros bytes_read out Hoff Hmax Hbr Hfuel Hlen Hout; cbn zeta.
  - cbn [read_loop fst snd]. refine (conj _ (conj _ (conj _ _))); try lia; try assumption.
  - cbn [read_loop].
    destruct (Z.ltb_spec bytes_read sz) as [Hlt | Hge].
    2:{ cbn [fst snd]. refine (conj _ (conj _ (conj _ _))); try lia; try assumption. }
    destruct (quot_rem_block (offset + bytes_read) ltac:(lia)) as [Eq Er].
    rewrite Eq, Er.
    pose proof (Z.mod_pos_bound (offset + bytes_read) BLOCK_SIZE ltac:(unfold BLOCK_SIZE; lia)) as Hbo.
    assert (Hdiv : 0 <= (offset + bytes_read) / BLOCK_SIZE < 2147483648).
    { unfold BLOCK_SIZE. split; [apply Z.div_pos; lia |].
      apply Z.div_lt_upper_bound; lia. }
    rewrite !cast_int_id by (unfold BLOCK_SIZE in *; lia).
    set (bo := (offset + bytes_read) mod BLOCK_SIZE) in *.
    set (fb := (offset + bytes_read) / BLOCK_SIZE) in *.
    destruct (Z.leb_spec (inode_get_bnum s node fb) 0) as [Hb | Hb].
    { cbn [fst snd]. refine (conj _ (conj _ (conj _ _))); try lia; try assumption.
      intros _. exact Hb. }
    cbn zeta.
    set (to_read := if BLOCK_SIZE - bo >? sz - bytes_read
                    then sz - bytes_read else BLOCK_SIZE - bo).
    assert (Htr : 1 <= to_read /\ to_read <= sz - bytes_read /\ bo + to_read <= BLOCK_SIZE).
    { unfold to_read. destruct (Z.gtb_spec (BLOCK_SIZE - bo) (sz - bytes_read)); lia. }
    specialize (IH (bytes_read + to_read)
                  (out ++ load_bytes (img s)
                     (blocks_get_block (inode_get_bnum s node fb) + bo) (Z.to_nat to_read))).
    cbn zeta in IH.
    destruct IH as (I1 & I2 & I3 & I4); try lia.
    + rewrite length_app, length_load_bytes. lia.
    + intros j Hj.
      destruct (Z_lt_le_dec j bytes_read) as [Hold | Hnew].
      * destruct (Hout j ltac:(lia)) as [Hb' Hn].
        split; [exact Hb' |].
        rewrite app_nth1 by lia. exact Hn.
      * unfold read_byte_ok; cbn zeta.
        destruct (block_offset_shift (offset + bytes_read) (j - bytes_read))
          as [Sq Sm]; try (fold bo; lia).
        replace (offset + bytes_read + (j - bytes_read)) with (offset + j) in Sq, Sm by lia.
        rewrite Sq, Sm. fold fb bo.
        split; [lia |].
        rewrite app_nth2 by lia.
        rewrite nth_load_bytes by lia.
        f_equal. lia.
    + refine (conj _ (conj _ (conj _ _))); try lia; assumption.
Qed.


(** ** Loads and stores *)

Lemma load_int_ext (m m' : Z -> Z) (a : Z) :
  (forall x, a <= x < a + INT_SIZE -> m x = m' x) -> load_int m a = load_int m' a.
Proof.
  unfold INT_SIZE. intros H. unfold load_int.
  rewrite (H a), (H (a + 1)), (H (a + 2)), (H (a + 3)) by lia. reflexivity.
Qed.

Lemma load_int_zero (m : Z -> Z) (a : Z) :
  (forall x, a <= x < a + INT_SIZE -> m x = 0) -> load_int m a = 0.
Proof.
  unfold INT_SIZE. intros H. unfold load_int.
  rewrite (H a), (H (a + 1)), (H (a + 2)), (H (a + 3)) by lia. reflexivity.
Qed.

Lemma store_int_other (m : Z -> Z) (a v x : Z) :
  x < a \/ a + INT_SIZE <= x -> store_int m a v x = m x.
Proof.
  unfold INT_SIZE, store_int. intros H.
  destruct (Z.eqb_spec x a); [lia |].
  destruct (Z.eqb_spec x (a + 1)); [lia |].
  destruct (Z.eqb_spec x (a + 2)); [lia |].
  destruct (Z.eqb_spec x (a + 3)); [lia | reflexivity].
Qed.

Lemma load_int_store_other (m : Z -> Z) (a v a' : Z) :
  a' + INT_SIZE <= a \/ a + INT_SIZE <= a' ->
  load_int (store_int m a v) a' = load_int m a'.
Proof.
  intros H. apply load_int_ext. intros x Hx.
  apply store_int_other. unfold INT_SIZE in *. lia.
Qed.

Lemma load_int_store_same (m : Z -> Z) (a v : Z) :
  -2147483648 <= v < 2147483648 -> load_int (store_int m a v) a = v.
Proof.
  intros Hv. unfold load_int, store_int.
  rewrite Z.eqb_refl.
  destruct (Z.eqb_spec (a + 1) a); [lia |]. rewrite Z.eqb_refl.
  destruct (Z.eqb_spec (a + 2) a); [lia |].
  destruct (Z.eqb_spec (a + 2) (a + 1)); [lia |]. rewrite Z.eqb_refl.
  destruct (Z.eqb_spec (a + 3) a); [lia |].
  destruct (Z.eqb_spec (a + 3) (a + 1)); [lia |].
  destruct (Z.eqb_spec (a + 3) (a + 2)); [lia |]. rewrite Z.eqb_refl.
  rewrite <- (cast_int_id v) at 5 by assumption.
  unfold cast_int. 
  replace ((v mod 256 + 256 * ((v / 256) mod 256) + 65536 * ((v / 65536) mod 256)
            + 16777216 * ((v / 16777216) mod 256)) mod 4294967296)
    with (v mod 4294967296); [reflexivity |].
  Z.to_euclidean_division_equations. lia.
Qed.

Lemma memset0_in (m : Z -> Z) (a len x : Z) :
  a <= x < a + len -> memset0 m a len x = 0.
Proof.
  intros H. unfold memset0.
  destruct (Z.leb_spec a x); destruct (Z.ltb_spec x (a + len)); cbn; lia.
Qed.

Lemma memset0_out (m : Z -> Z) (a len x : Z) :
  ~ (a <= x < a + len) -> memset0 m a len x = m x.
Proof.
  intros H. unfold memset0.
  destruct (Z.leb_spec a x); destruct (Z.ltb_spec x (a + len)); cbn; lia.
Qed.

(** ** Bitmap scans *)

Lemma first_clear_some (bm : Z -> bool) (n : nat) :
  forall ii b, first_clear bm ii n = Some b ->
    ii <= b < ii + Z.of_nat n /\ bm b = false
    /\ (forall j, ii <= j < b -> bm j = true).
Proof.
  induction n as [| n IH]; intros ii b H; cbn [first_clear] in H; [discriminate |].
  unfold bitmap_get in H. destruct (bm ii) eqn:E.
  - apply IH in H. destruct H as (H1 & H2 & H3).
    refine (conj _ (conj H2 _)); [lia |].
    intros j Hj. destruct (Z.eq_dec j ii) as [-> | Hne]; [assumption |].
    apply H3. lia.
  - injection H as <-. refine (conj _ (conj E _)); [lia |]. intros; lia.
Qed.

Lemma first_clear_none (bm : Z -> bool) (n : nat) :
  forall ii, first_clear bm ii n = None ->
    forall j, ii <= j < ii + Z.of_nat n -> bm j = true.
Proof.
  induction n as [| n IH]; intros ii H j Hj; cbn [first_clear] in H; [lia |].
  unfold bitmap_get in H. destruct (bm ii) eqn:E; [| discriminate].
  destruct (Z.eq_dec j ii) as [-> | Hne]; [assumption |].
  apply (IH (ii + 1) H). lia.
Qed.

Lemma alloc_block_inv (s s' : fs) (b : Z) :
  alloc_block s = (s', b) ->
  (b = -1 /\ s' = s /\ (forall j, 2 <= j < BLOCK_COUNT -> bbm s j = true))
  \/ (2 <= b < BLOCK_COUNT /\ bbm s b = false
      /\ s' = zero_block (with_bbm s (bitmap_put (bbm s) b true)) b).
Proof.
  unfold alloc_block. intros H.
  destruct (first_clear (bbm s) 2 254) as [b' |] eqn:E.
  - injection H as <- <-. right.
    apply first_clear_some in E. unfold BLOCK_COUNT.
    destruct E as (E1 & E2 & _). refine (conj _ (conj E2 eq_refl)). lia.
  - injection H as <- <-. left. refine (conj eq_refl (conj eq_refl _)).
    intros j Hj. apply (first_clear_none _ _ _ E). unfold BLOCK_COUNT in Hj. lia.
Qed.

(** ** Directory scans *)

Lemma dir_scan_find (s : fs) (di : Z) (hit : Z -> bool) (n : nat) :
  forall ii, dir_scan s di hit ii n = find hit (dir_slots s di ii n).
Proof.
  induction n as [| n IH]; intros ii; cbn [dir_scan dir_slots]; [reflexivity |].
  destruct (directory_get_entry s di ii) as [e |]; [| reflexivity].
  cbn [find]. destruct (hit e); [reflexivity | apply IH].
Qed.

Lemma streq_at_nil_head (m : Z -> Z) (a : Z) (name : cstr) :
  cstr_ok name -> name <> [] -> streq_at m a name = true -> m a <> 0.
Proof.
  intros Hok Hne H. destruct name as [| ch rest]; [contradiction |].
  cbn [streq_at] in H. apply andb_prop in H. destruct H as [H _].
  apply Z.eqb_eq in H. rewrite H. intros ->. apply Hok. now left.
Qed.

Lemma entry_matches_named (s : fs) (name : cstr) (e : Z) :
  cstr_ok name -> name <> [] ->
  (entry_matches s name e = true <-> named_entry s name e).
Proof.
  intros Hok Hne. unfold entry_matches, named_entry, entry_empty, dirent_name0.
  split.
  - intros H. apply andb_prop in H. destruct H as [H1 H2].
    split; [| exact H2].
    apply negb_true_iff in H1. rewrite H1. cbn [orb].
    apply Z.eqb_neq. now apply streq_at_nil_head with (name := name).
  - intros [H1 H2]. apply orb_false_elim in H1. destruct H1 as [H1 _].
    now rewrite H1, H2.
Qed.

Lemma named_entry_nil (s : fs) (e : Z) : ~ named_entry s [] e.
Proof.
  unfold named_entry, entry_empty, dirent_name0. cbn [streq_at].
  intros [H1 H2]. apply orb_false_elim in H1. destruct H1 as [_ H1].
  congruence.
Qed.

Lemma strlen_zero (name : cstr) : strlen name = 0 <-> name = [].
Proof.
  unfold strlen. destruct name; cbn [length]; split; intros H;
    try reflexivity; try discriminate; lia.
Qed.

(** ** C8: deleting a directory entry *)


(** ** One pass of [grow_inode] *)

Lemma upd_same {A : Type} (f : Z -> A) (i : Z) (v : A) : upd f i v i = v.
Proof. unfold upd. now rewrite Z.eqb_refl. Qed.

Lemma upd_other {A : Type} (f : Z -> A) (i j : Z) (v : A) :
  j <> i -> upd f i v j = f j.
Proof. unfold upd. intros H. destruct (Z.eqb_spec j i); [contradiction | reflexivity]. Qed.

Lemma itab_upd_inode_same (s : fs) (node : Z) (f : inode_t -> inode_t) :
  itab (upd_inode s node f) node = f (itab s node).
Proof. unfold upd_inode. cbn [itab with_itab]. apply upd_same. Qed.

Lemma itab_upd_inode_other (s : fs) (node j : Z) (f : inode_t -> inode_t) :
  j <> node -> itab (upd_inode s node f) j = itab s j.
Proof. unfold upd_inode. cbn [itab with_itab]. apply upd_other. Qed.

Lemma alloc_block_cases (s : fs) :
  (alloc_block s = (s, -1) /\ (forall j, 2 <= j < BLOCK_COUNT -> bbm s j = true))
  \/ (exists b, 2 <= b < BLOCK_COUNT /\ bbm s b = false
        /\ alloc_block s = (alloc_at s b, b)).
Proof.
  destruct (alloc_block s) as [s' b] eqn:E.
  destruct (alloc_block_inv _ _ _ E) as [(-> & -> & H) | (H1 & H2 & ->)].
  - left. split; [reflexivity | exact H].
  - right. exists b. repeat split; try lia; assumption.
Qed.

Lemma grow_step_inl (s : fs) (node ii : Z) (s' : fs) :
  grow_step s node ii = inl s' ->
  exists b, 2 <= b < BLOCK_COUNT /\ bbm s b = false /\
    ((ii = 0 /\ s' = upd_inode (zero_block (alloc_at s b) b) node (set_block b))
     \/ (ii <> 0 /\ indirect (itab s node) <> 0 /\
         s' = table_set (zero_block (alloc_at s b) b)
                (indirect (itab s node)) (ii - 1) b)
     \/ (ii <> 0 /\ indirect (itab s node) = 0 /\
         exists ib, 2 <= ib < BLOCK_COUNT /\ ib <> b /\ bbm s ib = false /\
           s' = table_set
                  (zero_block
                     (upd_inode (alloc_at (zero_block (alloc_at s b) b) ib)
                        node (set_indirect ib)) ib)
                  ib (ii - 1) b)).
Proof.
  unfold grow_step. intros H.
  destruct (alloc_block_cases s) as [[E _] | (b & Hb & Hfree & E)]; rewrite E in H.
  { cbn in H. discriminate. }
  destruct (Z.ltb_spec b 0); [lia |].
  exists b. refine (conj Hb (conj Hfree _)).
  destruct (Z.eqb_spec ii 0) as [Hii | Hii].
  { left. injection H as <-. split; [assumption | reflexivity]. }
  right.
  set (s2 := zero_block (alloc_at s b) b) in *.
  change (indirect (itab s2 node)) with (indirect (itab s node)) in H.
  destruct (Z.eqb_spec (indirect (itab s node)) 0) as [Hind | Hind].
  - right. refine (conj Hii (conj Hind _)).
    destruct (alloc_block_cases s2) as [[E2 _] | (ib & Hib & Hfree2 & E2)];
      rewrite E2 in H.
    { cbn in H. discriminate. }
    destruct (Z.ltb_spec ib 0); [lia |].
    injection H as <-.
    exists ib.
    assert (Hne : ib <> b).
    { intros ->. unfold s2, alloc_at, zero_block, bitmap_put in Hfree2.
      cbn [bbm with_img with_bbm] in Hfree2. rewrite upd_same in Hfree2. discriminate. }
    refine (conj Hib (conj Hne (conj _ _))).
    + unfold s2, alloc_at, zero_block, bitmap_put in Hfree2.
      cbn [bbm with_img with_bbm] in Hfree2. now rewrite upd_other in Hfree2.
    + rewrite upd_same. reflexivity.
  - left. injection H as <-. refine (conj Hii (conj Hind eq_refl)).
Qed.

Lemma table_get_set_same (s : fs) (ib k v : Z) :
  -2147483648 <= v < 2147483648 -> table_get (table_set s ib k v) ib k = v.
Proof.
  intros H. unfold table_get, table_set. cbn [img with_img].
  now apply load_int_store_same.
Qed.

Lemma itab_table_set (s : fs) (ib k v : Z) : itab (table_set s ib k v) = itab s.
Proof. reflexivity. Qed.

Lemma itab_zero_block (s : fs) (b : Z) : itab (zero_block s b) = itab s.
Proof. reflexivity. Qed.

Lemma itab_alloc_at (s : fs) (b : Z) : itab (alloc_at s b) = itab s.
Proof. reflexivity. Qed.

Lemma itab_free_block (s : fs) (b : Z) : itab (free_block s b) = itab s.
Proof. reflexivity. Qed.

Lemma grow_step_bnum (s : fs) (node ii : Z) (s' : fs) :
  grow_step s node ii = inl s' -> 0 <= ii <= BLOCK_SIZE / INT_SIZE ->
  2 <= inode_get_bnum s' node ii < BLOCK_COUNT.
Proof.
  change (BLOCK_SIZE / INT_SIZE) with 1024.
  intros H Hii. apply grow_step_inl in H.
  destruct H as (b & Hb & _ & [(-> & ->) | [(Hne & Hind & ->) | (Hne & Hind & ib & Hib & _ & _ & ->)]]).
  - unfold inode_get_bnum. cbn [Z.ltb Z.eqb Z.compare].
    rewrite itab_upd_inode_same. cbn [block set_block]. exact Hb.
  - unfold inode_get_bnum.
    destruct (Z.ltb_spec ii 0); [lia |].
    destruct (Z.eqb_spec ii 0); [lia |].
    change (itab (table_set _ _ _ _) node) with (itab s node).
    destruct (Z.eqb_spec (indirect (itab s node)) 0); [contradiction |].
    change (BLOCK_SIZE / INT_SIZE) with 1024.
    destruct (Z.geb_spec (ii - 1) 1024); [lia |].
    rewrite table_get_set_same by (unfold BLOCK_COUNT in Hb; lia). exact Hb.
  - unfold inode_get_bnum.
    destruct (Z.ltb_spec ii 0); [lia |].
    destruct (Z.eqb_spec ii 0); [lia |].
    rewrite itab_table_set, itab_zero_block, itab_upd_inode_same.
    cbn [indirect set_indirect].
    destruct (Z.eqb_spec ib 0); [lia |].
    change (BLOCK_SIZE / INT_SIZE) with 1024.
    destruct (Z.geb_spec (ii - 1) 1024); [lia |].
    rewrite table_get_set_same by (unfold BLOCK_COUNT in Hb; lia). exact Hb.
Qed.

Lemma bytes_to_blocks_add_block (n : Z) :
  bytes_to_blocks (n + BLOCK_SIZE) = bytes_to_blocks n + 1.
Proof.
  unfold bytes_to_blocks, BLOCK_SIZE.
  replace (n + 4096 + 4096 - 1) with (n + 4096 - 1 + 1 * 4096) by lia.
  rewrite Z.div_add by lia. reflexivity.
Qed.

Lemma blocks_of_nonneg (sz : Z) : 0 <= sz -> blocks_of sz = bytes_to_blocks sz.
Proof.
  intros H. unfold blocks_of. destruct (Z.eqb_spec sz 0) as [-> | _]; reflexivity.
Qed.

Lemma inode_get_bnum_fields (s s' : fs) (node k : Z) :
  block (itab s' node) = block (itab s node) ->
  indirect (itab s' node) = indirect (itab s node) ->
  img s' = img s ->
  inode_get_bnum s' node k = inode_get_bnum s node k.
Proof.
  intros Hb Hi Hm. unfold inode_get_bnum, table_get. now rewrite Hb, Hi, Hm.
Qed.

(** Growing by one block from a non-negative size makes the new last
    block addressable. *)
Lemma grow_one_block_bnum (s s' : fs) (node : Z) :
  0 <= size (itab s node) ->
  bytes_to_blocks (size (itab s node)) <= BLOCK_SIZE / INT_SIZE ->
  grow_inode s node (size (itab s node) + BLOCK_SIZE) = (s', 0) ->
  2 <= inode_get_bnum s' node (bytes_to_blocks (size (itab s node))) < BLOCK_COUNT.
Proof.
  intros Hsz Hmax H. unfold grow_inode in H.
  fold (blocks_of (size (itab s node))) in H.
  fold (blocks_of (size (itab s node) + BLOCK_SIZE)) in H.
  rewrite !blocks_of_nonneg in H by (unfold BLOCK_SIZE; lia).
  rewrite bytes_to_blocks_add_block in H.
  replace (bytes_to_blocks (size (itab s node)) + 1 - bytes_to_blocks (size (itab s node)))
    with 1 in H by lia.
  change (Z.to_nat 1) with 1%nat in H. cbn [grow_loop] in H.
  destruct (grow_step s node (bytes_to_blocks (size (itab s node)))) as [s1 | s1] eqn:E;
    [| discriminate].
  injection H as <-.
  pose proof (bytes_to_blocks_nonneg _ Hsz).
  pose proof (grow_step_bnum _ _ _ _ E ltac:(lia)) as G.
  erewrite inode_get_bnum_fields; [exact G | | | reflexivity].
  - rewrite !itab_upd_inode_same. reflexivity.
  - rewrite !itab_upd_inode_same. reflexivity.
Qed.

(** ** C7: names accepted by [directory_put] *)


(** ** C6: rename *)

(** C6, failing inputs.  On a fresh image [storage_rename("/", "/x")]
    returns 0 although the source still resolves afterwards and the
    target does not: [directory_put] stores an entry with inode number 0,
    which every scan takes for an empty slot, and the failure of
    [directory_delete] on the empty basename is ignored.  Likewise
    [storage_rename("/d", "/d/x")] returns 0 and leaves neither path
    resolvable. *)
Theorem storage_rename_failing_inputs :
  tree_lookup fresh_fs (cstr_of_string "/") = 0
  /\ tree_lookup fresh_fs (cstr_of_string "/x") = -1
  /\ tree_lookup_parent fresh_fs (cstr_of_string "/x") = 0
  /\ match storage_rename fresh_fs (cstr_of_string "/") (cstr_of_string "/x") with
     | Some (s', r) =>
         r = 0 /\ tree_lookup s' (cstr_of_string "/") = 0
         /\ tree_lookup s' (cstr_of_string "/x") = -1
     | None => False
     end
  /\ tree_lookup fs_with_dir (cstr_of_string "/d") = 1
  /\ tree_lookup fs_with_dir (cstr_of_string "/d/x") = -1
  /\ tree_lookup_parent fs_with_dir (cstr_of_string "/d/x") = 1
  /\ match storage_rename fs_with_dir (cstr_of_string "/d") (cstr_of_string "/d/x") with
     | Some (s', r) =>
         r = 0 /\ tree_lookup s' (cstr_of_string "/d") = -1
         /\ tree_lookup s' (cstr_of_string "/d/x") = -1
     | None => False
     end.
Proof.
  vm_compute. repeat split.
Qed.

(** ** C3: inode bitmap and reference counts *)

(** C3, failing input.  Renaming [/x/] (with a trailing slash) to [/y]
    succeeds but keeps the entry [x], since [directory_delete] is called
    on the parent of ["/x/"] with the empty basename and its failure is
    ignored; inode 1 then has two entries and [refs = 1].  Unlinking [/x]
    frees the inode while [/y] still names it, and linking [/y] to [/z]
    raises [refs] of the freed inode to 1: its bitmap bit is clear while
    [refs >= 1]. *)
Theorem refs_bitmap_failing_input :
  let s0 := fst (storage_mknod fresh_fs (cstr_of_string "/x") FILE_MODE) in
  let s1 := run (storage_rename s0 (cstr_of_string "/x/") (cstr_of_string "/y")) s0 in
  let s2 := run (storage_unlink s1 (cstr_of_string "/x")) s1 in
  option_map snd (storage_rename s0 (cstr_of_string "/x/") (cstr_of_string "/y")) = Some 0
  /\ option_map snd (storage_unlink s1 (cstr_of_string "/x")) = Some 0
  /\ option_map snd (storage_link s2 (cstr_of_string "/y") (cstr_of_string "/z")) = Some 0
  /\ ibm s0 1 = true /\ refs (itab s0 1) = 1
  /\ ibm s2 1 = false /\ refs (itab s2 1) = 0
  /\ ibm fs_dangling 1 = false /\ refs (itab fs_dangling 1) = 1.
Proof.
  vm_compute. repeat split.
Qed.

(** ** Witnesses on a small image *)



(** ** Paths: parent and basename *)

Lemma slist_explode_nonempty (text : cstr) (d : Z) : slist_explode text d <> [].
Proof.
  destruct text as [| ch rest]; cbn [slist_explode]; [discriminate |].
  destruct (ch =? d); [discriminate |].
  destruct (slist_explode rest d); discriminate.
Qed.

Lemma slist_explode_no_delim (text : cstr) (d : Z) :
  ~ In d text -> slist_explode text d = [text].
Proof.
  induction text as [| ch rest IH]; intros H; cbn [slist_explode]; [reflexivity |].
  destruct (Z.eqb_spec ch d) as [-> | Hne].
  - exfalso. apply H. now left.
  - rewrite IH; [reflexivity |]. intros Hin. apply H. now right.
Qed.

Lemma slist_explode_app (pre post : cstr) (d : Z) :
  slist_explode (pre ++ d :: post) d = slist_explode pre d ++ slist_explode post d.
Proof.
  induction pre as [| ch pre IH]; cbn [app slist_explode].
  - now rewrite Z.eqb_refl.
  - destruct (ch =? d).
    + now rewrite IH.
    + rewrite IH. pose proof (slist_explode_nonempty pre d).
      destruct (slist_explode pre d) as [| w ws]; [contradiction | reflexivity].
Qed.

Lemma strrchr_none (p : cstr) (ch : Z) : strrchr p ch = None -> ~ In ch p.
Proof.
  induction p as [| x rest IH]; cbn [strrchr]; intros H Hin; [exact Hin |].
  destruct (strrchr rest ch); [discriminate |].
  destruct (Z.eqb_spec x ch); [discriminate |].
  destruct Hin as [-> | Hin]; [contradiction | now apply IH].
Qed.

Lemma strrchr_some (p : cstr) (ch : Z) :
  forall i, strrchr p ch = Some i ->
    p = firstn i p ++ ch :: skipn (S i) p /\ ~ In ch (skipn (S i) p).
Proof.
  induction p as [| x rest IH]; cbn [strrchr]; intros i H; [discriminate |].
  destruct (strrchr rest ch) as [k |] eqn:E.
  - injection H as <-. destruct (IH k eq_refl) as [H1 H2].
    change (firstn (S k) (x :: rest)) with (x :: firstn k rest).
    change (skipn (S (S k)) (x :: rest)) with (skipn (S k) rest).
    split; [cbn [app]; f_equal; exact H1 | exact H2].
  - destruct (Z.eqb_spec x ch) as [-> |]; [| discriminate].
    injection H as <-.
    change (skipn 1 (ch :: rest)) with rest.
    split; [reflexivity | now apply strrchr_none].
Qed.

Lemma tree_walk_app (s : fs) (l1 l2 : list cstr) :
  forall cur, 0 <= cur ->
    tree_walk s (l1 ++ l2) cur =
    (if tree_walk s l1 cur <? 0 then -1 else tree_walk s l2 (tree_walk s l1 cur)).
Proof.
  induction l1 as [| data next IH]; intros cur Hcur; cbn [app tree_walk].
  - destruct (Z.ltb_spec cur 0); [lia | reflexivity].
  - destruct (strlen data =? 0); [now apply IH |].
    destruct (get_inode cur) as [d |]; [| reflexivity].
    destruct (Z.land (mode (itab s d)) S_IFDIR =? 0); [reflexivity |].
    destruct (Z.ltb_spec (directory_lookup s d data) 0); [reflexivity |].
    now apply IH.
Qed.

Lemma tree_lookup_slash (s : fs) (tail : cstr) :
  tree_lookup s (SLASH :: tail) = tree_walk s (slist_explode tail SLASH) 0.
Proof.
  unfold tree_lookup. rewrite Z.eqb_refl. cbn [negb].
  destruct tail; reflexivity.
Qed.

Lemma tree_walk_single (s : fs) (name : cstr) (cur i : Z) :
  name <> [] -> tree_walk s [name] cur = i -> 0 <= i ->
  0 <= cur < INODE_COUNT
  /\ Z.land (mode (itab s cur)) S_IFDIR <> 0
  /\ directory_lookup s cur name = i.
Proof.
  intros Hne H Hi. cbn [tree_walk] in H.
  destruct (Z.eqb_spec (strlen name) 0) as [Hz | _].
  { now apply strlen_zero in Hz. }
  unfold get_inode in H.
  destruct (Z.ltb_spec cur 0); cbn [orb] in H; [lia |].
  destruct (Z.geb_spec cur INODE_COUNT); [lia |].
  destruct (Z.eqb_spec (Z.land (mode (itab s cur)) S_IFDIR) 0); [lia |].
  destruct (Z.ltb_spec (directory_lookup s cur name) 0); [lia |].
  repeat split; try lia; assumption.
Qed.

Lemma get_basename_slash (tail : cstr) :
  get_basename (SLASH :: tail) =
  match strrchr tail SLASH with Some k => skipn (S k) tail | None => tail end.
Proof.
  unfold get_basename. cbn [strrchr]. rewrite Z.eqb_refl.
  destruct (strrchr tail SLASH); reflexivity.
Qed.

Lemma tree_lookup_parent_slash (s : fs) (tail : cstr) :
  tail <> [] ->
  tree_lookup_parent s (SLASH :: tail) =
  match strrchr tail SLASH with
  | Some k => tree_lookup s (SLASH :: firstn k tail)
  | None => 0
  end.
Proof.
  intros Hne. unfold tree_lookup_parent. rewrite Z.eqb_refl. cbn [negb].
  destruct tail as [| t0 tl]; [contradiction |].
  cbn [strrchr]. rewrite Z.eqb_refl.
  destruct (match strrchr tl SLASH with
            | Some i => Some (S i)
            | None => if t0 =? SLASH then Some 0%nat else None
            end); reflexivity.
Qed.

(** A path that resolves and has a non-empty basename: the parent
    resolves to a directory of the table, in which the basename is looked
    up. *)
Lemma tree_lookup_parent_basename (s : fs) (path : cstr) (i : Z) :
  tree_lookup s path = i -> 0 <= i -> get_basename path <> [] ->
  0 <= tree_lookup_parent s path < INODE_COUNT
  /\ Z.land (mode (itab s (tree_lookup_parent s path))) S_IFDIR <> 0
  /\ directory_lookup s (tree_lookup_parent s path) (get_basename path) = i.
Proof.
  intros H Hi Hbase.
  destruct path as [| c0 tail]; [cbn in H; lia |].
  destruct (Z.eqb_spec c0 SLASH) as [-> | Hc0].
  2:{ unfold tree_lookup in H. destruct (Z.eqb_spec c0 SLASH); [contradiction |].
      cbn in H. lia. }
  rewrite tree_lookup_slash in H.
  rewrite get_basename_slash in *.
  assert (Hne : tail <> []).
  { intros ->. cbn in Hbase. contradiction. }
  rewrite tree_lookup_parent_slash by assumption.
  destruct (strrchr tail SLASH) as [k |] eqn:E.
  - apply strrchr_some in E. destruct E as [Esplit Hnot].
    rewrite tree_lookup_slash.
    rewrite Esplit, slist_explode_app, (slist_explode_no_delim _ _ Hnot) in H.
    rewrite tree_walk_app in H by lia.
    destruct (Z.ltb_spec (tree_walk s (slist_explode (firstn k tail) SLASH) 0) 0); [lia |].
    now apply tree_walk_single.
  - apply strrchr_none in E.
    rewrite slist_explode_no_delim in H by assumption.
    now apply tree_walk_single.
Qed.

Lemma directory_lookup_found (s : fs) (di : Z) (name : cstr) (i : Z) :
  directory_lookup s di name = i -> 0 <= i ->
  name <> []
  /\ exists e, find (entry_matches s name) (dir_entries s di) = Some e
               /\ dirent_inum s e = i.
Proof.
  unfold directory_lookup. intros H Hi.
  destruct (Z.eqb_spec (strlen name) 0) as [Hz | Hnz]; [lia |].
  split; [intros ->; now apply Hnz |].
  rewrite dir_scan_find in H. fold (dir_entries s di) in H.
  destruct (find (entry_matches s name) (dir_entries s di)) as [e |]; [| lia].
  now exists e.
Qed.

Lemma free_indirect_loop_frame (ib : Z) (n : nat) :
  forall s ii,
    img (free_indirect_loop s ib ii n) = img s
    /\ itab (free_indirect_loop s ib ii n) = itab s
    /\ ibm (free_indirect_loop s ib ii n) = ibm s.
Proof.
  induction n as [| n IH]; intros s ii; cbn [free_indirect_loop]; [auto |].
  destruct (table_get s ib ii =? 0); [apply IH |].
  destruct (IH (free_block s (table_get s ib ii)) (ii + 1)) as (H1 & H2 & H3).
  rewrite H1, H2, H3. auto.
Qed.

Lemma free_inode_frame (s : fs) (inum : Z) :
  0 <= inum < INODE_COUNT ->
  img (free_inode s inum) = img s
  /\ ibm (free_inode s inum) = bitmap_put (ibm s) inum false
  /\ itab (free_inode s inum) = upd (itab s) inum zero_inode.
Proof.
  intros H. unfold free_inode.
  destruct (Z.ltb_spec inum 0); [lia |].
  destruct (Z.geb_spec inum INODE_COUNT); [lia |]. cbn [orb].
  set (s1 := if block (itab s inum) =? 0 then s else free_block s (block (itab s inum))).
  assert (HA : img s1 = img s /\ itab s1 = itab s /\ ibm s1 = ibm s).
  { unfold s1. destruct (block (itab s inum) =? 0); auto. }
  destruct HA as (A1 & A2 & A3).
  set (s2 := if indirect (itab s1 inum) =? 0 then s1 else _).
  assert (HB : img s2 = img s /\ itab s2 = itab s /\ ibm s2 = ibm s).
  { unfold s2. destruct (indirect (itab s1 inum) =? 0); [auto |].
    match goal with
    | |- context [free_indirect_loop ?a ?b ?c ?d] =>
        destruct (free_indirect_loop_frame b d a c) as (B1 & B2 & B3)
    end.
    unfold free_block. cbn [img itab ibm with_bbm].
    rewrite B1, B2, B3. auto. }
  destruct HB as (B1 & B2 & B3).
  unfold upd_inode. cbn [img itab ibm with_ibm with_itab].
  rewrite B1, B2, B3. auto.
Qed.

(** ** C10: [rmdir] on a regular file *)




(** * Block ownership

    The invariants of the data model: every inode owns the blocks its
    size calls for, the blocks it references are marked in the block
    bitmap, no block is referenced twice, and the unused part of an
    indirect table is zero. *)

(** ** Tables under the updates of the image *)

Lemma blocks_disjoint (ib ib' k k' : Z) :
  0 <= k < BLOCK_SIZE / INT_SIZE -> 0 <= k' < BLOCK_SIZE / INT_SIZE ->
  ib <> ib' \/ k <> k' ->
  blocks_get_block ib + INT_SIZE * k + INT_SIZE <= blocks_get_block ib' + INT_SIZE * k'
  \/ blocks_get_block ib' + INT_SIZE * k' + INT_SIZE <= blocks_get_block ib + INT_SIZE * k.
Proof.
  unfold blocks_get_block, BLOCK_SIZE, INT_SIZE.
  change (4096 / 4) with 1024. lia.
Qed.

Lemma table_get_set_other (s : fs) (ib k v ib' k' : Z) :
  0 <= k < BLOCK_SIZE / INT_SIZE -> 0 <= k' < BLOCK_SIZE / INT_SIZE ->
  ib <> ib' \/ k <> k' ->
  table_get (table_set s ib k v) ib' k' = table_get s ib' k'.
Proof.
  intros Hk Hk' Hne. unfold table_get, table_set. cbn [img with_img].
  apply load_int_store_other.
  destruct (blocks_disjoint ib ib' k k' Hk Hk' Hne); lia.
Qed.

Lemma table_get_outside (s s' : fs) (b ib k : Z) :
  same_outside s s' b -> ib <> b -> 0 <= k < BLOCK_SIZE / INT_SIZE ->
  table_get s' ib k = table_get s ib k.
Proof.
  intros H Hne Hk. unfold table_get. apply load_int_ext. intros x Hx.
  apply H. revert Hk Hx.
  unfold blocks_get_block, BLOCK_SIZE, INT_SIZE. change (4096 / 4) with 1024. lia.
Qed.

Lemma table_get_zero_block_same (s : fs) (b k : Z) :
  0 <= k < BLOCK_SIZE / INT_SIZE -> table_get (zero_block s b) b k = 0.
Proof.
  intros Hk. unfold table_get, zero_block. cbn [img with_img].
  apply load_int_zero. intros x Hx. apply memset0_in. revert Hk Hx.
  unfold blocks_get_block, BLOCK_SIZE, INT_SIZE. change (4096 / 4) with 1024. lia.
Qed.

Lemma same_outside_zero_block (s : fs) (b : Z) : same_outside s (zero_block s b) b.
Proof.
  intros x Hx. unfold zero_block. cbn [img with_img]. now apply memset0_out.
Qed.

Lemma same_outside_refl (s : fs) (b : Z) : same_outside s s b.
Proof. intros x _. reflexivity. Qed.

Lemma same_outside_trans (s1 s2 s3 : fs) (b : Z) :
  same_outside s1 s2 b -> same_outside s2 s3 b -> same_outside s1 s3 b.
Proof. intros H1 H2 x Hx. rewrite H2, H1 by assumption. reflexivity. Qed.

(** ** References of an inode *)

Lemma inode_get_bnum_indirect (s : fs) (j r : Z) :
  1 <= r -> 0 < inode_get_bnum s j r ->
  indirect (itab s j) <> 0 /\ r <= BLOCK_SIZE / INT_SIZE
  /\ inode_get_bnum s j r = table_get s (indirect (itab s j)) (r - 1).
Proof.
  unfold inode_get_bnum. intros Hr H.
  destruct (Z.ltb_spec r 0); [lia |].
  destruct (Z.eqb_spec r 0); [lia |].
  destruct (Z.eqb_spec (indirect (itab s j)) 0); [lia |].
  destruct (Z.geb_spec (r - 1) (BLOCK_SIZE / INT_SIZE)); [lia |].
  repeat split; try assumption; lia.
Qed.

Lemma inode_get_bnum_table (s : fs) (j r : Z) :
  1 <= r <= BLOCK_SIZE / INT_SIZE -> indirect (itab s j) <> 0 ->
  inode_get_bnum s j r = table_get s (indirect (itab s j)) (r - 1).
Proof.
  intros Hr Hi. unfold inode_get_bnum.
  change (BLOCK_SIZE / INT_SIZE) with 1024 in *.
  destruct (Z.ltb_spec r 0); [lia |].
  destruct (Z.eqb_spec r 0); [lia |].
  destruct (Z.eqb_spec (indirect (itab s j)) 0); [contradiction |].
  destruct (Z.geb_spec (r - 1) 1024); [lia | reflexivity].
Qed.

Lemma ref_ind (s : fs) (j : Z) : ref s j (-1) = indirect (itab s j).
Proof. reflexivity. Qed.

Lemma ref_data (s : fs) (j r : Z) : 0 <= r -> ref s j r = inode_get_bnum s j r.
Proof.
  intros H. unfold ref. destruct (Z.eqb_spec r (-1)); [lia | reflexivity].
Qed.

Lemma ref_direct (s : fs) (j : Z) : ref s j 0 = block (itab s j).
Proof. reflexivity. Qed.

(** [ref] only reads the two pointers of the inode and, for [r >= 1],
    entry [r - 1] of its indirect table. *)
Lemma ref_frame (s s' : fs) (j r : Z) :
  block (itab s' j) = block (itab s j) ->
  indirect (itab s' j) = indirect (itab s j) ->
  (1 <= r <= BLOCK_SIZE / INT_SIZE -> indirect (itab s j) <> 0 ->
   table_get s' (indirect (itab s j)) (r - 1) = table_get s (indirect (itab s j)) (r - 1)) ->
  ref s' j r = ref s j r.
Proof.
  intros Hb Hi Ht. unfold ref, inode_get_bnum.
  rewrite Hb, Hi.
  destruct (r =? -1); [reflexivity |].
  destruct (Z.ltb_spec r 0); [reflexivity |].
  destruct (Z.eqb_spec r 0); [reflexivity |].
  destruct (Z.eqb_spec (indirect (itab s j)) 0); [reflexivity |].
  destruct (Z.geb_spec (r - 1) (BLOCK_SIZE / INT_SIZE)); [reflexivity |].
  apply Ht; [lia | assumption].
Qed.

(** ** The invariant, for given block counts *)

(** Moving the invariant to another state: every slot in use afterwards
    is either a slot that was in use, with the same block, still marked,
    or a new slot with a marked block that no slot referenced; new slots
    have distinct blocks. *)
Lemma inv_gen_transfer (s s' : fs) (cnt cnt' : Z -> Z) (h h' : Z -> bool) :
  inv_gen s cnt h ->
  (forall j, 0 <= j < INODE_COUNT -> 0 <= cnt' j /\ (h' j = false -> cnt' j <= 1)) ->
  (forall j r, 0 <= j < INODE_COUNT -> slot_ok (cnt' j) (h' j) r ->
     (slot_ok (cnt j) (h j) r /\ ref s' j r = ref s j r /\ bbm s' (ref s j r) = true)
     \/ (~ slot_ok (cnt j) (h j) r
         /\ 2 <= ref s' j r < BLOCK_COUNT
         /\ bbm s' (ref s' j r) = true
         /\ (forall j0 r0, 0 <= j0 < INODE_COUNT -> slot_ok (cnt j0) (h j0) r0 ->
               ref s j0 r0 <> ref s' j r)
         /\ (forall j' r', 0 <= j' < INODE_COUNT -> slot_ok (cnt' j') (h' j') r' ->
               ~ slot_ok (cnt j') (h j') r' -> ref s' j' r' = ref s' j r ->
               j' = j /\ r' = r))) ->
  (forall j, 0 <= j < INODE_COUNT ->
     (cnt' j = 0 -> block (itab s' j) = 0)
     /\ (h' j = false -> indirect (itab s' j) = 0)
     /\ (h' j = true -> forall k, Z.max (cnt' j - 1) 0 <= k < BLOCK_SIZE / INT_SIZE ->
           table_get s' (indirect (itab s' j)) k = 0)) ->
  inv_gen s' cnt' h'.
Proof.
  intros I Hcnt Hslots Hzero. constructor; try assumption.
  - intros j r Hj Hr.
    destruct (Hslots j r Hj Hr) as [(Hold & E & Hm) | (_ & Hrange & Hm & _)].
    + rewrite E. split; [apply (ig_ref _ _ _ I j r Hj Hold) | exact Hm].
    + split; assumption.
  - intros j r j' r' Hj Hj' Hr Hr' E.
    destruct (Hslots j r Hj Hr) as [(Hold & E1 & Hm) | (Hn & Hrange & Hm & Hun & Hnew)];
    destruct (Hslots j' r' Hj' Hr') as [(Hold' & E1' & Hm') | (Hn' & Hrange' & Hm' & Hun' & Hnew')].
    + apply (ig_uniq _ _ _ I j r j' r' Hj Hj' Hold Hold'). congruence.
    + exfalso. apply (Hun' j r Hj Hold). congruence.
    + exfalso. apply (Hun j' r' Hj' Hold'). congruence.
    + destruct (Hnew j' r' Hj' Hr' Hn' (eq_sym E)) as [-> ->]. split; reflexivity.
Qed.

(** States that agree on the pointers of the inodes and on the indirect
    tables in use have the same references. *)
Lemma inv_gen_frame (s s' : fs) (cnt : Z -> Z) (h : Z -> bool) :
  inv_gen s cnt h ->
  (forall j, 0 <= j < INODE_COUNT ->
     block (itab s' j) = block (itab s j) /\ indirect (itab s' j) = indirect (itab s j)) ->
  (forall j k, 0 <= j < INODE_COUNT -> h j = true -> 0 <= k < BLOCK_SIZE / INT_SIZE ->
     table_get s' (indirect (itab s j)) k = table_get s (indirect (itab s j)) k) ->
  (forall j r, 0 <= j < INODE_COUNT -> slot_ok (cnt j) (h j) r ->
     bbm s' (ref s j r) = true) ->
  inv_gen s' cnt h
  /\ (forall j r, 0 <= j < INODE_COUNT -> slot_ok (cnt j) (h j) r ->
        ref s' j r = ref s j r).
Proof.
  intros I Hp Ht Hm.
  assert (Href : forall j r, 0 <= j < INODE_COUNT -> slot_ok (cnt j) (h j) r ->
                   ref s' j r = ref s j r).
  { intros j r Hj Hr. destruct (Hp j Hj) as [Hb Hi].
    apply ref_frame; try assumption.
    intros Hr1 Hind. apply Ht; [assumption | | lia].
    destruct (h j) eqn:Eh; [reflexivity | exfalso].
    destruct (ig_zero _ _ _ I j Hj) as (_ & Hz & _). now apply Hind, Hz. }
  split; [| exact Href].
  apply (inv_gen_transfer s s' cnt cnt h h I).
  - apply (ig_cnt _ _ _ I).
  - intros j r Hj Hr. left. auto.
  - intros j Hj. destruct (Hp j Hj) as [Hb Hi].
    destruct (ig_zero _ _ _ I j Hj) as (Z1 & Z2 & Z3).
    rewrite Hb, Hi. refine (conj Z1 (conj Z2 _)).
    intros Hh k Hk. rewrite Ht by (try assumption; lia). now apply Z3.
Qed.

(** The counts only matter on the inodes of the table. *)
Lemma inv_gen_ext (s : fs) (cnt cnt' : Z -> Z) (h h' : Z -> bool) :
  inv_gen s cnt h ->
  (forall j, 0 <= j < INODE_COUNT -> cnt' j = cnt j /\ h' j = h j) ->
  inv_gen s cnt' h'.
Proof.
  intros I E. constructor.
  - intros j Hj. destruct (E j Hj) as [-> ->]. now apply (ig_cnt _ _ _ I).
  - intros j r Hj. destruct (E j Hj) as [-> ->]. now apply (ig_ref _ _ _ I).
  - intros j r j' r' Hj Hj'. destruct (E j Hj) as [-> ->]. destruct (E j' Hj') as [-> ->].
    now apply (ig_uniq _ _ _ I).
  - intros j Hj. destruct (E j Hj) as [-> ->]. now apply (ig_zero _ _ _ I).
Qed.

(** An inode cannot own more data blocks than the image has: its blocks
    are distinct blocks of [2, 256). *)
Lemma inv_gen_cnt_bound (s : fs) (cnt : Z -> Z) (h : Z -> bool) (j : Z) :
  inv_gen s cnt h -> 0 <= j < INODE_COUNT -> cnt j <= 254.
Proof.
  intros I Hj.
  destruct (Z_le_gt_dec (cnt j) 254) as [Hle | Hgt]; [exact Hle | exfalso].
  set (l := map (fun r => ref s j (Z.of_nat r)) (seq 0 255)).
  assert (Hnd : NoDup l).
  { unfold l. apply NoDup_map_NoDup_ForallPairs; [| apply seq_NoDup].
    intros x y Hx Hy E. apply in_seq in Hx, Hy.
    destruct (ig_uniq _ _ _ I j (Z.of_nat x) j (Z.of_nat y) Hj Hj) as [_ Hxy];
      try (right; lia); try assumption.
    lia. }
  assert (Hincl : incl l (map Z.of_nat (seq 2 254))).
  { intros b Hb. unfold l in Hb. apply in_map_iff in Hb.
    destruct Hb as (x & <- & Hx). apply in_seq in Hx.
    destruct (ig_ref _ _ _ I j (Z.of_nat x) Hj) as [Hr _]; [right; lia |].
    apply in_map_iff. exists (Z.to_nat (ref s j (Z.of_nat x))).
    unfold BLOCK_COUNT in Hr.
    split; [lia | apply in_seq; lia]. }
  pose proof (NoDup_incl_length Hnd Hincl) as Hlen.
  unfold l in Hlen. rewrite !length_map, !length_seq in Hlen. lia.
Qed.

(** ** Changes of the image inside one block *)

(** A change of the image inside a block that is not an indirect block
    in use, with the same inode table and no bit cleared, keeps the
    invariant and every reference. *)
Lemma inv_gen_outside (s s' : fs) (cnt : Z -> Z) (h : Z -> bool) (b : Z) :
  inv_gen s cnt h ->
  itab s' = itab s ->
  same_outside s s' b ->
  (forall j, 0 <= j < INODE_COUNT -> h j = true -> indirect (itab s j) <> b) ->
  (forall x, bbm s x = true -> bbm s' x = true) ->
  inv_gen s' cnt h
  /\ (forall j r, 0 <= j < INODE_COUNT -> slot_ok (cnt j) (h j) r ->
        ref s' j r = ref s j r).
Proof.
  intros I Hit Hout Hind Hbm.
  apply inv_gen_frame; try assumption.
  - intros j _. now rewrite Hit.
  - intros j k Hj Hh Hk. apply (table_get_outside s s' b); auto.
  - intros j r Hj Hr. apply Hbm. now apply (ig_ref _ _ _ I).
Qed.

Lemma spare_outside (s s' : fs) (cnt : Z -> Z) (h : Z -> bool) (b' : Z) :
  (forall j r, 0 <= j < INODE_COUNT -> slot_ok (cnt j) (h j) r ->
     ref s' j r = ref s j r) ->
  (forall x, bbm s x = true -> bbm s' x = true) ->
  spare s cnt h b' -> spare s' cnt h b'.
Proof.
  intros Href Hbm (Hr & Hm & Hun).
  refine (conj Hr (conj (Hbm _ Hm) _)).
  intros j r Hj Hs. rewrite Href by assumption. now apply Hun.
Qed.

Lemma inv_alloc_at (s : fs) (cnt : Z -> Z) (h : Z -> bool) (b : Z) :
  inv_gen s cnt h -> 2 <= b < BLOCK_COUNT -> bbm s b = false ->
  inv_gen (alloc_at s b) cnt h
  /\ spare (alloc_at s b) cnt h b
  /\ (forall b', spare s cnt h b' -> spare (alloc_at s b) cnt h b').
Proof.
  intros I Hb Hfree.
  assert (Hbm : forall x, bbm s x = true -> bbm (alloc_at s b) x = true).
  { intros x Hx. unfold alloc_at, zero_block, bitmap_put. cbn [bbm with_img with_bbm].
    destruct (Z.eq_dec x b) as [-> | Hne]; [congruence |]. now rewrite upd_other. }
  destruct (inv_gen_outside s (alloc_at s b) cnt h b I) as [I' Href]; try assumption.
  - reflexivity.
  - apply (same_outside_zero_block (with_bbm s (bitmap_put (bbm s) b true)) b).
  - intros j Hj Hh E.
    destruct (ig_ref _ _ _ I j (-1) Hj) as [_ Hm]; [left; auto |].
    rewrite ref_ind in Hm. congruence.
  - refine (conj I' (conj _ _)).
    + refine (conj Hb (conj _ _)).
      * unfold alloc_at, zero_block, bitmap_put. cbn [bbm with_img with_bbm].
        apply upd_same.
      * intros j r Hj Hs E. rewrite Href in E by assumption.
        destruct (ig_ref _ _ _ I j r Hj Hs) as [_ Hm]. congruence.
    + intros b'. now apply spare_outside.
Qed.

Lemma inv_zero_spare (s : fs) (cnt : Z -> Z) (h : Z -> bool) (b : Z) :
  inv_gen s cnt h -> spare s cnt h b ->
  inv_gen (zero_block s b) cnt h
  /\ (forall b', spare s cnt h b' -> spare (zero_block s b) cnt h b').
Proof.
  intros I (Hr & Hm & Hun).
  destruct (inv_gen_outside s (zero_block s b) cnt h b I) as [I' Href]; auto.
  - apply same_outside_zero_block.
  - intros j Hj Hh. rewrite <- ref_ind. apply (Hun j (-1) Hj). left; auto.
  - split; [exact I' |]. intros b'. now apply spare_outside.
Qed.

(** ** Attaching blocks *)

Lemma ref_same_inode (s s' : fs) (j r : Z) :
  itab s' j = itab s j -> img s' = img s -> ref s' j r = ref s j r.
Proof.
  intros Hi Hm. unfold ref, inode_get_bnum, table_get. now rewrite Hi, Hm.
Qed.

Lemma slot_ok_upd_other (cnt : Z -> Z) (h : Z -> bool) (node j v r : Z) :
  j <> node -> slot_ok (upd cnt node v j) (h j) r <-> slot_ok (cnt j) (h j) r.
Proof. intros H. now rewrite upd_other. Qed.

(** [node->block = b] for an inode without data block. *)
Lemma inv_attach_direct (s : fs) (cnt : Z -> Z) (h : Z -> bool) (node b : Z) :
  inv_gen s cnt h -> 0 <= node < INODE_COUNT -> cnt node = 0 -> spare s cnt h b ->
  inv_gen (upd_inode s node (set_block b)) (upd cnt node 1) h.
Proof.
  intros I Hn Hc (Hr & Hm & Hun).
  set (s' := upd_inode s node (set_block b)).
  apply (inv_gen_transfer s s' cnt (upd cnt node 1) h h I).
  - intros j Hj. destruct (Z.eq_dec j node) as [-> | Hne].
    + rewrite upd_same. lia.
    + rewrite upd_other by assumption. now apply (ig_cnt _ _ _ I).
  - intros j r Hj Hs. destruct (Z.eq_dec j node) as [-> | Hne].
    + rewrite upd_same in Hs. destruct Hs as [[-> Hh] | Hs].
      * left. refine (conj (or_introl (conj eq_refl Hh)) (conj _ _)).
        -- rewrite !ref_ind. unfold s'. now rewrite itab_upd_inode_same.
        -- apply (ig_ref _ _ _ I node (-1) Hn). left; auto.
      * right. assert (r = 0) by lia. subst r.
        assert (E : ref s' node 0 = b).
        { rewrite ref_direct. unfold s'. now rewrite itab_upd_inode_same. }
        rewrite E. refine (conj _ (conj Hr (conj Hm (conj _ _)))).
        -- intros [[? _] | ?]; lia.
        -- intros j0 r0 Hj0 Hs0. now apply Hun.
        -- intros j' r' Hj' Hs' Hnew _.
           destruct (Z.eq_dec j' node) as [-> | Hne']; [| now rewrite upd_other in Hs' by assumption].
           split; [reflexivity |]. rewrite upd_same in Hs'.
           destruct Hs' as [[-> Hh'] | ?]; [| lia].
           exfalso. apply Hnew. left; auto.
    + rewrite upd_other in Hs by assumption. left.
      refine (conj Hs (conj _ _)).
      * apply ref_same_inode; [| reflexivity]. unfold s'. now rewrite itab_upd_inode_other.
      * now apply (ig_ref _ _ _ I).
  - intros j Hj. destruct (ig_zero _ _ _ I j Hj) as (Z1 & Z2 & Z3).
    destruct (Z.eq_dec j node) as [-> | Hne].
    + rewrite upd_same. unfold s'. rewrite itab_upd_inode_same.
      cbn [block indirect set_block].
      refine (conj _ (conj Z2 _)); [lia |].
      intros Hh k Hk. apply (Z3 Hh). lia.
    + rewrite upd_other by assumption. unfold s'. rewrite itab_upd_inode_other by assumption.
      auto.
Qed.

(** [indirect_table[c - 1] = b] for an inode with [c >= 1] data blocks
    and an indirect block. *)
Lemma inv_attach_entry (s : fs) (cnt : Z -> Z) (h : Z -> bool) (node b : Z) :
  inv_gen s cnt h -> 0 <= node < INODE_COUNT ->
  h node = true -> 1 <= cnt node -> spare s cnt h b ->
  inv_gen (table_set s (indirect (itab s node)) (cnt node - 1) b)
    (upd cnt node (cnt node + 1)) h.
Proof.
  intros I Hn Hh Hc (Hr & Hm & Hun).
  pose proof (inv_gen_cnt_bound s cnt h node I Hn) as Hmax.
  set (ind := indirect (itab s node)).
  set (s' := table_set s ind ((cnt node) - 1) b).
  assert (Hind : forall j, 0 <= j < INODE_COUNT -> h j = true -> j <> node ->
                   indirect (itab s j) <> ind).
  { intros j Hj Hhj Hne E.
    destruct (ig_uniq _ _ _ I j (-1) node (-1) Hj Hn) as [E' _]; auto.
    - left; auto.
    - left; auto. }
  assert (Hh1 : forall j r, 0 <= j < INODE_COUNT -> slot_ok (cnt j) (h j) r ->
                  1 <= r -> h j = true).
  { intros j r Hj Hs H1. destruct (h j) eqn:E; [reflexivity |].
    destruct (ig_cnt _ _ _ I j Hj) as [_ Hle]. specialize (Hle E).
    destruct Hs as [[? ?] | ?]; [congruence | lia]. }
  assert (Hold : forall j r, 0 <= j < INODE_COUNT -> slot_ok (cnt j) (h j) r ->
                   ref s' j r = ref s j r).
  { intros j r Hj Hs. apply ref_frame; try reflexivity.
    intros Hr1 Hi. unfold s'. apply table_get_set_other.
    - change (BLOCK_SIZE / INT_SIZE) with 1024. lia.
    - lia.
    - destruct (Z.eq_dec j node) as [-> | Hne].
      + right. destruct Hs as [[? ?] | ?]; lia.
      + left. intros E. apply (Hind j Hj); auto.
        apply (Hh1 j r Hj Hs). lia. }
  assert (Hi0 : ind <> 0).
  { destruct (ig_ref _ _ _ I node (-1) Hn) as [Hx _]; [left; auto |].
    rewrite ref_ind in Hx. fold ind in Hx. lia. }
  assert (Enew : ref s' node (cnt node) = b).
  { rewrite ref_data by lia. rewrite inode_get_bnum_table.
    - unfold s'. rewrite itab_table_set. fold ind.
      apply table_get_set_same. unfold BLOCK_COUNT in Hr. lia.
    - change (BLOCK_SIZE / INT_SIZE) with 1024. lia.
    - unfold s'. rewrite itab_table_set. exact Hi0. }
  apply (inv_gen_transfer s s' cnt (upd cnt node ((cnt node) + 1)) h h I).
  - intros j Hj. destruct (Z.eq_dec j node) as [-> | Hne].
    + rewrite upd_same. split; [lia | congruence].
    + rewrite upd_other by assumption. now apply (ig_cnt _ _ _ I).
  - intros j r Hj Hs. destruct (Z.eq_dec j node) as [-> | Hne].
    + rewrite upd_same in Hs.
      destruct (Z.eq_dec r (cnt node)) as [-> | Hrc].
      * right. rewrite Enew. refine (conj _ (conj Hr (conj Hm (conj _ _)))).
        -- intros [[? _] | ?]; lia.
        -- intros j0 r0 Hj0 Hs0. now apply Hun.
        -- intros j' r' Hj' Hs' Hnew _.
           destruct (Z.eq_dec j' node) as [-> | Hne']; [| now rewrite upd_other in Hs' by assumption].
           split; [reflexivity |]. rewrite upd_same in Hs'.
           destruct (Z.eq_dec r' (cnt node)); [assumption | exfalso].
           apply Hnew. destruct Hs' as [[-> ?] | ?]; [left; auto | right; lia].
      * left. assert (Hs0 : slot_ok (cnt node) (h node) r).
        { destruct Hs as [[-> ?] | ?]; [left; auto | right; lia]. }
        refine (conj Hs0 (conj (Hold _ _ Hn Hs0) _)).
        now apply (ig_ref _ _ _ I).
    + rewrite upd_other in Hs by assumption. left.
      refine (conj Hs (conj (Hold _ _ Hj Hs) _)). now apply (ig_ref _ _ _ I).
  - intros j Hj. destruct (ig_zero _ _ _ I j Hj) as (Z1 & Z2 & Z3).
    unfold s'. rewrite itab_table_set.
    destruct (Z.eq_dec j node) as [-> | Hne].
    + rewrite upd_same. refine (conj _ (conj Z2 _)); [lia |].
      intros _ k Hk. fold ind. rewrite table_get_set_other.
      * apply (Z3 Hh). idtac. lia.
      * change (BLOCK_SIZE / INT_SIZE) with 1024. lia.
      * lia.
      * right. lia.
    + rewrite upd_other by assumption. refine (conj Z1 (conj Z2 _)).
      intros Hhj k Hk. rewrite table_get_set_other.
      * now apply Z3.
      * change (BLOCK_SIZE / INT_SIZE) with 1024. lia.
      * lia.
      * left. intros E. now apply (Hind j Hj Hhj Hne).
Qed.

(** [node->indirect = ib; memset(ib, 0)] for an inode without indirect
    block. *)
Lemma inv_attach_indirect (s : fs) (cnt : Z -> Z) (h : Z -> bool) (node ib : Z) :
  inv_gen s cnt h -> 0 <= node < INODE_COUNT ->
  h node = false -> spare s cnt h ib ->
  inv_gen (zero_block (upd_inode s node (set_indirect ib)) ib) cnt (upd h node true)
  /\ (forall b, b <> ib -> spare s cnt h b ->
        spare (zero_block (upd_inode s node (set_indirect ib)) ib) cnt (upd h node true) b).
Proof.
  intros I Hn Hh (Hr & Hm & Hun).
  set (s' := zero_block (upd_inode s node (set_indirect ib)) ib).
  destruct (ig_cnt _ _ _ I node Hn) as [Hc0 Hc1]. specialize (Hc1 Hh).
  assert (Hout : same_outside s s' ib).
  { apply (same_outside_zero_block (upd_inode s node (set_indirect ib)) ib). }
  assert (Hold : forall j r, 0 <= j < INODE_COUNT -> slot_ok (cnt j) (h j) r ->
                   ref s' j r = ref s j r).
  { intros j r Hj Hs. destruct (Z.eq_dec j node) as [-> | Hne].
    - destruct Hs as [[_ ?] | Hs]; [congruence |].
      assert (r = 0) by lia. subst r. rewrite !ref_direct.
      unfold s'. rewrite itab_zero_block, itab_upd_inode_same. reflexivity.
    - apply ref_frame.
      + unfold s'. now rewrite itab_zero_block, itab_upd_inode_other.
      + unfold s'. now rewrite itab_zero_block, itab_upd_inode_other.
      + intros Hr1 Hi. apply (table_get_outside s s' ib); try assumption; [| lia].
        rewrite <- ref_ind. apply Hun; [assumption |]. left. split; [reflexivity |].
        destruct (h j) eqn:E; [reflexivity |].
        destruct (ig_zero _ _ _ I j Hj) as (_ & Hz & _). now specialize (Hz E). }
  assert (Enew : ref s' node (-1) = ib).
  { rewrite ref_ind. unfold s'. now rewrite itab_zero_block, itab_upd_inode_same. }
  assert (I' : inv_gen s' cnt (upd h node true)).
  { apply (inv_gen_transfer s s' cnt cnt h (upd h node true) I).
    - intros j Hj. destruct (Z.eq_dec j node) as [-> | Hne].
      + rewrite upd_same. split; [lia | discriminate].
      + rewrite upd_other by assumption. now apply (ig_cnt _ _ _ I).
    - intros j r Hj Hs. destruct (Z.eq_dec j node) as [-> | Hne].
      + rewrite upd_same in Hs. destruct Hs as [[-> _] | Hs].
        * right. rewrite Enew. refine (conj _ (conj Hr (conj Hm (conj _ _)))).
          -- intros [[_ ?] | ?]; [congruence | lia].
          -- intros j0 r0 Hj0 Hs0. now apply Hun.
          -- intros j' r' Hj' Hs' Hnew _.
             destruct (Z.eq_dec j' node) as [-> | Hne']; [| now rewrite upd_other in Hs' by assumption].
             split; [reflexivity |]. rewrite upd_same in Hs'.
             destruct Hs' as [[-> _] | ?]; [reflexivity | exfalso].
             apply Hnew. now right.
        * left. assert (Hs0 : slot_ok (cnt node) (h node) r) by now right.
          refine (conj Hs0 (conj (Hold _ _ Hn Hs0) _)). now apply (ig_ref _ _ _ I).
      + rewrite upd_other in Hs by assumption. left.
        refine (conj Hs (conj (Hold _ _ Hj Hs) _)). now apply (ig_ref _ _ _ I).
    - intros j Hj. destruct (ig_zero _ _ _ I j Hj) as (Z1 & Z2 & Z3).
      unfold s'. rewrite itab_zero_block.
      destruct (Z.eq_dec j node) as [-> | Hne].
      + rewrite upd_same, itab_upd_inode_same. cbn [block indirect set_indirect].
        refine (conj Z1 (conj _ _)); [discriminate |].
        intros _ k Hk. apply table_get_zero_block_same. lia.
      + rewrite upd_other by assumption. rewrite itab_upd_inode_other by assumption.
        refine (conj Z1 (conj Z2 _)).
        intros Hhj k Hk.
        rewrite (table_get_outside s _ ib); [now apply Z3 | exact Hout | | lia].
        rewrite <- ref_ind. apply Hun; [assumption |]. left; auto. }
  split; [exact I' |].
  intros b Hne (Hbr & Hbm & Hbun).
  refine (conj Hbr (conj Hbm _)).
  intros j r Hj Hs. destruct (Z.eq_dec j node) as [-> | Hnj].
  - rewrite upd_same in Hs. destruct Hs as [[-> _] | Hs].
    + rewrite Enew. auto.
    + rewrite Hold by (try assumption; now right). apply Hbun; [assumption | now right].
  - rewrite upd_other in Hs by assumption. rewrite Hold by assumption. now apply Hbun.
Qed.

(** ** [grow_inode] keeps the invariant *)

Lemma has_ind_upd_other (cnt : Z -> Z) (node v j : Z) :
  j <> node -> has_ind (upd cnt node v) j = has_ind cnt j.
Proof. intros H. unfold has_ind. now rewrite upd_other. Qed.

Lemma has_ind_upd_same (cnt : Z -> Z) (node v : Z) :
  has_ind (upd cnt node v) node = (2 <=? v).
Proof. unfold has_ind. now rewrite upd_same. Qed.

Lemma inv_has_ind_pointer (s : fs) (cnt : Z -> Z) (node : Z) :
  inv_gen s cnt (has_ind cnt) -> 0 <= node < INODE_COUNT ->
  (indirect (itab s node) = 0 <-> cnt node <= 1).
Proof.
  intros I Hn. unfold has_ind in I.
  destruct (Z.leb_spec 2 (cnt node)) as [H2 | H2].
  - destruct (ig_ref _ _ _ I node (-1) Hn) as [Hx _].
    + left. split; [reflexivity |]. now apply Z.leb_le.
    + rewrite ref_ind in Hx. lia.
  - destruct (ig_zero _ _ _ I node Hn) as (_ & Hz & _).
    split; [lia | intros _]. apply Hz. apply Z.leb_gt. lia.
Qed.

Lemma grow_step_inv (s : fs) (cnt : Z -> Z) (node : Z) (s' : fs) :
  inv_gen s cnt (has_ind cnt) -> 0 <= node < INODE_COUNT ->
  grow_step s node (cnt node) = inl s' ->
  inv_gen s' (upd cnt node (cnt node + 1)) (has_ind (upd cnt node (cnt node + 1))).
Proof.
  intros I Hn H.
  pose proof (inv_has_ind_pointer s cnt node I Hn) as Hptr.
  destruct (ig_cnt _ _ _ I node Hn) as [Hc0 _].
  apply grow_step_inl in H.
  destruct H as (b & Hb & Hfree & Hcases).
  destruct (inv_alloc_at s cnt _ b I Hb Hfree) as (I1 & Sp1 & _).
  destruct (inv_zero_spare _ cnt _ b I1 Sp1) as (I2 & Sp2).
  specialize (Sp2 b Sp1).
  set (s2 := zero_block (alloc_at s b) b) in *.
  destruct Hcases as [(Hc & ->) | [(Hc & Hind & ->) | (Hc & Hind & ib & Hib & Hne & Hfree2 & ->)]].
  - (* the direct block *)
    pose proof (inv_attach_direct s2 cnt _ node b I2 Hn Hc Sp2) as I3.
    rewrite Hc. cbn [Z.add].
    eapply inv_gen_ext; [exact I3 |].
    intros j Hj. split; [reflexivity |].
    destruct (Z.eq_dec j node) as [-> | Hnj].
    + rewrite has_ind_upd_same. unfold has_ind. rewrite Hc. reflexivity.
    + now rewrite has_ind_upd_other.
  - (* one more entry of the indirect table *)
    assert (Hc2 : 2 <= cnt node) by lia.
    assert (Hh : has_ind cnt node = true) by (now apply Z.leb_le).
    pose proof (inv_attach_entry s2 cnt _ node b I2 Hn Hh ltac:(lia) Sp2) as I3.
    eapply inv_gen_ext; [exact I3 |].
    intros j Hj. split; [reflexivity |].
    destruct (Z.eq_dec j node) as [-> | Hnj].
    + rewrite has_ind_upd_same. rewrite Hh. apply Z.leb_le. lia.
    + now rewrite has_ind_upd_other.
  - (* the indirect block and its first entry *)
    assert (Hc1 : cnt node = 1) by lia.
    assert (Hh : has_ind cnt node = false) by (apply Z.leb_gt; lia).
    assert (Hfree3 : bbm s2 ib = false).
    { unfold s2, alloc_at, zero_block, bitmap_put. cbn [bbm with_img with_bbm].
      now rewrite upd_other. }
    destruct (inv_alloc_at s2 cnt _ ib I2 Hib Hfree3) as (I3 & Sp3 & Keep3).
    specialize (Keep3 b Sp2).
    destruct (inv_attach_indirect _ cnt _ node ib I3 Hn Hh Sp3) as (I4 & Keep4).
    specialize (Keep4 b ltac:(congruence) Keep3).
    set (s5 := zero_block (upd_inode (alloc_at s2 ib) node (set_indirect ib)) ib) in *.
    pose proof (inv_attach_entry s5 cnt _ node b I4 Hn ltac:(apply upd_same) ltac:(lia) Keep4)
      as I5.
    replace (indirect (itab s5 node)) with ib in I5.
    2:{ unfold s5. now rewrite itab_zero_block, itab_upd_inode_same. }
    eapply inv_gen_ext; [exact I5 |].
    intros j Hj. split; [reflexivity |].
    destruct (Z.eq_dec j node) as [-> | Hnj].
    + rewrite has_ind_upd_same, upd_same. apply Z.leb_le. lia.
    + rewrite has_ind_upd_other, upd_other by assumption. reflexivity.
Qed.

Lemma grow_frame_refl (s : fs) (node : Z) : grow_frame s s node.
Proof.
  constructor; auto. destruct (itab s node); reflexivity.
Qed.

Lemma grow_frame_trans (s1 s2 s3 : fs) (node : Z) :
  grow_frame s1 s2 node -> grow_frame s2 s3 node -> grow_frame s1 s3 node.
Proof.
  intros F G. constructor.
  - intros j Hj. rewrite (gf_itab _ _ _ G j Hj). now apply (gf_itab _ _ _ F).
  - rewrite (gf_node _ _ _ G). rewrite (gf_node _ _ _ F).
    destruct (itab s1 node); reflexivity.
  - rewrite (gf_ibm _ _ _ G). apply (gf_ibm _ _ _ F).
  - destruct (gf_env _ _ _ F) as (A1 & A2 & A3).
    destruct (gf_env _ _ _ G) as (B1 & B2 & B3).
    repeat split; congruence.
  - intros x Hx. apply (gf_bbm _ _ _ G), (gf_bbm _ _ _ F), Hx.
  - destruct (gf_ind _ _ _ G) as [E | E].
    + rewrite E. apply (gf_ind _ _ _ F).
    + right. destruct (bbm s1 (indirect (itab s3 node))) eqn:B; [| reflexivity].
      apply (gf_bbm _ _ _ F) in B. congruence.
  - intros x a Hx Hne Ha.
    rewrite (gf_img _ _ _ G x a); [now apply (gf_img _ _ _ F x a) | | | assumption].
    + now apply (gf_bbm _ _ _ F).
    + destruct (gf_ind _ _ _ F) as [E | E]; [congruence |].
      intros ->. congruence.
Qed.

Lemma store_int_outside_block (m : Z -> Z) (ib k v a x : Z) :
  0 <= k < BLOCK_SIZE / INT_SIZE -> x <> ib ->
  blocks_get_block x <= a < blocks_get_block x + BLOCK_SIZE ->
  store_int m (blocks_get_block ib + INT_SIZE * k) v a = m a.
Proof.
  intros Hk Hne Ha. apply store_int_other. revert Hk Ha.
  unfold blocks_get_block, BLOCK_SIZE, INT_SIZE. change (4096 / 4) with 1024. lia.
Qed.

Lemma memset0_outside_block (m : Z -> Z) (b a x : Z) :
  x <> b ->
  blocks_get_block x <= a < blocks_get_block x + BLOCK_SIZE ->
  memset0 m (blocks_get_block b) BLOCK_SIZE a = m a.
Proof.
  intros Hne Ha. apply memset0_out. revert Ha.
  unfold blocks_get_block, BLOCK_SIZE. lia.
Qed.

Lemma img_upd_inode (s : fs) (node : Z) (f : inode_t -> inode_t) :
  img (upd_inode s node f) = img s.
Proof. reflexivity. Qed.

Lemma img_zero_block_other (s : fs) (b x a : Z) :
  x <> b -> blocks_get_block x <= a < blocks_get_block x + BLOCK_SIZE ->
  img (zero_block s b) a = img s a.
Proof.
  intros Hne Ha. unfold zero_block. cbn [img with_img].
  now apply memset0_outside_block with (x := x).
Qed.

Lemma img_alloc_at_other (s : fs) (b x a : Z) :
  x <> b -> blocks_get_block x <= a < blocks_get_block x + BLOCK_SIZE ->
  img (alloc_at s b) a = img s a.
Proof.
  intros Hne Ha. unfold alloc_at. now rewrite img_zero_block_other with (x := x).
Qed.

Lemma img_table_set_other (s : fs) (ib k v x a : Z) :
  0 <= k < BLOCK_SIZE / INT_SIZE -> x <> ib ->
  blocks_get_block x <= a < blocks_get_block x + BLOCK_SIZE ->
  img (table_set s ib k v) a = img s a.
Proof.
  intros Hk Hne Ha. unfold table_set. cbn [img with_img].
  now apply store_int_outside_block with (x := x).
Qed.

Lemma grow_step_frame (s : fs) (node ii : Z) (s' : fs) :
  0 <= ii <= BLOCK_SIZE / INT_SIZE ->
  grow_step s node ii = inl s' -> grow_frame s s' node.
Proof.
  intros Hii H. apply grow_step_inl in H.
  destruct H as (b & Hb & Hfree & Hcases).
  assert (Hbm : forall y x, bbm s x = true -> upd (bbm s) y true x = true).
  { intros y x Hx. unfold upd. destruct (x =? y); auto. }
  destruct Hcases as [(Hc & ->) | [(Hc & Hind & ->) | (Hc & Hind & ib & Hib & Hne & Hfree2 & ->)]].
  - constructor; try reflexivity.
    + intros j Hj. now rewrite itab_upd_inode_other.
    + rewrite itab_upd_inode_same, itab_zero_block, itab_alloc_at.
      destruct (itab s node); reflexivity.
    + auto.
    + intros x Hx. apply Hbm, Hx.
    + left. now rewrite itab_upd_inode_same.
    + intros x a Hx Hne Ha. assert (x <> b) by congruence.
      rewrite img_upd_inode, (img_zero_block_other _ b x), (img_alloc_at_other _ b x);
        auto.
  - constructor; try reflexivity.
    + rewrite itab_table_set, itab_zero_block, itab_alloc_at.
      destruct (itab s node); reflexivity.
    + auto.
    + intros x Hx. apply Hbm, Hx.
    + left. reflexivity.
    + intros x a Hx Hne Ha. assert (x <> b) by congruence.
      rewrite img_table_set_other with (x := x); auto; [| lia].
      rewrite (img_zero_block_other _ b x), (img_alloc_at_other _ b x); auto.
  - constructor; try reflexivity.
    + intros j Hj. rewrite itab_table_set, itab_zero_block.
      now rewrite itab_upd_inode_other.
    + rewrite itab_table_set, itab_zero_block, itab_upd_inode_same.
      rewrite itab_alloc_at, itab_zero_block, itab_alloc_at.
      destruct (itab s node); reflexivity.
    + auto.
    + intros x Hx. change (upd (upd (bbm s) b true) ib true x = true).
      unfold upd. destruct (x =? ib); [reflexivity |]. apply Hbm, Hx.
    + right. rewrite itab_table_set, itab_zero_block, itab_upd_inode_same. exact Hfree2.
    + intros x a Hx Hnx Ha.
      assert (x <> b) by congruence. assert (x <> ib) by congruence.
      rewrite img_table_set_other with (x := x); auto; [| lia].
      rewrite (img_zero_block_other _ ib x), img_upd_inode, (img_alloc_at_other _ ib x); auto.
      rewrite (img_zero_block_other _ b x), (img_alloc_at_other _ b x); auto.
Qed.

Lemma grow_loop_inv (n : nat) :
  forall (s : fs) (cnt : Z -> Z) (node : Z) (s' : fs),
    inv_gen s cnt (has_ind cnt) -> 0 <= node < INODE_COUNT ->
    grow_loop s node (cnt node) n = inl s' ->
    inv_gen s' (upd cnt node (cnt node + Z.of_nat n))
      (has_ind (upd cnt node (cnt node + Z.of_nat n)))
    /\ grow_frame s s' node.
Proof.
  induction n as [| n IH]; intros s cnt node s' I Hn H; cbn [grow_loop] in H.
  - injection H as <-. split; [| apply grow_frame_refl].
    eapply inv_gen_ext; [exact I |].
    intros j Hj. unfold has_ind.
    destruct (Z.eq_dec j node) as [-> | Hne].
    + rewrite upd_same. replace (cnt node + Z.of_nat 0) with (cnt node) by lia. auto.
    + now rewrite upd_other.
  - destruct (grow_step s node (cnt node)) as [s1 | s1] eqn:E; [| discriminate].
    pose proof (grow_step_inv s cnt node s1 I Hn E) as I1.
    pose proof (inv_gen_cnt_bound s cnt _ node I Hn) as Hmax.
    destruct (ig_cnt _ _ _ I node Hn) as [Hc0 _].
    pose proof (grow_step_frame s node (cnt node) s1
                  ltac:(change (BLOCK_SIZE / INT_SIZE) with 1024; lia) E) as F1.
    set (cnt1 := upd cnt node (cnt node + 1)) in *.
    assert (E1 : cnt1 node = cnt node + 1) by apply upd_same.
    rewrite <- E1 in H.
    destruct (IH s1 cnt1 node s' I1 Hn H) as [I2 F2].
    split; [| now apply (grow_frame_trans s s1 s')].
    eapply inv_gen_ext; [exact I2 |].
    intros j Hj. unfold has_ind.
    destruct (Z.eq_dec j node) as [-> | Hne].
    + rewrite !upd_same. rewrite E1.
      replace (cnt node + 1 + Z.of_nat n) with (cnt node + Z.of_nat (S n)) by lia. auto.
    + rewrite !upd_other by assumption. unfold cnt1. rewrite upd_other by assumption. auto.
Qed.

(** ** The invariant of a state *)

Lemma inv_gen_fields (s : fs) (cnt : Z -> Z) (h : Z -> bool) (node : Z)
    (f : inode_t -> inode_t) :
  block (f (itab s node)) = block (itab s node) ->
  indirect (f (itab s node)) = indirect (itab s node) ->
  inv_gen s cnt h -> inv_gen (upd_inode s node f) cnt h.
Proof.
  intros Hb Hi I.
  apply (inv_gen_frame s (upd_inode s node f) cnt h I).
  - intros j Hj. destruct (Z.eq_dec j node) as [-> | Hne].
    + rewrite itab_upd_inode_same. auto.
    + rewrite itab_upd_inode_other by assumption. auto.
  - intros j k Hj Hh Hk. reflexivity.
  - intros j r Hj Hr. now apply (ig_ref _ _ _ I).
Qed.

(** Updates of the fields of an inode other than its size and its two
    pointers keep the invariant. *)
Lemma inv_fields (s : fs) (node : Z) (f : inode_t -> inode_t) :
  block (f (itab s node)) = block (itab s node) ->
  indirect (f (itab s node)) = indirect (itab s node) ->
  size (f (itab s node)) = size (itab s node) ->
  inv s -> inv (upd_inode s node f).
Proof.
  intros Hb Hi Hs [Hsz I].
  assert (Es : forall j, size (itab (upd_inode s node f) j) = size (itab s j)).
  { intros j. destruct (Z.eq_dec j node) as [-> | Hne].
    - now rewrite itab_upd_inode_same.
    - now rewrite itab_upd_inode_other. }
  split.
  - intros j Hj. rewrite Es. now apply Hsz.
  - eapply inv_gen_ext.
    + apply inv_gen_fields; [exact Hb | exact Hi | exact I].
    + intros j Hj. unfold has_ind, cnt_of. now rewrite Es.
Qed.

Lemma blocks_of_mono (a b : Z) : 0 <= a <= b -> blocks_of a <= blocks_of b.
Proof.
  intros H. rewrite !blocks_of_nonneg by lia.
  unfold bytes_to_blocks, BLOCK_SIZE. apply Z.div_le_mono; lia.
Qed.

(** A successful [grow_inode] keeps the invariant; it changes the two
    pointers, the size and the modification time of the inode. *)
Lemma grow_inode_inv (s : fs) (node sz : Z) (s' : fs) :
  inv s -> 0 <= node < INODE_COUNT -> size (itab s node) <= sz ->
  grow_inode s node sz = (s', 0) ->
  inv s'
  /\ exists sl, grow_frame s sl node
       /\ s' = upd_inode (upd_inode sl node (set_size sz)) node (set_mtime (clock s)).
Proof.
  intros [Hsz I] Hn Hle H. unfold grow_inode in H.
  fold (blocks_of (size (itab s node))) in H. fold (blocks_of sz) in H.
  pose proof (Hsz node Hn) as Hs0.
  pose proof (blocks_of_mono _ _ (conj Hs0 Hle)) as Hmono.
  change (blocks_of (size (itab s node))) with (cnt_of s node) in H, Hmono.
  destruct (grow_loop s node (cnt_of s node)
              (Z.to_nat (blocks_of sz - cnt_of s node))) as [sl | sl] eqn:E;
    [| discriminate].
  injection H as <-.
  destruct (grow_loop_inv _ s (cnt_of s) node sl I Hn E) as [Il F].
  rewrite Z2Nat.id in Il by lia.
  replace (cnt_of s node + (blocks_of sz - cnt_of s node)) with (blocks_of sz) in Il by lia.
  split; [| exists sl; split; [exact F | reflexivity]].
  set (s' := upd_inode (upd_inode sl node (set_size sz)) node (set_mtime (clock s))).
  assert (Enode : size (itab s' node) = sz).
  { unfold s'. now rewrite !itab_upd_inode_same. }
  assert (Eother : forall j, j <> node -> itab s' j = itab s j).
  { intros j Hj. unfold s'. rewrite !itab_upd_inode_other by assumption.
    now apply (gf_itab _ _ _ F). }
  split.
  - intros j Hj. destruct (Z.eq_dec j node) as [-> | Hne].
    + rewrite Enode. lia.
    + rewrite Eother by assumption. now apply Hsz.
  - eapply inv_gen_ext.
    + unfold s'. apply inv_gen_fields; [reflexivity | reflexivity |].
      apply inv_gen_fields; [reflexivity | reflexivity |]. exact Il.
    + assert (Ec : forall j, cnt_of s' j = upd (cnt_of s) node (blocks_of sz) j).
      { intros j. unfold cnt_of at 1. destruct (Z.eq_dec j node) as [-> | Hne].
        - now rewrite Enode, upd_same.
        - rewrite Eother, upd_other by assumption. reflexivity. }
      intros j Hj. unfold has_ind. now rewrite Ec.
Qed.

(** ** [shrink_inode] keeps the invariant *)

Lemma bbm_free_other (s : fs) (x y : Z) :
  y <> x -> bbm (free_block s x) y = bbm s y.
Proof.
  intros H. unfold free_block, bitmap_put. cbn [bbm with_bbm]. now apply upd_other.
Qed.

Lemma inv_gen_h_of_slot (s : fs) (cnt : Z -> Z) (h : Z -> bool) (j r : Z) :
  inv_gen s cnt h -> 0 <= j < INODE_COUNT -> slot_ok (cnt j) (h j) r -> 1 <= r ->
  h j = true.
Proof.
  intros I Hj Hs H1. destruct (h j) eqn:E; [reflexivity |].
  destruct (ig_cnt _ _ _ I j Hj) as [_ Hle]. specialize (Hle E).
  destruct Hs as [[? ?] | ?]; [congruence | lia].
Qed.

Lemma inv_gen_ind_distinct (s : fs) (cnt : Z -> Z) (h : Z -> bool) (j j' : Z) :
  inv_gen s cnt h -> 0 <= j < INODE_COUNT -> 0 <= j' < INODE_COUNT ->
  h j = true -> h j' = true -> j <> j' ->
  indirect (itab s j) <> indirect (itab s j').
Proof.
  intros I Hj Hj' Hh Hh' Hne E.
  destruct (ig_uniq _ _ _ I j (-1) j' (-1) Hj Hj') as [E' _]; auto.
  - left; auto.
  - left; auto.
Qed.

(** One pass of the loop of [shrink_inode] on the last data block. *)
Lemma shrink_step_inv (s : fs) (cnt : Z -> Z) (h : Z -> bool) (node : Z) :
  inv_gen s cnt h -> 0 <= node < INODE_COUNT -> 1 <= cnt node ->
  inv_gen (shrink_step s node (cnt node - 1)) (upd cnt node (cnt node - 1)) h
  /\ (forall j, j <> node -> itab (shrink_step s node (cnt node - 1)) j = itab s j).
Proof.
  intros I Hn Hc.
  pose proof (inv_gen_cnt_bound s cnt h node I Hn) as Hmax.
  destruct (ig_ref _ _ _ I node (cnt node - 1) Hn ltac:(right; lia)) as [Hx Hxm].
  set (x := ref s node (cnt node - 1)) in *.
  assert (Hxu : forall j r, 0 <= j < INODE_COUNT ->
                  slot_ok (upd cnt node (cnt node - 1) j) (h j) r -> ref s j r <> x).
  { intros j r Hj Hs E.
    destruct (ig_uniq _ _ _ I j r node (cnt node - 1) Hj Hn) as [-> ->]; auto.
    - destruct (Z.eq_dec j node) as [-> | Hne].
      + rewrite upd_same in Hs. destruct Hs as [[-> ?] | ?]; [left; auto | right; lia].
      + now rewrite upd_other in Hs.
    - right; lia.
    - rewrite upd_same in Hs. destruct Hs as [[? ?] | ?]; lia. }
  assert (Hcnt' : forall j, 0 <= j < INODE_COUNT ->
            0 <= upd cnt node (cnt node - 1) j
            /\ (h j = false -> upd cnt node (cnt node - 1) j <= 1)).
  { intros j Hj. destruct (ig_cnt _ _ _ I j Hj) as [A B].
    destruct (Z.eq_dec j node) as [-> | Hne].
    - rewrite upd_same. split; [lia |]. intros Hh. specialize (B Hh). lia.
    - rewrite upd_other by assumption. auto. }
  assert (Hsub : forall j r, 0 <= j < INODE_COUNT ->
            slot_ok (upd cnt node (cnt node - 1) j) (h j) r -> slot_ok (cnt j) (h j) r).
  { intros j r Hj Hs. destruct (Z.eq_dec j node) as [-> | Hne].
    - rewrite upd_same in Hs. destruct Hs as [[-> ?] | ?]; [left; auto | right; lia].
    - now rewrite upd_other in Hs. }
  unfold shrink_step.
  destruct (Z.eqb_spec (cnt node - 1) 0) as [Hz | Hnz].
  - (* the direct block *)
    assert (Ex : x = block (itab s node)).
    { unfold x. rewrite Hz. apply ref_direct. }
    destruct (Z.eqb_spec (block (itab s node)) 0) as [Hb0 | _]; [lia |].
    rewrite <- Ex.
    set (s' := upd_inode (free_block s x) node (set_block 0)).
    split.
    2:{ intros j Hj. unfold s'. now rewrite itab_upd_inode_other. }
    apply (inv_gen_transfer s s' cnt _ h h I Hcnt').
    + intros j r Hj Hs. left. refine (conj (Hsub j r Hj Hs) (conj _ _)).
      * destruct (Z.eq_dec j node) as [-> | Hne].
        -- rewrite upd_same in Hs. destruct Hs as [[-> ?] | ?]; [| lia].
           rewrite !ref_ind. unfold s'. now rewrite itab_upd_inode_same.
        -- apply ref_same_inode; [| reflexivity].
           unfold s'. now rewrite itab_upd_inode_other.
      * unfold s'. change (bbm (upd_inode (free_block s x) node (set_block 0)))
          with (bbm (free_block s x)).
        rewrite bbm_free_other by (now apply Hxu).
        apply (ig_ref _ _ _ I j r Hj (Hsub j r Hj Hs)).
    + intros j Hj. destruct (ig_zero _ _ _ I j Hj) as (Z1 & Z2 & Z3).
      destruct (Z.eq_dec j node) as [-> | Hne].
      * rewrite upd_same. unfold s'. rewrite itab_upd_inode_same.
        cbn [block indirect set_block].
        refine (conj (fun _ => eq_refl) (conj Z2 _)).
        intros Hh k Hk. apply (Z3 Hh). lia.
      * rewrite upd_other by assumption. unfold s'.
        rewrite itab_upd_inode_other by assumption. auto.
  - (* the last entry of the indirect table *)
    assert (Hh : h node = true).
    { apply (inv_gen_h_of_slot s cnt h node (cnt node - 1) I Hn); [right |]; lia. }
    destruct (ig_ref _ _ _ I node (-1) Hn ltac:(left; auto)) as [Hi _].
    rewrite ref_ind in Hi.
    destruct (Z.eqb_spec (indirect (itab s node)) 0) as [Hi0 | _]; [lia |].
    assert (Ex : x = table_get s (indirect (itab s node)) (cnt node - 1 - 1)).
    { unfold x. rewrite ref_data by lia. apply inode_get_bnum_table.
      - change (BLOCK_SIZE / INT_SIZE) with 1024. lia.
      - lia. }
    rewrite <- Ex.
    destruct (Z.eqb_spec x 0) as [Hx0 | _]; [lia |].
    set (ind := indirect (itab s node)) in *.
    set (s' := table_set (free_block s x) ind (cnt node - 1 - 1) 0).
    split; [| intros j Hj; reflexivity].
    assert (Ht : forall j k, 0 <= j < INODE_COUNT -> h j = true ->
                   0 <= k < BLOCK_SIZE / INT_SIZE ->
                   j <> node \/ k <> cnt node - 1 - 1 ->
                   table_get s' (indirect (itab s j)) k
                   = table_get s (indirect (itab s j)) k).
    { intros j k Hj Hhj Hk Hjk. unfold s'.
      rewrite table_get_set_other; [reflexivity | | assumption |].
      - change (BLOCK_SIZE / INT_SIZE) with 1024. lia.
      - destruct (Z.eq_dec j node) as [-> | Hne]; [right; lia | left].
        intros E. apply (inv_gen_ind_distinct s cnt h j node I Hj Hn Hhj Hh Hne).
        symmetry. exact E. }
    apply (inv_gen_transfer s s' cnt _ h h I Hcnt').
    + intros j r Hj Hs. left. pose proof (Hsub j r Hj Hs) as Hs0.
      refine (conj Hs0 (conj _ _)).
      * apply ref_frame; try reflexivity. intros Hr1 Hind.
        apply Ht; [assumption | | lia |].
        -- apply (inv_gen_h_of_slot s cnt h j r I Hj Hs0). lia.
        -- destruct (Z.eq_dec j node) as [-> | Hne]; [right | now left].
           rewrite upd_same in Hs. destruct Hs as [[? ?] | ?]; lia.
      * unfold s'. change (bbm (table_set (free_block s x) ind (cnt node - 1 - 1) 0))
          with (bbm (free_block s x)).
        rewrite bbm_free_other by (now apply Hxu).
        apply (ig_ref _ _ _ I j r Hj Hs0).
    + intros j Hj. destruct (ig_zero _ _ _ I j Hj) as (Z1 & Z2 & Z3).
      unfold s'. rewrite itab_table_set, itab_free_block.
      destruct (Z.eq_dec j node) as [-> | Hne].
      * rewrite upd_same. refine (conj _ (conj Z2 _)); [lia |].
        intros _ k Hk.
        destruct (Z.eq_dec k (cnt node - 1 - 1)) as [-> | Hk'].
        -- apply table_get_set_same. lia.
        -- fold s'. rewrite (Ht node k Hn Hh) by (try lia; now right).
           apply (Z3 Hh). lia.
      * rewrite upd_other by assumption. refine (conj Z1 (conj Z2 _)).
        intros Hhj k Hk. fold s'. rewrite (Ht j k Hj Hhj) by (try lia; now left).
        now apply Z3.
Qed.

Lemma shrink_loop_inv (n : nat) (h : Z -> bool) (node : Z) :
  forall (s : fs) (cnt : Z -> Z),
    inv_gen s cnt h -> 0 <= node < INODE_COUNT -> Z.of_nat n <= cnt node ->
    inv_gen (shrink_loop s node (cnt node - 1) n)
      (upd cnt node (cnt node - Z.of_nat n)) h
    /\ (forall j, j <> node ->
          itab (shrink_loop s node (cnt node - 1) n) j = itab s j).
Proof.
  induction n as [| n IH]; intros s cnt I Hn Hle; cbn [shrink_loop].
  - split; [| reflexivity].
    eapply inv_gen_ext; [exact I |].
    intros j Hj. split; [| reflexivity].
    destruct (Z.eq_dec j node) as [-> | Hne].
    + rewrite upd_same. lia.
    + now rewrite upd_other.
  - destruct (shrink_step_inv s cnt h node I Hn ltac:(lia)) as [I1 F1].
    set (s1 := shrink_step s node (cnt node - 1)) in *.
    set (cnt1 := upd cnt node (cnt node - 1)) in *.
    assert (E1 : cnt1 node = cnt node - 1) by apply upd_same.
    rewrite <- E1.
    destruct (IH s1 cnt1 I1 Hn ltac:(lia)) as [I2 F2].
    split.
    + eapply inv_gen_ext; [exact I2 |].
      intros j Hj. split; [| reflexivity].
      destruct (Z.eq_dec j node) as [-> | Hne].
      * rewrite !upd_same. lia.
      * rewrite !upd_other by assumption. unfold cnt1. now rewrite upd_other.
    + intros j Hj. rewrite F2 by assumption. now apply F1.
Qed.

(** Freeing the indirect block of an inode that is down to one data
    block or none. *)
Lemma inv_detach_indirect (s : fs) (cnt : Z -> Z) (h : Z -> bool) (node : Z) :
  inv_gen s cnt h -> 0 <= node < INODE_COUNT ->
  h node = true -> cnt node <= 1 ->
  inv_gen (upd_inode (free_block s (indirect (itab s node))) node (set_indirect 0))
    cnt (upd h node false).
Proof.
  intros I Hn Hh Hc.
  set (ind := indirect (itab s node)).
  set (s' := upd_inode (free_block s ind) node (set_indirect 0)).
  assert (Hsub : forall j r, 0 <= j < INODE_COUNT ->
            slot_ok (cnt j) (upd h node false j) r ->
            slot_ok (cnt j) (h j) r /\ (j <> node \/ r <> -1)).
  { intros j r Hj Hs. destruct (Z.eq_dec j node) as [-> | Hne].
    - rewrite upd_same in Hs. destruct Hs as [[_ ?] | ?]; [discriminate |].
      split; [now right | right; lia].
    - rewrite upd_other in Hs by assumption. auto. }
  apply (inv_gen_transfer s s' cnt cnt h _ I).
  - intros j Hj. destruct (ig_cnt _ _ _ I j Hj) as [A B].
    destruct (Z.eq_dec j node) as [-> | Hne].
    + rewrite upd_same. auto.
    + rewrite upd_other by assumption. auto.
  - intros j r Hj Hs. left. destruct (Hsub j r Hj Hs) as [Hs0 Hjr].
    refine (conj Hs0 (conj _ _)).
    + destruct (Z.eq_dec j node) as [-> | Hne].
      * rewrite upd_same in Hs. destruct Hs as [[_ ?] | ?]; [discriminate |].
        assert (r = 0) by lia. subst r. rewrite !ref_direct.
        unfold s'. now rewrite itab_upd_inode_same.
      * apply ref_same_inode; [| reflexivity].
        unfold s'. now rewrite itab_upd_inode_other.
    + unfold s'. change (bbm (upd_inode (free_block s ind) node (set_indirect 0)))
        with (bbm (free_block s ind)).
      rewrite bbm_free_other; [apply (ig_ref _ _ _ I j r Hj Hs0) |].
      intros E. unfold ind in E. rewrite <- ref_ind in E.
      destruct (ig_uniq _ _ _ I j r node (-1) Hj Hn Hs0 ltac:(left; auto) E) as [-> ->].
      destruct Hjr; congruence.
  - intros j Hj. destruct (ig_zero _ _ _ I j Hj) as (Z1 & Z2 & Z3).
    destruct (Z.eq_dec j node) as [-> | Hne].
    + rewrite upd_same. unfold s'. rewrite itab_upd_inode_same.
      cbn [block indirect set_indirect].
      refine (conj Z1 (conj (fun _ => eq_refl) _)). discriminate.
    + rewrite upd_other by assumption. unfold s'.
      rewrite itab_upd_inode_other by assumption. auto.
Qed.

Lemma inv_gen_h_pointer (s : fs) (cnt : Z -> Z) (h : Z -> bool) (node : Z) :
  inv_gen s cnt h -> 0 <= node < INODE_COUNT ->
  (indirect (itab s node) = 0 <-> h node = false).
Proof.
  intros I Hn. destruct (h node) eqn:Hh.
  - destruct (ig_ref _ _ _ I node (-1) Hn) as [Hx _]; [left; auto |].
    rewrite ref_ind in Hx. split; [lia | discriminate].
  - destruct (ig_zero _ _ _ I node Hn) as (_ & Hz & _). split; auto.
Qed.

(** [shrink_inode] keeps the invariant. *)
Lemma shrink_inode_inv (s : fs) (node sz : Z) :
  inv s -> 0 <= node < INODE_COUNT -> 0 <= sz <= size (itab s node) ->
  inv (fst (shrink_inode s node sz))
  /\ snd (shrink_inode s node sz) = 0
  /\ (forall j, j <> node -> itab (fst (shrink_inode s node sz)) j = itab s j).
Proof.
  intros [Hsz I] Hn Hle. unfold shrink_inode.
  fold (blocks_of (size (itab s node))). fold (blocks_of sz).
  pose proof (blocks_of_mono _ _ Hle) as Hmono.
  change (blocks_of (size (itab s node))) with (cnt_of s node) in *.
  assert (Ht0 : 0 <= blocks_of sz).
  { rewrite blocks_of_nonneg by lia. apply bytes_to_blocks_nonneg. lia. }
  destruct (shrink_loop_inv (Z.to_nat (cnt_of s node - blocks_of sz))
              (has_ind (cnt_of s)) node s (cnt_of s) I Hn ltac:(lia)) as [I1 F1].
  rewrite Z2Nat.id in I1 by lia.
  replace (cnt_of s node - (cnt_of s node - blocks_of sz)) with (blocks_of sz) in I1 by lia.
  set (s1 := shrink_loop s node (cnt_of s node - 1)
               (Z.to_nat (cnt_of s node - blocks_of sz))) in *.
  set (cnt1 := upd (cnt_of s) node (blocks_of sz)) in *.
  set (s2 := if (blocks_of sz <=? 1) && negb (indirect (itab s1 node) =? 0)
             then upd_inode (free_block s1 (indirect (itab s1 node))) node (set_indirect 0)
             else s1).
  assert (H2 : inv_gen s2 cnt1 (has_ind cnt1)
               /\ (forall j, j <> node -> itab s2 j = itab s1 j)).
  { pose proof (inv_gen_h_pointer s1 cnt1 _ node I1 Hn) as Hp.
    assert (Ec : cnt1 node = blocks_of sz) by apply upd_same.
    unfold s2.
    destruct (Z.leb_spec (blocks_of sz) 1) as [Hl | Hl];
      destruct (Z.eqb_spec (indirect (itab s1 node)) 0) as [Hi | Hi]; cbn [andb negb].
    - split; [| reflexivity]. eapply inv_gen_ext; [exact I1 |].
      intros j Hj. split; [reflexivity |].
      destruct (Z.eq_dec j node) as [-> | Hne].
      + apply Hp in Hi. rewrite Hi. unfold has_ind. rewrite Ec. apply Z.leb_gt. lia.
      + unfold has_ind, cnt1. now rewrite upd_other.
    - assert (Hh : has_ind (cnt_of s) node = true).
      { destruct (has_ind (cnt_of s) node) eqn:E; [reflexivity |].
        exfalso. apply Hi. now apply Hp. }
      split.
      2:{ intros j Hj. now rewrite itab_upd_inode_other. }
      eapply inv_gen_ext.
      + apply (inv_detach_indirect s1 cnt1 _ node I1 Hn Hh). lia.
      + intros j Hj. split; [reflexivity |].
        destruct (Z.eq_dec j node) as [-> | Hne].
        * rewrite upd_same. unfold has_ind. rewrite Ec. apply Z.leb_gt. lia.
        * rewrite upd_other by assumption. unfold has_ind, cnt1. now rewrite upd_other.
    - split; [| reflexivity]. eapply inv_gen_ext; [exact I1 |].
      intros j Hj. split; [reflexivity |].
      destruct (Z.eq_dec j node) as [-> | Hne].
      + unfold has_ind. rewrite Ec.
        transitivity true; [apply Z.leb_le; lia | symmetry; apply Z.leb_le; lia].
      + unfold has_ind, cnt1. now rewrite upd_other.
    - split; [| reflexivity]. eapply inv_gen_ext; [exact I1 |].
      intros j Hj. split; [reflexivity |].
      destruct (Z.eq_dec j node) as [-> | Hne].
      + unfold has_ind. rewrite Ec.
        transitivity true; [apply Z.leb_le; lia | symmetry; apply Z.leb_le; lia].
      + unfold has_ind, cnt1. now rewrite upd_other. }
  destruct H2 as [I2 F2].
  cbn [fst snd].
  set (s' := upd_inode (upd_inode s2 node (set_size sz)) node (set_mtime (clock s))).
  assert (Enode : size (itab s' node) = sz).
  { unfold s'. now rewrite !itab_upd_inode_same. }
  assert (Eother : forall j, j <> node -> itab s' j = itab s j).
  { intros j Hj. unfold s'. rewrite !itab_upd_inode_other by assumption.
    rewrite F2, F1 by assumption. reflexivity. }
  refine (conj _ (conj eq_refl Eother)).
  split.
  - intros j Hj. destruct (Z.eq_dec j node) as [-> | Hne].
    + rewrite Enode. lia.
    + rewrite Eother by assumption. now apply Hsz.
  - eapply inv_gen_ext.
    + unfold s'. apply inv_gen_fields; [reflexivity | reflexivity |].
      apply inv_gen_fields; [reflexivity | reflexivity |]. exact I2.
    + assert (Ec : forall j, cnt_of s' j = cnt1 j).
      { intros j. unfold cnt_of at 1, cnt1. destruct (Z.eq_dec j node) as [-> | Hne].
        - now rewrite Enode, upd_same.
        - rewrite Eother, upd_other by assumption. reflexivity. }
      intros j Hj. unfold has_ind. now rewrite Ec.
Qed.

(** ** [alloc_inode] and [free_inode] keep the invariant *)

(** An inode whose record is cleared, whatever happens to the bits of
    the blocks it referenced. *)
Lemma inv_reset_inode (s s' : fs) (node : Z) :
  inv s -> 0 <= node < INODE_COUNT ->
  img s' = img s ->
  (forall j, j <> node -> itab s' j = itab s j) ->
  size (itab s' node) = 0 -> block (itab s' node) = 0 -> indirect (itab s' node) = 0 ->
  (forall j r, 0 <= j < INODE_COUNT -> j <> node ->
     slot_ok (cnt_of s j) (has_ind (cnt_of s) j) r -> bbm s' (ref s j r) = true) ->
  inv s'.
Proof.
  intros [Hsz I] Hn Himg Hoth Hs0 Hb0 Hi0 Hbm.
  assert (Ec : forall j, cnt_of s' j = upd (cnt_of s) node 0 j).
  { intros j. unfold cnt_of at 1. destruct (Z.eq_dec j node) as [-> | Hne].
    - now rewrite Hs0, upd_same.
    - rewrite Hoth, upd_other by assumption. reflexivity. }
  split.
  - intros j Hj. destruct (Z.eq_dec j node) as [-> | Hne].
    + rewrite Hs0. lia.
    + rewrite Hoth by assumption. now apply Hsz.
  - apply (inv_gen_ext s' (upd (cnt_of s) node 0) _ (upd (has_ind (cnt_of s)) node false)).
    2:{ intros j Hj. split; [apply Ec |]. unfold has_ind. rewrite Ec.
        destruct (Z.eq_dec j node) as [-> | Hne].
        - now rewrite !upd_same.
        - now rewrite !upd_other. }
    apply (inv_gen_transfer s s' (cnt_of s) _ (has_ind (cnt_of s)) _ I).
    + intros j Hj. destruct (Z.eq_dec j node) as [-> | Hne].
      * rewrite !upd_same. lia.
      * rewrite !upd_other by assumption. now apply (ig_cnt _ _ _ I).
    + intros j r Hj Hs. left.
      destruct (Z.eq_dec j node) as [-> | Hne].
      * rewrite !upd_same in Hs. destruct Hs as [[_ ?] | ?]; [discriminate | lia].
      * rewrite !upd_other in Hs by assumption.
        refine (conj Hs (conj _ (Hbm j r Hj Hne Hs))).
        apply ref_same_inode; auto.
    + intros j Hj. destruct (ig_zero _ _ _ I j Hj) as (Z1 & Z2 & Z3).
      destruct (Z.eq_dec j node) as [-> | Hne].
      * rewrite !upd_same. refine (conj (fun _ => Hb0) (conj (fun _ => Hi0) _)).
        discriminate.
      * rewrite !upd_other by assumption. rewrite Hoth by assumption.
        refine (conj Z1 (conj Z2 _)). intros Hh k Hk.
        unfold table_get. rewrite Himg. now apply Z3.
Qed.

Lemma alloc_inode_cases (s : fs) :
  (alloc_inode s = (s, -1))
  \/ (exists ii s', alloc_inode s = (s', ii)
        /\ 0 <= ii < INODE_COUNT /\ ibm s ii = false
        /\ (forall j, 0 <= j < ii -> ibm s j = true)
        /\ img s' = img s /\ bbm s' = bbm s
        /\ ibm s' = bitmap_put (ibm s) ii true
        /\ clock s' = clock s /\ cur_uid s' = cur_uid s /\ cur_gid s' = cur_gid s
        /\ itab s' ii = mk_inode 1 0 0 0 0 (clock s) (clock s) (cur_uid s) (cur_gid s)
        /\ (forall j, j <> ii -> itab s' j = itab s j)).
Proof.
  unfold alloc_inode.
  destruct (first_clear (ibm s) 0 128) as [ii |] eqn:E; [right | now left].
  apply first_clear_some in E. destruct E as (E1 & E2 & E3).
  change (Z.of_nat 128) with 128 in E1.
  eexists ii, _. split; [reflexivity |].
  unfold INODE_COUNT.
  split; [lia |]. refine (conj E2 (conj E3 _)).
  repeat (split; [reflexivity |]).
  split.
  - repeat rewrite itab_upd_inode_same. reflexivity.
  - intros j Hj. repeat rewrite itab_upd_inode_other by assumption. reflexivity.
Qed.

Lemma alloc_inode_inv (s s' : fs) (ii : Z) :
  inv s -> alloc_inode s = (s', ii) -> inv s'.
Proof.
  intros I H.
  destruct (alloc_inode_cases s) as [E | (ii' & s1 & E & Hii & _ & _ & Himg & Hbbm & _ & _ & _ & _ & Hrec & Hoth)];
    rewrite E in H; injection H as <- <-; [exact I |].
  apply (inv_reset_inode s s1 ii' I Hii Himg Hoth); try (rewrite Hrec; reflexivity).
  intros j r Hj Hne Hs. rewrite Hbbm. now apply (ig_ref _ _ _ (proj2 I)).
Qed.

Lemma free_indirect_loop_bbm (ib : Z) (n : nat) :
  forall s ii y,
    (forall k, ii <= k < ii + Z.of_nat n -> table_get s ib k <> y) ->
    bbm (free_indirect_loop s ib ii n) y = bbm s y.
Proof.
  induction n as [| n IH]; intros s ii y Hy; cbn [free_indirect_loop]; [reflexivity |].
  destruct (Z.eqb_spec (table_get s ib ii) 0) as [Hz | Hnz].
  - apply IH. intros k Hk. apply Hy. lia.
  - rewrite IH.
    + apply bbm_free_other. intros ->. apply (Hy ii); [lia | reflexivity].
    + intros k Hk. change (table_get (free_block s (table_get s ib ii)) ib k)
        with (table_get s ib k). apply Hy. lia.
Qed.

Lemma free_inode_bbm (s : fs) (inum y : Z) :
  y <> block (itab s inum) -> y <> indirect (itab s inum) ->
  (forall k, 0 <= k < Z.min (bytes_to_blocks (size (itab s inum)) - 1)
                            (BLOCK_SIZE / INT_SIZE) ->
     table_get s (indirect (itab s inum)) k <> y) ->
  bbm (free_inode s inum) y = bbm s y.
Proof.
  intros Hb Hi Ht. unfold free_inode.
  destruct ((inum <? 0) || (inum >=? INODE_COUNT)); [reflexivity |].
  set (s1 := if block (itab s inum) =? 0 then s else free_block s (block (itab s inum))).
  assert (E1 : bbm s1 y = bbm s y).
  { unfold s1. destruct (block (itab s inum) =? 0); [reflexivity |].
    now apply bbm_free_other. }
  assert (T1 : itab s1 = itab s /\ img s1 = img s).
  { unfold s1. destruct (block (itab s inum) =? 0); auto. }
  destruct T1 as [T1 M1].
  unfold upd_inode. cbn [bbm with_ibm with_itab].
  rewrite T1.
  destruct (indirect (itab s inum) =? 0); [exact E1 |].
  rewrite bbm_free_other by assumption.
  rewrite free_indirect_loop_bbm; [exact E1 |].
  intros k Hk. unfold table_get. rewrite M1. apply Ht. lia.
Qed.

(** [free_inode] keeps the invariant. *)
Lemma free_inode_inv (s : fs) (inum : Z) : inv s -> inv (free_inode s inum).
Proof.
  intros I.
  destruct (Z_lt_le_dec inum 0) as [Hneg | Hpos].
  { unfold free_inode. destruct (Z.ltb_spec inum 0); [exact I | lia]. }
  destruct (Z_lt_le_dec inum INODE_COUNT) as [Hlt | Hge].
  2:{ unfold free_inode. destruct (Z.geb_spec inum INODE_COUNT); [| lia].
      now rewrite orb_true_r. }
  assert (Hn : 0 <= inum < INODE_COUNT) by lia.
  destruct (free_inode_frame s inum Hn) as (F1 & F2 & F3).
  pose proof I as [Hsz Ig].
  apply (inv_reset_inode s (free_inode s inum) inum I Hn F1).
  - intros j Hj. rewrite F3. now apply upd_other.
  - rewrite F3, upd_same. reflexivity.
  - rewrite F3, upd_same. reflexivity.
  - rewrite F3, upd_same. reflexivity.
  - intros j r Hj Hne Hs.
    rewrite free_inode_bbm; [now apply (ig_ref _ _ _ Ig) | | |].
    + (* not the direct block *)
      intros E.
      destruct (Z.eq_dec (cnt_of s inum) 0) as [Hc | Hc].
      * destruct (ig_zero _ _ _ Ig inum Hn) as (Z1 & _ & _). specialize (Z1 Hc).
        destruct (ig_ref _ _ _ Ig j r Hj Hs) as [Hx _]. lia.
      * destruct (ig_cnt _ _ _ Ig inum Hn) as [Hc0 _].
        rewrite <- ref_direct in E.
        destruct (ig_uniq _ _ _ Ig j r inum 0 Hj Hn Hs ltac:(right; lia) E). congruence.
    + (* not the indirect block *)
      intros E.
      destruct (has_ind (cnt_of s) inum) eqn:Hh.
      * rewrite <- ref_ind in E.
        destruct (ig_uniq _ _ _ Ig j r inum (-1) Hj Hn Hs ltac:(left; auto) E). congruence.
      * destruct (ig_zero _ _ _ Ig inum Hn) as (_ & Z2 & _). specialize (Z2 Hh).
        destruct (ig_ref _ _ _ Ig j r Hj Hs) as [Hx _]. lia.
    + (* not an entry of the indirect table *)
      intros k Hk E.
      pose proof (Hsz inum Hn) as Hs0.
      assert (Ec : cnt_of s inum = bytes_to_blocks (size (itab s inum))).
      { unfold cnt_of. now apply blocks_of_nonneg. }
      assert (Hs1 : slot_ok (cnt_of s inum) (has_ind (cnt_of s) inum) (k + 1)).
      { right. lia. }
      destruct (ig_ref _ _ _ Ig inum (k + 1) Hn Hs1) as [Hx _].
      rewrite ref_data in Hx by lia.
      destruct (inode_get_bnum_indirect s inum (k + 1) ltac:(lia) ltac:(lia))
        as (_ & _ & Eb).
      replace (k + 1 - 1) with k in Eb by lia.
      assert (E' : ref s j r = ref s inum (k + 1)).
      { rewrite (ref_data s inum (k + 1)) by lia. congruence. }
      destruct (ig_uniq _ _ _ Ig j r inum (k + 1) Hj Hn Hs Hs1 E'). congruence.
Qed.

(** ** Writes into data blocks keep the invariant *)

Lemma inv_data_write (s s' : fs) (node r : Z) :
  inv s -> 0 <= node < INODE_COUNT -> 0 <= r < cnt_of s node ->
  itab s' = itab s -> bbm s' = bbm s ->
  same_outside s s' (inode_get_bnum s node r) ->
  inv s'
  /\ (forall j k, 0 <= j < INODE_COUNT -> 0 <= k < cnt_of s j ->
        inode_get_bnum s' j k = inode_get_bnum s j k).
Proof.
  intros [Hsz I] Hn Hr Hit Hbm Hout.
  rewrite <- (ref_data s node r) in Hout by lia.
  destruct (inv_gen_outside s s' _ _ (ref s node r) I Hit Hout) as [I' Href].
  - intros j Hj Hh E. rewrite <- ref_ind in E.
    destruct (ig_uniq _ _ _ I j (-1) node r Hj Hn) as [_ Hx]; auto.
    + left; auto.
    + right; lia.
    + lia.
  - intros x Hx. now rewrite Hbm.
  - assert (Ec : cnt_of s' = cnt_of s) by (unfold cnt_of; now rewrite Hit).
    split; [split |].
    + intros j Hj. rewrite Hit. now apply Hsz.
    + now rewrite Ec.
    + intros j k Hj Hk. rewrite <- !ref_data by lia. apply Href; [assumption |].
      right. lia.
Qed.

(** Entries of a directory lie inside its data blocks. *)
Lemma directory_get_entry_some (s : fs) (di index e : Z) :
  directory_get_entry s di index = Some e ->
  0 <= index
  /\ 0 < inode_get_bnum s di (index / ENTRIES_PER_BLOCK)
  /\ e = blocks_get_block (inode_get_bnum s di (index / ENTRIES_PER_BLOCK))
         + DIRENT_SIZE * (index mod ENTRIES_PER_BLOCK).
Proof.
  unfold directory_get_entry. intros H.
  destruct (Z.ltb_spec index 0); [discriminate |].
  rewrite Z.quot_div_nonneg, Z.rem_mod_nonneg in H
    by (try assumption; unfold ENTRIES_PER_BLOCK; cbn; lia).
  destruct (Z.leb_spec (inode_get_bnum s di (index / ENTRIES_PER_BLOCK)) 0);
    [discriminate |].
  injection H as <-. auto.
Qed.

Lemma dir_slots_in (s : fs) (di : Z) (n : nat) :
  forall ii e, In e (dir_slots s di ii n) ->
    exists index, ii <= index < ii + Z.of_nat n
                  /\ directory_get_entry s di index = Some e.
Proof.
  induction n as [| n IH]; intros ii e H; cbn [dir_slots] in H; [contradiction |].
  destruct (directory_get_entry s di ii) as [e0 |] eqn:E; [| contradiction].
  destruct H as [<- | H].
  - exists ii. split; [lia | exact E].
  - destruct (IH _ _ H) as (index & Hi & He). exists index. split; [lia | exact He].
Qed.

Lemma directory_max_entries_eq (s : fs) (di : Z) :
  directory_max_entries s di = cnt_of s di * ENTRIES_PER_BLOCK.
Proof. reflexivity. Qed.

(** An entry of index below [directory_max_entries] lies in one of the
    data blocks of the directory, at a multiple of 64 bytes. *)
Lemma directory_get_entry_block (s : fs) (di index e : Z) :
  directory_get_entry s di index = Some e ->
  index < directory_max_entries s di ->
  exists r off, 0 <= r < cnt_of s di /\ 0 <= off < ENTRIES_PER_BLOCK
    /\ 0 < inode_get_bnum s di r
    /\ e = blocks_get_block (inode_get_bnum s di r) + DIRENT_SIZE * off.
Proof.
  intros He Hi.
  apply directory_get_entry_some in He. destruct He as (H0 & Hb & ->).
  rewrite directory_max_entries_eq in Hi.
  exists (index / ENTRIES_PER_BLOCK), (index mod ENTRIES_PER_BLOCK).
  unfold ENTRIES_PER_BLOCK in *. change (BLOCK_SIZE / DIRENT_SIZE) with 64 in *.
  pose proof (Z.mod_pos_bound index 64 ltac:(lia)).
  pose proof (Z.div_mod index 64 ltac:(lia)).
  assert (0 <= index / 64) by (apply Z.div_pos; lia).
  assert (index / 64 < cnt_of s di) by (apply Z.div_lt_upper_bound; lia).
  repeat split; try lia; try assumption.
Qed.

Lemma dir_entries_index (s : fs) (di e : Z) :
  In e (dir_entries s di) ->
  exists index, directory_get_entry s di index = Some e
                /\ 0 <= index < directory_max_entries s di.
Proof.
  unfold dir_entries. intros H.
  apply dir_slots_in in H. destruct H as (index & Hi & He).
  exists index. split; [exact He |].
  pose proof (directory_get_entry_some _ _ _ _ He) as (H0 & _).
  lia.
Qed.

Lemma write_entry_frame (s : fs) (e : Z) (name : cstr) (inum : Z) :
  entry_frame s (write_entry s e name inum) e.
Proof.
  unfold entry_frame, write_entry. cbn [itab bbm ibm clock cur_uid cur_gid img with_img].
  repeat (split; [reflexivity |]).
  intros a Ha. unfold DIRENT_SIZE, DIR_NAME_LENGTH in *.
  rewrite store_int_other by (unfold INT_SIZE; lia).
  unfold store_byte. destruct (Z.eqb_spec a (e + (48 - 1))); [lia |].
  unfold strncpy.
  destruct (Z.leb_spec e a); destruct (Z.ltb_spec a (e + (48 - 1))); cbn [andb];
    try reflexivity; lia.
Qed.

Lemma delete_entry_frame (s : fs) (e : Z) :
  entry_frame s (with_img s (memset0 (img s) e DIRENT_SIZE)) e.
Proof.
  unfold entry_frame. cbn [itab bbm ibm clock cur_uid cur_gid img with_img].
  repeat (split; [reflexivity |]).
  intros a Ha. now apply memset0_out.
Qed.

Lemma inv_entry_write_at (s s' : fs) (di index e : Z) :
  inv s -> 0 <= di < INODE_COUNT ->
  directory_get_entry s di index = Some e -> index < directory_max_entries s di ->
  entry_frame s s' e -> inv s'.
Proof.
  intros I Hn He Hi (Hit & Hbm & _ & _ & _ & _ & Himg).
  destruct (directory_get_entry_block s di index e He Hi) as (r & off & Hr & Hoff & Hb & ->).
  apply (inv_data_write s s' di r I Hn Hr Hit Hbm).
  intros a Ha. apply Himg. revert Ha Hoff.
  unfold blocks_get_block, ENTRIES_PER_BLOCK, BLOCK_SIZE, DIRENT_SIZE.
  change (4096 / 64) with 64. lia.
Qed.

Lemma inv_entry_write (s s' : fs) (di e : Z) :
  inv s -> 0 <= di < INODE_COUNT -> In e (dir_entries s di) ->
  entry_frame s s' e -> inv s'.
Proof.
  intros I Hn Hin F.
  destruct (dir_entries_index s di e Hin) as (index & He & Hi).
  apply (inv_entry_write_at s s' di index e I Hn He); [lia | exact F].
Qed.

Lemma grow_inode_rv (s : fs) (node sz : Z) :
  snd (grow_inode s node sz) = 0 \/ snd (grow_inode s node sz) = -1.
Proof.
  unfold grow_inode.
  destruct (grow_loop s node _ _); cbn [snd]; auto.
Qed.

Lemma directory_put_inv (s : fs) (di : Z) (name : cstr) (inum : Z) (s' : fs) :
  inv s -> 0 <= di < INODE_COUNT ->
  directory_put s di name inum = (s', 0) -> inv s'.
Proof.
  intros I Hn H. unfold directory_put in H.
  destruct (strlen name =? 0); [discriminate |].
  destruct (strlen name >=? DIR_NAME_LENGTH); [discriminate |].
  rewrite dir_scan_find in H. fold (dir_entries s di) in H.
  destruct (find (entry_empty s) (dir_entries s di)) as [e |] eqn:F.
  - injection H as <-. apply find_some in F. destruct F as [Hin _].
    apply (inv_entry_write s _ di e I Hn Hin). apply write_entry_frame.
  - pose proof (grow_inode_rv s di (size (itab s di) + BLOCK_SIZE)) as Hrv.
    destruct (grow_inode s di (size (itab s di) + BLOCK_SIZE)) as [s1 rv] eqn:G.
    cbn [snd] in Hrv.
    destruct Hrv as [-> | ->]; [| discriminate].
    cbn [Z.ltb Z.compare] in H.
    assert (Hle : size (itab s di) <= size (itab s di) + BLOCK_SIZE)
      by (unfold BLOCK_SIZE; lia).
    destruct (grow_inode_inv s di _ s1 I Hn Hle G) as (I1 & sl & Fg & Es1).
    destruct (directory_get_entry s1 di (directory_max_entries s di)) as [e |] eqn:E;
      [| discriminate].
    injection H as <-.
    apply (inv_entry_write_at s1 _ di _ e I1 Hn E); [| apply write_entry_frame].
    rewrite !directory_max_entries_eq.
    assert (Ec : cnt_of s1 di = cnt_of s di + 1).
    { unfold cnt_of. rewrite Es1. rewrite itab_upd_inode_same.
      rewrite itab_upd_inode_same. cbn [size set_size set_mtime].
      destruct I as [Hsz _]. pose proof (Hsz di Hn).
      rewrite !blocks_of_nonneg by (unfold BLOCK_SIZE; lia).
      apply bytes_to_blocks_add_block. }
    rewrite Ec. unfold ENTRIES_PER_BLOCK. change (BLOCK_SIZE / DIRENT_SIZE) with 64. lia.
Qed.

Lemma directory_delete_inv (s : fs) (di : Z) (name : cstr) :
  inv s -> 0 <= di < INODE_COUNT -> inv (fst (directory_delete s di name)).
Proof.
  intros I Hn. unfold directory_delete.
  destruct (strlen name =? 0); [exact I |].
  rewrite dir_scan_find. fold (dir_entries s di).
  destruct (find (entry_matches s name) (dir_entries s di)) as [e |] eqn:F; [| exact I].
  apply find_some in F. destruct F as [Hin _]. cbn [fst].
  apply (inv_entry_write s _ di e I Hn Hin). apply delete_entry_frame.
Qed.

(** ** The loop of [storage_write] *)

Lemma pos_block_lt (pos sz : Z) :
  0 <= pos < sz -> 0 <= pos / BLOCK_SIZE < blocks_of sz.
Proof.
  intros H. rewrite blocks_of_nonneg by lia.
  pose proof (bytes_to_blocks_bounds sz) as B.
  unfold BLOCK_SIZE in *.
  pose proof (Z.div_mod pos 4096 ltac:(lia)).
  pose proof (Z.mod_pos_bound pos 4096 ltac:(lia)).
  split; [apply Z.div_pos; lia | lia].
Qed.

Lemma memcpy_from_in (m : Z -> Z) (dst : Z) (buf : list Z) (off len a : Z) :
  dst <= a < dst + len ->
  memcpy_from m dst buf off len a = nth (Z.to_nat (off + (a - dst))) buf 0.
Proof.
  intros H. unfold memcpy_from.
  destruct (Z.leb_spec dst a); destruct (Z.ltb_spec a (dst + len)); cbn [andb];
    try reflexivity; lia.
Qed.

Lemma memcpy_from_out (m : Z -> Z) (dst : Z) (buf : list Z) (off len a : Z) :
  ~ (dst <= a < dst + len) -> memcpy_from m dst buf off len a = m a.
Proof.
  intros H. unfold memcpy_from.
  destruct (Z.leb_spec dst a); destruct (Z.ltb_spec a (dst + len)); cbn [andb];
    try reflexivity; lia.
Qed.

Lemma inv_data_blocks_distinct (s : fs) (node r r' : Z) :
  inv s -> 0 <= node < INODE_COUNT ->
  0 <= r < cnt_of s node -> 0 <= r' < cnt_of s node ->
  (2 <= inode_get_bnum s node r < BLOCK_COUNT)
  /\ (inode_get_bnum s node r = inode_get_bnum s node r' -> r = r').
Proof.
  intros [_ I] Hn Hr Hr'.
  destruct (ig_ref _ _ _ I node r Hn ltac:(right; lia)) as [Hx _].
  rewrite ref_data in Hx by lia. split; [exact Hx |].
  intros E. rewrite <- !ref_data in E by lia.
  destruct (ig_uniq _ _ _ I node r node r' Hn Hn) as [_ Hrr]; auto; right; lia.
Qed.

Lemma write_loop_spec (s0 : fs) (node offset sz : Z) (buf : list Z) (fuel : nat) :
  0 <= node < INODE_COUNT -> 0 <= offset ->
  offset + sz <= size (itab s0 node) -> offset + sz < 2147483648 ->
  forall (s : fs) (w : Z),
    write_ok s0 s node offset buf w -> 0 <= w <= sz ->
    (Z.to_nat (sz - w) <= fuel)%nat ->
    write_ok s0 (fst (write_loop s node buf offset sz w fuel)) node offset buf sz
    /\ snd (write_loop s node buf offset sz w fuel) = sz.
Proof.
  intros Hn Hoff Hsize Hmax.
  induction fuel as [| fuel IH]; intros s w W Hw Hfuel; cbn [write_loop].
  - assert (w = sz) by lia. subst w. cbn [fst snd]. auto.
  - destruct (Z.ltb_spec w sz) as [Hlt | Hge].
    2:{ assert (w = sz) by lia. subst w. cbn [fst snd]. auto. }
    destruct (quot_rem_block (offset + w) ltac:(lia)) as [Eq Er].
    rewrite Eq, Er.
    pose proof (Z.mod_pos_bound (offset + w) BLOCK_SIZE ltac:(unfold BLOCK_SIZE; lia)) as Hbo.
    pose proof (pos_block_lt (offset + w) (size (itab s0 node)) ltac:(lia)) as Hk.
    fold (cnt_of s0 node) in Hk.
    rewrite !cast_int_id by (unfold BLOCK_SIZE in *;
      pose proof (Z.div_le_upper_bound (offset + w) 4096 2147483647 ltac:(lia) ltac:(lia)); lia).
    set (k := (offset + w) / BLOCK_SIZE) in *.
    set (bo := (offset + w) mod BLOCK_SIZE) in *.
    pose proof (wo_inv _ _ _ _ _ _ W) as I.
    pose proof (wo_itab _ _ _ _ _ _ W) as Hit.
    assert (Ec : cnt_of s = cnt_of s0) by (unfold cnt_of; now rewrite Hit).
    rewrite (wo_bnum _ _ _ _ _ _ W node k Hn Hk).
    assert (Hk' : 0 <= k < cnt_of s node) by (rewrite Ec; exact Hk).
    destruct (inv_data_blocks_distinct s node k k I Hn Hk' Hk') as [Hx _].
    rewrite (wo_bnum _ _ _ _ _ _ W node k Hn Hk) in Hx.
    set (x := inode_get_bnum s0 node k) in *.
    destruct (Z.leb_spec x 0); [lia |].
    cbn zeta.
    set (tw := if BLOCK_SIZE - bo >? sz - w then sz - w else BLOCK_SIZE - bo).
    assert (Htw : 1 <= tw /\ tw <= sz - w /\ bo + tw <= BLOCK_SIZE).
    { unfold tw. destruct (Z.gtb_spec (BLOCK_SIZE - bo) (sz - w)); lia. }
    set (s1 := with_img s (memcpy_from (img s) (blocks_get_block x + bo) buf w tw)).
    assert (Hout : same_outside s s1 (inode_get_bnum s node k)).
    { rewrite (wo_bnum _ _ _ _ _ _ W node k Hn Hk). fold x.
      intros a Ha. unfold s1. cbn [img with_img]. apply memcpy_from_out.
      revert Ha Hbo. unfold blocks_get_block, BLOCK_SIZE in *. lia. }
    destruct (inv_data_write s s1 node k I Hn Hk' eq_refl eq_refl Hout) as [I1 B1].
    apply IH; [| lia | lia].
    constructor.
    + exact I1.
    + exact Hit.
    + exact (wo_bbm _ _ _ _ _ _ W).
    + exact (wo_ibm _ _ _ _ _ _ W).
    + exact (wo_env _ _ _ _ _ _ W).
    + intros j r Hj Hr. rewrite B1 by (try assumption; now rewrite Ec).
      now apply (wo_bnum _ _ _ _ _ _ W).
    + intros p Hp. unfold s1. cbn [img with_img].
      destruct (Z_lt_le_dec p w) as [Hold | Hnew].
      * (* a byte written before *)
        rewrite memcpy_from_out; [apply (wo_data _ _ _ _ _ _ W); lia |].
        unfold file_addr.
        pose proof (pos_block_lt (offset + p) (size (itab s0 node)) ltac:(lia)) as Hkp.
        fold (cnt_of s0 node) in Hkp.
        pose proof (Z.mod_pos_bound (offset + p) BLOCK_SIZE ltac:(unfold BLOCK_SIZE; lia)) as Hbp.
        set (kp := (offset + p) / BLOCK_SIZE) in *.
        destruct (Z.eq_dec kp k) as [Ekp | Nkp].
        -- rewrite Ekp. fold x.
           assert ((offset + p) mod BLOCK_SIZE < bo).
           { unfold bo, kp, k in *.
             pose proof (Z.div_mod (offset + p) BLOCK_SIZE ltac:(unfold BLOCK_SIZE; lia)).
             pose proof (Z.div_mod (offset + w) BLOCK_SIZE ltac:(unfold BLOCK_SIZE; lia)).
             rewrite Ekp in *. lia. }
           lia.
        -- assert (Hxp : inode_get_bnum s0 node kp <> x).
           { intros E. apply Nkp.
             rewrite <- (wo_bnum _ _ _ _ _ _ W node kp Hn Hkp) in E.
             unfold x in E. rewrite <- (wo_bnum _ _ _ _ _ _ W node k Hn Hk) in E.
             apply (inv_data_blocks_distinct s node kp k I Hn); try (rewrite Ec); auto. }
           revert Hxp Hbp Hbo Htw. unfold blocks_get_block, BLOCK_SIZE. lia.
      * (* a byte of this pass *)
        destruct (block_offset_shift (offset + w) (p - w)) as [Sq Sm]; try (fold bo; lia).
        replace (offset + w + (p - w)) with (offset + p) in Sq, Sm by lia.
        unfold file_addr. rewrite Sq, Sm. fold k bo x.
        rewrite memcpy_from_in by lia.
        f_equal. lia.
    + intros a Ha. unfold s1. cbn [img with_img].
      rewrite memcpy_from_out; [now apply (wo_rest _ _ _ _ _ _ W) |].
      specialize (Ha k Hk). fold x in Ha.
      revert Ha Hbo Htw. unfold blocks_get_block, BLOCK_SIZE. lia.
Qed.

(** ** The operations keep the invariant *)

Lemma get_inode_some (inum node : Z) :
  get_inode inum = Some node -> node = inum /\ 0 <= inum < INODE_COUNT.
Proof.
  unfold get_inode. intros H.
  destruct (Z.ltb_spec inum 0); cbn [orb] in H; [discriminate |].
  destruct (Z.geb_spec inum INODE_COUNT); [discriminate |].
  injection H as <-. split; [reflexivity | lia].
Qed.

Lemma directory_put_rv (s : fs) (di : Z) (name : cstr) (inum : Z) :
  snd (directory_put s di name inum) = 0 \/ snd (directory_put s di name inum) = -1.
Proof.
  unfold directory_put.
  destruct (strlen name =? 0); [now right |].
  destruct (strlen name >=? DIR_NAME_LENGTH); [now right |].
  destruct (dir_scan s di (entry_empty s) 0 _); [now left |].
  destruct (grow_inode s di _) as [s1 rv].
  destruct (rv <? 0); [now right |].
  destruct (directory_get_entry s1 di _); [now left | now right].
Qed.

Lemma write_ok_start (s : fs) (node offset : Z) (buf : list Z) :
  inv s -> write_ok s s node offset buf 0.
Proof.
  intros I. constructor; auto. intros; lia.
Qed.

Lemma storage_read_inv (s : fs) (path : cstr) (n offset : Z) :
  inv s -> inv (fst (fst (storage_read s path n offset))).
Proof.
  intros I. unfold storage_read.
  destruct (tree_lookup s path <? 0); [exact I |].
  destruct (get_inode (tree_lookup s path)) as [node |]; [| exact I].
  destruct (offset >=? size (itab s node)); [exact I |].
  destruct (read_loop s node offset _ 0 [] _) as [br out]. cbn [fst].
  now apply inv_fields.
Qed.

Lemma storage_write_inv (s : fs) (path : cstr) (buf : list Z) (n offset : Z) :
  inv s -> 0 <= offset -> 0 <= n -> offset + n < 2147483648 ->
  0 <= snd (storage_write s path buf n offset) ->
  inv (fst (storage_write s path buf n offset)).
Proof.
  intros I Hoff Hn Hmax. unfold storage_write.
  destruct (tree_lookup s path <? 0); [intros _; exact I |].
  destruct (get_inode (tree_lookup s path)) as [node |] eqn:G; [| intros _; exact I].
  apply get_inode_some in G. destruct G as [-> Hnode].
  set (node := tree_lookup s path) in *.
  rewrite cast_int_id by lia.
  assert (Hg : exists s1, (if offset + n >? size (itab s node)
                           then grow_inode s node (offset + n) else (s, 0)) = (s1, 0)
                          /\ inv s1 /\ offset + n <= size (itab s1 node)
                          /\ clock s1 = clock s
               \/ snd (if offset + n >? size (itab s node)
                       then grow_inode s node (offset + n) else (s, 0)) = -1).
  { destruct (Z.gtb_spec (offset + n) (size (itab s node))) as [Hgt | Hle].
    - pose proof (grow_inode_rv s node (offset + n)) as Hrv.
      destruct (grow_inode s node (offset + n)) as [s1 rv] eqn:G. cbn [snd] in Hrv.
      destruct Hrv as [-> | ->]; [| exists s; now right].
      exists s1. left. split; [reflexivity |].
      destruct (grow_inode_inv s node (offset + n) s1 I Hnode ltac:(lia) G) as (I1 & sl & F & ->).
      refine (conj I1 (conj _ _)).
      + rewrite !itab_upd_inode_same. cbn [size set_size set_mtime]. lia.
      + apply (gf_env _ _ _ F).
    - exists s. left. refine (conj eq_refl (conj I (conj Hle eq_refl))). }
  destruct Hg as (s1 & [(E & I1 & Hsz & Hclk) | E]).
  2:{ destruct (if offset + n >? size (itab s node) then _ else _) as [s1' rv].
      cbn [snd] in E. subst rv. cbn. unfold ENOSPC. lia. }
  rewrite E. cbn [Z.ltb Z.compare].
  destruct (write_loop_spec s1 node offset n buf (Z.to_nat n) Hnode Hoff Hsz Hmax
              s1 0 (write_ok_start s1 node offset buf I1) ltac:(lia) ltac:(lia))
    as [W _].
  destruct (write_loop s1 node buf offset n 0 (Z.to_nat n)) as [s2 bw].
  cbn [fst snd] in *. intros _.
  apply inv_fields; try reflexivity. apply (wo_inv _ _ _ _ _ _ W).
Qed.

Lemma storage_truncate_inv (s : fs) (path : cstr) (sz : Z) :
  inv s -> 0 <= sz < 2147483648 ->
  0 <= snd (storage_truncate s path sz) ->
  inv (fst (storage_truncate s path sz)).
Proof.
  intros I Hsz. unfold storage_truncate.
  destruct (tree_lookup s path <? 0); [intros _; exact I |].
  destruct (get_inode (tree_lookup s path)) as [node |] eqn:G; [| intros _; exact I].
  apply get_inode_some in G. destruct G as [-> Hnode].
  rewrite cast_int_id by lia.
  destruct (Z.gtb_spec sz (size (itab s (tree_lookup s path)))) as [Hgt | Hle].
  - pose proof (grow_inode_rv s (tree_lookup s path) sz) as Hrv.
    destruct (grow_inode s (tree_lookup s path) sz) as [s1 rv] eqn:E. cbn [fst snd] in *.
    destruct Hrv as [-> | ->]; [intros _ | lia].
    apply (grow_inode_inv s (tree_lookup s path) sz s1 I Hnode ltac:(lia) E).
  - destruct (Z.ltb_spec sz (size (itab s (tree_lookup s path)))); [| intros _; exact I].
    intros _. apply shrink_inode_inv; [exact I | exact Hnode | lia].
Qed.

Lemma grow_step_inr_first (s : fs) (node : Z) (s' : fs) :
  grow_step s node 0 = inr s' -> s' = s.
Proof.
  unfold grow_step. destruct (alloc_block_cases s) as [[E _] | (b & Hb & _ & E)]; rewrite E.
  - cbn. intros H. now injection H as <-.
  - destruct (Z.ltb_spec b 0); [lia |]. cbn. discriminate.
Qed.

Lemma grow_first_block_inv (s : fs) (node : Z) :
  inv s -> 0 <= node < INODE_COUNT -> size (itab s node) = 0 ->
  inv (fst (grow_inode s node BLOCK_SIZE)).
Proof.
  intros I Hn Hs.
  pose proof (grow_inode_rv s node BLOCK_SIZE) as Hrv.
  destruct (grow_inode s node BLOCK_SIZE) as [s1 rv] eqn:E. cbn [fst snd] in *.
  destruct Hrv as [-> | ->].
  - apply (grow_inode_inv s node BLOCK_SIZE s1 I Hn ltac:(unfold BLOCK_SIZE; lia) E).
  - unfold grow_inode in E. rewrite Hs in E.
    change (if 0 =? 0 then 0 else bytes_to_blocks 0) with 0 in E.
    change (if BLOCK_SIZE =? 0 then 0 else bytes_to_blocks BLOCK_SIZE) with 1 in E.
    change (Z.to_nat (1 - 0)) with 1%nat in E. cbn [grow_loop] in E.
    destruct (grow_step s node 0) as [s2 | s2] eqn:G.
    + discriminate.
    + apply grow_step_inr_first in G. subst s2. now injection E as <-.
Qed.

Lemma storage_mknod_inv (s : fs) (path : cstr) (md : Z) :
  inv s -> 0 <= snd (storage_mknod s path md) -> inv (fst (storage_mknod s path md)).
Proof.
  intros I. unfold storage_mknod.
  destruct (tree_lookup s path >=? 0); [intros _; exact I |].
  destruct (tree_lookup_parent s path <? 0); [intros _; exact I |].
  destruct (get_inode (tree_lookup_parent s path)) as [parent |] eqn:G; [| intros _; exact I].
  apply get_inode_some in G. destruct G as [-> Hp].
  destruct (alloc_inode_cases s) as [E | (ii & s1 & E & Hii & _ & _ & _ & _ & _ & _ & _ & _ & Hrec & _)];
    rewrite E.
  { cbn. intros _; exact I. }
  destruct (Z.ltb_spec ii 0); [lia |].
  pose proof (alloc_inode_inv s s1 ii I E) as I1.
  set (s2 := upd_inode s1 ii (set_mode md)).
  set (s3 := upd_inode s2 ii (set_size 0)).
  assert (I3 : inv s3).
  { unfold s3, s2. apply inv_fields; try reflexivity.
    - rewrite itab_upd_inode_same, Hrec. reflexivity.
    - apply inv_fields; try reflexivity. exact I1. }
  assert (Hs3 : size (itab s3 ii) = 0).
  { unfold s3. now rewrite itab_upd_inode_same. }
  set (s4 := if negb (Z.land md S_IFDIR =? 0)
             then fst (grow_inode s3 ii BLOCK_SIZE) else s3).
  assert (I4 : inv s4).
  { unfold s4. destruct (negb (Z.land md S_IFDIR =? 0)); [| exact I3].
    now apply grow_first_block_inv. }
  pose proof (directory_put_rv s4 (tree_lookup_parent s path) (get_basename path) ii) as Hrv.
  destruct (directory_put s4 (tree_lookup_parent s path) (get_basename path) ii)
    as [s5 rv] eqn:P. cbn [snd] in Hrv.
  destruct Hrv as [-> | ->]; cbn [Z.ltb Z.compare fst snd].
  - intros _. apply (directory_put_inv s4 _ _ _ s5 I4 Hp P).
  - unfold ENOSPC. lia.
Qed.

Lemma storage_unlink_inv (s : fs) (path : cstr) (s' : fs) (r : Z) :
  inv s -> storage_unlink s path = Some (s', r) -> inv s'.
Proof.
  intros I. unfold storage_unlink.
  destruct (tree_lookup s path <? 0); [intros H; now injection H as <- _ |].
  destruct (tree_lookup_parent s path <? 0); [intros H; now injection H as <- _ |].
  destruct (get_inode (tree_lookup_parent s path)) as [parent |] eqn:G;
    [| intros H; now injection H as <- _].
  apply get_inode_some in G. destruct G as [-> Hp].
  pose proof (directory_delete_inv s (tree_lookup_parent s path) (get_basename path) I Hp) as I1.
  destruct (directory_delete s (tree_lookup_parent s path) (get_basename path)) as [s1 rv].
  cbn [fst] in I1.
  destruct (rv <? 0); [intros H; now injection H as <- _ |].
  destruct (get_inode (tree_lookup s path)) as [node |]; [| discriminate].
  intros H. injection H as <- _.
  match goal with |- inv (if _ then free_inode ?a _ else _) =>
    assert (I2 : inv a) by (apply inv_fields; try reflexivity; exact I1)
  end.
  destruct (_ <=? 0); [now apply free_inode_inv | exact I2].
Qed.

Lemma storage_link_inv (s : fs) (from to : cstr) (s' : fs) (r : Z) :
  inv s -> storage_link s from to = Some (s', r) -> 0 <= r -> inv s'.
Proof.
  intros I. unfold storage_link.
  destruct (tree_lookup s from <? 0); [intros H; now injection H as <- _ |].
  destruct (tree_lookup s to >=? 0); [intros H; now injection H as <- _ |].
  destruct (tree_lookup_parent s to <? 0); [intros H; now injection H as <- _ |].
  destruct (get_inode (tree_lookup_parent s to)) as [parent |] eqn:G;
    [| intros H; now injection H as <- _].
  apply get_inode_some in G. destruct G as [-> Hp].
  pose proof (directory_put_rv s (tree_lookup_parent s to) (get_basename to)
                (tree_lookup s from)) as Hrv.
  destruct (directory_put s (tree_lookup_parent s to) (get_basename to) (tree_lookup s from))
    as [s1 rv] eqn:P. cbn [snd] in Hrv.
  destruct Hrv as [-> | ->]; cbn [Z.ltb Z.compare].
  - destruct (get_inode (tree_lookup s from)) as [node |]; [| discriminate].
    intros H _. injection H as <- _.
    apply inv_fields; try reflexivity.
    apply (directory_put_inv s _ _ _ s1 I Hp P).
  - intros H. injection H as _ <-. unfold ENOSPC. lia.
Qed.

Lemma storage_rename_inv (s : fs) (from to : cstr) (s' : fs) (r : Z) :
  inv s -> storage_rename s from to = Some (s', r) -> 0 <= r -> inv s'.
Proof.
  intros I. unfold storage_rename.
  destruct (tree_lookup s from <? 0); [intros H; now injection H as <- _ |].
  assert (H1 : forall s1,
             (if tree_lookup s to >=? 0
              then option_map fst (storage_unlink s to) else Some s) = Some s1 ->
             inv s1).
  { intros s1. destruct (tree_lookup s to >=? 0).
    - destruct (storage_unlink s to) as [[s2 r2] |] eqn:U; [| discriminate].
      cbn. intros H. injection H as <-. apply (storage_unlink_inv s to s2 r2 I U).
    - intros H. now injection H as <-. }
  destruct (if tree_lookup s to >=? 0 then _ else _) as [s1 |]; [| discriminate].
  specialize (H1 s1 eq_refl).
  destruct ((tree_lookup_parent s1 from <? 0) || (tree_lookup_parent s1 to <? 0));
    [intros H; now injection H as <- _ |].
  destruct (get_inode (tree_lookup_parent s1 from)) as [fp |] eqn:G1;
    [| intros H; now injection H as <- _].
  destruct (get_inode (tree_lookup_parent s1 to)) as [tp |] eqn:G2;
    [| intros H; now injection H as <- _].
  apply get_inode_some in G1, G2. destruct G1 as [-> Hfp]. destruct G2 as [-> Htp].
  pose proof (directory_put_rv s1 (tree_lookup_parent s1 to) (get_basename to)
                (tree_lookup s from)) as Hrv.
  destruct (directory_put s1 (tree_lookup_parent s1 to) (get_basename to) (tree_lookup s from))
    as [s2 rv] eqn:P. cbn [snd] in Hrv.
  destruct Hrv as [-> | ->]; cbn [Z.ltb Z.compare].
  - intros H _. injection H as <- _.
    apply directory_delete_inv; [| exact Hfp].
    apply (directory_put_inv s1 _ _ _ s2 H1 Htp P).
  - intros H. injection H as _ <-. unfold ENOSPC. lia.
Qed.

Lemma storage_set_time_inv (s : fs) (path : cstr) (ts0 ts1 : Z) :
  inv s -> inv (fst (storage_set_time s path ts0 ts1)).
Proof.
  intros I. unfold storage_set_time.
  destruct (tree_lookup s path <? 0); [exact I |].
  destruct (get_inode (tree_lookup s path)) as [node |]; [| exact I].
  cbn [fst]. apply inv_fields; try reflexivity. now apply inv_fields.
Qed.

Lemma storage_chmod_inv (s : fs) (path : cstr) (md : Z) :
  inv s -> inv (fst (storage_chmod s path md)).
Proof.
  intros I. unfold storage_chmod.
  destruct (tree_lookup s path <? 0); [exact I |].
  destruct (get_inode (tree_lookup s path)) as [node |]; [| exact I].
  cbn [fst]. now apply inv_fields.
Qed.

(** ** The invariant on a fresh image *)

Lemma inv_zero_image (now u g : Z) : inv (zero_image now u g).
Proof.
  split; [intros; cbn; lia |].
  constructor.
  - intros j Hj. cbn. split; [lia | intros; lia].
  - intros j r Hj [[_ H] | H]; [discriminate H | cbn in H; lia].
  - intros j r j' r' Hj Hj' [[_ H] | H]; [discriminate H | cbn in H; lia].
  - intros j Hj. cbn [zero_image itab]. repeat split; reflexivity.
Qed.

Lemma inv_mark (s : fs) (b : Z) : inv s -> inv (with_bbm s (bitmap_put (bbm s) b true)).
Proof.
  intros [Hsz I]. split; [exact Hsz |].
  apply (inv_gen_frame s _ _ _ I).
  - intros; split; reflexivity.
  - intros; reflexivity.
  - intros j r Hj Hr. cbn [bbm with_bbm]. unfold bitmap_put, upd.
    destruct (_ =? b); [reflexivity | now apply (ig_ref _ _ _ I)].
Qed.

Lemma directory_init_inv (s : fs) : inv s -> inv (directory_init s).
Proof.
  intros I. unfold directory_init. unfold bitmap_get.
  destruct (ibm s 0) eqn:B; [exact I |].
  destruct (alloc_inode_cases s) as [E | (ii & s1 & E & Hii & Hclr & Hlow & _ & _ & _ & _ & _ & _ & Hrec & _)];
    rewrite E.
  - (* no free inode: cannot happen, bit 0 is clear *)
    exfalso. unfold alloc_inode in E.
    destruct (first_clear (ibm s) 0 128) as [ii |] eqn:F.
    + apply first_clear_some in F. cbn zeta in E. injection E as _ E. lia.
    + assert (H0 : 0 <= 0 < 0 + Z.of_nat 128) by lia.
      pose proof (first_clear_none _ _ _ F 0 H0). congruence.
  - assert (ii = 0).
    { destruct (Z.eq_dec ii 0); [assumption |].
      pose proof (Hlow 0 ltac:(lia)). congruence. }
    subst ii.
    pose proof (alloc_inode_inv s s1 0 I E) as I1.
    apply grow_first_block_inv.
    + apply inv_fields; try reflexivity.
      * rewrite itab_upd_inode_same, Hrec. reflexivity.
      * now apply inv_fields.
    + exact Hii.
    + now rewrite itab_upd_inode_same.
Qed.

Lemma storage_init_inv (s : fs) : inv s -> inv (storage_init s).
Proof.
  intros I. unfold storage_init, inode_init, blocks_init.
  apply directory_init_inv.
  apply (inv_mark (with_bbm s (bitmap_put (bbm s) 0 true)) INODE_TABLE_BLOCK).
  now apply inv_mark.
Qed.

Lemma inv_fresh_fs : inv fresh_fs.
Proof. apply storage_init_inv, inv_zero_image. Qed.

(** ** C2: the shape of the inodes *)

Lemma inv_inode_shape (s : fs) (i : Z) :
  inv s -> 0 <= i < INODE_COUNT -> inode_shape s i.
Proof.
  intros [Hsz I] Hi. unfold inode_shape. cbn zeta.
  pose proof (Hsz i Hi) as Hs0.
  assert (Ec : cnt_of s i = bytes_to_blocks (size (itab s i))).
  { unfold cnt_of. now apply blocks_of_nonneg. }
  destruct (ig_zero _ _ _ I i Hi) as (Z1 & Z2 & Z3).
  unfold has_ind in Z2, Z3. rewrite Ec in *.
  refine (conj _ (conj _ _)).
  - intros H0. rewrite H0 in *. split; [now apply Z1 | now apply Z2].
  - intros Hle. apply Z2. apply Z.leb_gt. lia.
  - intros Hgt.
    assert (Hh : (2 <=? bytes_to_blocks (size (itab s i))) = true) by (apply Z.leb_le; lia).
    refine (conj _ (conj _ _)).
    + destruct (ig_ref _ _ _ I i (-1) Hi) as [Hx _].
      * left. split; [reflexivity |]. unfold has_ind. now rewrite Ec.
      * rewrite ref_ind in Hx. lia.
    + intros k Hk.
      destruct (ig_ref _ _ _ I i (k + 1) Hi) as [Hx _]; [right; rewrite Ec; lia |].
      rewrite ref_data in Hx by lia.
      destruct (inode_get_bnum_indirect s i (k + 1) ltac:(lia) ltac:(lia)) as (_ & _ & Eb).
      replace (k + 1 - 1) with k in Eb by lia. lia.
    + intros k Hk. apply (Z3 Hh). lia.
Qed.

(** An operation that returns a non-negative value keeps the invariant. *)
Lemma run_op_inv (s : fs) (o : op) (s' : fs) (r : Z) :
  inv s -> op_in_range o -> run_op s o = Some (s', r) -> 0 <= r -> inv s'.
Proof.
  intros I Hrange H Hr. destruct o; cbn [run_op op_in_range] in *.
  - now injection H as <- _.
  - injection H as <- _. now apply storage_read_inv.
  - destruct Hrange as (H1 & H2 & H3).
    destruct (storage_write s path buf n offset) as [s1 r1] eqn:E.
    injection H as <- <-.
    pose proof (storage_write_inv s path buf n offset I H1 H2 H3) as W.
    rewrite E in W. now apply W.
  - destruct (storage_truncate s path sz) as [s1 r1] eqn:E.
    injection H as <- <-.
    pose proof (storage_truncate_inv s path sz I Hrange) as W.
    rewrite E in W. now apply W.
  - destruct (storage_mknod s path md) as [s1 r1] eqn:E.
    injection H as <- <-.
    pose proof (storage_mknod_inv s path md I) as W.
    rewrite E in W. now apply W.
  - now apply (storage_unlink_inv s path s' r).
  - now apply (storage_link_inv s from to s' r).
  - now apply (storage_rename_inv s from to s' r).
  - injection H as H. apply (f_equal fst) in H. cbn [fst] in H. subst s'.
    now apply storage_set_time_inv.
  - injection H as H. apply (f_equal fst) in H. cbn [fst] in H. subst s'.
    now apply storage_chmod_inv.
  - now injection H as <- _.
Qed.

Lemma run_all_inv (l : list op) :
  forall s s', inv s -> Forall op_in_range l -> run_all s l = Some s' -> inv s'.
Proof.
  induction l as [| o rest IH]; intros s s' I Hr H; cbn [run_all] in H.
  - now injection H as <-.
  - inversion Hr as [| ? ? Ho Hrest]; subst.
    destruct (run_op s o) as [[s1 r] |] eqn:E; [| discriminate].
    destruct (Z.ltb_spec r 0); [discriminate |].
    apply (IH s1 s'); try assumption.
    now apply (run_op_inv s o s1 r).
Qed.




(** ** C1: a write followed by a read *)

Lemma load_int_frame (m m' : Z -> Z) (a : Z) :
  (forall x, a <= x < a + INT_SIZE -> m' x = m x) ->
  load_int m' a = load_int m a.
Proof.
  intros H. unfold load_int, INT_SIZE in *.
  rewrite (H a), (H (a + 1)), (H (a + 2)), (H (a + 3)) by lia. reflexivity.
Qed.

Lemma streq_at_frame (name : cstr) :
  forall (m m' : Z -> Z) (a : Z),
    (forall x, a <= x <= a + strlen name -> m' x = m x) ->
    streq_at m' a name = streq_at m a name.
Proof.
  unfold strlen.
  induction name as [| ch rest IH]; intros m m' a H; cbn [streq_at].
  - rewrite (H a) by (cbn [length]; lia). reflexivity.
  - rewrite (H a) by (cbn [length]; lia).
    rewrite (IH m m' (a + 1)); [reflexivity |].
    intros x Hx. apply H. cbn [length]. lia.
Qed.

Lemma others_same_bnum (s s' : fs) (node j k : Z) :
  others_same s s' node -> 0 <= j < INODE_COUNT -> j <> node ->
  0 <= k < cnt_of s j ->
  inode_get_bnum s' j k = inode_get_bnum s j k.
Proof.
  intros O Hj Hne Hk.
  rewrite <- !ref_data by lia.
  apply ref_frame.
  - now rewrite (os_itab _ _ _ O j Hne).
  - now rewrite (os_itab _ _ _ O j Hne).
  - intros Hr _. unfold table_get. apply load_int_frame.
    intros x Hx.
    apply (os_img _ _ _ O j (-1) x Hj Hne).
    + left. split; [reflexivity |]. unfold has_ind. apply Z.leb_le. lia.
    + rewrite ref_ind. unfold BLOCK_SIZE, INT_SIZE in *.
      change (4096 / 4) with 1024 in Hr. lia.
Qed.

Lemma directory_max_entries_cnt (s : fs) (di : Z) :
  directory_max_entries s di = cnt_of s di * ENTRIES_PER_BLOCK.
Proof. reflexivity. Qed.

Lemma others_same_entry (s s' : fs) (node di ii : Z) :
  others_same s s' node -> 0 <= di < INODE_COUNT -> di <> node ->
  0 <= ii < directory_max_entries s di ->
  directory_get_entry s' di ii = directory_get_entry s di ii.
Proof.
  intros O Hd Hne Hii. unfold directory_get_entry.
  rewrite directory_max_entries_cnt in Hii.
  assert (Hq : Z.quot ii ENTRIES_PER_BLOCK = ii / ENTRIES_PER_BLOCK).
  { apply Z.quot_div_nonneg; [lia | reflexivity]. }
  rewrite Hq.
  rewrite (others_same_bnum s s' node di (ii / ENTRIES_PER_BLOCK) O Hd Hne); [reflexivity |].
  split.
  - apply Z.div_pos; [lia | reflexivity].
  - apply Z.div_lt_upper_bound; [reflexivity | lia].
Qed.

(** The lookup of a name that fits an entry sees only the entries of the
    directory. *)
Lemma dir_scan_frame (s s' : fs) (node di : Z) (name : cstr) (n : nat) :
  others_same s s' node -> 0 <= di < INODE_COUNT -> di <> node ->
  strlen name < DIRENT_SIZE ->
  forall ii, 0 <= ii -> ii + Z.of_nat n <= directory_max_entries s di ->
    match dir_scan s' di (entry_matches s' name) ii n with
    | Some e => dirent_inum s' e
    | None => -1
    end
    = match dir_scan s di (entry_matches s name) ii n with
      | Some e => dirent_inum s e
      | None => -1
      end.
Proof.
  intros O Hd Hne Hlen.
  induction n as [| n IH]; intros ii Hii Hmax; cbn [dir_scan]; [reflexivity |].
  rewrite (others_same_entry s s' node di ii O Hd Hne) by lia.
  destruct (directory_get_entry s di ii) as [e |] eqn:E; [| reflexivity].
  destruct (directory_get_entry_block s di ii e E ltac:(lia))
    as (r & off & Hr & Hoff & Hb & He).
  assert (Hsame : forall x, e <= x < e + DIRENT_SIZE -> img s' x = img s x).
  { intros x Hx.
    apply (os_img _ _ _ O di r x Hd Hne); [right; exact Hr |].
    rewrite ref_data by lia.
    unfold ENTRIES_PER_BLOCK, BLOCK_SIZE, DIRENT_SIZE in *.
    change (4096 / 64) with 64 in Hoff. lia. }
  assert (Hin : dirent_inum s' e = dirent_inum s e).
  { unfold dirent_inum. apply load_int_frame. intros x Hx. apply Hsame.
    unfold DIR_NAME_LENGTH, DIRENT_SIZE, INT_SIZE in *. lia. }
  assert (Hm : entry_matches s' name e = entry_matches s name e).
  { unfold entry_matches. rewrite Hin. f_equal.
    apply streq_at_frame. intros x Hx. apply Hsame. lia. }
  rewrite Hm. destruct (entry_matches s name e); [exact Hin |].
  apply IH; lia.
Qed.

Lemma directory_lookup_frame (s s' : fs) (node di : Z) (name : cstr) :
  inv s -> others_same s s' node -> 0 <= di < INODE_COUNT -> di <> node ->
  strlen name < DIRENT_SIZE ->
  directory_lookup s' di name = directory_lookup s di name.
Proof.
  intros I O Hd Hne Hlen. unfold directory_lookup.
  destruct (strlen name =? 0); [reflexivity |].
  assert (Hmax : directory_max_entries s' di = directory_max_entries s di).
  { unfold directory_max_entries. now rewrite (os_itab _ _ _ O di Hne). }
  rewrite Hmax.
  apply (dir_scan_frame s s' node di name _ O Hd Hne Hlen 0); [lia |].
  rewrite directory_max_entries_cnt.
  pose proof (proj1 I di Hd) as Hs.
  assert (0 <= cnt_of s di).
  { destruct (ig_cnt _ _ _ (proj2 I) di Hd) as [H _]. exact H. }
  unfold ENTRIES_PER_BLOCK, BLOCK_SIZE, DIRENT_SIZE. change (4096 / 64) with 64. lia.
Qed.

(** A path walks the same way when only an inode that is not a directory
    and the blocks it owns have changed. *)
Lemma tree_walk_frame (s s' : fs) (node : Z) (components : list cstr) :
  inv s -> others_same s s' node ->
  Z.land (mode (itab s node)) S_IFDIR = 0 ->
  short_names components ->
  forall cur, tree_walk s' components cur = tree_walk s components cur.
Proof.
  intros I O Hmode.
  induction components as [| data next IH]; intros Hshort cur; cbn [tree_walk];
    [reflexivity |].
  inversion Hshort as [| ? ? Hdata Hnext]; subst.
  destruct (strlen data =? 0); [now apply IH |].
  destruct (get_inode cur) as [d |] eqn:G; [| reflexivity].
  apply get_inode_some in G. destruct G as [-> Hcur].
  destruct (Z.eq_dec cur node) as [-> | Hne].
  - rewrite (os_mode _ _ _ O), Hmode. reflexivity.
  - rewrite (os_itab _ _ _ O cur Hne).
    destruct (Z.land (mode (itab s cur)) S_IFDIR =? 0); [reflexivity |].
    rewrite (directory_lookup_frame s s' node cur data I O Hcur Hne Hdata).
    destruct (directory_lookup s cur data <? 0); [reflexivity |].
    now apply IH.
Qed.

Lemma tree_lookup_frame (s s' : fs) (node : Z) (path : cstr) :
  inv s -> others_same s s' node ->
  Z.land (mode (itab s node)) S_IFDIR = 0 ->
  short_names (slist_explode (tl path) SLASH) ->
  tree_lookup s' path = tree_lookup s path.
Proof.
  intros I O Hmode Hshort. unfold tree_lookup.
  destruct path as [| c0 tail]; [reflexivity |].
  destruct (negb (c0 =? SLASH)); [reflexivity |].
  destruct tail as [| c1 tail']; [reflexivity |].
  now apply (tree_walk_frame s s' node).
Qed.

Lemma others_same_cnt (s s' : fs) (node j : Z) :
  others_same s s' node -> j <> node -> cnt_of s' j = cnt_of s j.
Proof.
  intros O Hne. unfold cnt_of. now rewrite (os_itab _ _ _ O j Hne).
Qed.

Lemma others_same_ref (s s' : fs) (node j r : Z) :
  others_same s s' node -> 0 <= j < INODE_COUNT -> j <> node ->
  slot_ok (cnt_of s j) (has_ind (cnt_of s) j) r ->
  ref s' j r = ref s j r.
Proof.
  intros O Hj Hne [[-> _] | Hr].
  - rewrite !ref_ind. now rewrite (os_itab _ _ _ O j Hne).
  - rewrite !ref_data by lia. now apply (others_same_bnum s s' node).
Qed.

Lemma others_same_trans (s s' s'' : fs) (node : Z) :
  others_same s s' node -> others_same s' s'' node -> others_same s s'' node.
Proof.
  intros O O'. constructor.
  - intros j Hne. rewrite (os_itab _ _ _ O' j Hne). now apply (os_itab _ _ _ O).
  - rewrite (os_mode _ _ _ O'). apply (os_mode _ _ _ O).
  - intros j r a Hj Hne Hr Ha.
    rewrite (os_img _ _ _ O' j r a Hj Hne).
    + now apply (os_img _ _ _ O j r a).
    + unfold has_ind. rewrite (others_same_cnt s s' node j O Hne). exact Hr.
    + now rewrite (others_same_ref s s' node j r O Hj Hne Hr).
Qed.

Lemma others_same_upd (s : fs) (node : Z) (f : inode_t -> inode_t) :
  mode (f (itab s node)) = mode (itab s node) ->
  others_same s (upd_inode s node f) node.
Proof.
  intros Hm. constructor.
  - intros j Hne. now apply itab_upd_inode_other.
  - now rewrite itab_upd_inode_same.
  - intros. reflexivity.
Qed.

Lemma block_inj (b b' a : Z) :
  blocks_get_block b <= a < blocks_get_block b + BLOCK_SIZE ->
  blocks_get_block b' <= a < blocks_get_block b' + BLOCK_SIZE ->
  b = b'.
Proof. unfold blocks_get_block, BLOCK_SIZE. lia. Qed.

(** Growing an inode leaves what the other inodes own. *)
Lemma grow_others_same (s sl : fs) (node : Z) :
  inv s -> 0 <= node < INODE_COUNT -> grow_frame s sl node ->
  others_same s sl node.
Proof.
  intros [_ I] Hn GF. constructor.
  - apply (gf_itab _ _ _ GF).
  - rewrite (gf_node _ _ _ GF). reflexivity.
  - intros j r a Hj Hne Hr Ha.
    destruct (ig_ref _ _ _ I j r Hj Hr) as [Hx Hb].
    apply (gf_img _ _ _ GF (ref s j r) a Hb); [| exact Ha].
    intros E.
    destruct (has_ind (cnt_of s) node) eqn:Hh.
    + destruct (ig_uniq _ _ _ I j r node (-1) Hj Hn Hr) as [Hjn _].
      * left. now split.
      * now rewrite ref_ind.
      * contradiction.
    + destruct (ig_zero _ _ _ I node Hn) as (_ & Z2 & _).
      rewrite (Z2 Hh) in E. lia.
Qed.

(** The write loop leaves what the other inodes own. *)
Lemma write_others_same (s0 s : fs) (node offset : Z) (buf : list Z) (w : Z) :
  inv s0 -> 0 <= node < INODE_COUNT ->
  write_ok s0 s node offset buf w -> others_same s0 s node.
Proof.
  intros [_ I] Hn W. constructor.
  - intros j _. now rewrite (wo_itab _ _ _ _ _ _ W).
  - now rewrite (wo_itab _ _ _ _ _ _ W).
  - intros j r a Hj Hne Hr Ha.
    apply (wo_rest _ _ _ _ _ _ W). intros r' Hr' Ha'.
    pose proof (block_inj _ _ _ Ha Ha') as E.
    rewrite <- (ref_data s0 node r') in E by lia.
    destruct (ig_uniq _ _ _ I j r node r' Hj Hn Hr) as [Hjn _]; auto.
    right. exact Hr'.
Qed.

Lemma get_inode_in_range (node : Z) :
  0 <= node < INODE_COUNT -> get_inode node = Some node.
Proof.
  intros H. unfold get_inode, INODE_COUNT in *.
  destruct (Z.ltb_spec node 0); [lia |].
  destruct (Z.geb_spec node 128); [lia | reflexivity].
Qed.

(** A write at offset 0 of [n] bytes into an empty file that returns
    [n]: the file has size [n], position [p] of the file holds byte [p]
    of the buffer, and what the other inodes own is as before. *)
Lemma storage_write_fresh (s1 s2 : fs) (path : cstr) (buf : list Z) (n node : Z) :
  inv s1 -> tree_lookup s1 path = node -> 0 <= node < INODE_COUNT ->
  size (itab s1 node) = 0 -> 0 <= n < 2147483648 ->
  storage_write s1 path buf n 0 = (s2, n) ->
  others_same s1 s2 node
  /\ inv s2
  /\ size (itab s2 node) = n
  /\ (forall p, 0 <= p < n ->
        img s2 (file_addr s2 node p) = nth (Z.to_nat p) buf 0).
Proof.
  intros I Hl Hn Hs0 Hr H.
  assert (I2 : inv s2).
  { pose proof (storage_write_inv s1 path buf n 0 I ltac:(lia) ltac:(lia) ltac:(lia)) as W.
    rewrite H in W. apply W. cbn [snd]. lia. }
  refine (conj _ (conj I2 _)).
  all: unfold storage_write in H; rewrite Hl in H.
  all: destruct (Z.ltb_spec node 0); [lia |].
  all: rewrite (get_inode_in_range node Hn) in H.
  all: rewrite Hs0 in H; change (0 + n) with n in H.
  all: destruct (Z.gtb_spec n 0) as [Hpos | Hz].
  2,4: assert (n = 0) by lia; subst n.
  2,3: change (Z.to_nat 0) with O in H; cbn [write_loop] in H;
       change (0 <? 0) with false in H; cbn iota in H; injection H as <-.
  - (* others_same, n > 0 *)
    rewrite cast_int_id in H by lia.
    pose proof (grow_inode_rv s1 node n) as Hrv.
    destruct (grow_inode s1 node n) as [sg rv] eqn:G. cbn [snd] in Hrv.
    destruct Hrv as [-> | ->].
    2:{ change (-1 <? 0) with true in H. cbn iota in H.
        injection H as _ E. unfold ENOSPC in E. lia. }
    change (0 <? 0) with false in H. cbn iota in H.
    destruct (grow_inode_inv s1 node n sg I Hn ltac:(lia) G) as (Ig & sl & GF & Esg).
    assert (Hsg : size (itab sg node) = n).
    { rewrite Esg, !itab_upd_inode_same. reflexivity. }
    pose proof (write_loop_spec sg node 0 n buf (Z.to_nat n) Hn ltac:(lia)
                  ltac:(lia) ltac:(lia) sg 0 (write_ok_start sg node 0 buf Ig)
                  ltac:(lia) ltac:(lia)) as [W Hw].
    destruct (write_loop sg node buf 0 n 0 (Z.to_nat n)) as [sw bw] eqn:L.
    cbn [fst snd] in W, Hw. injection H as <- _.
    apply (others_same_trans s1 sw).
    + apply (others_same_trans s1 sg).
      * rewrite Esg.
        apply (others_same_trans s1 sl); [now apply grow_others_same |].
        apply (others_same_trans sl (upd_inode sl node (set_size n)));
          now apply others_same_upd.
      * now apply (write_others_same sg sw node 0 buf n).
    + now apply others_same_upd.
  - (* others_same, n = 0 *)
    now apply others_same_upd.
  - (* the data, n = 0 *)
    split; [now rewrite itab_upd_inode_same | intros; lia].
  - (* the data, n > 0 *)
    rewrite cast_int_id in H by lia.
    pose proof (grow_inode_rv s1 node n) as Hrv.
    destruct (grow_inode s1 node n) as [sg rv] eqn:G. cbn [snd] in Hrv.
    destruct Hrv as [-> | ->].
    2:{ change (-1 <? 0) with true in H. cbn iota in H.
        injection H as _ E. unfold ENOSPC in E. lia. }
    change (0 <? 0) with false in H. cbn iota in H.
    destruct (grow_inode_inv s1 node n sg I Hn ltac:(lia) G) as (Ig & sl & GF & Esg).
    assert (Hsg : size (itab sg node) = n).
    { rewrite Esg, !itab_upd_inode_same. reflexivity. }
    pose proof (write_loop_spec sg node 0 n buf (Z.to_nat n) Hn ltac:(lia)
                  ltac:(lia) ltac:(lia) sg 0 (write_ok_start sg node 0 buf Ig)
                  ltac:(lia) ltac:(lia)) as [W Hw].
    destruct (write_loop sg node buf 0 n 0 (Z.to_nat n)) as [sw bw] eqn:L.
    cbn [fst snd] in W, Hw. injection H as <- _.
    split.
    + rewrite itab_upd_inode_same. cbn [set_mtime size].
      now rewrite (wo_itab _ _ _ _ _ _ W).
    + intros p Hp.
      assert (Hk : 0 <= p / BLOCK_SIZE < cnt_of sg node).
      { unfold cnt_of. rewrite Hsg. apply pos_block_lt. lia. }
      assert (E : file_addr (upd_inode sw node (set_mtime (clock s1))) node p
                  = file_addr sg node (0 + p)).
      { unfold file_addr. change (0 + p) with p.
        rewrite (inode_get_bnum_fields sw (upd_inode sw node (set_mtime (clock s1))));
          try (rewrite itab_upd_inode_same; reflexivity); try reflexivity.
        now rewrite (wo_bnum _ _ _ _ _ _ W node (p / BLOCK_SIZE) Hn Hk). }
      rewrite E. rewrite img_upd_inode.
      apply (wo_data _ _ _ _ _ _ W p Hp).
Qed.

(** Reading [n] bytes at offset 0 of a file of size [n]. *)
Lemma storage_read_whole (s : fs) (path : cstr) (buf : list Z) (n node : Z) :
  inv s -> tree_lookup s path = node -> 0 <= node < INODE_COUNT ->
  size (itab s node) = n -> 0 <= n < 2147483648 ->
  Z.of_nat (length buf) = n ->
  (forall p, 0 <= p < n -> img s (file_addr s node p) = nth (Z.to_nat p) buf 0) ->
  snd (fst (storage_read s path n 0)) = n /\ snd (storage_read s path n 0) = buf.
Proof.
  intros I Hl Hn Hs Hr Hlen Hdata.
  unfold storage_read. rewrite Hl.
  destruct (Z.ltb_spec node 0); [lia |].
  rewrite (get_inode_in_range node Hn). rewrite Hs.
  destruct (Z.geb_spec 0 n) as [Hz | Hpos].
  { assert (n = 0) by lia. subst n. cbn [fst snd].
    destruct buf; [auto | cbn [length] in Hlen; lia]. }
  change (0 + n) with n.
  destruct (Z.gtb_spec n n); [lia |].
  pose proof (read_loop_spec s node 0 n (Z.to_nat n) 0 [] ltac:(lia) ltac:(lia)
                ltac:(lia) ltac:(lia) eq_refl ltac:(intros; lia)) as L.
  cbn zeta in L.
  destruct (read_loop s node 0 n 0 [] (Z.to_nat n)) as [br out] eqn:R.
  cbn [fst snd] in *.
  destruct L as (Hbr & Hout & Hbytes & Hstop).
  assert (Ebr : br = n).
  { destruct (Z.eq_dec br n) as [-> | Hne]; [reflexivity |].
    assert (Hlt : br < n) by lia.
    specialize (Hstop Hlt). change (0 + br) with br in Hstop.
    assert (Hk : 0 <= br / BLOCK_SIZE < cnt_of s node).
    { unfold cnt_of. rewrite Hs. apply pos_block_lt. lia. }
    destruct (inv_data_blocks_distinct s node _ _ I Hn Hk Hk) as [Hb _]. lia. }
  split; [rewrite Ebr; apply cast_int_id; lia |].
  apply (nth_ext out buf 0 0).
  - lia.
  - intros k Hk.
    destruct (Hbytes (Z.of_nat k) ltac:(lia)) as [_ E].
    rewrite Nat2Z.id in E. rewrite E. change (0 + Z.of_nat k) with (Z.of_nat k).
    pose proof (Hdata (Z.of_nat k) ltac:(lia)) as D.
    rewrite Nat2Z.id in D. exact D.
Qed.

(** Write then read, from a state that satisfies the invariant. *)
Lemma write_read_inv (s1 s2 : fs) (path : cstr) (buf : list Z) (n node : Z) :
  inv s1 -> tree_lookup s1 path = node -> 0 <= node < INODE_COUNT ->
  size (itab s1 node) = 0 ->
  Z.land (mode (itab s1 node)) S_IFDIR = 0 ->
  short_names (slist_explode (tl path) SLASH) ->
  Z.of_nat (length buf) = n -> n < 2147483648 ->
  storage_write s1 path buf n 0 = (s2, n) ->
  snd (fst (storage_read s2 path n 0)) = n /\ snd (storage_read s2 path n 0) = buf.
Proof.
  intros I Hl Hn Hs0 Hmode Hshort Hlen Hmax H.
  assert (Hr : 0 <= n < 2147483648) by lia.
  destruct (storage_write_fresh s1 s2 path buf n node I Hl Hn Hs0 Hr H)
    as (O & I2 & Hs2 & Hdata).
  apply (storage_read_whole s2 path buf n node I2); try assumption.
  rewrite (tree_lookup_frame s1 s2 node path I O Hmode Hshort). exact Hl.
Qed.



(** * More of [inode.c] *)

(** ** [alloc_inode] *)


(** ** [free_inode] *)

Lemma bbm_free_same (s : fs) (x : Z) : bbm (free_block s x) x = false.
Proof. unfold free_block, bitmap_put. cbn [bbm with_bbm]. apply upd_same. Qed.

Lemma bbm_free_clear (s : fs) (x y : Z) :
  bbm s y = false -> bbm (free_block s x) y = false.
Proof.
  intros H. destruct (Z.eq_dec y x) as [-> | Hne].
  - apply bbm_free_same.
  - now rewrite bbm_free_other.
Qed.

Lemma free_indirect_loop_clear (ib : Z) (n : nat) :
  forall s ii y,
    bbm s y = false -> bbm (free_indirect_loop s ib ii n) y = false.
Proof.
  induction n as [| n IH]; intros s ii y Hy; cbn [free_indirect_loop]; [exact Hy |].
  destruct (table_get s ib ii =? 0); apply IH; [exact Hy |].
  now apply bbm_free_clear.
Qed.

Lemma free_indirect_loop_frees (ib : Z) (n : nat) :
  forall s ii k,
    ii <= k < ii + Z.of_nat n -> table_get s ib k <> 0 ->
    bbm (free_indirect_loop s ib ii n) (table_get s ib k) = false.
Proof.
  induction n as [| n IH]; intros s ii k Hk Hnz; cbn [free_indirect_loop]; [lia |].
  destruct (Z.eq_dec k ii) as [-> | Hne].
  - destruct (Z.eqb_spec (table_get s ib ii) 0) as [Hz | _]; [contradiction |].
    apply free_indirect_loop_clear. apply bbm_free_same.
  - destruct (table_get s ib ii =? 0).
    + apply IH; [lia | exact Hnz].
    + change (table_get s ib k)
        with (table_get (free_block s (table_get s ib ii)) ib k).
      apply IH; [lia | exact Hnz].
Qed.


(** ** [grow_inode]: what it keeps and what it adds *)

Lemma img_zero_block_same (s : fs) (b a : Z) :
  blocks_get_block b <= a < blocks_get_block b + BLOCK_SIZE ->
  img (zero_block s b) a = 0.
Proof. intros H. unfold zero_block. cbn [img with_img]. now apply memset0_in. Qed.

Lemma table_get_other_block (s s' : fs) (b ib k : Z) :
  (forall x a, x <> b -> blocks_get_block x <= a < blocks_get_block x + BLOCK_SIZE ->
     img s' a = img s a) ->
  ib <> b -> 0 <= k < BLOCK_SIZE / INT_SIZE ->
  table_get s' ib k = table_get s ib k.
Proof.
  intros H Hne Hk. unfold table_get. apply load_int_frame.
  intros x Hx. apply (H ib x Hne).
  unfold blocks_get_block, BLOCK_SIZE, INT_SIZE in *.
  change (4096 / 4) with 1024 in Hk. lia.
Qed.

(** One pass of the loop of [grow_inode] at the end of the file: the
    blocks of the file stay where they are, and the block attached is
    filled with zeros. *)
Lemma grow_step_slots (s : fs) (cnt : Z -> Z) (node : Z) (s' : fs) :
  inv_gen s cnt (has_ind cnt) -> 0 <= node < INODE_COUNT ->
  grow_step s node (cnt node) = inl s' ->
  (forall r, 0 <= r < cnt node -> inode_get_bnum s' node r = inode_get_bnum s node r)
  /\ (forall a,
        blocks_get_block (inode_get_bnum s' node (cnt node)) <= a
          < blocks_get_block (inode_get_bnum s' node (cnt node)) + BLOCK_SIZE ->
        img s' a = 0).
Proof.
  intros I Hn H.
  pose proof (inv_gen_cnt_bound s cnt _ node I Hn) as Hmax.
  destruct (ig_cnt _ _ _ I node Hn) as [Hc0 _].
  pose proof (inv_has_ind_pointer s cnt node I Hn) as Hptr.
  apply grow_step_inl in H.
  destruct H as (b & Hb & Hfree & Hcases).
  destruct Hcases as [(Hc & ->) | [(Hc & Hind & ->) | (Hc & Hind & ib & Hib & Hne & Hfree2 & ->)]].
  - split; [intros; lia |].
    rewrite Hc. unfold inode_get_bnum at 1 2. cbn [Z.ltb Z.eqb Z.compare].
    rewrite itab_upd_inode_same. cbn [block set_block].
    intros a Ha. rewrite img_upd_inode. now apply img_zero_block_same.
  - assert (Hc2 : 2 <= cnt node) by lia.
    assert (Hib : bbm s (indirect (itab s node)) = true).
    { destruct (ig_ref _ _ _ I node (-1) Hn) as [_ Hx]; [| now rewrite ref_ind in Hx].
      left. split; [reflexivity |]. unfold has_ind. apply Z.leb_le. lia. }
    assert (Hne : indirect (itab s node) <> b) by congruence.
    set (ib := indirect (itab s node)) in *.
    set (s0 := zero_block (alloc_at s b) b).
    assert (Himg0 : forall x a, x <> b ->
              blocks_get_block x <= a < blocks_get_block x + BLOCK_SIZE ->
              img s0 a = img s a).
    { intros x a Hx Ha. unfold s0.
      rewrite (img_zero_block_other _ b x), (img_alloc_at_other _ b x); auto. }
    assert (Hnew : inode_get_bnum (table_set s0 ib (cnt node - 1) b) node (cnt node) = b).
    { unfold inode_get_bnum. rewrite itab_table_set. unfold s0.
      rewrite itab_zero_block, itab_alloc_at. fold ib.
      destruct (Z.ltb_spec (cnt node) 0); [lia |].
      destruct (Z.eqb_spec (cnt node) 0); [lia |].
      destruct (Z.eqb_spec ib 0); [contradiction |].
      change (BLOCK_SIZE / INT_SIZE) with 1024.
      destruct (Z.geb_spec (cnt node - 1) 1024); [lia |].
      apply table_get_set_same. unfold BLOCK_COUNT in Hb. lia. }
    split.
    + intros r Hr. rewrite <- !ref_data by lia. apply ref_frame.
      * reflexivity.
      * reflexivity.
      * intros Hr1 _. fold ib.
        rewrite table_get_set_other;
          [| change (BLOCK_SIZE / INT_SIZE) with 1024; lia
           | change (BLOCK_SIZE / INT_SIZE) with 1024 in *; lia
           | right; lia].
        apply (table_get_other_block s s0 b ib); auto.
        change (BLOCK_SIZE / INT_SIZE) with 1024 in *. lia.
    + rewrite Hnew. intros a Ha.
      rewrite (img_table_set_other s0 ib (cnt node - 1) b b a);
        [| change (BLOCK_SIZE / INT_SIZE) with 1024; lia | congruence | exact Ha].
      unfold s0. now apply img_zero_block_same.
  - assert (Hc1 : cnt node = 1) by lia.
    rewrite Hc1 in *. change (1 - 1) with 0.
    set (s0 := zero_block (alloc_at s b) b).
    set (s1 := upd_inode (alloc_at s0 ib) node (set_indirect ib)).
    set (s2 := zero_block s1 ib).
    assert (Hit : itab (table_set s2 ib 0 b) node = set_indirect ib (itab s node)).
    { rewrite itab_table_set. unfold s2. rewrite itab_zero_block. unfold s1.
      rewrite itab_upd_inode_same, itab_alloc_at. unfold s0.
      now rewrite itab_zero_block, itab_alloc_at. }
    split.
    + intros r Hr. assert (r = 0) by lia. subst r.
      unfold inode_get_bnum. cbn [Z.ltb Z.eqb Z.compare]. now rewrite Hit.
    + assert (Hnew : inode_get_bnum (table_set s2 ib 0 b) node 1 = b).
      { unfold inode_get_bnum. rewrite Hit. cbn [indirect set_indirect].
        cbn [Z.ltb Z.eqb Z.compare].
        destruct (Z.eqb_spec ib 0); [lia |].
        change (1 - 1) with 0. change (BLOCK_SIZE / INT_SIZE) with 1024.
        cbn [Z.geb Z.compare].
        apply table_get_set_same. unfold BLOCK_COUNT in Hb. lia. }
      rewrite Hnew. intros a Ha.
      rewrite (img_table_set_other s2 ib 0 b b a);
        [| change (BLOCK_SIZE / INT_SIZE) with 1024; lia | congruence | exact Ha].
      unfold s2. rewrite (img_zero_block_other _ ib b) by (auto; congruence).
      unfold s1. rewrite img_upd_inode.
      rewrite (img_alloc_at_other _ ib b) by (auto; congruence).
      unfold s0. now apply img_zero_block_same.
Qed.

Lemma grow_loop_slots (n : nat) :
  forall (s : fs) (cnt : Z -> Z) (node : Z) (s' : fs),
    inv_gen s cnt (has_ind cnt) -> 0 <= node < INODE_COUNT ->
    grow_loop s node (cnt node) n = inl s' ->
    (forall r, 0 <= r < cnt node -> inode_get_bnum s' node r = inode_get_bnum s node r)
    /\ (forall r a, cnt node <= r < cnt node + Z.of_nat n ->
          blocks_get_block (inode_get_bnum s' node r) <= a
            < blocks_get_block (inode_get_bnum s' node r) + BLOCK_SIZE ->
          img s' a = 0).
Proof.
  induction n as [| n IH]; intros s cnt node s' I Hn H; cbn [grow_loop] in H.
  - injection H as <-. split; [reflexivity | intros; lia].
  - destruct (grow_step s node (cnt node)) as [s1 | s1] eqn:E; [| discriminate].
    pose proof (grow_step_inv s cnt node s1 I Hn E) as I1.
    destruct (grow_step_slots s cnt node s1 I Hn E) as [K1 Z1].
    destruct (ig_cnt _ _ _ I node Hn) as [Hc0 _].
    set (cnt1 := upd cnt node (cnt node + 1)) in *.
    assert (E1 : cnt1 node = cnt node + 1) by apply upd_same.
    rewrite <- E1 in H.
    destruct (IH s1 cnt1 node s' I1 Hn H) as [K2 Z2].
    destruct (grow_loop_inv n s1 cnt1 node s' I1 Hn H) as [_ F2].
    rewrite E1 in K2, Z2.
    split.
    + intros r Hr. rewrite K2 by lia. now apply K1.
    + intros r a Hr Ha.
      destruct (Z.eq_dec r (cnt node)) as [-> | Hne].
      2:{ apply (Z2 r a); [lia | exact Ha]. }
      rewrite K2 in Ha by lia.
      assert (Hslot : slot_ok (cnt1 node) (has_ind cnt1 node) (cnt node))
        by (right; lia).
      destruct (ig_ref _ _ _ I1 node (cnt node) Hn Hslot) as [Hx Hb].
      rewrite ref_data in Hx, Hb by lia.
      rewrite (gf_img _ _ _ F2 (inode_get_bnum s1 node (cnt node)) a Hb); [| | exact Ha].
      * now apply Z1.
      * intros Eq.
        pose proof (ig_uniq _ _ _ I1 node (cnt node) node (-1) Hn Hn Hslot) as Hu.
        destruct (ig_zero _ _ _ I1 node Hn) as (_ & Z0 & _).
        destruct (has_ind cnt1 node).
        -- destruct Hu as [_ Hr'].
           ++ left. now split.
           ++ rewrite ref_data by lia. now rewrite ref_ind.
           ++ lia.
        -- rewrite (Z0 eq_refl) in Eq. lia.
Qed.

Lemma grow_inode_slots (s : fs) (node sz : Z) (s' : fs) :
  inv s -> 0 <= node < INODE_COUNT -> size (itab s node) <= sz ->
  grow_inode s node sz = (s', 0) ->
  size (itab s' node) = sz
  /\ (forall r, 0 <= r < bytes_to_blocks sz ->
        2 <= inode_get_bnum s' node r < BLOCK_COUNT
        /\ bbm s' (inode_get_bnum s' node r) = true)
  /\ (forall r, 0 <= r < bytes_to_blocks (size (itab s node)) ->
        inode_get_bnum s' node r = inode_get_bnum s node r
        /\ forall a,
             blocks_get_block (inode_get_bnum s node r) <= a
               < blocks_get_block (inode_get_bnum s node r) + BLOCK_SIZE ->
             img s' a = img s a)
  /\ (forall r a,
        bytes_to_blocks (size (itab s node)) <= r < bytes_to_blocks sz ->
        blocks_get_block (inode_get_bnum s' node r) <= a
          < blocks_get_block (inode_get_bnum s' node r) + BLOCK_SIZE ->
        img s' a = 0).
Proof.
  intros I Hn Hle H.
  destruct (grow_inode_inv s node sz s' I Hn Hle H) as (I' & _ & _ & _).
  destruct I as [Hsz I]. pose proof (Hsz node Hn) as Hs0.
  rewrite <- !blocks_of_nonneg by lia.
  unfold grow_inode in H.
  fold (blocks_of (size (itab s node))) in H. fold (blocks_of sz) in H.
  pose proof (blocks_of_mono _ _ (conj Hs0 Hle)) as Hmono.
  change (blocks_of (size (itab s node))) with (cnt_of s node) in *.
  destruct (grow_loop s node (cnt_of s node)
              (Z.to_nat (blocks_of sz - cnt_of s node))) as [sl | sl] eqn:E;
    [| discriminate].
  injection H as <-.
  destruct (grow_loop_inv _ s (cnt_of s) node sl I Hn E) as [_ F].
  destruct (grow_loop_slots _ s (cnt_of s) node sl I Hn E) as [K Z0].
  rewrite Z2Nat.id in Z0 by lia.
  set (s' := upd_inode (upd_inode sl node (set_size sz)) node (set_mtime (clock s))) in *.
  assert (Esz : size (itab s' node) = sz).
  { unfold s'. now rewrite !itab_upd_inode_same. }
  assert (Eb : forall r, inode_get_bnum s' node r = inode_get_bnum sl node r).
  { intros r. apply inode_get_bnum_fields; try reflexivity;
      unfold s'; now rewrite !itab_upd_inode_same. }
  refine (conj Esz (conj _ (conj _ _))).
  - intros r Hr.
    destruct (ig_ref _ _ _ (proj2 I') node r Hn) as [Hx Hb].
    + right. unfold cnt_of. now rewrite Esz.
    + now rewrite ref_data in Hx, Hb by lia.
  - intros r Hr. rewrite Eb. split; [now apply K |].
    intros a Ha.
    destruct (ig_ref _ _ _ I node r Hn ltac:(right; exact Hr)) as [Hx Hb].
    rewrite ref_data in Hx, Hb by lia.
    change (img s' a) with (img sl a).
    apply (gf_img _ _ _ F (inode_get_bnum s node r) a Hb); [| exact Ha].
    intros Eq.
    pose proof (ig_uniq _ _ _ I node r node (-1) Hn Hn (or_intror Hr)) as Hu.
    destruct (ig_zero _ _ _ I node Hn) as (_ & Z2 & _).
    destruct (has_ind (cnt_of s) node).
    + destruct Hu as [_ Hr'].
      * left. now split.
      * rewrite ref_data by lia. now rewrite ref_ind.
      * lia.
    + rewrite (Z2 eq_refl) in Eq. lia.
  - intros r a Hr Ha. rewrite Eb in Ha.
    change (img s' a) with (img sl a).
    apply (Z0 r a); [lia | exact Ha].
Qed.


(** ** [shrink_inode]: what it keeps and what it frees *)

Lemma shrink_frame_refl (s : fs) (node lo : Z) : shrink_frame s s node lo.
Proof. constructor; auto. Qed.

Lemma shrink_frame_trans (s1 s2 s3 : fs) (node lo lo' : Z) :
  lo' <= lo ->
  shrink_frame s1 s2 node lo -> shrink_frame s2 s3 node lo' ->
  shrink_frame s1 s3 node lo'.
Proof.
  intros Hlo F G. constructor.
  - intros j Hj. rewrite (sf_itab _ _ _ _ G j Hj). now apply (sf_itab _ _ _ _ F).
  - rewrite (sf_ind _ _ _ _ G). apply (sf_ind _ _ _ _ F).
  - rewrite (sf_size _ _ _ _ G). apply (sf_size _ _ _ _ F).
  - rewrite (sf_mode _ _ _ _ G). apply (sf_mode _ _ _ _ F).
  - intros H. rewrite (sf_block _ _ _ _ G H). apply (sf_block _ _ _ _ F). lia.
  - rewrite (sf_ibm _ _ _ _ G). apply (sf_ibm _ _ _ _ F).
  - intros a Ha. rewrite (sf_img _ _ _ _ G).
    + now apply (sf_img _ _ _ _ F).
    + now rewrite (sf_ind _ _ _ _ F).
  - intros k Hk Hlt. pose proof (sf_table _ _ _ _ G k Hk Hlt) as E.
    rewrite (sf_ind _ _ _ _ F) in E. rewrite E.
    apply (sf_table _ _ _ _ F k Hk). lia.
  - intros x Hx. apply (sf_clear _ _ _ _ G). now apply (sf_clear _ _ _ _ F).
Qed.

Lemma img_table_set_outside (s : fs) (ib k v a : Z) :
  0 <= k < BLOCK_SIZE / INT_SIZE ->
  ~ (blocks_get_block ib <= a < blocks_get_block ib + BLOCK_SIZE) ->
  img (table_set s ib k v) a = img s a.
Proof.
  intros Hk Ha. unfold table_set. cbn [img with_img].
  apply store_int_other.
  unfold blocks_get_block, BLOCK_SIZE, INT_SIZE in *.
  change (4096 / 4) with 1024 in Hk. lia.
Qed.

(** One pass of the loop at slot [ii]: the block of slot [ii] is freed
    when there is one, no other bit changes. *)
Lemma shrink_step_frame (s : fs) (node ii : Z) :
  0 <= ii <= BLOCK_SIZE / INT_SIZE ->
  shrink_frame s (shrink_step s node ii) node ii
  /\ (forall x, x <> inode_get_bnum s node ii ->
        bbm (shrink_step s node ii) x = bbm s x)
  /\ (0 < inode_get_bnum s node ii ->
      bbm (shrink_step s node ii) (inode_get_bnum s node ii) = false).
Proof.
  intros Hii. change (BLOCK_SIZE / INT_SIZE) with 1024 in Hii.
  unfold shrink_step, inode_get_bnum.
  destruct (Z.ltb_spec ii 0); [lia |].
  destruct (Z.eqb_spec ii 0) as [-> | Hnz].
  - destruct (Z.eqb_spec (block (itab s node)) 0) as [Hb | Hb].
    + refine (conj (shrink_frame_refl _ _ _) (conj (fun _ _ => eq_refl) _)). lia.
    + refine (conj _ (conj _ _)).
      * constructor; try reflexivity.
        -- intros j Hj. now rewrite itab_upd_inode_other.
        -- now rewrite itab_upd_inode_same.
        -- now rewrite itab_upd_inode_same.
        -- now rewrite itab_upd_inode_same.
        -- lia.
        -- intros x Hx. now apply bbm_free_clear.
      * intros x Hx. now apply bbm_free_other.
      * intros _. apply bbm_free_same.
  - destruct (Z.eqb_spec (indirect (itab s node)) 0) as [Hi | Hi].
    + refine (conj (shrink_frame_refl _ _ _) (conj (fun _ _ => eq_refl) _)). lia.
    + change (BLOCK_SIZE / INT_SIZE) with 1024.
      destruct (Z.geb_spec (ii - 1) 1024); [lia |].
      destruct (Z.eqb_spec (table_get s (indirect (itab s node)) (ii - 1)) 0) as [Ht | Ht].
      * refine (conj (shrink_frame_refl _ _ _) (conj (fun _ _ => eq_refl) _)). lia.
      * refine (conj _ (conj _ _)).
        -- constructor; try reflexivity.
           ++ intros a Ha. rewrite img_table_set_outside; [reflexivity | | exact Ha].
              change (BLOCK_SIZE / INT_SIZE) with 1024. lia.
           ++ intros k Hk Hlt.
              rewrite table_get_set_other; [reflexivity | | exact Hk | right; lia].
              change (BLOCK_SIZE / INT_SIZE) with 1024. lia.
           ++ intros x Hx. now apply bbm_free_clear.
        -- intros x Hx. now apply bbm_free_other.
        -- intros _. apply bbm_free_same.
Qed.

Lemma shrink_frame_bnum (s s' : fs) (node lo r : Z) :
  shrink_frame s s' node lo -> 0 <= r < lo ->
  inode_get_bnum s' node r = inode_get_bnum s node r.
Proof.
  intros F Hr. unfold inode_get_bnum.
  rewrite (sf_ind _ _ _ _ F).
  destruct (Z.ltb_spec r 0); [lia |].
  destruct (Z.eqb_spec r 0) as [-> | Hnz]; [apply (sf_block _ _ _ _ F); lia |].
  destruct (indirect (itab s node) =? 0); [reflexivity |].
  destruct (Z.geb_spec (r - 1) (BLOCK_SIZE / INT_SIZE)); [reflexivity |].
  apply (sf_table _ _ _ _ F); lia.
Qed.

(** The loop of [shrink_inode] from slot [c - 1] down, [n] passes. *)
Lemma shrink_loop_frame (node : Z) (n : nat) :
  forall (s : fs) (c : Z),
    Z.of_nat n <= c -> c <= BLOCK_SIZE / INT_SIZE + 1 ->
    shrink_frame s (shrink_loop s node (c - 1) n) node (c - Z.of_nat n)
    /\ (forall x, (forall r, c - Z.of_nat n <= r < c -> x <> inode_get_bnum s node r) ->
          bbm (shrink_loop s node (c - 1) n) x = bbm s x)
    /\ (forall r, c - Z.of_nat n <= r < c -> 0 < inode_get_bnum s node r ->
          bbm (shrink_loop s node (c - 1) n) (inode_get_bnum s node r) = false).
Proof.
  induction n as [| n IH]; intros s c Hn Hc; cbn [shrink_loop].
  - refine (conj (shrink_frame_refl _ _ _) (conj (fun _ _ => eq_refl) _)). intros; lia.
  - destruct (shrink_step_frame s node (c - 1) ltac:(lia)) as (F1 & O1 & C1).
    set (s1 := shrink_step s node (c - 1)) in *.
    destruct (IH s1 (c - 1) ltac:(lia) ltac:(lia)) as (F2 & O2 & C2).
    replace (c - 1 - Z.of_nat n) with (c - Z.of_nat (S n)) in * by lia.
    assert (Eb : forall r, 0 <= r < c - 1 ->
              inode_get_bnum s1 node r = inode_get_bnum s node r).
    { intros r Hr. now apply (shrink_frame_bnum s s1 node (c - 1)). }
    refine (conj _ (conj _ _)).
    + apply (shrink_frame_trans s s1 _ node (c - 1)); [lia | exact F1 | exact F2].
    + intros x Hx. rewrite O2.
      * apply O1. apply Hx. lia.
      * intros r Hr. rewrite Eb by lia. apply Hx. lia.
    + intros r Hr Hpos.
      destruct (Z.eq_dec r (c - 1)) as [-> | Hne].
      * apply (sf_clear _ _ _ _ F2). now apply C1.
      * rewrite <- Eb by lia. apply C2; [lia |]. rewrite Eb by lia. exact Hpos.
Qed.

Lemma inv_data_not_indirect (s : fs) (node r : Z) :
  inv s -> 0 <= node < INODE_COUNT -> 0 <= r < cnt_of s node ->
  inode_get_bnum s node r <> indirect (itab s node).
Proof.
  intros [_ I] Hn Hr Eq.
  pose proof (ig_uniq _ _ _ I node r node (-1) Hn Hn (or_intror Hr)) as Hu.
  destruct (ig_ref _ _ _ I node r Hn (or_intror Hr)) as [Hx _].
  rewrite ref_data in Hx by lia.
  destruct (ig_zero _ _ _ I node Hn) as (_ & Z2 & _).
  destruct (has_ind (cnt_of s) node).
  - destruct Hu as [_ Hr'].
    + left. now split.
    + rewrite ref_data by lia. now rewrite ref_ind.
    + lia.
  - rewrite (Z2 eq_refl) in Eq. lia.
Qed.

(** What [shrink_inode] keeps and what it frees. *)
Lemma shrink_inode_slots (s : fs) (node sz : Z) :
  inv s -> 0 <= node < INODE_COUNT -> 0 <= sz <= size (itab s node) ->
  snd (shrink_inode s node sz) = 0
  /\ size (itab (fst (shrink_inode s node sz)) node) = sz
  /\ (forall r, 0 <= r < bytes_to_blocks sz ->
        inode_get_bnum (fst (shrink_inode s node sz)) node r = inode_get_bnum s node r
        /\ forall a,
             blocks_get_block (inode_get_bnum s node r) <= a
               < blocks_get_block (inode_get_bnum s node r) + BLOCK_SIZE ->
             img (fst (shrink_inode s node sz)) a = img s a)
  /\ (forall r, bytes_to_blocks sz <= r < bytes_to_blocks (size (itab s node)) ->
        bbm (fst (shrink_inode s node sz)) (inode_get_bnum s node r) = false)
  /\ (bytes_to_blocks sz <= 1 -> indirect (itab s node) <> 0 ->
      bbm (fst (shrink_inode s node sz)) (indirect (itab s node)) = false
      /\ indirect (itab (fst (shrink_inode s node sz)) node) = 0)
  /\ (forall x,
        (forall r, bytes_to_blocks sz <= r < bytes_to_blocks (size (itab s node)) ->
           x <> inode_get_bnum s node r) ->
        (bytes_to_blocks sz <= 1 -> x <> indirect (itab s node)) ->
        bbm (fst (shrink_inode s node sz)) x = bbm s x)
  /\ (forall j, j <> node -> itab (fst (shrink_inode s node sz)) j = itab s j).
Proof.
  intros I Hn Hle.
  pose proof (proj1 I node Hn) as Hs0.
  pose proof (inv_gen_cnt_bound s _ _ node (proj2 I) Hn) as Hmax.
  rewrite <- !blocks_of_nonneg by lia.
  pose proof (blocks_of_mono _ _ Hle) as Hmono.
  assert (Ht0 : 0 <= blocks_of sz).
  { rewrite blocks_of_nonneg by lia. apply bytes_to_blocks_nonneg. lia. }
  unfold shrink_inode.
  fold (blocks_of (size (itab s node))). fold (blocks_of sz).
  change (blocks_of (size (itab s node))) with (cnt_of s node) in *.
  set (c := cnt_of s node) in *. set (t := blocks_of sz) in *.
  destruct (shrink_loop_frame node (Z.to_nat (c - t)) s c)
    as (F & O & C).
  { rewrite Z2Nat.id; lia. }
  { change (BLOCK_SIZE / INT_SIZE) with 1024. lia. }
  rewrite Z2Nat.id in F, O, C by lia.
  replace (c - (c - t)) with t in F, O, C by lia.
  set (s1 := shrink_loop s node (c - 1) (Z.to_nat (c - t))) in *.
  set (s2 := if (t <=? 1) && negb (indirect (itab s1 node) =? 0)
             then upd_inode (free_block s1 (indirect (itab s1 node))) node (set_indirect 0)
             else s1).
  cbn [fst snd].
  set (s' := upd_inode (upd_inode s2 node (set_size sz)) node (set_mtime (clock s))).
  assert (Himg : img s' = img s1).
  { unfold s', s2. destruct ((t <=? 1) && negb (indirect (itab s1 node) =? 0)); reflexivity. }
  assert (Hbbm2 : forall x, bbm s' x = bbm s2 x) by reflexivity.
  assert (Hclr : forall x, bbm s1 x = false -> bbm s' x = false).
  { intros x Hx. rewrite Hbbm2. unfold s2.
    destruct ((t <=? 1) && negb (indirect (itab s1 node) =? 0)); [| exact Hx].
    change (bbm (free_block s1 (indirect (itab s1 node))) x = false).
    now apply bbm_free_clear. }
  assert (Hblock : block (itab s' node) = block (itab s1 node)).
  { unfold s'. rewrite !itab_upd_inode_same. cbn [block set_mtime set_size].
    unfold s2. destruct ((t <=? 1) && negb (indirect (itab s1 node) =? 0));
      [now rewrite itab_upd_inode_same | reflexivity]. }
  refine (conj eq_refl (conj _ (conj _ (conj _ (conj _ (conj _ _)))))).
  - unfold s'. now rewrite !itab_upd_inode_same.
  - intros r Hr. split.
    + destruct (Z.eq_dec r 0) as [-> | Hnz].
      * unfold inode_get_bnum. cbn [Z.ltb Z.eqb Z.compare].
        rewrite Hblock. apply (sf_block _ _ _ _ F). lia.
      * assert (E2 : s2 = s1).
        { unfold s2. destruct (Z.leb_spec t 1); [lia | reflexivity]. }
        rewrite <- (shrink_frame_bnum s s1 node t r F) by lia.
        apply inode_get_bnum_fields; unfold s'; rewrite ?itab_upd_inode_same, ?E2;
          reflexivity.
    + intros a Ha. rewrite Himg. apply (sf_img _ _ _ _ F). intros Hb.
      apply (inv_data_not_indirect s node r I Hn ltac:(fold c; lia)).
      now apply (block_inj _ _ a).
  - intros r Hr. apply Hclr. apply C; [lia |].
    destruct (inv_data_blocks_distinct s node r r I Hn) as [Hx _]; fold c; try lia.
  - intros Ht1 Hi. unfold s'. rewrite !itab_upd_inode_same.
    cbn [indirect set_mtime set_size]. rewrite Hbbm2. unfold s2.
    rewrite (sf_ind _ _ _ _ F).
    destruct (Z.leb_spec t 1); [| lia].
    destruct (Z.eqb_spec (indirect (itab s node)) 0); [contradiction |].
    cbn [andb negb]. rewrite itab_upd_inode_same. cbn [indirect set_indirect].
    split; [| reflexivity].
    change (bbm (free_block s1 (indirect (itab s node))) (indirect (itab s node)) = false).
    apply bbm_free_same.
  - intros x Hx Hxi. rewrite Hbbm2. unfold s2. rewrite (sf_ind _ _ _ _ F).
    destruct (Z.leb_spec t 1) as [Hl | Hl]; cbn [andb].
    + destruct (Z.eqb_spec (indirect (itab s node)) 0); cbn [negb].
      * now apply O.
      * change (bbm (free_block s1 (indirect (itab s node))) x = bbm s x).
        rewrite bbm_free_other by (now apply Hxi). now apply O.
    + now apply O.
  - intros j Hj. unfold s'. rewrite !itab_upd_inode_other by assumption.
    unfold s2. destruct ((t <=? 1) && negb (indirect (itab s1 node) =? 0)).
    + rewrite itab_upd_inode_other by assumption. now apply (sf_itab _ _ _ _ F).
    + now apply (sf_itab _ _ _ _ F).
Qed.


(** ** [grow_inode] that fails *)

Lemma grow_step_inr (s : fs) (node ii : Z) (s' : fs) :
  grow_step s node ii = inr s' ->
  (s' = s /\ forall x, 2 <= x < BLOCK_COUNT -> bbm s x = true)
  \/ (ii <> 0 /\ indirect (itab s node) = 0 /\
      exists b, 2 <= b < BLOCK_COUNT /\ bbm s b = false
        /\ (forall x, 2 <= x < BLOCK_COUNT -> x <> b -> bbm s x = true)
        /\ s' = free_block
                  (upd_inode (zero_block (alloc_at s b) b) node (set_indirect (-1))) b).
Proof.
  unfold grow_step. intros H.
  destruct (alloc_block_cases s) as [[E Hfull] | (b & Hb & Hfree & E)]; rewrite E in H.
  { cbn in H. injection H as <-. left. auto. }
  destruct (Z.ltb_spec b 0); [lia |].
  destruct (Z.eqb_spec ii 0) as [Hii | Hii]; [discriminate |].
  set (s2 := zero_block (alloc_at s b) b) in *.
  change (indirect (itab s2 node)) with (indirect (itab s node)) in H.
  destruct (Z.eqb_spec (indirect (itab s node)) 0) as [Hind | Hind]; [| discriminate].
  right. refine (conj Hii (conj Hind _)).
  destruct (alloc_block_cases s2) as [[E2 Hfull2] | (ib & Hib & Hfree2 & E2)];
    rewrite E2 in H.
  - cbn in H. injection H as <-. exists b.
    refine (conj Hb (conj Hfree (conj _ eq_refl))).
    intros x Hx Hne. specialize (Hfull2 x Hx).
    unfold s2, alloc_at, zero_block, bitmap_put in Hfull2.
    cbn [bbm with_img with_bbm] in Hfull2. now rewrite upd_other in Hfull2.
  - destruct (Z.ltb_spec ib 0); [lia |]. discriminate.
Qed.

Lemma grow_loop_inr (n : nat) :
  forall (s : fs) (cnt : Z -> Z) (node : Z) (s' : fs),
    inv_gen s cnt (has_ind cnt) -> 0 <= node < INODE_COUNT ->
    grow_loop s node (cnt node) n = inr s' ->
    exists sk ii, grow_frame s sk node /\ grow_step sk node ii = inr s'.
Proof.
  induction n as [| n IH]; intros s cnt node s' I Hn H; cbn [grow_loop] in H;
    [discriminate |].
  destruct (grow_step s node (cnt node)) as [s1 | s1] eqn:E.
  - pose proof (grow_step_inv s cnt node s1 I Hn E) as I1.
    pose proof (inv_gen_cnt_bound s cnt _ node I Hn) as Hmax.
    destruct (ig_cnt _ _ _ I node Hn) as [Hc0 _].
    pose proof (grow_step_frame s node (cnt node) s1
                  ltac:(change (BLOCK_SIZE / INT_SIZE) with 1024; lia) E) as F1.
    set (cnt1 := upd cnt node (cnt node + 1)) in *.
    assert (E1 : cnt1 node = cnt node + 1) by apply upd_same.
    rewrite <- E1 in H.
    destruct (IH s1 cnt1 node s' I1 Hn H) as (sk & ii & F2 & Hk).
    exists sk, ii. split; [now apply (grow_frame_trans s s1 sk) | exact Hk].
  - injection H as <-. exists s, (cnt node). split; [apply grow_frame_refl | exact E].
Qed.


(** * More of [directory.c] *)

(** ** Lists and scans *)

Lemma find_split {A : Type} (f : A -> bool) (l : list A) (x : A) :
  find f l = Some x ->
  exists l1 l2, l = l1 ++ x :: l2 /\ f x = true /\ forall y, In y l1 -> f y = false.
Proof.
  induction l as [| a l IH]; cbn [find]; [discriminate |].
  destruct (f a) eqn:E.
  - intros H. injection H as <-. exists [], l. repeat split; auto. intros y [].
  - intros H. destruct (IH H) as (l1 & l2 & -> & Hx & Hl1).
    exists (a :: l1), l2. repeat split; auto.
    intros y [<- | Hy]; auto.
Qed.

Lemma find_first {A : Type} (f : A -> bool) (l1 : list A) (x : A) (l2 : list A) :
  (forall y, In y l1 -> f y = false) -> f x = true ->
  find f (l1 ++ x :: l2) = Some x.
Proof.
  induction l1 as [| a l1 IH]; intros H Hx; cbn [find app].
  - now rewrite Hx.
  - rewrite (H a) by now left. apply IH; [| exact Hx].
    intros y Hy. apply H. now right.
Qed.

Lemma find_all_false {A : Type} (f : A -> bool) (l : list A) :
  (forall y, In y l -> f y = false) -> find f l = None.
Proof.
  induction l as [| a l IH]; intros H; cbn [find]; [reflexivity |].
  rewrite (H a) by now left. apply IH. intros y Hy. apply H. now right.
Qed.

Lemma find_app {A : Type} (f : A -> bool) (l1 l2 : list A) :
  find f (l1 ++ l2) = match find f l1 with Some x => Some x | None => find f l2 end.
Proof.
  induction l1 as [| a l1 IH]; cbn [find app]; [reflexivity |].
  destruct (f a); [reflexivity | exact IH].
Qed.

(** Two scans that agree entry by entry give the same answer. *)
Lemma find_agree {A B : Type} (f f' : A -> bool) (g g' : A -> B) (d : B) (l : list A) :
  (forall y, In y l -> f' y = f y) ->
  (forall y, In y l -> f y = true -> g' y = g y) ->
  match find f' l with Some e => g' e | None => d end
  = match find f l with Some e => g e | None => d end.
Proof.
  induction l as [| a l IH]; intros Hf Hg; cbn [find]; [reflexivity |].
  rewrite (Hf a) by now left.
  destruct (f a) eqn:E.
  - apply Hg; [now left | exact E].
  - apply IH.
    + intros y Hy. apply Hf. now right.
    + intros y Hy. apply Hg. now right.
Qed.

Lemma directory_lookup_find (s : fs) (di : Z) (name : cstr) :
  name <> [] ->
  directory_lookup s di name =
  match find (entry_matches s name) (dir_entries s di) with
  | Some e => dirent_inum s e
  | None => -1
  end.
Proof.
  intros Hne. unfold directory_lookup.
  destruct (Z.eqb_spec (strlen name) 0) as [Hz | _].
  { now apply strlen_zero in Hz. }
  rewrite dir_scan_find. reflexivity.
Qed.

Lemma dir_slots_ext (s s' : fs) (di : Z) (n : nat) :
  forall ii,
    (forall idx, ii <= idx < ii + Z.of_nat n ->
       directory_get_entry s' di idx = directory_get_entry s di idx) ->
    dir_slots s' di ii n = dir_slots s di ii n.
Proof.
  induction n as [| n IH]; intros ii H; cbn [dir_slots]; [reflexivity |].
  rewrite (H ii) by lia.
  destruct (directory_get_entry s di ii); [| reflexivity].
  f_equal. apply IH. intros idx Hidx. apply H. lia.
Qed.

Lemma dir_slots_app (s : fs) (di : Z) (n m : nat) :
  forall ii,
    (forall idx, ii <= idx < ii + Z.of_nat n ->
       exists e, directory_get_entry s di idx = Some e) ->
    dir_slots s di ii (n + m)
    = dir_slots s di ii n ++ dir_slots s di (ii + Z.of_nat n) m.
Proof.
  induction n as [| n IH]; intros ii H.
  - cbn [dir_slots app Nat.add]. now rewrite Z.add_0_r.
  - cbn [dir_slots Nat.add].
    destruct (H ii ltac:(lia)) as [e E]. rewrite E. cbn [app]. f_equal.
    rewrite IH.
    + f_equal. f_equal. lia.
    + intros idx Hidx. apply H. lia.
Qed.

(** ** The entries of a directory under the invariant *)

(** Below [directory_max_entries] every index has an entry. *)
Lemma directory_get_entry_in_range (s : fs) (di idx : Z) :
  inv s -> 0 <= di < INODE_COUNT -> 0 <= idx < directory_max_entries s di ->
  exists e, directory_get_entry s di idx = Some e.
Proof.
  intros I Hd Hidx. rewrite directory_max_entries_eq in Hidx.
  unfold ENTRIES_PER_BLOCK in Hidx. change (BLOCK_SIZE / DIRENT_SIZE) with 64 in Hidx.
  assert (Hk : 0 <= idx / 64 < cnt_of s di).
  { split; [apply Z.div_pos; lia | apply Z.div_lt_upper_bound; lia]. }
  destruct (inv_data_blocks_distinct s di _ _ I Hd Hk Hk) as [Hb _].
  unfold directory_get_entry.
  destruct (Z.ltb_spec idx 0); [lia |].
  unfold ENTRIES_PER_BLOCK. change (BLOCK_SIZE / DIRENT_SIZE) with 64.
  rewrite Z.quot_div_nonneg by lia.
  destruct (Z.leb_spec (inode_get_bnum s di (idx / 64)) 0); [lia |].
  eexists. reflexivity.
Qed.

(** Two entries of directories are the same entry or do not overlap. *)
Lemma entries_apart (s s0 : fs) (di dj e e' : Z) :
  In e (dir_entries s di) -> In e' (dir_entries s0 dj) -> e <> e' ->
  forall a, e <= a < e + DIRENT_SIZE -> ~ (e' <= a < e' + DIRENT_SIZE).
Proof.
  intros He He' Hne a Ha Ha'.
  destruct (dir_entries_index _ _ _ He) as (i & Hi & Hir).
  destruct (dir_entries_index _ _ _ He') as (i' & Hi' & Hir').
  destruct (directory_get_entry_block _ _ _ _ Hi ltac:(lia)) as (r & off & _ & Hoff & _ & ->).
  destruct (directory_get_entry_block _ _ _ _ Hi' ltac:(lia)) as (r' & off' & _ & Hoff' & _ & ->).
  unfold blocks_get_block, ENTRIES_PER_BLOCK, BLOCK_SIZE, DIRENT_SIZE in *.
  change (4096 / 64) with 64 in *. lia.
Qed.

(** An entry lies inside a block of its directory. *)
Lemma dir_entry_in_block (s : fs) (di e : Z) :
  In e (dir_entries s di) ->
  exists r, 0 <= r < cnt_of s di /\ 0 < inode_get_bnum s di r
    /\ blocks_get_block (inode_get_bnum s di r) <= e
    /\ e + DIRENT_SIZE <= blocks_get_block (inode_get_bnum s di r) + BLOCK_SIZE.
Proof.
  intros He.
  destruct (dir_entries_index _ _ _ He) as (i & Hi & Hir).
  destruct (directory_get_entry_block _ _ _ _ Hi ltac:(lia)) as (r & off & Hr & Hoff & Hb & ->).
  exists r. refine (conj Hr (conj Hb _)).
  unfold ENTRIES_PER_BLOCK, BLOCK_SIZE, DIRENT_SIZE in *.
  change (4096 / 64) with 64 in *. lia.
Qed.

(** Writing inside an entry of a directory keeps the invariant, the
    blocks of every file and the list of entries of every directory. *)
Lemma entry_write_keeps (s s' : fs) (di e : Z) :
  inv s -> 0 <= di < INODE_COUNT -> In e (dir_entries s di) ->
  entry_frame s s' e ->
  inv s'
  /\ (forall j k, 0 <= j < INODE_COUNT -> 0 <= k < cnt_of s j ->
        inode_get_bnum s' j k = inode_get_bnum s j k)
  /\ (forall dj, 0 <= dj < INODE_COUNT -> dir_entries s' dj = dir_entries s dj).
Proof.
  intros I Hn Hin (Hit & Hbm & _ & _ & _ & _ & Himg).
  destruct (dir_entry_in_block s di e Hin) as (r & Hr & Hb & Hlo & Hhi).
  destruct (inv_data_write s s' di r I Hn Hr Hit Hbm) as [I' Hbn].
  { intros a Ha. apply Himg. lia. }
  refine (conj I' (conj Hbn _)).
  intros dj Hdj. unfold dir_entries.
  assert (Hmax : directory_max_entries s' dj = directory_max_entries s dj).
  { unfold directory_max_entries. now rewrite Hit. }
  rewrite Hmax. apply dir_slots_ext. intros idx Hidx.
  rewrite Z2Nat.id in Hidx.
  2:{ rewrite directory_max_entries_eq.
      destruct (ig_cnt _ _ _ (proj2 I) dj Hdj) as [H0 _].
      unfold ENTRIES_PER_BLOCK. change (BLOCK_SIZE / DIRENT_SIZE) with 64. lia. }
  unfold directory_get_entry.
  destruct (Z.ltb_spec idx 0); [reflexivity |].
  rewrite Hbn; [reflexivity | exact Hdj |].
  rewrite directory_max_entries_eq in Hidx.
  unfold ENTRIES_PER_BLOCK in *. change (BLOCK_SIZE / DIRENT_SIZE) with 64 in *.
  rewrite Z.quot_div_nonneg by lia.
  split; [apply Z.div_pos; lia | apply Z.div_lt_upper_bound; lia].
Qed.

(** ** What an entry holds *)

(** [strcmp] against stored bytes that spell [name]: equal exactly for
    [name]. *)
Lemma streq_at_stored (name' : cstr) :
  forall (m : Z -> Z) (a : Z) (name : cstr),
    (forall k, (k < length name)%nat -> m (a + Z.of_nat k) = nth k name 0) ->
    m (a + strlen name) = 0 ->
    cstr_ok name -> cstr_ok name' ->
    (streq_at m a name' = true <-> name' = name).
Proof.
  unfold strlen, cstr_ok.
  induction name' as [| c' r' IH]; intros m a name Hb Hz Hok Hok'; cbn [streq_at].
  - destruct name as [| c r].
    + cbn [length] in Hz. rewrite Z.add_0_r in Hz. rewrite Hz. cbn. tauto.
    + pose proof (Hb O ltac:(cbn [length]; lia)) as H0.
      cbn [nth] in H0. rewrite Z.add_0_r in H0. rewrite H0.
      split; [| discriminate].
      intros H. apply Z.eqb_eq in H. subst c. exfalso. apply Hok. now left.
  - destruct name as [| c r].
    + cbn [length] in Hz. rewrite Z.add_0_r in Hz. rewrite Hz.
      split; [| discriminate].
      intros H. apply andb_prop in H. destruct H as [H _].
      apply Z.eqb_eq in H. subst c'. exfalso. apply Hok'. now left.
    + pose proof (Hb O ltac:(cbn [length]; lia)) as H0.
      cbn [nth] in H0. rewrite Z.add_0_r in H0. rewrite H0.
      assert (Hrec : streq_at m (a + 1) r' = true <-> r' = r).
      { apply IH.
        - intros k Hk. specialize (Hb (S k) ltac:(cbn [length]; lia)).
          cbn [nth] in Hb. rewrite <- Hb. f_equal. lia.
        - rewrite <- Hz. f_equal. cbn [length]. lia.
        - intros Hin. apply Hok. now right.
        - intros Hin. apply Hok'. now right. }
      split.
      * intros H. apply andb_prop in H. destruct H as [H1 H2].
        apply Z.eqb_eq in H1. apply Hrec in H2. congruence.
      * intros H. injection H as -> ->. rewrite Z.eqb_refl. cbn [andb].
        now apply Hrec.
Qed.

(** The bytes of the entry that [directory_put] has written. *)
Lemma write_entry_bytes (s : fs) (e : Z) (name : cstr) (inum : Z) :
  strlen name < DIR_NAME_LENGTH ->
  (forall k, (k < length name)%nat ->
     img (write_entry s e name inum) (e + Z.of_nat k) = nth k name 0)
  /\ img (write_entry s e name inum) (e + strlen name) = 0.
Proof.
  unfold strlen, DIR_NAME_LENGTH. intros Hlen.
  assert (Hb : forall x, e <= x < e + 48 ->
            img (write_entry s e name inum) x
            = if x =? e + 47 then 0 else nth (Z.to_nat (x - e)) name 0).
  { intros x Hx. unfold write_entry, DIR_NAME_LENGTH. cbn [img with_img].
    rewrite store_int_other by (unfold INT_SIZE; lia).
    unfold store_byte. change (48 - 1) with 47.
    destruct (Z.eqb_spec x (e + 47)); [reflexivity |].
    unfold strncpy.
    destruct (Z.leb_spec e x); destruct (Z.ltb_spec x (e + 47)); cbn [andb];
      try reflexivity; lia. }
  split.
  - intros k Hk. rewrite Hb by lia.
    destruct (Z.eqb_spec (e + Z.of_nat k) (e + 47)); [lia |].
    f_equal. lia.
  - rewrite Hb by lia.
    destruct (Z.eqb_spec (e + Z.of_nat (length name)) (e + 47)); [reflexivity |].
    apply nth_overflow. lia.
Qed.

Lemma write_entry_inum (s : fs) (e : Z) (name : cstr) (inum : Z) :
  -2147483648 <= inum < 2147483648 ->
  dirent_inum (write_entry s e name inum) e = inum.
Proof.
  intros H. unfold dirent_inum, write_entry. cbn [img with_img].
  now apply load_int_store_same.
Qed.

Lemma write_entry_matches (s : fs) (e : Z) (name name' : cstr) (inum : Z) :
  strlen name < DIR_NAME_LENGTH -> cstr_ok name -> cstr_ok name' ->
  -2147483648 <= inum < 2147483648 -> inum <> 0 ->
  entry_matches (write_entry s e name inum) name' e = true <-> name' = name.
Proof.
  intros Hlen Hok Hok' Hr Hnz. unfold entry_matches.
  rewrite write_entry_inum by assumption.
  destruct (Z.eqb_spec inum 0); [contradiction |]. cbn [negb andb].
  destruct (write_entry_bytes s e name inum Hlen) as [Hb Hz].
  now apply streq_at_stored.
Qed.

(** An empty slot matches no name. *)
Lemma entry_empty_no_match (s : fs) (name : cstr) (e : Z) :
  cstr_ok name -> name <> [] -> entry_empty s e = true ->
  entry_matches s name e = false.
Proof.
  intros Hok Hne H. destruct (entry_matches s name e) eqn:E; [| reflexivity].
  apply (entry_matches_named s name e Hok Hne) in E. destruct E as [E _].
  congruence.
Qed.

(** Entries whose bytes are the same match the same names. *)
Lemma entry_same_bytes (s s' : fs) (name : cstr) (e : Z) :
  (forall a, e <= a < e + DIRENT_SIZE -> img s' a = img s a) ->
  strlen name < DIRENT_SIZE ->
  dirent_inum s' e = dirent_inum s e
  /\ entry_matches s' name e = entry_matches s name e
  /\ entry_empty s' e = entry_empty s e.
Proof.
  intros H Hlen.
  assert (Hi : dirent_inum s' e = dirent_inum s e).
  { unfold dirent_inum. apply load_int_frame. intros x Hx. apply H.
    unfold DIR_NAME_LENGTH, DIRENT_SIZE, INT_SIZE in *. lia. }
  refine (conj Hi (conj _ _)).
  - unfold entry_matches. rewrite Hi. f_equal.
    apply streq_at_frame. intros x Hx. apply H. lia.
  - unfold entry_empty, dirent_name0. rewrite Hi. f_equal.
    rewrite H; [reflexivity | unfold DIRENT_SIZE; lia].
Qed.

(** An entry of zeros is an empty slot. *)
Lemma zero_entry (s : fs) (name : cstr) (e : Z) :
  (forall a, e <= a < e + DIRENT_SIZE -> img s a = 0) ->
  dirent_inum s e = 0 /\ entry_matches s name e = false /\ entry_empty s e = true.
Proof.
  intros H.
  assert (Hi : dirent_inum s e = 0).
  { unfold dirent_inum. apply load_int_zero. intros x Hx. apply H.
    unfold DIR_NAME_LENGTH, DIRENT_SIZE, INT_SIZE in *. lia. }
  unfold entry_matches, entry_empty. rewrite Hi. auto.
Qed.

(** ** Where [directory_put] writes *)

(** [directory_put] that returns 0 has written the entry [e]: either the
    first empty slot of the directory, or, when there was none, the first
    entry of a block of zeros added to the directory. *)
Lemma directory_put_cases (s : fs) (di : Z) (name : cstr) (inum : Z) (s' : fs) :
  inv s -> 0 <= di < INODE_COUNT ->
  directory_put s di name inum = (s', 0) ->
  name <> [] /\ strlen name < DIR_NAME_LENGTH /\ inv s'
  /\ exists s1 e pre post,
       s' = write_entry s1 e name inum
       /\ dir_entries s' di = pre ++ e :: post
       /\ (forall y, In y pre -> entry_empty s y = false)
       /\ (forall y a, In y (dir_entries s di) -> y <= a < y + DIRENT_SIZE ->
             img s1 a = img s a)
       /\ ((s1 = s /\ dir_entries s di = pre ++ e :: post /\ entry_empty s e = true)
           \/ (dir_entries s di = pre
               /\ (forall y, In y pre -> y <> e)
               /\ (forall y a, In y (e :: post) -> y <= a < y + DIRENT_SIZE ->
                     img s1 a = 0))).
Proof.
  intros I Hn H. unfold directory_put in H.
  destruct (Z.eqb_spec (strlen name) 0) as [? | Hlen0]; [discriminate |].
  destruct (Z.geb_spec (strlen name) DIR_NAME_LENGTH) as [? | Hlen]; [discriminate |].
  assert (Hne : name <> []) by (intros ->; now apply Hlen0).
  refine (conj Hne (conj Hlen _)).
  rewrite dir_scan_find in H. fold (dir_entries s di) in H.
  destruct (find (entry_empty s) (dir_entries s di)) as [e |] eqn:F.
  - (* an empty slot *)
    injection H as <-.
    destruct (find_split _ _ _ F) as (pre & post & El & He & Hpre).
    assert (Hin : In e (dir_entries s di)).
    { rewrite El. apply in_or_app. right. now left. }
    destruct (entry_write_keeps s (write_entry s e name inum) di e I Hn Hin
                (write_entry_frame s e name inum)) as (I' & _ & Hd).
    split; [exact I' |].
    exists s, e, pre, post.
    refine (conj eq_refl (conj _ (conj Hpre (conj (fun _ _ _ _ => eq_refl) _)))).
    + now rewrite (Hd di Hn).
    + left. auto.
  - (* a new block *)
    pose proof (grow_inode_rv s di (size (itab s di) + BLOCK_SIZE)) as Hrv.
    destruct (grow_inode s di (size (itab s di) + BLOCK_SIZE)) as [s1 rv] eqn:G.
    cbn [snd] in Hrv.
    destruct Hrv as [-> | ->]; [| discriminate].
    cbn [Z.ltb Z.compare] in H.
    pose proof (proj1 I di Hn) as Hs0.
    assert (Hle : size (itab s di) <= size (itab s di) + BLOCK_SIZE)
      by (unfold BLOCK_SIZE; lia).
    destruct (grow_inode_inv s di _ s1 I Hn Hle G) as (I1 & _ & _ & _).
    destruct (grow_inode_slots s di _ s1 I Hn Hle G) as (Esz & Hall & Hold & Hnew).
    rewrite bytes_to_blocks_add_block in Hall, Hnew.
    rewrite <- (blocks_of_nonneg (size (itab s di))) in Hall, Hold, Hnew by lia.
    change (blocks_of (size (itab s di))) with (cnt_of s di) in *.
    set (c := cnt_of s di) in *.
    assert (Hc0 : 0 <= c).
    { destruct (ig_cnt _ _ _ (proj2 I) di Hn) as [H0 _]. exact H0. }
    assert (Ec1 : cnt_of s1 di = c + 1).
    { unfold cnt_of. rewrite Esz.
      rewrite blocks_of_nonneg by (unfold BLOCK_SIZE; lia).
      rewrite bytes_to_blocks_add_block.
      rewrite <- (blocks_of_nonneg (size (itab s di))) by lia. reflexivity. }
    assert (Emax : directory_max_entries s di = c * 64) by reflexivity.
    assert (Emax1 : directory_max_entries s1 di = c * 64 + 64).
    { rewrite directory_max_entries_eq, Ec1. unfold ENTRIES_PER_BLOCK.
      change (BLOCK_SIZE / DIRENT_SIZE) with 64. lia. }
    rewrite Emax in H.
    destruct (directory_get_entry s1 di (c * 64)) as [e |] eqn:E; [| discriminate].
    injection H as <-.
    (* the entries of the grown directory *)
    assert (Hold_entries : dir_slots s1 di 0 (Z.to_nat (c * 64)) = dir_entries s di).
    { unfold dir_entries. rewrite Emax. apply dir_slots_ext. intros idx Hidx.
      rewrite Z2Nat.id in Hidx by lia.
      unfold directory_get_entry.
      destruct (Z.ltb_spec idx 0); [reflexivity |].
      unfold ENTRIES_PER_BLOCK. change (BLOCK_SIZE / DIRENT_SIZE) with 64.
      rewrite Z.quot_div_nonneg by lia.
      destruct (Hold (idx / 64)) as [Hb _]; [| now rewrite Hb].
      split; [apply Z.div_pos; lia | apply Z.div_lt_upper_bound; lia]. }
    assert (Hsplit : dir_entries s1 di
              = dir_entries s di ++ dir_slots s1 di (c * 64) 64).
    { unfold dir_entries at 1. rewrite Emax1.
      replace (Z.to_nat (c * 64 + 64)) with (Z.to_nat (c * 64) + 64)%nat by lia.
      rewrite dir_slots_app.
      - rewrite Hold_entries. f_equal. f_equal. lia.
      - intros idx Hidx. apply (directory_get_entry_in_range s1 di idx I1 Hn). lia. }
    assert (Hhead : exists post, dir_slots s1 di (c * 64) 64 = e :: post).
    { change 64%nat with (S 63). cbn [dir_slots]. rewrite E. eexists. reflexivity. }
    destruct Hhead as [post Hpost].
    rewrite Hpost in Hsplit.
    assert (Hin : In e (dir_entries s1 di)).
    { rewrite Hsplit. apply in_or_app. right. now left. }
    destruct (entry_write_keeps s1 (write_entry s1 e name inum) di e I1 Hn Hin
                (write_entry_frame s1 e name inum)) as (I' & _ & Hd).
    split; [exact I' |].
    exists s1, e, (dir_entries s di), post.
    assert (Hzero : forall y a, In y (e :: post) -> y <= a < y + DIRENT_SIZE ->
              img s1 a = 0).
    { intros y a Hy Ha. rewrite <- Hpost in Hy.
      apply dir_slots_in in Hy. destruct Hy as (idx & Hidx & Hy).
      destruct (directory_get_entry_some _ _ _ _ Hy) as (_ & _ & ->).
      change (Z.of_nat 64) with 64 in Hidx.
      unfold ENTRIES_PER_BLOCK in *. change (BLOCK_SIZE / DIRENT_SIZE) with 64 in *.
      assert (Hq : idx / 64 = c).
      { symmetry. apply (Z.div_unique idx 64 c (idx - c * 64)); lia. }
      rewrite Hq in Ha.
      pose proof (Z.mod_pos_bound idx 64 ltac:(lia)) as Hm.
      apply (Hnew c a); [lia |].
      unfold BLOCK_SIZE, DIRENT_SIZE in *. lia. }
    assert (Hsame : forall y a, In y (dir_entries s di) -> y <= a < y + DIRENT_SIZE ->
              img s1 a = img s a).
    { intros y a Hy Ha.
      destruct (dir_entry_in_block s di y Hy) as (r & Hr & _ & Hlo & Hhi).
      destruct (Hold r Hr) as [_ Hb]. apply Hb. lia. }
    refine (conj eq_refl (conj _ (conj _ (conj Hsame (or_intror (conj eq_refl (conj _ Hzero))))))).
    + now rewrite (Hd di Hn).
    + intros y Hy. apply (find_none _ _ F y Hy).
    + intros y Hy ->.
      destruct (dir_entry_in_block s di e Hy) as (r & Hr & _ & Hlo & Hhi).
      destruct (directory_get_entry_some _ _ _ _ E) as (_ & _ & Ee).
      unfold ENTRIES_PER_BLOCK in Ee. change (BLOCK_SIZE / DIRENT_SIZE) with 64 in Ee.
      rewrite Z.div_mul in Ee by lia. rewrite Z.mod_mul in Ee by lia.
      destruct (Hold r Hr) as [Hbr _].
      assert (Hrc : inode_get_bnum s1 di r = inode_get_bnum s1 di c).
      { rewrite Hbr. apply (block_inj _ _ e); [unfold DIRENT_SIZE in *; lia |].
        rewrite Ee. unfold BLOCK_SIZE, DIRENT_SIZE. lia. }
      destruct (inv_data_blocks_distinct s1 di r c I1 Hn) as [_ Hu];
        [rewrite Ec1; lia | rewrite Ec1; lia |].
      specialize (Hu Hrc). lia.
Qed.

(** ** [directory_put] and [directory_lookup] *)

Lemma write_entry_elsewhere (s1 s' : fs) (di e y : Z) (name : cstr) (inum : Z) :
  s' = write_entry s1 e name inum ->
  In e (dir_entries s' di) -> In y (dir_entries s' di) -> y <> e ->
  forall a, y <= a < y + DIRENT_SIZE -> img s' a = img s1 a.
Proof.
  intros -> He Hy Hne a Ha.
  destruct (write_entry_frame s1 e name inum) as (_ & _ & _ & _ & _ & _ & Himg).
  apply Himg. now apply (entries_apart _ _ di di y e Hy He Hne).
Qed.

Lemma directory_put_lookup_core (s : fs) (di : Z) (name : cstr) (inum : Z) (s' : fs) :
  inv s -> 0 <= di < INODE_COUNT -> cstr_ok name ->
  -2147483648 <= inum < 2147483648 -> inum <> 0 ->
  (forall y, In y (dir_entries s di) -> entry_matches s name y = false) ->
  directory_put s di name inum = (s', 0) ->
  directory_lookup s' di name = inum.
Proof.
  intros I Hn Hok Hr Hnz Hnone H.
  destruct (directory_put_cases s di name inum s' I Hn H)
    as (Hne & Hlen & I' & s1 & e & pre & post & Es & El & Hpre & Hsame & Hcase).
  assert (Hlen64 : strlen name < DIRENT_SIZE)
    by (unfold DIR_NAME_LENGTH, DIRENT_SIZE in *; lia).
  assert (He : In e (dir_entries s' di)).
  { rewrite El. apply in_or_app. right. now left. }
  rewrite (directory_lookup_find s' di name Hne), El.
  rewrite find_first.
  - rewrite Es. now apply write_entry_inum.
  - intros y Hy.
    assert (Hy' : In y (dir_entries s' di)).
    { rewrite El. apply in_or_app. now left. }
    assert (Hys : In y (dir_entries s di) /\ y <> e).
    { destruct Hcase as [(_ & Els & Hemp) | (Els & Hdiff & _)].
      - split; [rewrite Els; apply in_or_app; now left |].
        intros ->. rewrite (Hpre e Hy) in Hemp. discriminate.
      - split; [now rewrite Els | now apply Hdiff]. }
    destruct Hys as [Hys Hye].
    destruct (entry_same_bytes s s' name y) as (_ & Em & _); [| exact Hlen64 |].
    + intros a Ha.
      rewrite (write_entry_elsewhere s1 s' di e y name inum Es He Hy' Hye a Ha).
      now apply (Hsame y a).
    + rewrite Em. now apply Hnone.
  - rewrite Es. now apply write_entry_matches.
Qed.


Lemma directory_lookup_nil (s : fs) (di : Z) : directory_lookup s di [] = -1.
Proof. reflexivity. Qed.

Lemma directory_put_other_core (s : fs) (di : Z) (name name' : cstr) (inum : Z) (s' : fs) :
  inv s -> 0 <= di < INODE_COUNT -> cstr_ok name -> cstr_ok name' ->
  name' <> name -> strlen name' < DIRENT_SIZE ->
  -2147483648 <= inum < 2147483648 -> inum <> 0 ->
  directory_put s di name inum = (s', 0) ->
  directory_lookup s' di name' = directory_lookup s di name'.
Proof.
  intros I Hn Hok Hok' Hdiff Hlen' Hr Hnz H.
  destruct name' as [| c' r'] eqn:En; [reflexivity |]. rewrite <- En in *.
  assert (Hne' : name' <> []) by (rewrite En; discriminate).
  clear En c' r'.
  destruct (directory_put_cases s di name inum s' I Hn H)
    as (Hne & Hlen & I' & s1 & e & pre & post & Es & El & Hpre & Hsame & Hcase).
  assert (He : In e (dir_entries s' di)).
  { rewrite El. apply in_or_app. right. now left. }
  assert (Hnew : entry_matches s' name' e = false).
  { destruct (entry_matches s' name' e) eqn:E; [| reflexivity].
    rewrite Es in E. apply write_entry_matches in E; try assumption. contradiction. }
  assert (Hother : forall y, In y (dir_entries s' di) -> y <> e ->
            forall a, y <= a < y + DIRENT_SIZE -> img s' a = img s1 a).
  { intros y Hy Hye. now apply (write_entry_elsewhere s1 s' di e y name inum). }
  rewrite (directory_lookup_find s' di name' Hne'), (directory_lookup_find s di name' Hne').
  rewrite El.
  destruct Hcase as [(-> & Els & Hemp) | (Els & Hpd & Hzero)].
  - rewrite Els.
    assert (Hold : entry_matches s name' e = false)
      by now apply entry_empty_no_match.
    apply find_agree.
    + intros y Hy. destruct (Z.eq_dec y e) as [-> | Hye]; [congruence |].
      apply (entry_same_bytes s s' name' y); [| exact Hlen'].
      apply Hother; [now rewrite El | exact Hye].
    + intros y Hy Hm. destruct (Z.eq_dec y e) as [-> | Hye]; [congruence |].
      apply (entry_same_bytes s s' name' y); [| exact Hlen'].
      apply Hother; [now rewrite El | exact Hye].
  - rewrite Els. rewrite find_app.
    assert (Hnone : find (entry_matches s' name') (e :: post) = None).
    { apply find_all_false. intros y Hy.
      destruct (Z.eq_dec y e) as [-> | Hye]; [exact Hnew |].
      apply (zero_entry s' name' y). intros a Ha.
      rewrite (Hother y); [now apply (Hzero y a) | | exact Hye | exact Ha].
      rewrite El. apply in_or_app. now right. }
    rewrite Hnone.
    assert (Hbytes : forall y, In y pre ->
              forall a, y <= a < y + DIRENT_SIZE -> img s' a = img s a).
    { intros y Hy a Ha. rewrite (Hother y).
      - apply (Hsame y a); [now rewrite Els | exact Ha].
      - rewrite El. apply in_or_app. now left.
      - now apply Hpd.
      - exact Ha. }
    transitivity (match find (entry_matches s' name') pre with
                  | Some e0 => dirent_inum s' e0
                  | None => -1
                  end).
    { destruct (find (entry_matches s' name') pre); reflexivity. }
    apply find_agree.
    + intros y Hy. apply (entry_same_bytes s s' name' y); [| exact Hlen'].
      now apply Hbytes.
    + intros y Hy _. apply (entry_same_bytes s s' name' y); [| exact Hlen'].
      now apply Hbytes.
Qed.


(** ** [directory_delete] and [directory_lookup] *)

Lemma streq_at_inj (n1 : cstr) :
  forall (m : Z -> Z) (a : Z) (n2 : cstr),
    cstr_ok n1 -> cstr_ok n2 ->
    streq_at m a n1 = true -> streq_at m a n2 = true -> n1 = n2.
Proof.
  unfold cstr_ok.
  induction n1 as [| c1 r1 IH]; intros m a n2 H1 H2 E1 E2; destruct n2 as [| c2 r2];
    cbn [streq_at] in *; try reflexivity.
  - apply andb_prop in E2. destruct E2 as [E2 _].
    apply Z.eqb_eq in E1, E2. exfalso. apply H2. left. congruence.
  - apply andb_prop in E1. destruct E1 as [E1 _].
    apply Z.eqb_eq in E1, E2. exfalso. apply H1. left. congruence.
  - apply andb_prop in E1, E2. destruct E1 as [E1 E1'], E2 as [E2 E2'].
    apply Z.eqb_eq in E1, E2. f_equal; [congruence |].
    apply (IH m (a + 1)); auto.
    + intros Hin. apply H1. now right.
    + intros Hin. apply H2. now right.
Qed.

Lemma directory_delete_cases (s : fs) (di : Z) (name : cstr) (s' : fs) :
  inv s -> 0 <= di < INODE_COUNT ->
  directory_delete s di name = (s', 0) ->
  name <> []
  /\ exists e pre post,
       dir_entries s di = pre ++ e :: post
       /\ entry_matches s name e = true
       /\ (forall y, In y pre -> entry_matches s name y = false)
       /\ s' = with_img s (memset0 (img s) e DIRENT_SIZE)
       /\ inv s'
       /\ dir_entries s' di = dir_entries s di.
Proof.
  intros I Hn H. unfold directory_delete in H.
  destruct (Z.eqb_spec (strlen name) 0) as [? | Hlen0]; [discriminate |].
  assert (Hne : name <> []) by (intros ->; now apply Hlen0).
  split; [exact Hne |].
  rewrite dir_scan_find in H. fold (dir_entries s di) in H.
  destruct (find (entry_matches s name) (dir_entries s di)) as [e |] eqn:F;
    [| discriminate].
  injection H as <-.
  destruct (find_split _ _ _ F) as (pre & post & El & He & Hpre).
  assert (Hin : In e (dir_entries s di)).
  { rewrite El. apply in_or_app. right. now left. }
  destruct (entry_write_keeps s _ di e I Hn Hin (delete_entry_frame s e))
    as (I' & _ & Hd).
  exists e, pre, post.
  refine (conj El (conj He (conj Hpre (conj eq_refl (conj I' (Hd di Hn)))))).
Qed.

Lemma directory_delete_lookup_core (s : fs) (di : Z) (name : cstr) (s' : fs) :
  inv s -> 0 <= di < INODE_COUNT -> cstr_ok name ->
  directory_delete s di name = (s', 0) ->
  (forall name', cstr_ok name' -> name' <> name -> strlen name' < DIRENT_SIZE ->
     directory_lookup s' di name' = directory_lookup s di name')
  /\ ((forall y1 y2, In y1 (dir_entries s di) -> In y2 (dir_entries s di) ->
         entry_matches s name y1 = true -> entry_matches s name y2 = true -> y1 = y2) ->
      strlen name < DIRENT_SIZE ->
      directory_lookup s' di name = -1).
Proof.
  intros I Hn Hok H.
  destruct (directory_delete_cases s di name s' I Hn H)
    as (Hne & e & pre & post & El & He & Hpre & Es & I' & Ed).
  assert (Hin : In e (dir_entries s di)).
  { rewrite El. apply in_or_app. right. now left. }
  assert (Hzero : forall nm, entry_matches s' nm e = false).
  { intros nm. apply (zero_entry s' nm e). intros a Ha. rewrite Es.
    cbn [img with_img]. now apply memset0_in. }
  assert (Hother : forall y, In y (dir_entries s di) -> y <> e ->
            forall a, y <= a < y + DIRENT_SIZE -> img s' a = img s a).
  { intros y Hy Hye a Ha. rewrite Es. cbn [img with_img]. apply memset0_out.
    now apply (entries_apart _ _ di di y e Hy Hin Hye). }
  split.
  - intros name' Hok' Hdiff Hlen'.
    destruct name' as [| c' r'] eqn:En; [reflexivity |]. rewrite <- En in *.
    assert (Hne' : name' <> []) by (rewrite En; discriminate).
    clear En c' r'.
    rewrite (directory_lookup_find s' di name' Hne'), (directory_lookup_find s di name' Hne').
    rewrite Ed.
    assert (Hold : entry_matches s name' e = false).
    { destruct (entry_matches s name' e) eqn:E; [| reflexivity].
      exfalso. apply Hdiff.
      unfold entry_matches in E, He.
      apply andb_prop in E, He. destruct E as [_ E], He as [_ He].
      now apply (streq_at_inj name' (img s) e name). }
    apply find_agree.
    + intros y Hy. destruct (Z.eq_dec y e) as [-> | Hye];
        [now rewrite Hzero, Hold |].
      apply (entry_same_bytes s s' name' y); [| exact Hlen'].
      now apply Hother.
    + intros y Hy Hm. destruct (Z.eq_dec y e) as [-> | Hye]; [congruence |].
      apply (entry_same_bytes s s' name' y); [| exact Hlen'].
      now apply Hother.
  - intros Huniq Hlen.
    rewrite (directory_lookup_find s' di name Hne), Ed.
    rewrite find_all_false; [reflexivity |].
    intros y Hy. destruct (Z.eq_dec y e) as [-> | Hye]; [apply Hzero |].
    destruct (entry_same_bytes s s' name y) as (_ & Em & _); [| exact Hlen |].
    + now apply Hother.
    + rewrite Em. destruct (entry_matches s name y) eqn:E; [| reflexivity].
      exfalso. apply Hye. now apply Huniq.
Qed.


(** ** [directory_list] and [nufs_rmdir] on a directory *)

Lemma list_loop_spec (s : fs) (dir : Z) (n : nat) :
  forall ii acc,
    list_loop s dir ii n acc
    = rev (map (fun e => load_cstr (img s) e (Z.to_nat DIR_NAME_LENGTH))
             (filter (fun e => negb (entry_empty s e)) (dir_slots s dir ii n)))
      ++ acc.
Proof.
  induction n as [| n IH]; intros ii acc; cbn [list_loop dir_slots]; [reflexivity |].
  destruct (directory_get_entry s dir ii) as [e |]; [| reflexivity].
  rewrite IH. cbn [filter].
  assert (E : negb (dirent_inum s e =? 0) && negb (dirent_name0 s e =? 0)
              = negb (entry_empty s e)).
  { unfold entry_empty. now rewrite negb_orb. }
  rewrite E. destruct (negb (entry_empty s e)); [| reflexivity].
  cbn [map rev]. now rewrite <- app_assoc.
Qed.

(** [directory_list] of a path that resolves to a directory gives the
    names of the entries that are not empty slots (neither [inum == 0]
    nor an empty name), the last entry first; for a path that resolves to
    something else it gives the empty list. *)
Theorem directory_list_spec (s : fs) (path : cstr) (dir : Z) :
  tree_lookup s path = dir -> 0 <= dir < INODE_COUNT ->
  directory_list s path =
  if Z.land (mode (itab s dir)) S_IFDIR =? 0 then []
  else rev (map (fun e => load_cstr (img s) e (Z.to_nat DIR_NAME_LENGTH))
              (filter (fun e => negb (entry_empty s e)) (dir_entries s dir))).
Proof.
  intros Hl Hd. unfold directory_list. rewrite Hl.
  destruct (Z.ltb_spec dir 0); [lia |].
  rewrite (get_inode_in_range dir Hd).
  destruct (Z.land (mode (itab s dir)) S_IFDIR =? 0); [reflexivity |].
  rewrite list_loop_spec. now rewrite app_nil_r.
Qed.

Lemma directory_list_empty_iff (s : fs) (path : cstr) (dir : Z) :
  tree_lookup s path = dir -> 0 <= dir < INODE_COUNT ->
  Z.land (mode (itab s dir)) S_IFDIR <> 0 ->
  (directory_list s path = []
   <-> forall e, In e (dir_entries s dir) -> entry_empty s e = true).
Proof.
  intros Hl Hd Hdir. unfold directory_list. rewrite Hl.
  destruct (Z.ltb_spec dir 0); [lia |].
  rewrite (get_inode_in_range dir Hd).
  destruct (Z.eqb_spec (Z.land (mode (itab s dir)) S_IFDIR) 0); [contradiction |].
  rewrite list_loop_spec, app_nil_r. fold (dir_entries s dir).
  set (f := fun e => negb (entry_empty s e)).
  set (g := fun e => load_cstr (img s) e (Z.to_nat DIR_NAME_LENGTH)).
  split.
  - intros Hnil e He. destruct (entry_empty s e) eqn:E; [reflexivity |].
    assert (Hin : In (g e) (map g (filter f (dir_entries s dir)))).
    { apply in_map. apply filter_In. split; [exact He |]. unfold f. now rewrite E. }
    apply in_rev in Hin. rewrite Hnil in Hin. destruct Hin.
  - intros Hall.
    assert (E : filter f (dir_entries s dir) = []).
    { destruct (filter f (dir_entries s dir)) as [| x l] eqn:F; [reflexivity |].
      assert (Hx : In x (filter f (dir_entries s dir))) by (rewrite F; now left).
      apply filter_In in Hx. destruct Hx as [Hx Hf]. unfold f in Hf.
      rewrite (Hall x Hx) in Hf. discriminate. }
    now rewrite E.
Qed.

(** [nufs_rmdir] on a directory: with an entry that is not an empty slot
    it returns [-ENOTEMPTY] and changes nothing; with empty slots only it
    does what [storage_unlink] does. *)
Theorem nufs_rmdir_directory (s : fs) (path : cstr) (dir : Z) :
  tree_lookup s path = dir -> 0 <= dir < INODE_COUNT ->
  Z.land (mode (itab s dir)) S_IFDIR <> 0 ->
  ((exists e, In e (dir_entries s dir) /\ entry_empty s e = false) ->
   nufs_rmdir s path = Some (s, - ENOTEMPTY))
  /\ ((forall e, In e (dir_entries s dir) -> entry_empty s e = true) ->
      nufs_rmdir s path = storage_unlink s path).
Proof.
  intros Hl Hd Hdir.
  pose proof (directory_list_empty_iff s path dir Hl Hd Hdir) as Hiff.
  unfold nufs_rmdir, storage_list. split.
  - intros (e & He & Hne).
    destruct (directory_list s path) as [| x l] eqn:E; [| reflexivity].
    rewrite (proj1 Hiff eq_refl e He) in Hne. discriminate.
  - intros Hall. now rewrite (proj2 Hiff Hall).
Qed.

(** * Path resolution *)

Lemma tree_walk_neg (s : fs) (l : list cstr) :
  forall cur, 0 <= cur -> tree_walk s l cur < 0 -> tree_walk s l cur = -1.
Proof.
  induction l as [| data next IH]; intros cur Hc H; cbn [tree_walk] in *; [lia |].
  destruct (strlen data =? 0); [now apply IH |].
  destruct (get_inode cur); [| reflexivity].
  destruct (Z.land (mode (itab s z)) S_IFDIR =? 0); [reflexivity |].
  destruct (Z.ltb_spec (directory_lookup s z data) 0); [reflexivity |].
  now apply IH.
Qed.

Lemma tree_walk_insert_empty (s : fs) (l1 l2 : list cstr) :
  forall cur, tree_walk s (l1 ++ [] :: l2) cur = tree_walk s (l1 ++ l2) cur.
Proof.
  induction l1 as [| data next IH]; intros cur; cbn [tree_walk app]; [reflexivity |].
  destruct (strlen data =? 0); [apply IH |].
  destruct (get_inode cur); [| reflexivity].
  destruct (Z.land (mode (itab s z)) S_IFDIR =? 0); [reflexivity |].
  destruct (directory_lookup s z data <? 0); [reflexivity | apply IH].
Qed.

(** Empty components of a path are skipped: a slash at the end and a
    doubled slash anywhere do not change what the path resolves to. *)
Theorem tree_lookup_empty_components (s : fs) :
  (forall c p, tree_lookup s (c :: p ++ [SLASH]) = tree_lookup s (c :: p))
  /\ (forall p q, tree_lookup s (p ++ SLASH :: SLASH :: q) = tree_lookup s (p ++ SLASH :: q)).
Proof.
  split.
  - intros c p. destruct (Z.eqb_spec c SLASH) as [-> | Hc].
    + rewrite !tree_lookup_slash. rewrite slist_explode_app.
      change (slist_explode [] SLASH) with [@nil Z].
      rewrite tree_walk_insert_empty. now rewrite app_nil_r.
    + unfold tree_lookup. destruct (Z.eqb_spec c SLASH); [contradiction | reflexivity].
  - intros p q. destruct p as [| c p'].
    + cbn [app]. rewrite !tree_lookup_slash.
      change (slist_explode (SLASH :: q) SLASH) with ([] :: slist_explode q SLASH).
      reflexivity.
    + cbn [app]. destruct (Z.eqb_spec c SLASH) as [-> | Hc].
      * rewrite !tree_lookup_slash. rewrite !slist_explode_app.
        change (slist_explode (SLASH :: q) SLASH) with ([] :: slist_explode q SLASH).
        apply tree_walk_insert_empty.
      * unfold tree_lookup. destruct (Z.eqb_spec c SLASH); [contradiction | reflexivity].
Qed.

Lemma tree_walk_one (s : fs) (name : cstr) (cur : Z) :
  name <> [] ->
  tree_walk s [name] cur =
  match get_inode cur with
  | None => -1
  | Some d =>
      if Z.land (mode (itab s d)) S_IFDIR =? 0 then -1
      else if directory_lookup s d name <? 0 then -1
           else directory_lookup s d name
  end.
Proof.
  intros Hne. cbn [tree_walk].
  destruct (Z.eqb_spec (strlen name) 0) as [Hz | _].
  { now apply strlen_zero in Hz. }
  reflexivity.
Qed.

Lemma tree_lookup_by_parent_core (s : fs) (path : cstr) :
  get_basename path <> [] ->
  tree_lookup s path =
  if tree_lookup_parent s path <? 0 then -1
  else
    match get_inode (tree_lookup_parent s path) with
    | None => -1
    | Some d =>
        if Z.land (mode (itab s d)) S_IFDIR =? 0 then -1
        else if directory_lookup s d (get_basename path) <? 0 then -1
             else directory_lookup s d (get_basename path)
    end.
Proof.
  intros Hb. destruct path as [| c tail]; [contradiction |].
  destruct (Z.eqb_spec c SLASH) as [-> | Hc].
  2:{ unfold tree_lookup, tree_lookup_parent.
      destruct (Z.eqb_spec c SLASH); [contradiction | reflexivity]. }
  assert (Htail : tail <> []).
  { intros ->. apply Hb. reflexivity. }
  rewrite tree_lookup_slash, (tree_lookup_parent_slash s tail Htail).
  rewrite get_basename_slash in *.
  destruct (strrchr tail SLASH) as [k |] eqn:E.
  - destruct (strrchr_some _ _ _ E) as [Et Hns].
    rewrite tree_lookup_slash.
    rewrite Et at 1. rewrite slist_explode_app.
    rewrite (slist_explode_no_delim _ _ Hns).
    rewrite tree_walk_app by lia.
    set (p := tree_walk s (slist_explode (firstn k tail) SLASH) 0).
    destruct (Z.ltb_spec p 0); [reflexivity |].
    now apply tree_walk_one.
  - apply strrchr_none in E. rewrite (slist_explode_no_delim _ _ E).
    cbn [Z.ltb Z.compare]. now apply tree_walk_one.
Qed.

(** A path whose last component is not empty resolves to what
    [directory_lookup] finds for that component in the directory that
    [tree_lookup_parent] gives, and to [-1] when the parent does not
    resolve, is not a directory, or has no such entry. *)
Theorem tree_lookup_by_parent (s : fs) (path : cstr) :
  get_basename path <> [] ->
  tree_lookup s path =
  if tree_lookup_parent s path <? 0 then -1
  else
    match get_inode (tree_lookup_parent s path) with
    | None => -1
    | Some d =>
        if Z.land (mode (itab s d)) S_IFDIR =? 0 then -1
        else if directory_lookup s d (get_basename path) <? 0 then -1
             else directory_lookup s d (get_basename path)
    end.
Proof. exact (tree_lookup_by_parent_core s path). Qed.

(** ** Paths that do not resolve *)

(** On a path that does not resolve, every operation that works on an
    existing file returns [-ENOENT] (the listing is empty) and leaves the
    state as it is. *)
Theorem missing_path_enoent (s : fs) (path : cstr) :
  tree_lookup s path < 0 ->
  fst (storage_stat s path) = - ENOENT
  /\ snd (storage_stat s path) = None
  /\ (forall n offset, storage_read s path n offset = (s, - ENOENT, []))
  /\ (forall buf n offset, storage_write s path buf n offset = (s, - ENOENT))
  /\ (forall sz, storage_truncate s path sz = (s, - ENOENT))
  /\ storage_unlink s path = Some (s, - ENOENT)
  /\ (forall to, storage_link s path to = Some (s, - ENOENT))
  /\ (forall to, storage_rename s path to = Some (s, - ENOENT))
  /\ (forall ts0 ts1, storage_set_time s path ts0 ts1 = (s, - ENOENT))
  /\ (forall md, storage_chmod s path md = (s, - ENOENT))
  /\ storage_list s path = []
  /\ nufs_rmdir s path = Some (s, - ENOENT).
Proof.
  intros H.
  assert (E : (tree_lookup s path <? 0) = true) by (apply Z.ltb_lt; exact H).
  assert (Hl : storage_list s path = []).
  { unfold storage_list, directory_list. now rewrite E. }
  assert (Hu : storage_unlink s path = Some (s, - ENOENT)).
  { unfold storage_unlink. now rewrite E. }
  unfold storage_stat, storage_read, storage_write, storage_truncate, storage_link,
    storage_rename, storage_set_time, storage_chmod, nufs_rmdir.
  rewrite Hl, Hu, E. cbn [fst snd]. repeat split; reflexivity.
Qed.

(** A path that does not start with a slash never resolves, and nothing
    can be created under it; creating a name that exists is refused.
    The state is unchanged in each case. *)
Theorem creation_errors (s : fs) (path : cstr) :
  (hd 0 path <> SLASH ->
   tree_lookup s path = -1 /\ tree_lookup_parent s path = -1
   /\ (forall md, storage_mknod s path md = (s, - ENOENT))
   /\ (forall from, 0 <= tree_lookup s from ->
         storage_link s from path = Some (s, - ENOENT)
         /\ storage_rename s from path = Some (s, - ENOENT)))
  /\ (0 <= tree_lookup s path ->
      (forall md, storage_mknod s path md = (s, - EEXIST))
      /\ (forall from, 0 <= tree_lookup s from ->
            storage_link s from path = Some (s, - EEXIST))).
Proof.
  split.
  - intros Hrel.
    assert (E1 : tree_lookup s path = -1).
    { unfold tree_lookup. destruct path as [| c tail]; [reflexivity |].
      cbn [hd] in Hrel. destruct (Z.eqb_spec c SLASH); [contradiction | reflexivity]. }
    assert (E2 : tree_lookup_parent s path = -1).
    { unfold tree_lookup_parent. destruct path as [| c tail]; [reflexivity |].
      cbn [hd] in Hrel. destruct (Z.eqb_spec c SLASH); [contradiction | reflexivity]. }
    refine (conj E1 (conj E2 (conj _ _))).
    + intros md. unfold storage_mknod. rewrite E1, E2. reflexivity.
    + intros from Hf.
      assert (Ef : (tree_lookup s from <? 0) = false) by (apply Z.ltb_ge; exact Hf).
      unfold storage_link, storage_rename. rewrite Ef, E1, E2. cbn.
      rewrite E2. change (-1 <? 0) with true. rewrite orb_true_r. auto.
  - intros Hex.
    assert (E : (tree_lookup s path >=? 0) = true) by (apply Z.geb_le; exact Hex).
    split.
    + intros md. unfold storage_mknod. now rewrite E.
    + intros from Hf.
      assert (Ef : (tree_lookup s from <? 0) = false) by (apply Z.ltb_ge; exact Hf).
      unfold storage_link. now rewrite Ef, E.
Qed.

(** * More of [storage.c] *)

(** ** [storage_chmod] *)

Lemma bits_above_31 (a : Z) :
  0 <= a < 2147483648 -> forall n, 31 <= n -> Z.testbit a n = false.
Proof.
  intros Ha n Hn. destruct (Z.eq_dec a 0) as [-> | Hnz]; [apply Z.bits_0 |].
  apply Z.bits_above_log2; [lia |].
  assert (Z.log2 a < 31); [| lia].
  apply Z.log2_lt_pow2; [lia |]. change (2 ^ 31) with 2147483648. lia.
Qed.

Lemma below_2_31 (v : Z) :
  0 <= v -> (forall n, 31 <= n -> Z.testbit v n = false) -> v < 2147483648.
Proof.
  intros Hv H. destruct (Z_lt_le_dec v 2147483648) as [Hlt | Hge]; [exact Hlt |].
  exfalso.
  assert (Hl : 31 <= Z.log2 v).
  { change 31 with (Z.log2 2147483648). apply Z.log2_le_mono. exact Hge. }
  pose proof (Z.bit_log2 v ltac:(lia)) as Hb.
  rewrite (H _ Hl) in Hb. discriminate.
Qed.

Lemma chmod_mode_bits (old md : Z) :
  0 <= old < 2147483648 -> 0 <= md < 2147483648 ->
  let v := cast_int (Z.lor (Z.land old S_IFMT) (Z.land md (Z.lnot S_IFMT))) in
  0 <= v < 2147483648
  /\ Z.land v S_IFMT = Z.land old S_IFMT
  /\ Z.land v (Z.lnot S_IFMT) = Z.land md (Z.lnot S_IFMT).
Proof.
  intros Ho Hm. cbn zeta.
  set (t := Z.land old S_IFMT). set (p := Z.land md (Z.lnot S_IFMT)).
  assert (Ht : 0 <= t) by (apply Z.land_nonneg; left; lia).
  assert (Hp : 0 <= p) by (apply Z.land_nonneg; left; lia).
  assert (Hv : 0 <= Z.lor t p < 2147483648).
  { split; [apply Z.lor_nonneg; auto |].
    apply below_2_31; [apply Z.lor_nonneg; auto |].
    intros n Hn. rewrite Z.lor_spec. unfold t, p. rewrite !Z.land_spec.
    rewrite (bits_above_31 old Ho n Hn), (bits_above_31 md Hm n Hn). reflexivity. }
  rewrite cast_int_id by lia.
  refine (conj Hv (conj _ _)).
  - rewrite Z.land_lor_distr_l. unfold t, p.
    rewrite <- !Z.land_assoc. rewrite Z.land_diag.
    rewrite (Z.land_comm (Z.lnot S_IFMT) S_IFMT), Z.land_lnot_diag, Z.land_0_r.
    apply Z.lor_0_r.
  - rewrite Z.land_lor_distr_l. unfold t, p.
    rewrite <- !Z.land_assoc. rewrite Z.land_diag, Z.land_lnot_diag, Z.land_0_r.
    apply Z.lor_0_l.
Qed.

Lemma land_sub_mask (v w : Z) :
  Z.land v S_IFMT = Z.land w S_IFMT -> Z.land v S_IFDIR = Z.land w S_IFDIR.
Proof.
  intros H.
  assert (E : forall x, Z.land x S_IFDIR = Z.land (Z.land x S_IFMT) S_IFDIR).
  { intros x. rewrite <- Z.land_assoc. reflexivity. }
  rewrite (E v), (E w), H. reflexivity.
Qed.


(** ** [storage_write]: what it writes and what it leaves *)

(** Two positions of a file have two addresses. *)
Lemma file_addr_inj (s : fs) (node q q' : Z) :
  inv s -> 0 <= node < INODE_COUNT ->
  0 <= q < size (itab s node) -> 0 <= q' < size (itab s node) ->
  file_addr s node q = file_addr s node q' -> q = q'.
Proof.
  intros I Hn Hq Hq' E. unfold file_addr in E.
  pose proof (pos_block_lt q _ Hq) as Hk. pose proof (pos_block_lt q' _ Hq') as Hk'.
  fold (cnt_of s node) in Hk, Hk'.
  destruct (inv_data_blocks_distinct s node _ _ I Hn Hk Hk') as [Hb Hu].
  destruct (inv_data_blocks_distinct s node _ _ I Hn Hk' Hk') as [Hb' _].
  pose proof (Z.mod_pos_bound q BLOCK_SIZE ltac:(unfold BLOCK_SIZE; lia)) as Hm.
  pose proof (Z.mod_pos_bound q' BLOCK_SIZE ltac:(unfold BLOCK_SIZE; lia)) as Hm'.
  assert (Eb : inode_get_bnum s node (q / BLOCK_SIZE) = inode_get_bnum s node (q' / BLOCK_SIZE)).
  { revert E Hm Hm'. unfold blocks_get_block, BLOCK_SIZE. lia. }
  specialize (Hu Eb).
  assert (Em : q mod BLOCK_SIZE = q' mod BLOCK_SIZE).
  { rewrite Eb in E. lia. }
  rewrite (Z.div_mod q BLOCK_SIZE), (Z.div_mod q' BLOCK_SIZE) by (unfold BLOCK_SIZE; lia).
  rewrite Hu, Em. reflexivity.
Qed.

(** One pass of the loop of [storage_write], as the state of the loop
    after the bytes of that pass. *)
Lemma write_loop_step (s0 : fs) (node offset sz : Z) (buf : list Z) (s : fs) (w : Z) :
  0 <= node < INODE_COUNT -> 0 <= offset ->
  offset + sz <= size (itab s0 node) -> offset + sz < 2147483648 ->
  write_ok s0 s node offset buf w -> 0 <= w < sz ->
  exists tw s1,
    1 <= tw /\ w + tw <= sz
    /\ (offset + w) mod BLOCK_SIZE + tw <= BLOCK_SIZE
    /\ s1 = with_img s
              (memcpy_from (img s)
                 (blocks_get_block (inode_get_bnum s0 node ((offset + w) / BLOCK_SIZE))
                  + (offset + w) mod BLOCK_SIZE) buf w tw)
    /\ write_ok s0 s1 node offset buf (w + tw)
    /\ forall fuel, write_loop s node buf offset sz w (S fuel)
                    = write_loop s1 node buf offset sz (w + tw) fuel.
Proof.
  intros Hn Hoff Hsize Hmax W Hw.
  destruct (quot_rem_block (offset + w) ltac:(lia)) as [Eq Er].
  pose proof (Z.mod_pos_bound (offset + w) BLOCK_SIZE ltac:(unfold BLOCK_SIZE; lia)) as Hbo.
  pose proof (pos_block_lt (offset + w) (size (itab s0 node)) ltac:(lia)) as Hk.
  fold (cnt_of s0 node) in Hk.
  assert (Hci : forall z, 0 <= z < 2147483648 -> cast_int z = z)
    by (intros; apply cast_int_id; lia).
  assert (Hkr : 0 <= (offset + w) / BLOCK_SIZE < 2147483648).
  { unfold BLOCK_SIZE in *.
    pose proof (Z.div_le_upper_bound (offset + w) 4096 2147483647 ltac:(lia) ltac:(lia)).
    lia. }
  set (k := (offset + w) / BLOCK_SIZE) in *.
  set (bo := (offset + w) mod BLOCK_SIZE) in *.
  pose proof (wo_inv _ _ _ _ _ _ W) as I.
  pose proof (wo_itab _ _ _ _ _ _ W) as Hit.
  assert (Ec : cnt_of s = cnt_of s0) by (unfold cnt_of; now rewrite Hit).
  assert (Hk' : 0 <= k < cnt_of s node) by (rewrite Ec; exact Hk).
  destruct (inv_data_blocks_distinct s node k k I Hn Hk' Hk') as [Hx _].
  rewrite (wo_bnum _ _ _ _ _ _ W node k Hn Hk) in Hx.
  set (x := inode_get_bnum s0 node k) in *.
  set (tw := if BLOCK_SIZE - bo >? sz - w then sz - w else BLOCK_SIZE - bo).
  assert (Htw : 1 <= tw /\ tw <= sz - w /\ bo + tw <= BLOCK_SIZE).
  { unfold tw. destruct (Z.gtb_spec (BLOCK_SIZE - bo) (sz - w)); lia. }
  set (s1 := with_img s (memcpy_from (img s) (blocks_get_block x + bo) buf w tw)).
  assert (Hstep : forall target fuel, w < target ->
            (if BLOCK_SIZE - bo >? target - w then target - w else BLOCK_SIZE - bo) = tw ->
            write_loop s node buf offset target w (S fuel)
            = write_loop s1 node buf offset target (w + tw) fuel).
  { intros target fuel Ht Etw. cbn [write_loop].
    destruct (Z.ltb_spec w target); [| lia].
    rewrite Eq, Er. fold k bo. rewrite (Hci k Hkr), (Hci bo) by (unfold BLOCK_SIZE in *; lia).
    rewrite (wo_bnum _ _ _ _ _ _ W node k Hn Hk). fold x.
    destruct (Z.leb_spec x 0); [lia |].
    cbn zeta. rewrite Etw. reflexivity. }
  exists tw, s1.
  refine (conj (proj1 Htw) (conj _ (conj (proj2 (proj2 Htw)) (conj eq_refl (conj _ _))))).
  - lia.
  - (* the state after this pass, from the loop that stops there *)
    destruct (write_loop_spec s0 node offset (w + tw) buf (S (Z.to_nat tw)) Hn Hoff
                ltac:(lia) ltac:(lia) s w W ltac:(lia) ltac:(lia)) as [W1 _].
    rewrite Hstep in W1.
    + assert (Estop : forall f, write_loop s1 node buf offset (w + tw) (w + tw) f
                                = (s1, w + tw)).
      { intros f. destruct f; cbn [write_loop]; [reflexivity |].
        destruct (Z.ltb_spec (w + tw) (w + tw)); [lia | reflexivity]. }
      rewrite Estop in W1. exact W1.
    + lia.
    + destruct (Z.gtb_spec (BLOCK_SIZE - bo) (w + tw - w)); lia.
  - intros fuel. apply Hstep; [lia | reflexivity].
Qed.

(** The loop of [storage_write] changes no byte outside of the positions
    it writes. *)
Lemma write_loop_frame (s0 : fs) (node offset sz : Z) (buf : list Z) (fuel : nat) :
  0 <= node < INODE_COUNT -> 0 <= offset ->
  offset + sz <= size (itab s0 node) -> offset + sz < 2147483648 ->
  forall (s : fs) (w : Z),
    write_ok s0 s node offset buf w -> 0 <= w <= sz ->
    forall a,
      (forall p, w <= p < sz -> a <> file_addr s0 node (offset + p)) ->
      img (fst (write_loop s node buf offset sz w fuel)) a = img s a.
Proof.
  intros Hn Hoff Hsize Hmax.
  induction fuel as [| fuel IH]; intros s w W Hw a Ha; [reflexivity |].
  destruct (Z_lt_le_dec w sz) as [Hlt | Hge].
  2:{ cbn [write_loop]. destruct (Z.ltb_spec w sz); [lia | reflexivity]. }
  destruct (write_loop_step s0 node offset sz buf s w Hn Hoff Hsize Hmax W ltac:(lia))
    as (tw & s1 & Htw1 & Htw2 & Htw3 & Es1 & W1 & Hstep).
  rewrite Hstep. rewrite (IH s1 (w + tw) W1 ltac:(lia) a).
  - rewrite Es1. cbn [img with_img]. apply memcpy_from_out. intros Hin.
    set (d := a - (blocks_get_block (inode_get_bnum s0 node ((offset + w) / BLOCK_SIZE))
                   + (offset + w) mod BLOCK_SIZE)).
    apply (Ha (w + d)); [unfold d; lia |].
    destruct (block_offset_shift (offset + w) d) as [Sq Sm]; try (unfold d; lia).
    replace (offset + (w + d)) with (offset + w + d) by lia.
    unfold file_addr. rewrite Sq, Sm. unfold d. lia.
  - intros p Hp. apply Ha. lia.
Qed.

(** What a [storage_write] that does not fail has done. *)
Lemma storage_write_general (s s' : fs) (path : cstr) (buf : list Z)
    (n offset node r : Z) :
  inv s -> tree_lookup s path = node -> 0 <= node < INODE_COUNT ->
  0 <= offset -> 0 <= n -> offset + n < 2147483648 ->
  storage_write s path buf n offset = (s', r) -> 0 <= r ->
  r = n /\ inv s'
  /\ size (itab s' node) = Z.max (size (itab s node)) (offset + n)
  /\ others_same s s' node
  /\ (forall p, 0 <= p < n ->
        img s' (file_addr s' node (offset + p)) = nth (Z.to_nat p) buf 0)
  /\ (forall q, 0 <= q < size (itab s node) -> ~ (offset <= q < offset + n) ->
        file_addr s' node q = file_addr s node q
        /\ img s' (file_addr s' node q) = img s (file_addr s node q)).
Proof.
  intros I Hl Hn Hoff Hn0 Hmax H Hr.
  pose proof (proj1 I node Hn) as Hs0.
  unfold storage_write in H. rewrite Hl in H.
  destruct (Z.ltb_spec node 0); [lia |].
  rewrite (get_inode_in_range node Hn) in H.
  rewrite cast_int_id in H by lia.
  (* the state after the growth, if any *)
  assert (Hg : exists sg,
            (if offset + n >? size (itab s node)
             then grow_inode s node (offset + n) else (s, 0)) = (sg, 0)
            /\ inv sg
            /\ size (itab sg node) = Z.max (size (itab s node)) (offset + n)
            /\ others_same s sg node
            /\ (forall k, 0 <= k < cnt_of s node ->
                  inode_get_bnum sg node k = inode_get_bnum s node k
                  /\ forall a,
                       blocks_get_block (inode_get_bnum s node k) <= a
                         < blocks_get_block (inode_get_bnum s node k) + BLOCK_SIZE ->
                       img sg a = img s a)).
  { destruct (Z.gtb_spec (offset + n) (size (itab s node))) as [Hgt | Hle].
    - pose proof (grow_inode_rv s node (offset + n)) as Hrv.
      destruct (grow_inode s node (offset + n)) as [sg rv] eqn:G. cbn [snd] in Hrv.
      destruct Hrv as [-> | ->].
      2:{ change (-1 <? 0) with true in H. cbn iota in H.
          injection H as _ E. unfold ENOSPC in E. lia. }
      exists sg. split; [reflexivity |].
      destruct (grow_inode_inv s node (offset + n) sg I Hn ltac:(lia) G)
        as (Ig & sl & F & Esg).
      destruct (grow_inode_slots s node (offset + n) sg I Hn ltac:(lia) G)
        as (Esz & _ & Hold & _).
      refine (conj Ig (conj _ (conj _ _))).
      + rewrite Esz. lia.
      + rewrite Esg.
        apply (others_same_trans s sl); [now apply grow_others_same |].
        apply (others_same_trans sl (upd_inode sl node (set_size (offset + n))));
          now apply others_same_upd.
      + intros k Hk. apply Hold. unfold cnt_of in Hk.
        now rewrite blocks_of_nonneg in Hk by lia.
    - exists s. split; [reflexivity |].
      refine (conj I (conj _ (conj _ _))); [lia | | auto].
      constructor; auto. }
  destruct Hg as (sg & Eg & Ig & Esg & Og & Hkeep).
  rewrite Eg in H. change (0 <? 0) with false in H. cbn iota in H.
  assert (Hsz : offset + n <= size (itab sg node)) by lia.
  pose proof (write_ok_start sg node offset buf Ig) as W0.
  destruct (write_loop_spec sg node offset n buf (Z.to_nat n) Hn Hoff Hsz Hmax
              sg 0 W0 ltac:(lia) ltac:(lia)) as [W Hw].
  pose proof (write_loop_frame sg node offset n buf (Z.to_nat n) Hn Hoff Hsz Hmax
                sg 0 W0 ltac:(lia)) as Hframe.
  destruct (write_loop sg node buf offset n 0 (Z.to_nat n)) as [sw bw] eqn:L.
  cbn [fst snd] in W, Hw, Hframe. injection H as <- <-.
  set (s' := upd_inode sw node (set_mtime (clock s))).
  assert (Hbn : forall k, 0 <= k < cnt_of sg node ->
            inode_get_bnum s' node k = inode_get_bnum sg node k).
  { intros k Hk.
    rewrite (inode_get_bnum_fields sw s');
      try (unfold s'; rewrite itab_upd_inode_same; reflexivity); try reflexivity.
    now apply (wo_bnum _ _ _ _ _ _ W). }
  assert (Hfa : forall q, 0 <= q < size (itab sg node) ->
            file_addr s' node q = file_addr sg node q).
  { intros q Hq. unfold file_addr. rewrite Hbn; [reflexivity |].
    unfold cnt_of. now apply pos_block_lt. }
  refine (conj _ (conj _ (conj _ (conj _ (conj _ _))))).
  - rewrite Hw. apply cast_int_id. lia.
  - unfold s'. apply inv_fields; try reflexivity. apply (wo_inv _ _ _ _ _ _ W).
  - unfold s'. rewrite itab_upd_inode_same. cbn [size set_mtime].
    now rewrite (wo_itab _ _ _ _ _ _ W).
  - apply (others_same_trans s sw).
    + apply (others_same_trans s sg); [exact Og |].
      now apply (write_others_same sg sw node offset buf n).
    + now apply others_same_upd.
  - intros p Hp. rewrite Hfa by lia.
    change (img s' (file_addr sg node (offset + p))) with (img sw (file_addr sg node (offset + p))).
    apply (wo_data _ _ _ _ _ _ W p Hp).
  - intros q Hq Hout.
    assert (Hqg : 0 <= q < size (itab sg node)) by lia.
    assert (Hkq : 0 <= q / BLOCK_SIZE < cnt_of s node).
    { unfold cnt_of. now apply pos_block_lt. }
    destruct (Hkeep _ Hkq) as [Eb Hbytes].
    assert (Efa : file_addr sg node q = file_addr s node q).
    { unfold file_addr. now rewrite Eb. }
    rewrite Hfa by exact Hqg. split; [exact Efa |].
    change (img s' (file_addr sg node q)) with (img sw (file_addr sg node q)).
    rewrite Hframe.
    + rewrite Efa. apply Hbytes. unfold file_addr.
      pose proof (Z.mod_pos_bound q BLOCK_SIZE ltac:(unfold BLOCK_SIZE; lia)). lia.
    + intros p Hp E.
      apply (file_addr_inj sg node q (offset + p) Ig Hn Hqg ltac:(lia)) in E. lia.
Qed.

(** ** [storage_read] inside the file *)

(** A read that lies inside the file returns all the bytes asked for,
    byte [j] from position [offset + j] of the file. *)
Lemma storage_read_full (s : fs) (path : cstr) (m offset node : Z) :
  inv s -> tree_lookup s path = node -> 0 <= node < INODE_COUNT ->
  0 <= offset -> 0 <= m -> offset + m <= size (itab s node) ->
  size (itab s node) < 2147483648 ->
  snd (fst (storage_read s path m offset)) = m
  /\ Z.of_nat (length (snd (storage_read s path m offset))) = m
  /\ forall j, 0 <= j < m ->
       nth (Z.to_nat j) (snd (storage_read s path m offset)) 0
       = img s (file_addr s node (offset + j)).
Proof.
  intros I Hl Hn Hoff Hm Hsz Hmax.
  unfold storage_read. rewrite Hl.
  destruct (Z.ltb_spec node 0); [lia |].
  rewrite (get_inode_in_range node Hn).
  destruct (Z.geb_spec offset (size (itab s node))) as [Hge | Hlt].
  { assert (m = 0) by lia. subst m. cbn [fst snd length].
    refine (conj eq_refl (conj eq_refl _)). intros; lia. }
  destruct (Z.gtb_spec (offset + m) (size (itab s node))); [lia |].
  pose proof (read_loop_spec s node offset m (Z.to_nat m) 0 [] Hoff ltac:(lia)
                ltac:(lia) ltac:(lia) eq_refl ltac:(intros; lia)) as L.
  cbn zeta in L.
  destruct (read_loop s node offset m 0 [] (Z.to_nat m)) as [br out] eqn:R.
  cbn [fst snd] in *.
  destruct L as (Hbr & Hout & Hbytes & Hstop).
  assert (Ebr : br = m).
  { destruct (Z.eq_dec br m) as [-> | Hne]; [reflexivity |].
    assert (Hlt' : br < m) by lia.
    specialize (Hstop Hlt').
    assert (Hk : 0 <= (offset + br) / BLOCK_SIZE < cnt_of s node).
    { unfold cnt_of. apply pos_block_lt. lia. }
    destruct (inv_data_blocks_distinct s node _ _ I Hn Hk Hk) as [Hb _]. lia. }
  rewrite Ebr in *. clear Ebr.
  refine (conj _ (conj Hout _)).
  - apply cast_int_id. lia.
  - intros j Hj. destruct (Hbytes j Hj) as [_ E]. exact E.
Qed.

Lemma list_eq_nth (l1 l2 : list Z) (m : Z) :
  Z.of_nat (length l1) = m -> Z.of_nat (length l2) = m ->
  (forall j, 0 <= j < m -> nth (Z.to_nat j) l1 0 = nth (Z.to_nat j) l2 0) ->
  l1 = l2.
Proof.
  intros H1 H2 H. apply (nth_ext l1 l2 0 0); [lia |].
  intros k Hk. specialize (H (Z.of_nat k) ltac:(lia)).
  now rewrite Nat2Z.id in H.
Qed.

(** ** Write, then read *)


(** ** What a write or a truncate leaves of the other files *)

Lemma shrink_inode_others (s : fs) (node sz : Z) :
  inv s -> 0 <= node < INODE_COUNT -> 0 <= sz <= size (itab s node) ->
  others_same s (fst (shrink_inode s node sz)) node.
Proof.
  intros I Hn Hle.
  pose proof (proj1 I node Hn) as Hs0.
  pose proof (inv_gen_cnt_bound s _ _ node (proj2 I) Hn) as Hmax.
  pose proof (blocks_of_mono _ _ Hle) as Hmono.
  assert (Ht0 : 0 <= blocks_of sz).
  { rewrite blocks_of_nonneg by lia. apply bytes_to_blocks_nonneg. lia. }
  unfold shrink_inode.
  fold (blocks_of (size (itab s node))). fold (blocks_of sz).
  change (blocks_of (size (itab s node))) with (cnt_of s node) in *.
  set (c := cnt_of s node) in *. set (t := blocks_of sz) in *.
  destruct (shrink_loop_frame node (Z.to_nat (c - t)) s c) as (F & _ & _).
  { rewrite Z2Nat.id; lia. }
  { change (BLOCK_SIZE / INT_SIZE) with 1024. lia. }
  rewrite Z2Nat.id in F by lia.
  replace (c - (c - t)) with t in F by lia.
  set (s1 := shrink_loop s node (c - 1) (Z.to_nat (c - t))) in *.
  set (s2 := if (t <=? 1) && negb (indirect (itab s1 node) =? 0)
             then upd_inode (free_block s1 (indirect (itab s1 node))) node (set_indirect 0)
             else s1).
  cbn [fst].
  assert (O2 : others_same s1 s2 node).
  { unfold s2. destruct ((t <=? 1) && negb (indirect (itab s1 node) =? 0)).
    - constructor.
      + intros j Hj. now rewrite itab_upd_inode_other.
      + now rewrite itab_upd_inode_same.
      + intros. reflexivity.
    - constructor; auto. }
  apply (others_same_trans s s2).
  - apply (others_same_trans s s1); [| exact O2].
    constructor.
    + apply (sf_itab _ _ _ _ F).
    + apply (sf_mode _ _ _ _ F).
    + intros j r a Hj Hne Hr Ha. apply (sf_img _ _ _ _ F). intros Hb.
      pose proof (block_inj _ _ _ Ha Hb) as E.
      destruct (ig_ref _ _ _ (proj2 I) j r Hj Hr) as [Hx _].
      pose proof (ig_uniq _ _ _ (proj2 I) j r node (-1) Hj Hn Hr) as Hu.
      destruct (ig_zero _ _ _ (proj2 I) node Hn) as (_ & Z2 & _).
      destruct (has_ind (cnt_of s) node).
      * destruct Hu as [Hjn _]; [left; now split | now rewrite ref_ind | contradiction].
      * rewrite (Z2 eq_refl) in E. lia.
  - apply (others_same_trans s2 (upd_inode s2 node (set_size sz)));
      now apply others_same_upd.
Qed.

(** What a [storage_truncate] that does not fail has done. *)
Lemma storage_truncate_general (s s' : fs) (path : cstr) (sz node r : Z) :
  inv s -> tree_lookup s path = node -> 0 <= node < INODE_COUNT ->
  0 <= sz < 2147483648 ->
  storage_truncate s path sz = (s', r) -> 0 <= r ->
  r = 0 /\ inv s' /\ size (itab s' node) = sz /\ others_same s s' node.
Proof.
  intros I Hl Hn Hsz H Hr.
  pose proof (proj1 I node Hn) as Hs0.
  unfold storage_truncate in H. rewrite Hl in H.
  destruct (Z.ltb_spec node 0); [lia |].
  rewrite (get_inode_in_range node Hn) in H.
  rewrite cast_int_id in H by lia.
  destruct (Z.gtb_spec sz (size (itab s node))) as [Hgt | Hle].
  - pose proof (grow_inode_rv s node sz) as Hrv. rewrite H in Hrv. cbn [snd] in Hrv.
    destruct Hrv as [-> | ->]; [| lia].
    destruct (grow_inode_inv s node sz s' I Hn ltac:(lia) H) as (I' & sl & F & Es').
    refine (conj eq_refl (conj I' (conj _ _))).
    + rewrite Es', !itab_upd_inode_same. reflexivity.
    + rewrite Es'.
      apply (others_same_trans s sl); [now apply grow_others_same |].
      apply (others_same_trans sl (upd_inode sl node (set_size sz)));
        now apply others_same_upd.
  - destruct (Z.ltb_spec sz (size (itab s node))) as [Hlt | Hge].
    + destruct (shrink_inode_inv s node sz I Hn ltac:(lia)) as (I' & Erv & _).
      pose proof (shrink_inode_others s node sz I Hn ltac:(lia)) as O.
      rewrite H in I', Erv, O. cbn [fst snd] in *.
      refine (conj Erv (conj I' (conj _ O))).
      assert (E : size (itab (fst (shrink_inode s node sz)) node) = sz).
      { unfold shrink_inode. cbn [fst]. now rewrite !itab_upd_inode_same. }
      now rewrite H in E.
    + injection H as <- <-.
      refine (conj eq_refl (conj I (conj _ _))); [lia |].
      constructor; auto.
Qed.

Lemma load_bytes_ext (m m' : Z -> Z) (a : Z) (n : nat) :
  (forall x, a <= x < a + Z.of_nat n -> m' x = m x) ->
  load_bytes m' a n = load_bytes m a n.
Proof.
  intros H. unfold load_bytes. apply map_ext_in.
  intros i Hi. apply in_seq in Hi. apply H. lia.
Qed.

(** The loop of [storage_read] sees only the blocks of the file. *)
Lemma read_loop_same (s s' : fs) (node offset sz : Z) (fuel : nat) :
  (forall k, 0 <= k < cnt_of s node ->
     inode_get_bnum s' node k = inode_get_bnum s node k
     /\ forall a,
          blocks_get_block (inode_get_bnum s node k) <= a
            < blocks_get_block (inode_get_bnum s node k) + BLOCK_SIZE ->
          img s' a = img s a) ->
  0 <= offset -> offset + sz <= size (itab s node) -> offset + sz < 2147483648 ->
  forall br out, 0 <= br ->
    read_loop s' node offset sz br out fuel = read_loop s node offset sz br out fuel.
Proof.
  intros Hsame Hoff Hsz Hmax.
  induction fuel as [| fuel IH]; intros br out Hbr; cbn [read_loop]; [reflexivity |].
  destruct (Z.ltb_spec br sz) as [Hlt | Hge]; [| reflexivity].
  destruct (quot_rem_block (offset + br) ltac:(lia)) as [Eq Er].
  rewrite Eq, Er.
  pose proof (Z.mod_pos_bound (offset + br) BLOCK_SIZE ltac:(unfold BLOCK_SIZE; lia)) as Hbo.
  pose proof (pos_block_lt (offset + br) (size (itab s node)) ltac:(lia)) as Hk.
  fold (cnt_of s node) in Hk.
  rewrite !cast_int_id by (unfold BLOCK_SIZE in *;
    pose proof (Z.div_le_upper_bound (offset + br) 4096 2147483647 ltac:(lia) ltac:(lia)); lia).
  destruct (Hsame _ Hk) as [Eb Hbytes]. rewrite Eb.
  destruct (inode_get_bnum s node ((offset + br) / BLOCK_SIZE) <=? 0); [reflexivity |].
  cbn zeta.
  set (tr := if BLOCK_SIZE - (offset + br) mod BLOCK_SIZE >? sz - br
             then sz - br else BLOCK_SIZE - (offset + br) mod BLOCK_SIZE).
  assert (Htr : 0 <= tr /\ (offset + br) mod BLOCK_SIZE + tr <= BLOCK_SIZE).
  { unfold tr. destruct (Z.gtb_spec (BLOCK_SIZE - (offset + br) mod BLOCK_SIZE) (sz - br)); lia. }
  rewrite (load_bytes_ext (img s) (img s')).
  - apply IH. lia.
  - intros x Hx. apply Hbytes. rewrite Z2Nat.id in Hx by lia. lia.
Qed.

(** A read of a file other than the one that has changed. *)
Lemma storage_read_others (s s' : fs) (node node' : Z) (path' : cstr) (m off : Z) :
  inv s -> others_same s s' node ->
  Z.land (mode (itab s node)) S_IFDIR = 0 ->
  tree_lookup s path' = node' -> 0 <= node' < INODE_COUNT -> node' <> node ->
  short_names (slist_explode (tl path') SLASH) ->
  0 <= off -> 0 <= m -> size (itab s node') < 2147483648 ->
  tree_lookup s' path' = node'
  /\ itab s' node' = itab s node'
  /\ snd (fst (storage_read s' path' m off)) = snd (fst (storage_read s path' m off))
  /\ snd (storage_read s' path' m off) = snd (storage_read s path' m off).
Proof.
  intros I O Hmode Hl Hn Hne Hshort Hoff Hm Hmax.
  assert (Hl' : tree_lookup s' path' = node').
  { rewrite (tree_lookup_frame s s' node path' I O Hmode Hshort). exact Hl. }
  pose proof (os_itab _ _ _ O node' Hne) as Eit.
  refine (conj Hl' (conj Eit _)).
  unfold storage_read. rewrite Hl', Hl.
  destruct (Z.ltb_spec node' 0); [lia |].
  rewrite (get_inode_in_range node' Hn). rewrite Eit.
  destruct (Z.geb_spec off (size (itab s node'))); [split; reflexivity |].
  set (sz := if off + m >? size (itab s node') then size (itab s node') - off else m).
  assert (Hsz : off + sz <= size (itab s node')).
  { unfold sz. destruct (Z.gtb_spec (off + m) (size (itab s node'))); lia. }
  rewrite (read_loop_same s s' node' off sz (Z.to_nat sz)); try lia.
  - destruct (read_loop s node' off sz 0 [] (Z.to_nat sz)). split; reflexivity.
  - intros k Hk. split.
    + now apply (others_same_bnum s s' node).
    + intros a Ha. apply (os_img _ _ _ O node' k a Hn Hne); [right; exact Hk |].
      now rewrite ref_data by lia.
Qed.


(** * Creating and removing names *)

(** ** Frames for directory lookups *)

Lemma inode_get_bnum_ext (s s' : fs) (d k : Z) :
  itab s' d = itab s d -> (forall a, img s' a = img s a) ->
  inode_get_bnum s' d k = inode_get_bnum s d k.
Proof.
  intros Hit Himg. unfold inode_get_bnum, table_get. rewrite Hit.
  destruct (k <? 0); [reflexivity |].
  destruct (k =? 0); [reflexivity |].
  destruct (indirect (itab s d) =? 0); [reflexivity |].
  destruct (k - 1 >=? BLOCK_SIZE / INT_SIZE); [reflexivity |].
  apply load_int_frame. intros x _. apply Himg.
Qed.

Lemma dir_scan_ext (s s' : fs) (d : Z) (name : cstr) (n : nat) :
  itab s' d = itab s d -> (forall a, img s' a = img s a) ->
  forall ii,
    match dir_scan s' d (entry_matches s' name) ii n with
    | Some e => dirent_inum s' e
    | None => -1
    end
    = match dir_scan s d (entry_matches s name) ii n with
      | Some e => dirent_inum s e
      | None => -1
      end.
Proof.
  intros Hit Himg.
  induction n as [| n IH]; intros ii; cbn [dir_scan]; [reflexivity |].
  assert (Eg : directory_get_entry s' d ii = directory_get_entry s d ii).
  { unfold directory_get_entry. now rewrite (inode_get_bnum_ext s s' d _ Hit Himg). }
  rewrite Eg. destruct (directory_get_entry s d ii) as [e |]; [| reflexivity].
  assert (Hin : dirent_inum s' e = dirent_inum s e).
  { unfold dirent_inum. apply load_int_frame. intros x _. apply Himg. }
  assert (Hm : entry_matches s' name e = entry_matches s name e).
  { unfold entry_matches. rewrite Hin. f_equal.
    apply streq_at_frame. intros x _. apply Himg. }
  rewrite Hm. destruct (entry_matches s name e); [exact Hin | apply IH].
Qed.

(** A lookup reads the record of the directory and the image only. *)
Lemma directory_lookup_ext (s s' : fs) (d : Z) (name : cstr) :
  itab s' d = itab s d -> (forall a, img s' a = img s a) ->
  directory_lookup s' d name = directory_lookup s d name.
Proof.
  intros Hit Himg. unfold directory_lookup.
  destruct (strlen name =? 0); [reflexivity |].
  assert (Hmax : directory_max_entries s' d = directory_max_entries s d).
  { unfold directory_max_entries. now rewrite Hit. }
  rewrite Hmax. now apply dir_scan_ext.
Qed.

Lemma dir_entries_ext (s s' : fs) (d : Z) :
  itab s' d = itab s d -> (forall a, img s' a = img s a) ->
  dir_entries s' d = dir_entries s d.
Proof.
  intros Hit Himg. unfold dir_entries.
  assert (Hmax : directory_max_entries s' d = directory_max_entries s d).
  { unfold directory_max_entries. now rewrite Hit. }
  rewrite Hmax. apply dir_slots_ext. intros idx _.
  unfold directory_get_entry. now rewrite (inode_get_bnum_ext s s' d _ Hit Himg).
Qed.

Lemma entry_matches_ext (s s' : fs) (name : cstr) (e : Z) :
  (forall a, img s' a = img s a) ->
  entry_matches s' name e = entry_matches s name e.
Proof.
  intros Himg. unfold entry_matches, dirent_inum.
  rewrite (load_int_frame (img s) (img s')) by (intros x _; apply Himg).
  f_equal. apply streq_at_frame. intros x _. apply Himg.
Qed.

(** Writing inside an entry of a directory leaves the other inodes and
    their blocks alone. *)
Lemma entry_write_others_same (s s' : fs) (di index e : Z) :
  inv s -> 0 <= di < INODE_COUNT ->
  directory_get_entry s di index = Some e -> index < directory_max_entries s di ->
  entry_frame s s' e -> others_same s s' di.
Proof.
  intros I Hn He Hi (Hit & _ & _ & _ & _ & _ & Himg).
  destruct (directory_get_entry_block s di index e He Hi) as (r & off & Hr & Hoff & Hb & ->).
  constructor.
  - intros j _. now rewrite Hit.
  - now rewrite Hit.
  - intros j r' a Hj Hne Hs Ha. apply Himg. intros Hin.
    assert (Hblk : blocks_get_block (inode_get_bnum s di r) <= a
                   < blocks_get_block (inode_get_bnum s di r) + BLOCK_SIZE).
    { revert Hin Hoff. unfold ENTRIES_PER_BLOCK, BLOCK_SIZE, DIRENT_SIZE.
      change (4096 / 64) with 64. lia. }
    pose proof (block_inj _ _ _ Ha Hblk) as E.
    rewrite <- (ref_data s di r) in E by lia.
    destruct (ig_uniq _ _ _ (proj2 I) j r' di r Hj Hn Hs ltac:(right; exact Hr) E) as [Ej _].
    contradiction.
Qed.

Lemma directory_put_others_same (s : fs) (di : Z) (name : cstr) (inum : Z) (s' : fs) :
  inv s -> 0 <= di < INODE_COUNT ->
  directory_put s di name inum = (s', 0) -> others_same s s' di.
Proof.
  intros I Hn H. unfold directory_put in H.
  destruct (strlen name =? 0); [discriminate |].
  destruct (strlen name >=? DIR_NAME_LENGTH); [discriminate |].
  rewrite dir_scan_find in H. fold (dir_entries s di) in H.
  destruct (find (entry_empty s) (dir_entries s di)) as [e |] eqn:F.
  - injection H as <-. apply find_some in F. destruct F as [Hin _].
    destruct (dir_entries_index s di e Hin) as (index & He & Hi).
    apply (entry_write_others_same s _ di index e I Hn He); [lia |].
    apply write_entry_frame.
  - pose proof (grow_inode_rv s di (size (itab s di) + BLOCK_SIZE)) as Hrv.
    destruct (grow_inode s di (size (itab s di) + BLOCK_SIZE)) as [s1 rv] eqn:G.
    cbn [snd] in Hrv.
    destruct Hrv as [-> | ->]; [| discriminate].
    cbn [Z.ltb Z.compare] in H.
    assert (Hle : size (itab s di) <= size (itab s di) + BLOCK_SIZE)
      by (unfold BLOCK_SIZE; lia).
    destruct (grow_inode_inv s di _ s1 I Hn Hle G) as (I1 & sl & Fg & Es1).
    destruct (directory_get_entry s1 di (directory_max_entries s di)) as [e |] eqn:E;
      [| discriminate].
    injection H as <-.
    assert (O1 : others_same s s1 di).
    { rewrite Es1.
      apply (others_same_trans s sl); [now apply grow_others_same |].
      apply (others_same_trans sl (upd_inode sl di (set_size (size (itab s di) + BLOCK_SIZE))));
        now apply others_same_upd. }
    apply (others_same_trans s s1); [exact O1 |].
    apply (entry_write_others_same s1 _ di _ e I1 Hn E); [| apply write_entry_frame].
    rewrite !directory_max_entries_eq.
    assert (Ec : cnt_of s1 di = cnt_of s di + 1).
    { unfold cnt_of. rewrite Es1. rewrite itab_upd_inode_same.
      rewrite itab_upd_inode_same. cbn [size set_size set_mtime].
      destruct I as [Hsz _]. pose proof (Hsz di Hn).
      rewrite !blocks_of_nonneg by (unfold BLOCK_SIZE; lia).
      apply bytes_to_blocks_add_block. }
    rewrite Ec. unfold ENTRIES_PER_BLOCK. change (BLOCK_SIZE / DIRENT_SIZE) with 64. lia.
Qed.

(** ** Walks that see the same entries *)

(** A walk that succeeds in [s] goes the same way in [s'] when every
    directory it may pass keeps its mode and the names it finds there. *)
Lemma tree_walk_agree (s s' : fs) (comps : list cstr) :
  (forall d c, In c comps -> 0 <= d < INODE_COUNT ->
     Z.land (mode (itab s d)) S_IFDIR <> 0 -> 0 <= directory_lookup s d c ->
     mode (itab s' d) = mode (itab s d)
     /\ directory_lookup s' d c = directory_lookup s d c) ->
  forall cur, 0 <= tree_walk s comps cur ->
    tree_walk s' comps cur = tree_walk s comps cur.
Proof.
  induction comps as [| data next IH]; intros Hstep cur Hw; cbn [tree_walk] in *;
    [reflexivity |].
  assert (Hnext : forall d c, In c next -> 0 <= d < INODE_COUNT ->
            Z.land (mode (itab s d)) S_IFDIR <> 0 -> 0 <= directory_lookup s d c ->
            mode (itab s' d) = mode (itab s d)
            /\ directory_lookup s' d c = directory_lookup s d c).
  { intros d c Hc. apply Hstep. now right. }
  destruct (strlen data =? 0); [now apply IH |].
  destruct (get_inode cur) as [d |] eqn:G; [| reflexivity].
  apply get_inode_some in G. destruct G as [-> Hcur].
  destruct (Z.eqb_spec (Z.land (mode (itab s cur)) S_IFDIR) 0) as [Hz | Hnz]; [lia |].
  destruct (Z.ltb_spec (directory_lookup s cur data) 0) as [Hlt | Hge]; [lia |].
  destruct (Hstep cur data ltac:(now left) Hcur Hnz Hge) as [Em El].
  rewrite Em, El.
  destruct (Z.eqb_spec (Z.land (mode (itab s cur)) S_IFDIR) 0); [contradiction |].
  destruct (Z.ltb_spec (directory_lookup s cur data) 0); [lia |].
  now apply IH.
Qed.

Lemma explode_in (t : cstr) (d : Z) :
  forall c x, In c (slist_explode t d) -> In x c -> In x t.
Proof.
  induction t as [| ch rest IH]; intros c x Hc Hx; cbn [slist_explode] in Hc.
  - destruct Hc as [<- | []]. exact Hx.
  - destruct (ch =? d).
    + destruct Hc as [<- | Hc]; [destruct Hx |]. right. now apply (IH c).
    + destruct (slist_explode rest d) as [| w ws] eqn:E.
      * destruct Hc as [<- | []]. destruct Hx as [<- | []]. now left.
      * destruct Hc as [<- | Hc].
        -- destruct Hx as [<- | Hx]; [now left |]. right. apply (IH w); [now left | exact Hx].
        -- right. apply (IH c); [now right | exact Hx].
Qed.

(** The names of a path: short enough for an entry and without a NUL. *)
Lemma tree_lookup_agree (s s' : fs) (path : cstr) :
  (forall d c, cstr_ok c -> strlen c < DIRENT_SIZE -> 0 <= d < INODE_COUNT ->
     Z.land (mode (itab s d)) S_IFDIR <> 0 -> 0 <= directory_lookup s d c ->
     mode (itab s' d) = mode (itab s d)
     /\ directory_lookup s' d c = directory_lookup s d c) ->
  cstr_ok path -> short_names (slist_explode (tl path) SLASH) ->
  0 <= tree_lookup s path -> tree_lookup s' path = tree_lookup s path.
Proof.
  intros Hstep Hok Hshort. unfold tree_lookup.
  destruct path as [| c0 tail]; [reflexivity |].
  destruct (negb (c0 =? SLASH)); [reflexivity |].
  destruct tail as [| c1 tail']; [reflexivity |].
  apply tree_walk_agree. intros d c Hc. apply Hstep.
  - intros Hin. apply Hok. right. apply (explode_in _ _ _ _ Hc Hin).
  - cbn [tl] in Hshort. unfold short_names in Hshort.
    rewrite Forall_forall in Hshort. now apply Hshort.
Qed.

Lemma others_same_entries (s s' : fs) (node di : Z) (name : cstr) :
  inv s -> others_same s s' node -> 0 <= di < INODE_COUNT -> di <> node ->
  strlen name < DIRENT_SIZE ->
  dir_entries s' di = dir_entries s di
  /\ forall y, In y (dir_entries s di) ->
       entry_matches s' name y = entry_matches s name y.
Proof.
  intros I O Hd Hne Hlen. split.
  - unfold dir_entries.
    assert (Hmax : directory_max_entries s' di = directory_max_entries s di).
    { unfold directory_max_entries. now rewrite (os_itab _ _ _ O di Hne). }
    rewrite Hmax. apply dir_slots_ext. intros idx Hidx.
    apply (others_same_entry s s' node di idx O Hd Hne).
    pose proof (proj1 I di Hd) as Hs.
    assert (0 <= directory_max_entries s di).
    { rewrite directory_max_entries_cnt.
      destruct (ig_cnt _ _ _ (proj2 I) di Hd) as [H _].
      unfold ENTRIES_PER_BLOCK, BLOCK_SIZE, DIRENT_SIZE. change (4096 / 64) with 64. lia. }
    rewrite Z2Nat.id in Hidx by lia. lia.
  - intros y Hy.
    destruct (dir_entry_in_block s di y Hy) as (r & Hr & Hb & Hlo & Hhi).
    assert (Hsame : forall x, y <= x < y + DIRENT_SIZE -> img s' x = img s x).
    { intros x Hx.
      apply (os_img _ _ _ O di r x Hd Hne); [right; exact Hr |].
      rewrite ref_data by lia. lia. }
    unfold entry_matches, dirent_inum.
    rewrite (load_int_frame (img s) (img s')).
    + f_equal. apply streq_at_frame. intros x Hx. apply Hsame. lia.
    + intros x Hx. apply Hsame.
      unfold DIR_NAME_LENGTH, DIRENT_SIZE, INT_SIZE in *. lia.
Qed.

Lemma directory_lookup_no_match (s : fs) (di : Z) (name : cstr) :
  (forall y, In y (dir_entries s di) -> entry_matches s name y = false) ->
  directory_lookup s di name = -1.
Proof.
  intros H. destruct name as [| c name']; [reflexivity |].
  rewrite directory_lookup_find by discriminate.
  now rewrite (find_all_false _ _ H).
Qed.

(** A walk from the root that ends elsewhere has found the root to be a
    directory. *)
Lemma tree_walk_root (s : fs) (comps : list cstr) (r : Z) :
  tree_walk s comps 0 = r -> 0 <= r -> r <> 0 ->
  Z.land (mode (itab s 0)) S_IFDIR <> 0.
Proof.
  induction comps as [| data next IH]; cbn [tree_walk]; intros H Hr Hne; [lia |].
  destruct (strlen data =? 0); [now apply IH |].
  change (get_inode 0) with (Some 0) in H. cbn iota in H.
  destruct (Z.eqb_spec (Z.land (mode (itab s 0)) S_IFDIR) 0); [lia | assumption].
Qed.

Lemma tree_lookup_parent_root (s : fs) (path : cstr) (P : Z) :
  tree_lookup_parent s path = P -> 0 <= P -> P <> 0 ->
  Z.land (mode (itab s 0)) S_IFDIR <> 0.
Proof.
  intros H HP Hne. destruct path as [| c tail]; [cbn in H; lia |].
  destruct (Z.eqb_spec c SLASH) as [-> | Hc].
  2:{ unfold tree_lookup_parent in H.
      destruct (Z.eqb_spec c SLASH); [contradiction | cbn in H; lia]. }
  destruct tail as [| c1 tail'].
  { cbn in H. lia. }
  rewrite tree_lookup_parent_slash in H by discriminate.
  destruct (strrchr (c1 :: tail') SLASH) as [k |]; [| lia].
  rewrite tree_lookup_slash in H.
  apply (tree_walk_root s _ P H HP Hne).
Qed.

Lemma cstr_ok_basename (path : cstr) : cstr_ok path -> cstr_ok (get_basename path).
Proof.
  intros Hok Hin. apply Hok. unfold get_basename in Hin.
  destruct (strrchr path SLASH) as [i |]; [| exact Hin].
  rewrite <- (firstn_skipn (S i) path). apply in_or_app. now right.
Qed.

Lemma tree_lookup_parent_agree (s s' : fs) (path : cstr) :
  (forall d c, cstr_ok c -> strlen c < DIRENT_SIZE -> 0 <= d < INODE_COUNT ->
     Z.land (mode (itab s d)) S_IFDIR <> 0 -> 0 <= directory_lookup s d c ->
     mode (itab s' d) = mode (itab s d)
     /\ directory_lookup s' d c = directory_lookup s d c) ->
  cstr_ok path -> short_names (slist_explode (tl path) SLASH) ->
  0 <= tree_lookup_parent s path ->
  tree_lookup_parent s' path = tree_lookup_parent s path.
Proof.
  intros Hstep Hok Hshort. destruct path as [| c tail]; [reflexivity |].
  destruct (Z.eqb_spec c SLASH) as [-> | Hc].
  2:{ unfold tree_lookup_parent.
      destruct (Z.eqb_spec c SLASH); [contradiction | reflexivity]. }
  destruct tail as [| c1 tail']; [reflexivity |].
  rewrite !tree_lookup_parent_slash by discriminate.
  set (tail := c1 :: tail') in *.
  destruct (strrchr tail SLASH) as [k |] eqn:E; [| reflexivity].
  destruct (strrchr_some _ _ _ E) as [Et Hns].
  apply (tree_lookup_agree s s' _ Hstep).
  - intros [H | H]; [apply Hok; now left |].
    apply Hok. right. rewrite <- (firstn_skipn k tail). apply in_or_app. now left.
  - cbn [tl] in *. rewrite Et, slist_explode_app in Hshort.
    unfold short_names in *. apply Forall_app in Hshort. tauto.
Qed.

(** The first block of a new directory: the other inodes are left
    alone, and the size is that of one block, or still 0 when no block
    is free. *)
Lemma grow_first_block_others (s : fs) (node : Z) :
  inv s -> 0 <= node < INODE_COUNT -> size (itab s node) = 0 ->
  others_same s (fst (grow_inode s node BLOCK_SIZE)) node
  /\ refs (itab (fst (grow_inode s node BLOCK_SIZE)) node) = refs (itab s node)
  /\ ibm (fst (grow_inode s node BLOCK_SIZE)) = ibm s
  /\ (size (itab (fst (grow_inode s node BLOCK_SIZE)) node) = 0
      \/ size (itab (fst (grow_inode s node BLOCK_SIZE)) node) = BLOCK_SIZE).
Proof.
  intros I Hn Hs.
  pose proof (grow_inode_rv s node BLOCK_SIZE) as Hrv.
  destruct (grow_inode s node BLOCK_SIZE) as [s1 rv] eqn:E. cbn [fst snd] in *.
  destruct Hrv as [-> | ->].
  - destruct (grow_inode_inv s node BLOCK_SIZE s1 I Hn ltac:(unfold BLOCK_SIZE; lia) E)
      as (_ & sl & F & ->).
    refine (conj _ (conj _ (conj _ _))).
    + apply (others_same_trans s sl); [now apply grow_others_same |].
      apply (others_same_trans sl (upd_inode sl node (set_size BLOCK_SIZE)));
        now apply others_same_upd.
    + rewrite !itab_upd_inode_same. cbn [refs set_mtime set_size].
      now rewrite (gf_node _ _ _ F).
    + cbn [ibm upd_inode with_itab]. apply (gf_ibm _ _ _ F).
    + right. now rewrite !itab_upd_inode_same.
  - unfold grow_inode in E. rewrite Hs in E.
    change (if 0 =? 0 then 0 else bytes_to_blocks 0) with 0 in E.
    change (if BLOCK_SIZE =? 0 then 0 else bytes_to_blocks BLOCK_SIZE) with 1 in E.
    change (Z.to_nat (1 - 0)) with 1%nat in E. cbn [grow_loop] in E.
    destruct (grow_step s node 0) as [s2 | s2] eqn:G.
    + discriminate.
    + apply grow_step_inr_first in G. subst s2. injection E as <-.
      refine (conj _ (conj eq_refl (conj eq_refl (or_introl Hs)))).
      constructor; auto.
Qed.

Lemma directory_put_ibm (s : fs) (di : Z) (name : cstr) (inum : Z) (s' : fs) :
  inv s -> 0 <= di < INODE_COUNT ->
  directory_put s di name inum = (s', 0) -> ibm s' = ibm s.
Proof.
  intros I Hn H. unfold directory_put in H.
  destruct (strlen name =? 0); [discriminate |].
  destruct (strlen name >=? DIR_NAME_LENGTH); [discriminate |].
  destruct (dir_scan s di (entry_empty s) 0 (Z.to_nat (directory_max_entries s di))).
  - injection H as <-. reflexivity.
  - pose proof (grow_inode_rv s di (size (itab s di) + BLOCK_SIZE)) as Hrv.
    destruct (grow_inode s di (size (itab s di) + BLOCK_SIZE)) as [s1 rv] eqn:G.
    cbn [snd] in Hrv.
    destruct Hrv as [-> | ->]; [| discriminate].
    cbn [Z.ltb Z.compare] in H.
    assert (Hle : size (itab s di) <= size (itab s di) + BLOCK_SIZE)
      by (unfold BLOCK_SIZE; lia).
    destruct (grow_inode_inv s di _ s1 I Hn Hle G) as (_ & sl & Fg & Es1).
    destruct (directory_get_entry s1 di (directory_max_entries s di)); [| discriminate].
    injection H as <-. rewrite Es1. cbn [ibm write_entry with_img upd_inode with_itab].
    apply (gf_ibm _ _ _ Fg).
Qed.

(** What a [storage_mknod] that returns 0 has done, for a parent that is
    a directory without an entry of the new name, in a state where no
    free inode has the mode of a directory. *)
Lemma storage_mknod_core (s s' : fs) (path : cstr) (md P : Z) :
  inv s ->
  (forall j, 0 <= j < INODE_COUNT -> ibm s j = false ->
     Z.land (mode (itab s j)) S_IFDIR = 0) ->
  cstr_ok path ->
  tree_lookup_parent s path = P ->
  Z.land (mode (itab s P)) S_IFDIR <> 0 ->
  (forall y, In y (dir_entries s P) -> entry_matches s (get_basename path) y = false) ->
  storage_mknod s path md = (s', 0) ->
  exists new,
    0 < new < INODE_COUNT /\ new <> P /\ 0 <= P < INODE_COUNT
    /\ ibm s new = false /\ (forall j, 0 <= j < new -> ibm s j = true)
    /\ ibm s' new = true
    /\ mode (itab s' new) = md /\ refs (itab s' new) = 1
    /\ (size (itab s' new) = 0
        \/ (Z.land md S_IFDIR <> 0 /\ size (itab s' new) = BLOCK_SIZE))
    /\ get_basename path <> []
    /\ directory_lookup s' P (get_basename path) = new
    /\ mode (itab s' P) = mode (itab s P)
    /\ (forall j, j <> new -> j <> P -> itab s' j = itab s j)
    /\ (forall d c, cstr_ok c -> strlen c < DIRENT_SIZE -> 0 <= d < INODE_COUNT ->
          d <> new -> (d = P -> c <> get_basename path) ->
          mode (itab s' d) = mode (itab s d)
          /\ directory_lookup s' d c = directory_lookup s d c).
Proof.
  intros I Hfree Hok HP HPdir Hno H.
  unfold storage_mknod in H. rewrite HP in H.
  destruct (tree_lookup s path >=? 0); [discriminate |].
  destruct (Z.ltb_spec P 0) as [| HP0]; [discriminate |].
  destruct (get_inode P) as [parent |] eqn:G; [| discriminate].
  apply get_inode_some in G. destruct G as [-> Hp].
  destruct (alloc_inode_cases s)
    as [E | (new & s1 & E & Hnew & Hf & Hlow & Himg1 & Hbbm1 & Hibm1 & _ & _ & _ & Hrec & Hoth1)];
    rewrite E in H.
  { cbn in H. discriminate. }
  destruct (Z.ltb_spec new 0); [lia |].
  pose proof (alloc_inode_inv s s1 new I E) as I1.
  cbn zeta in H.
  set (s3 := upd_inode (upd_inode s1 new (set_mode md)) new (set_size 0)) in *.
  assert (I3 : inv s3).
  { unfold s3. apply inv_fields; try reflexivity.
    - rewrite itab_upd_inode_same, Hrec. reflexivity.
    - apply inv_fields; try reflexivity. exact I1. }
  assert (Hrec3 : itab s3 new
                  = mk_inode 1 md 0 0 0 (clock s) (clock s) (cur_uid s) (cur_gid s)).
  { unfold s3. rewrite !itab_upd_inode_same, Hrec. reflexivity. }
  assert (Hoth3 : forall j, j <> new -> itab s3 j = itab s j).
  { intros j Hj. unfold s3. rewrite !itab_upd_inode_other by assumption. now apply Hoth1. }
  assert (Himg3 : forall a, img s3 a = img s a).
  { intros a. unfold s3. cbn [img upd_inode with_itab]. now rewrite Himg1. }
  assert (Hibm3 : ibm s3 new = true).
  { unfold s3. cbn [ibm upd_inode with_itab]. rewrite Hibm1.
    unfold bitmap_put. apply upd_same. }
  set (s4 := if negb (Z.land md S_IFDIR =? 0)
             then fst (grow_inode s3 new BLOCK_SIZE) else s3) in *.
  assert (Hs3 : size (itab s3 new) = 0) by now rewrite Hrec3.
  destruct (grow_first_block_others s3 new I3 Hnew Hs3) as (Og & Hrefs & Hibmg & Hsz).
  assert (I4 : inv s4).
  { unfold s4. destruct (negb (Z.land md S_IFDIR =? 0)); [| exact I3].
    now apply grow_first_block_inv. }
  assert (O4 : others_same s3 s4 new).
  { unfold s4. destruct (negb (Z.land md S_IFDIR =? 0)); [exact Og |].
    constructor; auto. }
  assert (Hnode4 : mode (itab s4 new) = md /\ refs (itab s4 new) = 1
                   /\ (size (itab s4 new) = 0
                       \/ (Z.land md S_IFDIR <> 0 /\ size (itab s4 new) = BLOCK_SIZE))
                   /\ ibm s4 new = true).
  { unfold s4. destruct (Z.eqb_spec (Z.land md S_IFDIR) 0) as [Hz | Hnz]; cbn [negb].
    - rewrite Hrec3. cbn [mode refs size]. auto.
    - rewrite (os_mode _ _ _ Og), Hrefs, Hibmg, Hrec3. cbn [mode refs].
      refine (conj eq_refl (conj eq_refl (conj _ Hibm3))).
      destruct Hsz as [Hsz | Hsz]; [now left | right; now split]. }
  destruct Hnode4 as (Hmode4 & Hrefs4 & Hsize4 & Hibm4).
  pose proof (directory_put_rv s4 P (get_basename path) new) as Hrv.
  destruct (directory_put s4 P (get_basename path) new) as [s5 rv] eqn:Pt.
  cbn [snd] in Hrv.
  destruct Hrv as [-> | ->]; cbn [Z.ltb Z.compare] in H; [| discriminate].
  injection H as <-.
  (* the parent is in use, so it is not the new inode *)
  assert (HneP : new <> P).
  { intros ->. apply HPdir. now apply Hfree. }
  assert (Hnew0 : new <> 0).
  { intros ->. destruct (Z.eq_dec P 0) as [-> | HP1]; [contradiction |].
    apply (tree_lookup_parent_root s path P HP HP0 HP1). now apply Hfree. }
  destruct (directory_put_cases s4 P _ new s5 I4 Hp Pt) as (Hname & Hlen & I5 & _).
  pose proof (directory_put_others_same s4 P _ new s5 I4 Hp Pt) as O5.
  pose proof (directory_put_ibm s4 P _ new s5 I4 Hp Pt) as Hibm5.
  pose proof (cstr_ok_basename path Hok) as Hokb.
  assert (Hlen' : strlen (get_basename path) < DIRENT_SIZE).
  { unfold DIR_NAME_LENGTH, DIRENT_SIZE in *. lia. }
  assert (HP3 : itab s3 P = itab s P) by (apply Hoth3; congruence).
  assert (HP4 : itab s4 P = itab s3 P) by (apply (os_itab _ _ _ O4); congruence).
  assert (Hnew1 : 0 < new < INODE_COUNT) by lia.
  exists new.
  refine (conj Hnew1 (conj HneP (conj Hp (conj Hf (conj Hlow _))))).
  refine (conj _ (conj _ (conj _ (conj _ (conj Hname _))))).
  - now rewrite Hibm5.
  - now rewrite (os_itab _ _ _ O5 new HneP).
  - now rewrite (os_itab _ _ _ O5 new HneP).
  - now rewrite (os_itab _ _ _ O5 new HneP).
  - refine (conj _ (conj _ (conj _ _))).
    + apply (directory_put_lookup_core s4 P _ new s5 I4 Hp Hokb); try assumption.
      * unfold INODE_COUNT in Hnew. lia.
      * destruct (others_same_entries s3 s4 new P (get_basename path) I3 O4 Hp
                    ltac:(congruence) Hlen') as [Ee Em].
        rewrite Ee, (dir_entries_ext s s3 P HP3 Himg3).
        intros y Hy. rewrite Em by (now rewrite (dir_entries_ext s s3 P HP3 Himg3)).
        rewrite (entry_matches_ext s s3 _ y Himg3). now apply Hno.
    + now rewrite (os_mode _ _ _ O5), HP4, HP3.
    + intros j Hj1 Hj2.
      now rewrite (os_itab _ _ _ O5 j Hj2), (os_itab _ _ _ O4 j Hj1), Hoth3.
    + intros d c Hc Hcl Hd Hdn Hcn.
      assert (Hd3 : itab s3 d = itab s d) by now apply Hoth3.
      assert (Hd4 : itab s4 d = itab s3 d) by now apply (os_itab _ _ _ O4).
      assert (L3 : directory_lookup s3 d c = directory_lookup s d c)
        by now apply directory_lookup_ext.
      assert (L4 : directory_lookup s4 d c = directory_lookup s3 d c)
        by now apply (directory_lookup_frame s3 s4 new).
      destruct (Z.eq_dec d P) as [-> | HdP].
      * split; [now rewrite (os_mode _ _ _ O5), Hd4, Hd3 |].
        rewrite <- L3, <- L4.
        apply (directory_put_other_core s4 P (get_basename path) c new s5 I4 Hp Hokb Hc);
          try assumption.
        -- now apply Hcn.
        -- unfold INODE_COUNT in Hnew. lia.
      * split; [now rewrite (os_itab _ _ _ O5 d HdP), Hd4, Hd3 |].
        rewrite <- L3, <- L4.
        now apply (directory_lookup_frame s4 s5 P).
Qed.

Lemma storage_mknod_step (s s' : fs) (path : cstr) (P new : Z) :
  (forall j, 0 <= j < INODE_COUNT -> ibm s j = false ->
     Z.land (mode (itab s j)) S_IFDIR = 0) ->
  (forall y, In y (dir_entries s P) -> entry_matches s (get_basename path) y = false) ->
  0 <= new < INODE_COUNT -> ibm s new = false ->
  (forall d c, cstr_ok c -> strlen c < DIRENT_SIZE -> 0 <= d < INODE_COUNT ->
     d <> new -> (d = P -> c <> get_basename path) ->
     mode (itab s' d) = mode (itab s d)
     /\ directory_lookup s' d c = directory_lookup s d c) ->
  forall d c, cstr_ok c -> strlen c < DIRENT_SIZE -> 0 <= d < INODE_COUNT ->
    Z.land (mode (itab s d)) S_IFDIR <> 0 -> 0 <= directory_lookup s d c ->
    mode (itab s' d) = mode (itab s d)
    /\ directory_lookup s' d c = directory_lookup s d c.
Proof.
  intros Hfree Hno Hnew Hf Hall d c Hc Hcl Hd Hdir Hlk.
  apply Hall; try assumption.
  - intros ->. apply Hdir. now apply Hfree.
  - intros -> ->. rewrite (directory_lookup_no_match s P _ Hno) in Hlk. lia.
Qed.

(** ** [storage_mknod] *)



(** ** [storage_unlink] *)

(** A walk that arrives at an inode that is not a directory stops there
    or fails. *)
Lemma tree_walk_nondir (s : fs) (n : Z) (comps : list cstr) :
  Z.land (mode (itab s n)) S_IFDIR = 0 ->
  tree_walk s comps n = n \/ tree_walk s comps n = -1.
Proof.
  intros Hn. induction comps as [| data next IH]; cbn [tree_walk]; [now left |].
  destruct (strlen data =? 0); [exact IH |].
  destruct (get_inode n) as [d |] eqn:G; [| now right].
  apply get_inode_some in G. destruct G as [-> _].
  rewrite Hn. now right.
Qed.

(** A walk that succeeds in [s] and does not end at [n], which is not a
    directory, goes the same way in [s'] when the lookups that do not
    give [n] are the same. *)
Lemma tree_walk_agree_except (s s' : fs) (n : Z) (comps : list cstr) :
  Z.land (mode (itab s n)) S_IFDIR = 0 ->
  (forall d c, In c comps -> 0 <= d < INODE_COUNT ->
     Z.land (mode (itab s d)) S_IFDIR <> 0 -> 0 <= directory_lookup s d c ->
     directory_lookup s d c <> n ->
     mode (itab s' d) = mode (itab s d)
     /\ directory_lookup s' d c = directory_lookup s d c) ->
  forall cur, 0 <= tree_walk s comps cur -> tree_walk s comps cur <> n ->
    tree_walk s' comps cur = tree_walk s comps cur.
Proof.
  intros Hn.
  induction comps as [| data next IH]; intros Hstep cur Hw Hwn; cbn [tree_walk] in *;
    [reflexivity |].
  assert (Hnext : forall d c, In c next -> 0 <= d < INODE_COUNT ->
            Z.land (mode (itab s d)) S_IFDIR <> 0 -> 0 <= directory_lookup s d c ->
            directory_lookup s d c <> n ->
            mode (itab s' d) = mode (itab s d)
            /\ directory_lookup s' d c = directory_lookup s d c).
  { intros d c Hc. apply Hstep. now right. }
  destruct (strlen data =? 0); [now apply IH |].
  destruct (get_inode cur) as [d |] eqn:G; [| reflexivity].
  apply get_inode_some in G. destruct G as [-> Hcur].
  destruct (Z.eqb_spec (Z.land (mode (itab s cur)) S_IFDIR) 0) as [Hz | Hnz]; [lia |].
  destruct (Z.ltb_spec (directory_lookup s cur data) 0) as [Hlt | Hge]; [lia |].
  destruct (Z.eq_dec (directory_lookup s cur data) n) as [En | Hne].
  { rewrite En in Hw, Hwn. destruct (tree_walk_nondir s n next Hn); [contradiction | lia]. }
  destruct (Hstep cur data ltac:(now left) Hcur Hnz Hge Hne) as [Em El].
  rewrite Em, El.
  destruct (Z.eqb_spec (Z.land (mode (itab s cur)) S_IFDIR) 0); [contradiction |].
  destruct (Z.ltb_spec (directory_lookup s cur data) 0); [lia |].
  now apply IH.
Qed.

Lemma tree_lookup_agree_except (s s' : fs) (n : Z) (path : cstr) :
  Z.land (mode (itab s n)) S_IFDIR = 0 ->
  (forall d c, cstr_ok c -> strlen c < DIRENT_SIZE -> 0 <= d < INODE_COUNT ->
     Z.land (mode (itab s d)) S_IFDIR <> 0 -> 0 <= directory_lookup s d c ->
     directory_lookup s d c <> n ->
     mode (itab s' d) = mode (itab s d)
     /\ directory_lookup s' d c = directory_lookup s d c) ->
  cstr_ok path -> short_names (slist_explode (tl path) SLASH) ->
  0 <= tree_lookup s path -> tree_lookup s path <> n ->
  tree_lookup s' path = tree_lookup s path.
Proof.
  intros Hn Hstep Hok Hshort. unfold tree_lookup.
  destruct path as [| c0 tail]; [reflexivity |].
  destruct (negb (c0 =? SLASH)); [reflexivity |].
  destruct tail as [| c1 tail']; [reflexivity |].
  apply (tree_walk_agree_except s s' n _ Hn). intros d c Hc. apply Hstep.
  - intros Hin. apply Hok. right. apply (explode_in _ _ _ _ Hc Hin).
  - cbn [tl] in Hshort. unfold short_names in Hshort.
    rewrite Forall_forall in Hshort. now apply Hshort.
Qed.

Lemma tree_lookup_parent_agree_except (s s' : fs) (n : Z) (path : cstr) :
  Z.land (mode (itab s n)) S_IFDIR = 0 ->
  (forall d c, cstr_ok c -> strlen c < DIRENT_SIZE -> 0 <= d < INODE_COUNT ->
     Z.land (mode (itab s d)) S_IFDIR <> 0 -> 0 <= directory_lookup s d c ->
     directory_lookup s d c <> n ->
     mode (itab s' d) = mode (itab s d)
     /\ directory_lookup s' d c = directory_lookup s d c) ->
  cstr_ok path -> short_names (slist_explode (tl path) SLASH) ->
  0 <= tree_lookup_parent s path -> tree_lookup_parent s path <> n ->
  tree_lookup_parent s' path = tree_lookup_parent s path.
Proof.
  intros Hn Hstep Hok Hshort. destruct path as [| c tail]; [reflexivity |].
  destruct (Z.eqb_spec c SLASH) as [-> | Hc].
  2:{ unfold tree_lookup_parent.
      destruct (Z.eqb_spec c SLASH); [contradiction | reflexivity]. }
  destruct tail as [| c1 tail']; [reflexivity |].
  rewrite !tree_lookup_parent_slash by discriminate.
  set (tail := c1 :: tail') in *.
  destruct (strrchr tail SLASH) as [k |] eqn:E; [| reflexivity].
  destruct (strrchr_some _ _ _ E) as [Et Hns].
  apply (tree_lookup_agree_except s s' n _ Hn Hstep).
  - intros [H | H]; [apply Hok; now left |].
    apply Hok. right. rewrite <- (firstn_skipn k tail). apply in_or_app. now left.
  - cbn [tl] in *. rewrite Et, slist_explode_app in Hshort.
    unfold short_names in *. apply Forall_app in Hshort. tauto.
Qed.

Lemma short_basename (path : cstr) :
  short_names (slist_explode (tl path) SLASH) ->
  hd 0 path = SLASH -> strlen (get_basename path) < DIRENT_SIZE.
Proof.
  intros Hshort Hhd. destruct path as [| c tail]; [cbn; unfold DIRENT_SIZE; lia |].
  cbn [hd] in Hhd. subst c. cbn [tl] in Hshort.
  rewrite get_basename_slash.
  unfold short_names in Hshort. rewrite Forall_forall in Hshort.
  destruct (strrchr tail SLASH) as [k |] eqn:E.
  - destruct (strrchr_some _ _ _ E) as [Et Hns].
    pose proof (slist_explode_app (firstn k tail) (skipn (S k) tail) SLASH) as Ex.
    rewrite <- Et in Ex. rewrite (slist_explode_no_delim _ _ Hns) in Ex.
    apply Hshort. rewrite Ex. apply in_or_app. right. now left.
  - apply strrchr_none in E. apply Hshort.
    rewrite (slist_explode_no_delim _ _ E). now left.
Qed.

Lemma directory_delete_found (s : fs) (di : Z) (name : cstr) :
  0 <= directory_lookup s di name ->
  exists s1, directory_delete s di name = (s1, 0).
Proof.
  unfold directory_lookup, directory_delete.
  destruct (strlen name =? 0); [lia |].
  destruct (dir_scan s di (entry_matches s name) 0 (Z.to_nat (directory_max_entries s di)));
    [intros _; eexists; reflexivity | lia].
Qed.

Lemma directory_delete_others_same (s : fs) (di : Z) (name : cstr) (s' : fs) :
  inv s -> 0 <= di < INODE_COUNT ->
  directory_delete s di name = (s', 0) -> others_same s s' di.
Proof.
  intros I Hn H.
  destruct (directory_delete_cases s di name s' I Hn H)
    as (_ & e & pre & post & Ed & _ & _ & -> & _ & _).
  assert (Hin : In e (dir_entries s di)).
  { rewrite Ed. apply in_or_app. right. now left. }
  destruct (dir_entries_index s di e Hin) as (index & He & Hi).
  apply (entry_write_others_same s _ di index e I Hn He); [lia |].
  apply delete_entry_frame.
Qed.

(** What [storage_unlink] does to the lookups, for a path that resolves
    to an inode [n] that is not a directory and whose last name the
    parent holds once. *)
Lemma storage_unlink_core (s : fs) (path : cstr) (n P : Z) :
  inv s -> cstr_ok path -> short_names (slist_explode (tl path) SLASH) ->
  tree_lookup s path = n -> 0 <= n < INODE_COUNT ->
  Z.land (mode (itab s n)) S_IFDIR = 0 ->
  get_basename path <> [] ->
  tree_lookup_parent s path = P ->
  (forall y1 y2, In y1 (dir_entries s P) -> In y2 (dir_entries s P) ->
     entry_matches s (get_basename path) y1 = true ->
     entry_matches s (get_basename path) y2 = true -> y1 = y2) ->
  exists s',
    storage_unlink s path = Some (s', 0)
    /\ 0 <= P < INODE_COUNT /\ P <> n
    /\ Z.land (mode (itab s P)) S_IFDIR <> 0
    /\ directory_lookup s P (get_basename path) = n
    /\ directory_lookup s' P (get_basename path) = -1
    /\ (forall j, j <> n -> itab s' j = itab s j)
    /\ (forall d c, cstr_ok c -> strlen c < DIRENT_SIZE -> 0 <= d < INODE_COUNT ->
          d <> n -> (d = P -> c <> get_basename path) ->
          directory_lookup s' d c = directory_lookup s d c).
Proof.
  intros I Hok Hshort Hl Hn Hmode Hb HP Huniq.
  pose proof (tree_lookup_by_parent_core s path Hb) as Hby.
  rewrite Hl, HP in Hby.
  destruct (Z.ltb_spec P 0) as [| HP0]; [lia |].
  destruct (get_inode P) as [parent |] eqn:G; [| lia].
  apply get_inode_some in G. destruct G as [-> Hp].
  destruct (Z.eqb_spec (Z.land (mode (itab s P)) S_IFDIR) 0) as [| HPdir]; [lia |].
  destruct (Z.ltb_spec (directory_lookup s P (get_basename path)) 0) as [| Hge]; [lia |].
  assert (HneP : P <> n) by (intros ->; contradiction).
  assert (Hhd : hd 0 path = SLASH).
  { destruct path as [| c tail]; [cbn in Hl; lia |]. cbn [hd].
    destruct (Z.eqb_spec c SLASH); [assumption |].
    unfold tree_lookup in Hl. destruct (Z.eqb_spec c SLASH); [contradiction |].
    cbn in Hl. lia. }
  pose proof (short_basename path Hshort Hhd) as Hlen.
  pose proof (cstr_ok_basename path Hok) as Hokb.
  destruct (directory_delete_found s P _ Hge) as [s1 D].
  pose proof (directory_delete_others_same s P _ s1 I Hp D) as O1.
  destruct (directory_delete_lookup_core s P _ s1 I Hp Hokb D) as [Dother Dname].
  pose proof (Dname Huniq Hlen) as Dn.
  assert (Hit1 : itab s1 = itab s).
  { destruct (directory_delete_cases s P _ s1 I Hp D)
      as (_ & e & pre & post & _ & _ & _ & -> & _ & _). reflexivity. }
  set (s2 := upd_inode s1 n (set_refs (refs (itab s1 n) - 1))).
  set (s3 := if refs (itab s2 n) <=? 0 then free_inode s2 n else s2).
  assert (Himg3 : forall a, img s3 a = img s1 a).
  { intros a. unfold s3. destruct (refs (itab s2 n) <=? 0); [| reflexivity].
    destruct (free_inode_frame s2 n Hn) as (F1 & _ & _). now rewrite F1. }
  assert (Hit3 : forall j, j <> n -> itab s3 j = itab s j).
  { intros j Hj. rewrite <- Hit1. unfold s3.
    destruct (refs (itab s2 n) <=? 0).
    - destruct (free_inode_frame s2 n Hn) as (_ & _ & F3). rewrite F3.
      rewrite upd_other by assumption. unfold s2. now apply itab_upd_inode_other.
    - unfold s2. now apply itab_upd_inode_other. }
  exists s3.
  refine (conj _ (conj Hp (conj HneP (conj HPdir (conj (eq_sym Hby) (conj _ (conj Hit3 _))))))).
  - unfold storage_unlink. rewrite Hl, HP.
    destruct (Z.ltb_spec n 0); [lia |].
    destruct (Z.ltb_spec P 0); [lia |].
    rewrite (get_inode_in_range P Hp), D. cbn [Z.ltb Z.compare].
    rewrite (get_inode_in_range n Hn). reflexivity.
  - rewrite (directory_lookup_ext s1 s3 P _ ltac:(rewrite Hit3, Hit1; auto) Himg3).
    exact Dn.
  - intros d c Hc Hcl Hd Hdn Hcn.
    rewrite (directory_lookup_ext s1 s3 d c ltac:(rewrite Hit3, Hit1; auto) Himg3).
    destruct (Z.eq_dec d P) as [-> | HdP].
    + apply Dother; auto.
    + now apply (directory_lookup_frame s s1 P).
Qed.


(** ** [storage_link] *)


(** ** [storage_truncate] *)

Lemma file_addr_in_block (s : fs) (node pos : Z) :
  0 <= pos ->
  blocks_get_block (inode_get_bnum s node (pos / BLOCK_SIZE)) <= file_addr s node pos
    < blocks_get_block (inode_get_bnum s node (pos / BLOCK_SIZE)) + BLOCK_SIZE.
Proof.
  intros Hp. unfold file_addr.
  pose proof (Z.mod_pos_bound pos BLOCK_SIZE ltac:(unfold BLOCK_SIZE; lia)). lia.
Qed.


(** ** [storage_init] *)

Lemma grow_first_block_fail (s : fs) (node : Z) (s' : fs) :
  size (itab s node) = 0 -> grow_inode s node BLOCK_SIZE = (s', -1) -> s' = s.
Proof.
  intros Hs E. unfold grow_inode in E. rewrite Hs in E.
  change (if 0 =? 0 then 0 else bytes_to_blocks 0) with 0 in E.
  change (if BLOCK_SIZE =? 0 then 0 else bytes_to_blocks BLOCK_SIZE) with 1 in E.
  change (Z.to_nat (1 - 0)) with 1%nat in E. cbn [grow_loop] in E.
  destruct (grow_step s node 0) as [s2 | s2] eqn:G.
  - discriminate.
  - apply grow_step_inr_first in G. subst s2. now injection E as <-.
Qed.


(** ** [storage_rename] *)

(** After [directory_put] of a name, an entry that matches another name
    is an entry that was there and matched it. *)
Lemma directory_put_match_old (s : fs) (di : Z) (name name' : cstr) (inum : Z) (s' : fs) :
  inv s -> 0 <= di < INODE_COUNT -> cstr_ok name -> cstr_ok name' ->
  name' <> name -> strlen name' < DIRENT_SIZE ->
  -2147483648 <= inum < 2147483648 -> inum <> 0 ->
  directory_put s di name inum = (s', 0) ->
  forall y, In y (dir_entries s' di) -> entry_matches s' name' y = true ->
    In y (dir_entries s di) /\ entry_matches s name' y = true.
Proof.
  intros I Hn Hok Hok' Hdiff Hlen' Hr Hnz H y Hy Hm.
  destruct (directory_put_cases s di name inum s' I Hn H)
    as (Hne & Hlen & I' & s1 & e & pre & post & Es & El & Hpre & Hsame & Hcase).
  assert (Hnew : entry_matches s' name' e = false).
  { destruct (entry_matches s' name' e) eqn:E; [| reflexivity].
    rewrite Es in E. apply write_entry_matches in E; try assumption. contradiction. }
  assert (He : In e (dir_entries s' di)).
  { rewrite El. apply in_or_app. right. now left. }
  assert (Hye : y <> e) by (intros ->; congruence).
  assert (Hother : forall a, y <= a < y + DIRENT_SIZE -> img s' a = img s1 a).
  { now apply (write_entry_elsewhere s1 s' di e y name inum). }
  destruct Hcase as [(-> & Els & Hemp) | (Els & Hpd & Hzero)].
  - split; [now rewrite Els, <- El |].
    destruct (entry_same_bytes s s' name' y Hother Hlen') as (_ & E & _). congruence.
  - rewrite El in Hy. apply in_app_or in Hy. destruct Hy as [Hy | Hy].
    + split; [now rewrite Els |].
      assert (Hb : forall a, y <= a < y + DIRENT_SIZE -> img s' a = img s a).
      { intros a Ha. rewrite (Hother a Ha). apply (Hsame y a); [now rewrite Els | exact Ha]. }
      destruct (entry_same_bytes s s' name' y Hb Hlen') as (_ & E & _). congruence.
    + exfalso.
      assert (Hz : forall a, y <= a < y + DIRENT_SIZE -> img s' a = 0).
      { intros a Ha. rewrite (Hother a Ha). now apply (Hzero y a). }
      destruct (zero_entry s' name' y Hz) as (_ & E & _). congruence.
Qed.


(** ** Operations that run out of blocks *)

Lemma grow_loop_inr_split (node : Z) (n : nat) :
  forall s c s',
    grow_loop s node c n = inr s' ->
    exists k sk, grow_loop s node c k = inl sk
                 /\ grow_step sk node (c + Z.of_nat k) = inr s'.
Proof.
  induction n as [| n IH]; intros s c s' H; cbn [grow_loop] in H; [discriminate |].
  destruct (grow_step s node c) as [s1 | s1] eqn:G.
  - destruct (IH s1 (c + 1) s' H) as (k & sk & Lk & Gk).
    exists (S k), sk. split.
    + cbn [grow_loop]. now rewrite G.
    + rewrite <- Gk. f_equal. lia.
  - injection H as <-. exists O, s. split; [reflexivity |].
    rewrite <- G. f_equal. cbn. lia.
Qed.

(** What a [grow_inode] that returns -1 leaves: the other records, the
    fields of the inode other than its two pointers, the bytes of the
    blocks that were in use (the indirect block of the inode apart), and
    the block numbers of the blocks the inode had. *)
Lemma failed_grow_state (s : fs) (node sz : Z) (s' : fs) :
  inv s -> 0 <= node < INODE_COUNT ->
  grow_inode s node sz = (s', -1) ->
  (forall j, j <> node -> itab s' j = itab s j)
  /\ itab s' node
     = set_block (block (itab s' node))
         (set_indirect (indirect (itab s' node)) (itab s node))
  /\ (forall x a, bbm s x = true -> x <> indirect (itab s node) ->
        blocks_get_block x <= a < blocks_get_block x + BLOCK_SIZE ->
        img s' a = img s a)
  /\ (forall r, 0 <= r < cnt_of s node ->
        inode_get_bnum s' node r = inode_get_bnum s node r).
Proof.
  intros I Hn H. unfold grow_inode in H.
  fold (blocks_of (size (itab s node))) in H. fold (cnt_of s node) in H.
  destruct (grow_loop s node (cnt_of s node) _) as [s1 | s1] eqn:L; [discriminate |].
  injection H as <-.
  destruct (grow_loop_inr_split node _ s (cnt_of s node) s1 L) as (k & sk & Lk & Gk).
  destruct (grow_loop_inv k s (cnt_of s) node sk (proj2 I) Hn Lk) as [Ik Fk].
  destruct (grow_loop_slots k s (cnt_of s) node sk (proj2 I) Hn Lk) as [Sk _].
  destruct (grow_step_inr sk node _ s1 Gk)
    as [[-> _] | (Hii & Hind & b & Hb & Hfree & _ & ->)].
  - refine (conj (gf_itab _ _ _ Fk) (conj (gf_node _ _ _ Fk) (conj _ Sk))).
    intros x a. apply (gf_img _ _ _ Fk).
  - set (s2 := zero_block (alloc_at sk b) b).
    refine (conj _ (conj _ (conj _ _))).
    + intros j Hj. unfold free_block. cbn [itab with_bbm].
      rewrite itab_upd_inode_other by assumption. apply (gf_itab _ _ _ Fk j Hj).
    + unfold free_block. cbn [itab with_bbm]. rewrite itab_upd_inode_same.
      change (itab s2 node) with (itab sk node).
      rewrite (gf_node _ _ _ Fk). reflexivity.
    + intros x a Hx Hxi Ha.
      assert (Hxb : x <> b).
      { intros ->. pose proof (gf_bbm _ _ _ Fk b Hx). congruence. }
      unfold free_block. cbn [img with_bbm upd_inode with_itab]. unfold s2.
      rewrite (img_zero_block_other _ b x a Hxb Ha).
      rewrite (img_alloc_at_other _ b x a Hxb Ha).
      now apply (gf_img _ _ _ Fk x a).
    + intros r Hr. destruct (Z.eq_dec r 0) as [-> | Hr0].
      * transitivity (inode_get_bnum sk node 0); [| now apply Sk].
        unfold inode_get_bnum. cbn [Z.ltb Z.eqb Z.compare].
        unfold free_block. cbn [itab with_bbm]. rewrite itab_upd_inode_same.
        reflexivity.
      * exfalso.
        assert (Hc : 2 <= upd (cnt_of s) node (cnt_of s node + Z.of_nat k) node).
        { rewrite upd_same. lia. }
        destruct (ig_ref _ _ _ Ik node (-1) Hn) as [Hx _].
        { left. split; [reflexivity |]. unfold has_ind. now apply Z.leb_le. }
        rewrite ref_ind in Hx. lia.
Qed.

Lemma failed_grow_others_same (s : fs) (node sz : Z) (s' : fs) :
  inv s -> 0 <= node < INODE_COUNT ->
  grow_inode s node sz = (s', -1) -> others_same s s' node.
Proof.
  intros I Hn H.
  destruct (failed_grow_state s node sz s' I Hn H) as (Hit & Hnode & Himg & _).
  constructor.
  - exact Hit.
  - rewrite Hnode. reflexivity.
  - intros j r a Hj Hne Hs Ha.
    destruct (ig_ref _ _ _ (proj2 I) j r Hj Hs) as [Hx Hm].
    apply (Himg (ref s j r) a Hm); [| exact Ha].
    intros E.
    pose proof (ig_uniq _ _ _ (proj2 I) j r node (-1) Hj Hn Hs) as Hu.
    destruct (ig_zero _ _ _ (proj2 I) node Hn) as (_ & Z2 & _).
    destruct (has_ind (cnt_of s) node).
    + destruct Hu as [Hjn _]; [left; now split | now rewrite ref_ind | contradiction].
    + rewrite (Z2 eq_refl) in E. lia.
Qed.

(** A read sees the size of the file and the blocks that the size calls
    for. *)
Lemma storage_read_slots (s s' : fs) (path : cstr) (n m off : Z) :
  tree_lookup s path = n -> tree_lookup s' path = n -> 0 <= n < INODE_COUNT ->
  size (itab s' n) = size (itab s n) -> size (itab s n) < 2147483648 ->
  (forall k, 0 <= k < cnt_of s n ->
     inode_get_bnum s' n k = inode_get_bnum s n k
     /\ forall a,
          blocks_get_block (inode_get_bnum s n k) <= a
            < blocks_get_block (inode_get_bnum s n k) + BLOCK_SIZE ->
          img s' a = img s a) ->
  0 <= off -> 0 <= m ->
  snd (fst (storage_read s' path m off)) = snd (fst (storage_read s path m off))
  /\ snd (storage_read s' path m off) = snd (storage_read s path m off).
Proof.
  intros Hl Hl' Hn Hsz Hmax Hslots Hoff Hm.
  unfold storage_read. rewrite Hl', Hl.
  destruct (Z.ltb_spec n 0); [lia |].
  rewrite (get_inode_in_range n Hn). rewrite Hsz.
  destruct (Z.geb_spec off (size (itab s n))); [split; reflexivity |].
  set (sz := if off + m >? size (itab s n) then size (itab s n) - off else m).
  assert (Hle : off + sz <= size (itab s n)).
  { unfold sz. destruct (Z.gtb_spec (off + m) (size (itab s n))); lia. }
  rewrite (read_loop_same s s' n off sz (Z.to_nat sz) Hslots); try lia.
  destruct (read_loop s n off sz 0 [] (Z.to_nat sz)). split; reflexivity.
Qed.


(** * Sample runs *)

Lemma inv_fs_hello : inv fs_hello.
Proof.
  apply (run_all_inv
           [Mknod (cstr_of_string "/a") FILE_MODE;
            Write (cstr_of_string "/a") (cstr_of_string "hello") 5 0]
           fresh_fs fs_hello inv_fresh_fs).
  - repeat constructor; cbn; lia.
  - vm_compute; reflexivity.
Qed.




Lemma inv_fs_two_files : inv fs_two_files.
Proof.
  apply (run_all_inv
           [Mknod (cstr_of_string "/b") FILE_MODE;
            Write (cstr_of_string "/b") (cstr_of_string "world") 5 0]
           fs_hello fs_two_files inv_fs_hello).
  - repeat constructor; cbn; lia.
  - vm_compute; reflexivity.
Qed.




Lemma directory_list_spec_witness :
  directory_list fs_two_files (cstr_of_string "/") =
  if Z.land (mode (itab fs_two_files 0)) S_IFDIR =? 0 then []
  else rev (map (fun e => load_cstr (img fs_two_files) e (Z.to_nat DIR_NAME_LENGTH))
              (filter (fun e => negb (entry_empty fs_two_files e))
                 (dir_entries fs_two_files 0))).
Proof.
  apply (directory_list_spec fs_two_files (cstr_of_string "/") 0).
  - vm_compute; reflexivity.
  - unfold INODE_COUNT; lia.
Defined.

Lemma nufs_rmdir_directory_witness :
  ((exists e, In e (dir_entries fs_with_dir 1) /\ entry_empty fs_with_dir e = false) ->
   nufs_rmdir fs_with_dir (cstr_of_string "/d") = Some (fs_with_dir, - ENOTEMPTY))
  /\ ((forall e, In e (dir_entries fs_with_dir 1) -> entry_empty fs_with_dir e = true) ->
      nufs_rmdir fs_with_dir (cstr_of_string "/d")
      = storage_unlink fs_with_dir (cstr_of_string "/d")).
Proof.
  apply (nufs_rmdir_directory fs_with_dir (cstr_of_string "/d") 1).
  - vm_compute; reflexivity.
  - unfold INODE_COUNT; lia.
  - vm_compute; discriminate.
Defined.

Lemma tree_lookup_by_parent_witness :
  tree_lookup fs_hello (cstr_of_string "/a") =
  if tree_lookup_parent fs_hello (cstr_of_string "/a") <? 0 then -1
  else
    match get_inode (tree_lookup_parent fs_hello (cstr_of_string "/a")) with
    | None => -1
    | Some d =>
        if Z.land (mode (itab fs_hello d)) S_IFDIR =? 0 then -1
        else if directory_lookup fs_hello d (get_basename (cstr_of_string "/a")) <? 0
             then -1
             else directory_lookup fs_hello d (get_basename (cstr_of_string "/a"))
    end.
Proof.
  apply (tree_lookup_by_parent fs_hello (cstr_of_string "/a")).
  vm_compute; discriminate.
Defined.

Lemma missing_path_enoent_witness :
  fst (storage_stat fs_hello (cstr_of_string "/nope")) = - ENOENT
  /\ snd (storage_stat fs_hello (cstr_of_string "/nope")) = None
  /\ (forall n offset,
        storage_read fs_hello (cstr_of_string "/nope") n offset = (fs_hello, - ENOENT, []))
  /\ (forall buf n offset,
        storage_write fs_hello (cstr_of_string "/nope") buf n offset = (fs_hello, - ENOENT))
  /\ (forall sz, storage_truncate fs_hello (cstr_of_string "/nope") sz = (fs_hello, - ENOENT))
  /\ storage_unlink fs_hello (cstr_of_string "/nope") = Some (fs_hello, - ENOENT)
  /\ (forall to, storage_link fs_hello (cstr_of_string "/nope") to = Some (fs_hello, - ENOENT))
  /\ (forall to,
        storage_rename fs_hello (cstr_of_string "/nope") to = Some (fs_hello, - ENOENT))
  /\ (forall ts0 ts1,
        storage_set_time fs_hello (cstr_of_string "/nope") ts0 ts1 = (fs_hello, - ENOENT))
  /\ (forall md, storage_chmod fs_hello (cstr_of_string "/nope") md = (fs_hello, - ENOENT))
  /\ storage_list fs_hello (cstr_of_string "/nope") = []
  /\ nufs_rmdir fs_hello (cstr_of_string "/nope") = Some (fs_hello, - ENOENT).
Proof.
  apply (missing_path_enoent fs_hello (cstr_of_string "/nope")).
  vm_compute; reflexivity.
Defined.




Lemma below_forall (f : Z -> bool) (n : nat) :
  forallb f (map Z.of_nat (seq 0 n)) = true ->
  forall j, 0 <= j < Z.of_nat n -> f j = true.
Proof.
  intros H j Hj. rewrite forallb_forall in H. apply H.
  apply in_map_iff. exists (Z.to_nat j). split; [lia |].
  apply in_seq. lia.
Qed.

Lemma unique_by_filter {A : Type} (f : A -> bool) (l : list A) :
  Nat.leb (length (filter f l)) 1 = true ->
  forall y1 y2, In y1 l -> In y2 l -> f y1 = true -> f y2 = true -> y1 = y2.
Proof.
  intros H y1 y2 H1 H2 F1 F2.
  assert (I1 : In y1 (filter f l)) by (apply filter_In; now split).
  assert (I2 : In y2 (filter f l)) by (apply filter_In; now split).
  destruct (filter f l) as [| x [| x' r]]; cbn in H, I1, I2.
  - destruct I1.
  - destruct I1 as [<- | []]. destruct I2 as [<- | []]. reflexivity.
  - discriminate.
Qed.

Lemma run_some (o : option (fs * Z)) (d : fs) :
  match o with Some (_, r) => r =? 0 | None => false end = true ->
  o = Some (run o d, 0).
Proof.
  destruct o as [[s r] |]; cbn [run]; intros H; [| discriminate].
  apply Z.eqb_eq in H. now subst r.
Qed.

Lemma free_not_dir_check (s : fs) :
  forallb (fun j => ibm s j || (Z.land (mode (itab s j)) S_IFDIR =? 0))
    (map Z.of_nat (seq 0 128)) = true ->
  forall j, 0 <= j < INODE_COUNT -> ibm s j = false ->
    Z.land (mode (itab s j)) S_IFDIR = 0.
Proof.
  intros C j Hj Hf.
  apply (below_forall _ 128 C j) in Hj.
  apply orb_true_iff in Hj. destruct Hj as [Hj | Hj]; [congruence |].
  now apply Z.eqb_eq.
Qed.

Lemma no_match_check (s : fs) (di : Z) (name : cstr) :
  forallb (fun y => negb (entry_matches s name y)) (dir_entries s di) = true ->
  forall y, In y (dir_entries s di) -> entry_matches s name y = false.
Proof.
  intros H y Hy. rewrite forallb_forall in H. apply negb_true_iff. now apply H.
Qed.








